(* ===== verification/_CoqProject ===== *)
-Q . S2P
Prelude.v
Codec.v
GoFile.v
Tm.v
LockTable.v
DmI.v
Logger.v
Cacher.v
Page.v
Pcacher.v
WalLog.v
Recovery.v
Restore.v
DataMgr.v
DataRep.v
DmOpen.v
Node.v
Tree.v
TreeRep.v
Sm.v
Parser.v
Transporter.v
Field.v
Table.v
TableData.v
TableRep.v
TableOps.v
Booter.v
TableMgr.v
Catalog.v
TableDel.v
TableUpd.v
TableDrop.v
TableFacts.v
Executor.v
Session.v
Client.v
Shell.v
Output.v
Launcher.v
Database.v
