(* ===== verification/Prelude.v ===== *)
(** * WisDB: a verification development

    WisDB is a small relational database server written in Go.  A client sends
    the text of SQL-like statements over TCP; the server parses them and runs
    them on tables whose rows are versioned items of a data file, with B+ trees
    as indexes, a write-ahead log, and two levels of isolation.  This library
    models the server from the bytes of its files to the bytes on its
    connections, and the client with its shell, and proves what the parts
    promise to each other.  Sources are named relative to [src/src/main/].

    ** The program and its model

    From the disk upwards; a file requires those it builds on.

    - [Prelude] (this file): outcomes ([Ret], [Err], [Panic], [OutOfFuel]), the
      state monad [M], Go's slices and integers of fixed width, notations,
      tactics and lemmas that all files share.
    - [Codec]: [backend/utils/int_encoding.go], [types.go], [str_encoding.go].
    - [GoFile]: the part of [os.File] that the storage packages use, with faults.
    - [Tm]: [backend/tm]: the states of transactions in the [.xid] file.
    - [LockTable]: [backend/sm/locktable]: row locks, queues, deadlocks.
    - [DmI]: the interface [dm.DataManager] with its contract [DataManagerOk],
      and a data manager in memory, on which clients are evaluated.
    - [Logger]: [backend/dm/logger]: the log file and its checksums.
    - [Cacher]: [backend/utils/cacher]: the reference-counted cache.
    - [Page]: [backend/dm/types.go], [pageX.go], [page1.go],
      [pindex/pindex.go]; [Pcacher]: [backend/dm/pcacher]: the page cache.
    - [WalLog], [Recovery], [Restore]: [backend/dm/recovery.go] and the bytes of
      [data_item.go]: log records, redo and undo, and what they achieve.
    - [DataMgr], [DataRep], [DmOpen]: [backend/dm/data_manager.go],
      [data_item.go]: the data manager, its contract, closing and opening.
    - [Node], [Tree], [TreeRep]: [backend/im]: the B+ tree, over [DmI].
    - [Sm]: [backend/sm]: entries, transactions, visibility, and the
      serializability manager, over the interfaces of [Tm] and [DmI].
    - [Parser]: [backend/parser]: tokener, statements, parser.
    - [Transporter]: [transporter]: frames, protocols, packager.
    - [Field], [Table], [TableMgr]: [backend/tbm]: fields, tables, the manager;
      [Booter]: [backend/utils/booter]: the file of the first table.
      [TableData], [TableRep], [TableOps], [Catalog], [TableDel], [TableUpd],
      [TableDrop], [TableFacts] hold what is proved about them.
    - [Executor], [Session]: [backend/server]: executor and connections, over
      the interface [TableManager].
    - [Client], [Shell]: [client/client]; [Launcher]: [backend/cmd/launcher.go],
      [client/launcher.go] and the life of the listener of [server.go].
    - [Output]: [backend/utils/color.go], [text.go]: colours, messages by level,
      and how a fatal error ends the process.
    - [Database]: [createDB] and [openDB] of [launcher.go], which put all of the
      server's parts together, and what outlives the process.

    A Go struct is a Record with the names of its fields, a method a definition
    with the name of the method (where two types share a method name, the type
    comes first: [sm_Insert], [tbm_Insert], [table_Insert]).  Interfaces of the
    program are classes ([TransactionManager], [DataManager], [Booter],
    [TableManager], [Transporter], [Protocoler], [Packager], [ShellClient]);
    classes with [Ok] at the end state their contracts, and instances discharge
    them: the theorems about tables hold for every data manager that keeps
    [DataManagerOk], and [DataRep] proves that of the one in [backend/dm].

    Pointers that are shared (pages, data items, resources of the cache, lock
    channels, transactions) are indexes into heaps; the rest is passed by value
    where nothing else holds it.

    ** What is proved

    - Storage: the [.xid] file refines a table of states, also across restarts;
      the log survives closing and opening; the data manager is a map of items,
      writes ahead, and opening it after a crash at any moment restores exactly
      what finished transactions left ([DmOpen.Open_after_crash]); the boot file
      changes as a whole or not at all.
    - Concurrency: the cache and the lock table keep their invariants under
      every interleaving; the deadlock search ends and is right; transactions
      follow their life cycle; what visibility means, row by row; repeatable reads
      are stable, but for a deletion that another transaction takes over.
    - Indexes: the tree is a sorted map from keys to rows ([tree_is_sorted_map]).
    - Tables: rows keep their types; creating, reopening, inserting, reading,
      deleting, updating and dropping do to the catalog of tables and rows what
      they say, with the indexes kept in step ([Catalog], [TableDel], [TableUpd],
      [TableDrop]).  For the statements that choose rows this holds under
      conditions that are [where_supported], for which an index and a scan select
      the same rows; [TableFacts.index_changes_answers] says what an index makes
      of the others.  A [catalog] has distinct keys in every index, dead rows
      included, because the tree loses entries with equal keys.  Aggregates,
      [limit] and [offset].
    - The whole: a database that was created can be opened; closing it, or a crash
      when only finished transactions have written, and opening it again gives
      the same items, tables and states of transactions, whatever the rows and
      indexes are, and a [catalog] when it was one; when the record of a table was
      written by a transaction that did not commit, it gives a panic ([Database]).
      For this the contract of the data manager names the transactions that may
      write ([dm_writer]): a theorem about statements holds for any such set,
      and the set is chosen when the crash is known.
    - Language and network: printing and parsing round trips, parsing ends but for
      an index list that is not closed, frames round trip, input of any kind is
      safe below 4 GiB.
    - Server and client: transactions are bracketed whatever a client sends, and
      those that are left open are the ones whose implicit commit failed; a
      program that uses the client sees exactly the results of the executor
      ([Client.client_server]); the shell's line editor is a reference editor
      with the screen to match, as long as the client comes back ([client_ok]).
    - Where the code does not do what it means to, theorems say what happens
      instead: locks that are handed over leak, a second deletion at read
      committed, a commit whose failure is not reported, rows taken back by a
      recovery that block their table, a [drop] that aborts and leaves tables
      that cannot be loaded, conditions on two fields that are read as conditions
      on one.

    ** Fuel and bounds

    Recursion over the tree takes the number of nodes it may visit; the theorems
    ask for [2 * entries + 3] to search and [+ 5] to insert, which is enough
    because a leaf is at least half full and the tree has two levels.  The
    parser's fuel is the length of the statement ([Parse_total] shows that it
    never runs out but for an index list that is not closed); the loop of the
    server takes one unit for a request; [await] of the client two for an
    answer.  Loops without such a bound in the code ([removeFromList] on a
    queue, the unclosed index list) are shown to use up any fuel.

    ** Not modelled, and why

    - Reading files never fails but at their end; slices have no spare capacity,
      so that [append] never shares an array by accident where the code copies.
    - The order in which Go visits maps, [sort.Slice], random bytes, the faults
      of the disk and the choices of [select] are arguments.
    - Methods under a mutex are one step; where a method gives the mutex up, its
      pieces are separate steps.  [Before] and [After] of a data item, which hold
      its lock, are one piece; the locks of the tree's nodes are left out, since
      each operation of the tree runs alone here.  Connections share a table
      manager statement by statement; how transactions interleave inside of
      statements is in [Sm] and [LockTable].
    - [fmt.Errorf] with [%w] is the error it wraps; texts of errors appear where
      a peer can see them.  The state that comes with [Panic] is what memory was,
      not what the disk has: for that there are the crash theorems.
    - [utils.Fatal] and a failed [utils.Assert] are [Panic] in every other file,
      as they are at the level the programs run with ([Output.Assert_ends]), and
      messages of [utils.Info] are only modelled in [Output].  Flags and help
      texts are data for the library of the command line
      ([backend/cmd/template.go]).  [openDB] goes on with a nil manager when [tm.Open] fails; [Database]
      begins behind that call.  Tests are not modelled. *)
From stdpp Require Export base gmap list strings numbers fin_maps.
From coqutil Require Export Byte.
From Stdlib Require Export ZArith Lia Strings.Byte.
From Stdlib Require Strings.String.
#[export] Set Default Goal Selector "!".

Declare Scope go_scope.
Delimit Scope go_scope with go.

(** * Errors *)

(** The sentinel errors of the packages, and those the standard library hands
    to them.  [ErrMsg] stands for a formatted error built with [fmt.Errorf] or
    [errors.New] at the point of failure. *)
Inductive goerror :=
| ErrEOF | ErrUnexpectedEOF | ErrIO | ErrNegativeOffset | ErrClosed | ErrInvalidArgument
| ErrSyntax | ErrRange
| ErrBadXIDFile
| ErrBadLogFile
| ErrMemTooSmall | ErrCacheFull
| ErrBusy | ErrDataTooLarge
| ErrNilEntry | ErrCannotSR
| ErrInvalidStat
| ErrInvalidPkgData | ErrWireBadMagic | ErrWireBadVersion | ErrWireBadType
| ErrNoNestedTransaction | ErrNotInAnyTransaction
| ErrInvalidValues | ErrInvalidLogOP | ErrNoThatField | ErrInvalidFieldType
| ErrDuplicatedTable | ErrNoThatTable
| ErrMsg (text : list byte).

#[export] Instance byte_eq_dec : EqDecision byte.
Proof. intros x y. destruct (Byte.byte_eq_dec x y); [left|right]; assumption. Defined.

#[export] Instance goerror_eq_dec : EqDecision goerror.
Proof. solve_decision. Defined.

(** * Outcomes *)

(** What running a piece of Go code gives: a value, an error value returned to
    the caller, a run-time panic (index out of range, nil dereference,
    [utils.Fatal]), or a loop that used up its fuel. *)
Inductive outcome (A : Type) :=
| Ret (a : A)
| Err (e : goerror)
| Panic
| OutOfFuel.
Arguments Ret {A} a.
Arguments Err {A} e.
Arguments Panic {A}.
Arguments OutOfFuel {A}.

#[export] Instance outcome_eq_dec `{EqDecision A} : EqDecision (outcome A).
Proof. solve_decision. Defined.

#[export] Instance outcome_ret : MRet outcome := λ A a, Ret a.
#[export] Instance outcome_bind : MBind outcome := λ A B k m,
  match m with
  | Ret a => k a
  | Err e => Err e
  | Panic => Panic
  | OutOfFuel => OutOfFuel
  end.
#[export] Instance outcome_fmap : FMap outcome := λ A B f m,
  match m with
  | Ret a => Ret (f a)
  | Err e => Err e
  | Panic => Panic
  | OutOfFuel => OutOfFuel
  end.

Definition is_Ret {A} (o : outcome A) : bool :=
  match o with Ret _ => true | _ => false end.

(** Code that changes a state [S] and may stop early keeps the state it had
    reached: Go does not undo assignments when an error is returned. *)
Definition M (S A : Type) : Type := S → S * outcome A.

#[export] Instance M_ret {S} : MRet (M S) := λ A a s, (s, Ret a).
#[export] Instance M_bind {S} : MBind (M S) := λ A B k m s,
  match m s with
  | (s', Ret a) => k a s'
  | (s', Err e) => (s', Err e)
  | (s', Panic) => (s', Panic)
  | (s', OutOfFuel) => (s', OutOfFuel)
  end.

Definition get {S} : M S S := λ s, (s, Ret s).
Definition put {S} (s' : S) : M S unit := λ _, (s', Ret tt).
Definition modify {S} (f : S → S) : M S unit := λ s, (f s, Ret tt).
Definition fail {S A} (e : goerror) : M S A := λ s, (s, Err e).
Definition crash {S A} : M S A := λ s, (s, Panic).
Definition lift {S A} (o : outcome A) : M S A := λ s, (s, o).

(** Running code on a part of the state: a Go method called on a field. *)
Definition zoom {S T A} (sel : S → T) (upd : T → S → S) (m : M T A) : M S A :=
  λ s, let '(t, o) := m (sel s) in (upd t s, o).

(** [if err := m; err != nil { ... } else { ... }]: look at the outcome. *)
Definition catch {S A B} (m : M S A) (k : A → M S B) (h : goerror → M S B) : M S B :=
  λ s, match m s with
       | (s', Ret a) => k a s'
       | (s', Err e) => h e s'
       | (s', Panic) => (s', Panic)
       | (s', OutOfFuel) => (s', OutOfFuel)
       end.

(** Laws the proofs compute with. *)
Lemma outcome_bind_Ret {A B} (m : outcome A) (k : A → outcome B) b :
  (m ≫= k) = Ret b ↔ ∃ a, m = Ret a ∧ k a = Ret b.
Proof. split; [destruct m; naive_solver|]. by intros (a & -> & ?). Qed.

Lemma M_bind_run {S A B} (m : M S A) (k : A → M S B) s s' a :
  m s = (s', Ret a) → (m ≫= k) s = k a s'.
Proof. intros H. unfold mbind, M_bind. by rewrite H. Qed.

Lemma M_bind_err {S A B} (m : M S A) (k : A → M S B) s s' e :
  m s = (s', Err e) → (m ≫= k) s = (s', Err e).
Proof. intros H. unfold mbind, M_bind. by rewrite H. Qed.

Lemma M_bind_Ret {S A B} (m : M S A) (k : A → M S B) s s' b :
  (m ≫= k) s = (s', Ret b) → ∃ s1 a, m s = (s1, Ret a) ∧ k a s1 = (s', Ret b).
Proof. unfold mbind, M_bind. destruct (m s) as [s1 [a|e| |]]; try done. eauto. Qed.

Lemma M_ret_bind {S A B} (a : A) (k : A → M S B) s : (mret a ≫= k) s = k a s.
Proof. done. Qed.

Lemma M_lift_bind {S A B} (a : A) (k : A → M S B) s : (lift (Ret a) ≫= k) s = k a s.
Proof. done. Qed.

Lemma M_get_bind {S B} (k : S → M S B) s : (get ≫= k) s = k s s.
Proof. done. Qed.

Lemma M_bind_assoc {S A B C} (m : M S A) (k : A → M S B) (k' : B → M S C) s :
  ((m ≫= k) ≫= k') s = (m ≫= (λ a, k a ≫= k')) s.
Proof. unfold mbind, M_bind. by destruct (m s) as [? []]. Qed.

(** Unfold the monads and run what the goal applies to a state. *)
Ltac run_M :=
  cbv beta iota delta [mbind M_bind mret M_ret outcome_bind outcome_ret get put
    modify fail crash lift zoom catch] in *; cbn beta iota in *.

(** * Machine integers *)

Definition u8 (z : Z) : Z := z mod 2 ^ 8.
Definition u16 (z : Z) : Z := z mod 2 ^ 16.
Definition u32 (z : Z) : Z := z mod 2 ^ 32.
Definition u64 (z : Z) : Z := z mod 2 ^ 64.
(** Conversion to a signed 64-bit integer ([int64], and [int] on the 64-bit
    platforms the program targets). *)
Definition i64 (z : Z) : Z := (z + 2 ^ 63) mod 2 ^ 64 - 2 ^ 63.

Lemma u16_id z : (0 ≤ z < 2 ^ 16)%Z → u16 z = z.
Proof. apply Z.mod_small. Qed.
Lemma u32_id z : (0 ≤ z < 2 ^ 32)%Z → u32 z = z.
Proof. apply Z.mod_small. Qed.
Lemma u64_id z : (0 ≤ z < 2 ^ 64)%Z → u64 z = z.
Proof. apply Z.mod_small. Qed.
Lemma i64_id z : (- 2 ^ 63 ≤ z < 2 ^ 63)%Z → i64 z = z.
Proof. unfold i64. intros. rewrite Z.mod_small; lia. Qed.
Lemma u64_range z : (0 ≤ u64 z < 2 ^ 64)%Z.
Proof. by apply Z.mod_pos_bound. Qed.
Lemma u32_range z : (0 ≤ u32 z < 2 ^ 32)%Z.
Proof. by apply Z.mod_pos_bound. Qed.
Lemma u16_range z : (0 ≤ u16 z < 2 ^ 16)%Z.
Proof. by apply Z.mod_pos_bound. Qed.
Lemma i64_range z : (- 2 ^ 63 ≤ i64 z < 2 ^ 63)%Z.
Proof.
  unfold i64. pose proof (Z.mod_pos_bound (z + 2 ^ 63) (2 ^ 64) eq_refl). lia.
Qed.

Create HintDb machine.
Create Rewrite HintDb machine_rw.
#[export] Hint Rewrite u16_id u32_id u64_id i64_id using lia : machine_rw.
#[export] Hint Resolve u16_range u32_range u64_range i64_range : machine.

(** A disjoint "or" is a sum: how [hi << k | lo] packs two fields. *)
Lemma lor_shiftl_add (hi lo k : Z) :
  (0 ≤ k)%Z → (0 ≤ lo < 2 ^ k)%Z → Z.lor (Z.shiftl hi k) lo = (hi * 2 ^ k + lo)%Z.
Proof.
  intros Hk Hlo. assert (Hd : Z.land (Z.shiftl hi k) lo = 0%Z).
  { apply Z.bits_inj'. intros i Hi. rewrite Z.land_spec, Z.bits_0.
    destruct (decide (i < k)%Z).
    - by rewrite Z.shiftl_spec_low by lia.
    - rewrite <- (Z.mod_small _ _ Hlo), Z.mod_pow2_bits_high by lia. apply andb_false_r. }
  rewrite <- Z.lxor_lor by done. rewrite <- Z.add_nocarry_lxor by done.
  by rewrite Z.shiftl_mul_pow2 by lia.
Qed.

(** * Slices *)

Section Slices.
Context {A : Type}.
Implicit Types (l src dst : list A) (a b n off : Z).
Local Open Scope Z_scope.

(** [int64(len(l))] *)
Definition zlen l : Z := Z.of_nat (length l).

(** The [n] elements of [l] from offset [a]. *)
Definition sub l a n : list A := take (Z.to_nat n) (drop (Z.to_nat a) l).

(** [l[a:b]], with the bound check Go does. *)
Definition slice l a b : outcome (list A) :=
  if decide (0 ≤ a ≤ b ∧ b ≤ zlen l) then Ret (sub l a (b - a)) else Panic.

(** [l[a:]] *)
Definition slice_from l a : outcome (list A) := slice l a (zlen l).

(** [l[i]] *)
Definition idx l i : outcome A :=
  if decide (0 ≤ i) then
    match l !! Z.to_nat i with Some x => Ret x | None => Panic end
  else Panic.

(** The content of [dst] after [copy(dst[off:], src)], for an offset within
    [dst]: as many elements as fit are overwritten, the length is kept. *)
Definition copy_at dst off src : list A :=
  let k := Z.to_nat off in
  take k dst ++ take (length dst - k) src ++ drop (k + length src) dst.

(** Code that writes through the slice [dst[off:]]: it shares its array with
    [dst], so [dst] sees what [f] does to it. *)
Definition on_tail dst off (f : list A → list A) : list A :=
  take (Z.to_nat off) dst ++ f (drop (Z.to_nat off) dst).

Lemma zlen_nonneg l : 0 ≤ zlen l.
Proof. unfold zlen. lia. Qed.
Lemma zlen_nil : zlen (@nil A) = 0.
Proof. done. Qed.
Lemma zlen_cons x l : zlen (x :: l) = 1 + zlen l.
Proof. unfold zlen. rewrite length_cons. lia. Qed.
Lemma zlen_app l src : zlen (l ++ src) = zlen l + zlen src.
Proof. unfold zlen. rewrite length_app. lia. Qed.
Lemma zlen_replicate k (x : A) : zlen (replicate k x) = Z.of_nat k.
Proof. unfold zlen. by rewrite length_replicate. Qed.

Lemma zlen_sub l a n :
  0 ≤ a → 0 ≤ n → a + n ≤ zlen l → zlen (sub l a n) = n.
Proof. unfold zlen, sub. intros. rewrite length_take, length_drop. lia. Qed.

Lemma zlen_copy_at dst off src :
  0 ≤ off ≤ zlen dst → zlen (copy_at dst off src) = zlen dst.
Proof.
  unfold zlen, copy_at. intros. rewrite !length_app, !length_take, length_drop. lia.
Qed.

Lemma lookup_sub l a n (i : nat) :
  0 ≤ a → sub l a n !! i = if decide (Z.of_nat i < n) then l !! (Z.to_nat a + i)%nat else None.
Proof.
  unfold sub. intros. case_decide.
  - rewrite lookup_take_lt by lia. apply lookup_drop.
  - apply lookup_take_ge. lia.
Qed.

Lemma lookup_copy_at dst off src (i : nat) :
  0 ≤ off ≤ zlen dst → Z.of_nat i < zlen dst →
  copy_at dst off src !! i =
    if decide (off ≤ Z.of_nat i < off + zlen src) then src !! (i - Z.to_nat off)%nat
    else dst !! i.
Proof.
  unfold zlen, copy_at. intros Hoff Hi.
  assert (Hk : length (take (Z.to_nat off) dst) = Z.to_nat off)
    by (rewrite length_take; lia).
  destruct (decide (Z.of_nat i < off)) as [Hlt|Hge].
  { rewrite lookup_app_l by lia. rewrite lookup_take_lt by lia.
    rewrite decide_False by lia. done. }
  rewrite lookup_app_r by lia. rewrite Hk.
  case_decide as Hin.
  - rewrite lookup_app_l by (rewrite length_take; lia).
    by rewrite lookup_take_lt by lia.
  - rewrite lookup_app_r by (rewrite length_take; lia).
    rewrite length_take, lookup_drop. f_equal. lia.
Qed.

Lemma slice_Ret l a b :
  0 ≤ a ≤ b → b ≤ zlen l → slice l a b = Ret (sub l a (b - a)).
Proof. intros. unfold slice. by rewrite decide_True by lia. Qed.

Lemma slice_from_Ret l a :
  0 ≤ a ≤ zlen l → slice_from l a = Ret (drop (Z.to_nat a) l).
Proof.
  intros. unfold slice_from. rewrite slice_Ret by lia. unfold sub, zlen. f_equal.
  apply take_ge. rewrite length_drop. lia.
Qed.

Lemma sub_all l : sub l 0 (zlen l) = l.
Proof. unfold sub, zlen. rewrite drop_0, take_ge; [done|lia]. Qed.

Lemma sub_app_l l src a n :
  0 ≤ a → 0 ≤ n → a + n ≤ zlen l → sub (l ++ src) a n = sub l a n.
Proof.
  unfold zlen. intros. apply list_eq. intros i. rewrite !lookup_sub by lia.
  case_decide; [|done]. by rewrite lookup_app_l by lia.
Qed.

Lemma sub_app_r l src a n :
  zlen l ≤ a → sub (l ++ src) a n = sub src (a - zlen l) n.
Proof.
  unfold zlen. intros. apply list_eq. intros i. rewrite !lookup_sub by lia.
  case_decide; [|done]. rewrite lookup_app_r by lia. f_equal. lia.
Qed.

(** Reading back what [copy] wrote. *)
Lemma sub_copy_at_same dst off src :
  0 ≤ off → off + zlen src ≤ zlen dst → sub (copy_at dst off src) off (zlen src) = src.
Proof.
  unfold zlen. intros H1 H2. apply list_eq. intros i. rewrite lookup_sub by lia.
  case_decide as Hi.
  - rewrite lookup_copy_at by (unfold zlen; lia).
    rewrite decide_True by (unfold zlen; lia). f_equal. lia.
  - symmetry. apply lookup_ge_None. lia.
Qed.

(** [copy] leaves the elements outside its range alone. *)
Lemma sub_copy_at_other dst off src a n :
  0 ≤ off ≤ zlen dst → 0 ≤ a → a + n ≤ off ∨ off + zlen src ≤ a → a + n ≤ zlen dst →
  sub (copy_at dst off src) a n = sub dst a n.
Proof.
  intros. apply list_eq. intros i. rewrite !lookup_sub by lia.
  case_decide; [|done]. rewrite lookup_copy_at by lia. by rewrite decide_False by lia.
Qed.

Lemma copy_at_in_bounds dst off src :
  0 ≤ off → off + zlen src ≤ zlen dst →
  copy_at dst off src =
    take (Z.to_nat off) dst ++ src ++ drop (Z.to_nat (off + zlen src)) dst.
Proof.
  unfold copy_at, zlen. intros. rewrite (take_ge src) by lia.
  do 3 f_equal. lia.
Qed.

Lemma on_tail_copy_at dst off src :
  0 ≤ off ≤ zlen dst → on_tail dst off (λ t, copy_at t 0 src) = copy_at dst off src.
Proof.
  unfold on_tail, copy_at, zlen. intros. f_equal. change (Z.to_nat 0) with 0%nat.
  rewrite take_0, length_drop. cbn [app]. rewrite drop_drop, Nat.sub_0_r. done.
Qed.

Lemma zlen_on_tail dst off f :
  0 ≤ off ≤ zlen dst → (∀ t, zlen (f t) = zlen t) → zlen (on_tail dst off f) = zlen dst.
Proof.
  intros Hoff Hf. unfold on_tail. rewrite zlen_app, Hf. unfold zlen in *.
  rewrite length_take, length_drop. lia.
Qed.

Lemma idx_Ret l i x : 0 ≤ i → l !! Z.to_nat i = Some x → idx l i = Ret x.
Proof. intros. unfold idx. rewrite decide_True by lia. by rewrite H0. Qed.
End Slices.

Create Rewrite HintDb zlen.
#[export] Hint Rewrite @zlen_cons @zlen_app @zlen_replicate : zlen.
#[export] Hint Rewrite @zlen_sub @zlen_copy_at using lia : zlen.

(** Length goals: normalise the lengths, then arithmetic. *)
Ltac zlen_lia :=
  autorewrite with zlen in *; unfold zlen in *;
  rewrite ?length_app, ?length_cons, ?length_nil, ?length_fmap, ?length_replicate in *; lia.

(** [make([]byte, n)] *)
Definition make_bytes (n : Z) : list byte := replicate (Z.to_nat n) Byte.x00.

Lemma zlen_make_bytes n : (0 ≤ n)%Z → zlen (make_bytes n) = n.
Proof. intros. unfold make_bytes. rewrite zlen_replicate. lia. Qed.
#[export] Hint Rewrite zlen_make_bytes using lia : zlen.

Lemma make_bytes_split n m : (0 ≤ n)%Z → (0 ≤ m)%Z → make_bytes (n + m) = make_bytes n ++ make_bytes m.
Proof. intros. unfold make_bytes. by rewrite Z2Nat.inj_add, replicate_add by lia. Qed.

(** ** Taking a concatenation apart, building one up *)

Section Pieces.
Context {A : Type}.
Implicit Types (l a b c : list A).
Local Open Scope Z_scope.

Lemma sub_at l a b c i n : l = a ++ b ++ c → zlen a = i → zlen b = n → sub l i n = b.
Proof.
  intros -> <- <-. unfold sub, zlen. rewrite !Nat2Z.id. rewrite drop_app_length. by rewrite take_app_length.
Qed.

(** The piece [b] of [a ++ b ++ c] by its bounds. *)
Lemma slice_at l a b c i j : l = a ++ b ++ c → zlen a = i → i + zlen b = j → slice l i j = Ret b.
Proof.
  intros Hl Hi Hj. pose proof (zlen_nonneg a). pose proof (zlen_nonneg b). pose proof (zlen_nonneg c).
  rewrite slice_Ret; [|lia|subst l; rewrite !zlen_app; lia]. f_equal. eapply sub_at; [done..|lia].
Qed.

Lemma slice_from_at l a b i : l = a ++ b → zlen a = i → slice_from l i = Ret b.
Proof.
  intros -> <-. pose proof (zlen_nonneg a). pose proof (zlen_nonneg b). rewrite slice_from_Ret by (rewrite zlen_app; lia).
  unfold zlen. by rewrite Nat2Z.id, drop_app_length.
Qed.

Lemma idx_at l a x c i : l = a ++ x :: c → zlen a = i → idx l i = Ret x.
Proof.
  intros -> <-. apply idx_Ret; [apply zlen_nonneg|]. unfold zlen. rewrite Nat2Z.id.
  rewrite lookup_app_r by lia. by rewrite Nat.sub_diag.
Qed.

(** Overwriting a piece by one of its length. *)
Lemma copy_at_piece l a b c i (b' : list A) : l = a ++ b ++ c → zlen a = i → zlen b' = zlen b → copy_at l i b' = a ++ b' ++ c.
Proof.
  intros -> <- Hb. pose proof (zlen_nonneg a). pose proof (zlen_nonneg c).
  rewrite copy_at_in_bounds by (rewrite ?zlen_app; lia). unfold zlen in *. rewrite <- Nat2Z.inj_add, !Nat2Z.id.
  rewrite take_app_length. do 2 f_equal. rewrite drop_app_ge by lia. rewrite drop_app_length'; [done|lia].
Qed.
End Pieces.

(** Writing at the end of what a zeroed buffer already holds. *)
Lemma copy_at_fill (pre src : list byte) i n :
  zlen pre = i → (zlen src ≤ n)%Z →
  copy_at (pre ++ make_bytes n) i src = (pre ++ src) ++ make_bytes (n - zlen src).
Proof.
  intros Hi Hn. pose proof (zlen_nonneg src).
  rewrite (copy_at_piece _ pre (make_bytes (zlen src)) (make_bytes (n - zlen src)) i src); [by rewrite app_assoc| |done|].
  - rewrite <- make_bytes_split by lia. do 2 f_equal. lia.
  - by rewrite zlen_make_bytes.
Qed.

(** * Maps *)

(** Updating an entry that is there. *)
Lemma alter_insert_Some `{FinMap K Mp} {A} (f : A → A) (m : Mp A) i x :
  m !! i = Some x → alter f i m = <[i := f x]> m.
Proof.
  intros Hx. apply map_eq. intros j. destruct (decide (i = j)) as [<-|].
  - by rewrite lookup_alter_eq, lookup_insert_eq, Hx.
  - by rewrite lookup_alter_ne, lookup_insert_ne.
Qed.
