(* ===== verification/Codec.v ===== *)
(** Package [utils]: big-endian integers, UUIDs, length-prefixed strings, the
    decimal conversions and the string hash ([int_encoding.go], [types.go],
    [str_encoding.go]). *)
From S2P Require Import Prelude.
Local Open Scope Z_scope.

(** * encoding/binary, big-endian (standard library) *)

Fixpoint be_bytes (n : nat) (z : Z) : list byte :=
  match n with
  | O => []
  | S k => byte.of_Z (Z.shiftr z (8 * Z.of_nat k)) :: be_bytes k z
  end.

Definition be_acc (acc : Z) (l : list byte) : Z :=
  fold_left (λ a b, Z.lor (Z.shiftl a 8) (byte.unsigned b)) l acc.

Definition be_value (l : list byte) : Z := be_acc 0 l.

Definition put_be (n : nat) (buf : list byte) (num : Z) : list byte :=
  if decide (Z.of_nat n ≤ zlen buf) then copy_at buf 0 (be_bytes n num) else buf.

Definition get_be (n : nat) (buf : list byte) : outcome Z :=
  if decide (Z.of_nat n ≤ zlen buf) then Ret (be_value (take n buf)) else Panic.

(** * int_encoding.go *)

(** [bytes.NewBuffer(buf[:0])] followed by [binary.Write] stores into [buf]
    when its capacity suffices; otherwise the buffer reallocates and [buf] is
    left as it was. *)
Definition PutUint16 (buf : list byte) (num : Z) : list byte := put_be 2 buf num.
Definition GetUint16 (buf : list byte) : outcome Z := get_be 2 buf.
Definition ParseUint16 (raw : list byte) : outcome Z := GetUint16 raw.
Definition Uint16ToRaw (num : Z) : list byte := be_bytes 2 num.

Definition PutUint32 (buf : list byte) (num : Z) : list byte := put_be 4 buf num.
Definition GetUint32 (buf : list byte) : outcome Z := get_be 4 buf.
Definition ParseUint32 (raw : list byte) : outcome Z := GetUint32 raw.
Definition Uint32ToRaw (num : Z) : list byte := be_bytes 4 num.

Definition PutUint64 (buf : list byte) (num : Z) : list byte := put_be 8 buf num.
Definition GetUint64 (buf : list byte) : outcome Z := get_be 8 buf.
Definition ParseUint64 (raw : list byte) : outcome Z := GetUint64 raw.
Definition Uint64ToRaw (num : Z) : list byte := be_bytes 8 num.

(** * types.go *)

(** [type UUID uint64] *)
Notation UUID := Z (only parsing).
Definition INF : UUID := (2 ^ 63 - 1) + 2 ^ 63.
Definition NilUUID : UUID := 0.
Definition LEN_UUID : Z := 8.

Definition PutUUID (buf : list byte) (uuid : UUID) : list byte := PutUint64 buf uuid.
Definition GetUUID (buf : list byte) : outcome UUID := GetUint64 buf.
Definition ParseUUID (raw : list byte) : outcome UUID := ParseUint64 raw.
Definition UUIDToRaw (uuid : UUID) : list byte := Uint64ToRaw uuid.

(** * str_encoding.go *)

Definition str_bytes (s : string) : list byte := String.list_byte_of_string s.
Definition bytes_str (l : list byte) : string := String.string_of_list_byte l.

(** ** [for _, r := range str] (standard library, unicode/utf8) *)

(** The accepted range of the second byte, and the length, that a leading byte
    announces; [None] for a byte that cannot start a rune. *)
Definition utf8_lead (b : Z) : option (Z * Z * Z) :=
  if decide (0xC2 ≤ b ≤ 0xDF) then Some (2, 0x80, 0xBF)
  else if decide (b = 0xE0) then Some (3, 0xA0, 0xBF)
  else if decide (0xE1 ≤ b ≤ 0xEC) then Some (3, 0x80, 0xBF)
  else if decide (b = 0xED) then Some (3, 0x80, 0x9F)
  else if decide (0xEE ≤ b ≤ 0xEF) then Some (3, 0x80, 0xBF)
  else if decide (b = 0xF0) then Some (4, 0x90, 0xBF)
  else if decide (0xF1 ≤ b ≤ 0xF3) then Some (4, 0x80, 0xBF)
  else if decide (b = 0xF4) then Some (4, 0x80, 0x8F)
  else None.

Definition utf8_cont (b : Z) : bool := bool_decide (0x80 ≤ b ≤ 0xBF).

(** One rune and the bytes it takes; an invalid byte is U+FFFD of width 1. *)
Definition utf8_rune (l : list Z) : Z * nat :=
  match l with
  | [] => (0xFFFD, 0%nat)
  | b0 :: rest =>
      if decide (b0 < 0x80) then (b0, 1%nat)
      else match utf8_lead b0, rest with
           | Some (2, lo, hi), b1 :: _ =>
               if decide (lo ≤ b1 ≤ hi) then
                 (Z.lor (Z.shiftl (Z.land b0 0x1F) 6) (Z.land b1 0x3F), 2%nat)
               else (0xFFFD, 1%nat)
           | Some (3, lo, hi), b1 :: b2 :: _ =>
               if decide (lo ≤ b1 ≤ hi ∧ utf8_cont b2) then
                 (Z.lor (Z.shiftl (Z.land b0 0x0F) 12)
                    (Z.lor (Z.shiftl (Z.land b1 0x3F) 6) (Z.land b2 0x3F)), 3%nat)
               else (0xFFFD, 1%nat)
           | Some (4, lo, hi), b1 :: b2 :: b3 :: _ =>
               if decide (lo ≤ b1 ≤ hi ∧ utf8_cont b2 ∧ utf8_cont b3) then
                 (Z.lor (Z.shiftl (Z.land b0 0x07) 18)
                    (Z.lor (Z.shiftl (Z.land b1 0x3F) 12)
                       (Z.lor (Z.shiftl (Z.land b2 0x3F) 6) (Z.land b3 0x3F))), 4%nat)
               else (0xFFFD, 1%nat)
           | _, _ => (0xFFFD, 1%nat)
           end
  end.

Fixpoint utf8_runes (fuel : nat) (l : list Z) : list Z :=
  match fuel, l with
  | O, _ | _, [] => []
  | S fuel', _ => let '(r, w) := utf8_rune l in r :: utf8_runes fuel' (drop w l)
  end.

(** Every rune takes at least a byte, so the length is enough fuel. *)
Definition range_str (str : string) : list Z :=
  let l := byte.unsigned <$> str_bytes str in utf8_runes (length l) l.

Definition StrToUUID (str : string) : UUID :=
  let seed := 13331 in
  fold_left (λ result b, u64 (u64 (result * seed) + u64 b)) (range_str str) 0.

Definition VarStrToRaw (str : string) : list byte :=
  let length := zlen (str_bytes str) in
  let raw := Uint32ToRaw (u32 length) in
  raw ++ str_bytes str.

Definition ParseVarStr (raw : list byte) : outcome (string * Z) :=
  l4 ← slice raw 0 4;
  l ← GetUint32 l4;
  let size := 4 + l in
  s ← slice raw 4 size;
  Ret (bytes_str s, size).

(** ** strconv (standard library), base 10 *)

Definition digit_of (b : byte) : option Z :=
  let c := byte.unsigned b in
  if decide (48 ≤ c ≤ 57) then Some (c - 48) else None.

Fixpoint parse_digits (maxVal n : Z) (l : list byte) : outcome Z :=
  match l with
  | [] => Ret n
  | b :: l' =>
      match digit_of b with
      | None => Err ErrSyntax
      | Some d => let n' := n * 10 + d in
                  if decide (maxVal < n') then Err ErrRange else parse_digits maxVal n' l'
      end
  end.

Definition strconv_ParseUint (s : string) (bitSize : Z) : outcome Z :=
  match str_bytes s with
  | [] => Err ErrSyntax
  | l => parse_digits (2 ^ bitSize - 1) 0 l
  end.

Definition digit_byte (d : Z) : byte := byte.of_Z (48 + d).

Fixpoint format_digits (fuel : nat) (v : Z) (acc : list byte) : list byte :=
  match fuel with
  | O => acc
  | S k => let acc' := digit_byte (v mod 10) :: acc in
           if decide (v < 10) then acc' else format_digits k (v / 10) acc'
  end.

(** A 64-bit value has at most 20 decimal digits. *)
Definition strconv_FormatUint (v : Z) : string := bytes_str (format_digits 20 v []).

Definition StrToUint64 (s : string) : outcome Z := strconv_ParseUint s 64.

(** [uint32(v), err]: the value is only used when the error is nil. *)
Definition StrToUint32 (s : string) : outcome Z :=
  v ← strconv_ParseUint s 32; Ret (u32 v).

Definition Uint32ToStr (v : Z) : string := strconv_FormatUint (u64 v).
Definition Uint64ToStr (num : Z) : string := strconv_FormatUint num.

(** Signed integers: a sign, and the limits of an [int64]. *)
Definition strconv_ParseInt (s : string) : outcome Z :=
  match str_bytes s with
  | [] => Err ErrSyntax
  | b :: l =>
      let neg := bool_decide (b = Byte.x2d) in
      let digits := if bool_decide (b = Byte.x2b) || neg then l else b :: l in
      un ← strconv_ParseUint (bytes_str digits) 64;
      if decide (neg = false ∧ 2 ^ 63 ≤ un) then Err ErrRange
      else if decide (neg = true ∧ 2 ^ 63 < un) then Err ErrRange
      else Ret (if neg then - un else un)
  end.
Definition strconv_FormatInt (v : Z) : string :=
  if decide (v < 0) then bytes_str (Byte.x2d :: str_bytes (strconv_FormatUint (- v))) else strconv_FormatUint v.

Definition StrToInt64 (s : string) : outcome Z := strconv_ParseInt s.
Definition Int64ToStr (v : Z) : string := strconv_FormatInt v.

(** * Lemmas on big-endian integers *)

Lemma length_be_bytes n z : length (be_bytes n z) = n.
Proof. induction n as [|n IH]; cbn; [done|by rewrite IH]. Qed.

Lemma zlen_be_bytes n z : zlen (be_bytes n z) = Z.of_nat n.
Proof. unfold zlen. by rewrite length_be_bytes. Qed.

Lemma byte_shift_or acc b : Z.lor (Z.shiftl acc 8) (byte.unsigned b) = acc * 256 + byte.unsigned b.
Proof. apply (lor_shiftl_add acc _ 8); [lia|apply byte.unsigned_range]. Qed.

Lemma be_acc_cons acc b l : be_acc acc (b :: l) = be_acc (acc * 256 + byte.unsigned b) l.
Proof. unfold be_acc. cbn. by rewrite byte_shift_or. Qed.

Lemma be_acc_app acc l1 l2 : be_acc acc (l1 ++ l2) = be_acc (be_acc acc l1) l2.
Proof. unfold be_acc. apply fold_left_app. Qed.

Lemma pow_256_S n : 2 ^ (8 * Z.of_nat (S n)) = 256 * 2 ^ (8 * Z.of_nat n).
Proof. rewrite Nat2Z.inj_succ, Z.mul_succ_r, Z.pow_add_r by lia. lia. Qed.

Lemma be_acc_be_bytes n z acc :
  be_acc acc (be_bytes n z) = acc * 2 ^ (8 * Z.of_nat n) + z mod 2 ^ (8 * Z.of_nat n).
Proof.
  revert acc. induction n as [|n IH]; intros acc.
  { cbn. rewrite Z.mod_1_r. lia. }
  cbn [be_bytes]. rewrite be_acc_cons, IH, byte.unsigned_of_Z. unfold byte.wrap.
  rewrite Z.shiftr_div_pow2 by lia. rewrite pow_256_S.
  set (p := 2 ^ (8 * Z.of_nat n)). assert (0 < p) by (apply Z.pow_pos_nonneg; lia).
  rewrite (Z.mul_comm 256 p), (Z.rem_mul_r z p 256) by lia. change (2 ^ 8) with 256. lia.
Qed.

Lemma be_value_be_bytes n z : be_value (be_bytes n z) = z mod 2 ^ (8 * Z.of_nat n).
Proof. unfold be_value. rewrite be_acc_be_bytes. lia. Qed.

Lemma be_acc_range l acc :
  acc * 2 ^ (8 * zlen l) ≤ be_acc acc l < (acc + 1) * 2 ^ (8 * zlen l).
Proof.
  unfold zlen. revert acc. induction l as [|b l IH]; intros acc; [cbn; lia|].
  rewrite be_acc_cons, length_cons, pow_256_S. pose proof (byte.unsigned_range b).
  specialize (IH (acc * 256 + byte.unsigned b)).
  set (p := 2 ^ (8 * Z.of_nat (length l))) in *.
  assert (0 < p) by (apply Z.pow_pos_nonneg; lia). nia.
Qed.

Lemma be_value_range l : 0 ≤ be_value l < 2 ^ (8 * zlen l).
Proof. pose proof (be_acc_range l 0). unfold be_value. lia. Qed.

Lemma be_bytes_be_acc l acc : be_bytes (length l) (be_acc acc l) = l.
Proof.
  revert acc. induction l as [|b l IH]; intros acc; [done|].
  rewrite length_cons. cbn [be_bytes]. rewrite be_acc_cons. f_equal; [|apply IH].
  rewrite Z.shiftr_div_pow2 by lia. set (a := acc * 256 + byte.unsigned b).
  pose proof (be_acc_range l a) as Hr. unfold zlen in Hr.
  set (p := 2 ^ (8 * Z.of_nat (length l))) in *.
  assert (0 < p) by (apply Z.pow_pos_nonneg; lia).
  replace (be_acc a l / p) with a by (apply Z.div_unique with (be_acc a l - a * p); lia).
  apply byte.unsigned_inj. rewrite byte.unsigned_of_Z. unfold byte.wrap, a.
  rewrite Z.add_comm, Z.mod_add by lia. apply Z.mod_small, byte.unsigned_range.
Qed.

Lemma be_bytes_be_value l : be_bytes (length l) (be_value l) = l.
Proof. apply be_bytes_be_acc. Qed.

Lemma be_bytes_mod n z : be_bytes n (z mod 2 ^ (8 * Z.of_nat n)) = be_bytes n z.
Proof. rewrite <- be_value_be_bytes. rewrite <- (length_be_bytes n z) at 1. apply be_bytes_be_value. Qed.

Lemma zlen_put_be n buf num : zlen (put_be n buf num) = zlen buf.
Proof. unfold put_be. case_decide; [|done]. apply zlen_copy_at. pose proof (zlen_nonneg buf). lia. Qed.

Lemma zlen_PutUint16 buf num : zlen (PutUint16 buf num) = zlen buf.
Proof. apply zlen_put_be. Qed.
Lemma zlen_PutUint32 buf num : zlen (PutUint32 buf num) = zlen buf.
Proof. apply zlen_put_be. Qed.
Lemma zlen_PutUint64 buf num : zlen (PutUint64 buf num) = zlen buf.
Proof. apply zlen_put_be. Qed.

Lemma zlen_raw32 v : zlen (Uint32ToRaw v) = 4.
Proof. apply zlen_be_bytes. Qed.
#[export] Hint Rewrite zlen_raw32 zlen_be_bytes zlen_put_be zlen_PutUint16 zlen_PutUint32 zlen_PutUint64 : zlen.

Lemma get_be_ge n buf : Z.of_nat n ≤ zlen buf → get_be n buf = Ret (be_value (take n buf)).
Proof. intros. unfold get_be. by rewrite decide_True. Qed.

(** Reading an integer from an encoding followed by anything. *)
Lemma get_be_app n z rest :
  0 ≤ z < 2 ^ (8 * Z.of_nat n) → get_be n (be_bytes n z ++ rest) = Ret z.
Proof.
  intros Hz. rewrite get_be_ge by (rewrite zlen_app, zlen_be_bytes; pose proof (zlen_nonneg rest); lia).
  rewrite take_app_length' by (by rewrite length_be_bytes). by rewrite be_value_be_bytes, Z.mod_small.
Qed.

Lemma get_be_exact n z : 0 ≤ z < 2 ^ (8 * Z.of_nat n) → get_be n (be_bytes n z) = Ret z.
Proof. intros. rewrite <- (app_nil_r (be_bytes n z)). by apply get_be_app. Qed.

Lemma get_be_short n buf : zlen buf < Z.of_nat n → get_be n buf = Panic.
Proof. intros. unfold get_be. by rewrite decide_False by lia. Qed.

(** [Put] then [Get] at the head of the same buffer. *)
Lemma get_put_be n buf num :
  Z.of_nat n ≤ zlen buf → get_be n (put_be n buf num) = Ret (num mod 2 ^ (8 * Z.of_nat n)).
Proof.
  intros. unfold put_be. rewrite decide_True by done.
  rewrite copy_at_in_bounds by (rewrite ?zlen_be_bytes; lia). cbn [take app].
  change (take (Z.to_nat 0) buf) with (@nil byte). cbn [app].
  rewrite <- be_bytes_mod. apply get_be_app, Z.mod_pos_bound, Z.pow_pos_nonneg; lia.
Qed.

(** Writing an integer through a tail of a buffer that has room for it. *)
Lemma on_tail_put_be n buf off num :
  0 ≤ off → off + Z.of_nat n ≤ zlen buf →
  on_tail buf off (λ t, put_be n t num) = copy_at buf off (be_bytes n num).
Proof.
  intros. rewrite <- on_tail_copy_at by lia. unfold on_tail. f_equal. unfold put_be.
  rewrite decide_True; [done|]. unfold zlen in *. rewrite length_drop. lia.
Qed.

(** Writing an integer behind what a zeroed buffer already holds. *)
Lemma put_fill n (pre : list byte) m i num :
  zlen pre = i → Z.of_nat n ≤ m →
  on_tail (pre ++ make_bytes m) i (λ t, put_be n t num) = (pre ++ be_bytes n num) ++ make_bytes (m - Z.of_nat n).
Proof.
  intros Hp Hm. pose proof (zlen_nonneg pre). rewrite on_tail_put_be by (rewrite ?zlen_app, ?zlen_make_bytes; lia).
  rewrite copy_at_fill by (rewrite ?zlen_be_bytes; done). by rewrite zlen_be_bytes.
Qed.

Lemma get_be_drop n buf off :
  0 ≤ off → off + Z.of_nat n ≤ zlen buf →
  get_be n (drop (Z.to_nat off) buf) = Ret (be_value (sub buf off (Z.of_nat n))).
Proof.
  intros. rewrite get_be_ge by (unfold zlen in *; rewrite length_drop; lia).
  unfold sub. by rewrite Nat2Z.id.
Qed.

(** * Strings *)

Lemma bytes_str_bytes s : bytes_str (str_bytes s) = s.
Proof. apply String.string_of_list_byte_of_string. Qed.

Lemma str_bytes_str l : str_bytes (bytes_str l) = l.
Proof. apply String.list_byte_of_string_of_list_byte. Qed.

Lemma str_bytes_inj s1 s2 : str_bytes s1 = str_bytes s2 → s1 = s2.
Proof. intros H%(f_equal bytes_str). by rewrite !bytes_str_bytes in H. Qed.

(** C-style statement of the string round trip, shared by the table codecs. *)
Lemma ParseVarStr_VarStrToRaw s rest :
  zlen (str_bytes s) < 2 ^ 32 →
  ParseVarStr (VarStrToRaw s ++ rest) = Ret (s, 4 + zlen (str_bytes s)).
Proof.
  intros Hlen. unfold ParseVarStr, VarStrToRaw, Uint32ToRaw. cbv zeta.
  pose proof (zlen_nonneg (str_bytes s)). pose proof (zlen_nonneg rest).
  rewrite u32_id by lia. set (hd := be_bytes 4 (zlen (str_bytes s))).
  assert (Hhd : zlen hd = 4) by apply zlen_be_bytes.
  rewrite slice_Ret by (autorewrite with zlen; lia). cbn [mbind outcome_bind].
  rewrite <- app_assoc, sub_app_l by lia.
  replace (sub hd 0 (4 - 0)) with hd by (rewrite <- (sub_all hd) at 1; by rewrite Hhd).
  replace (GetUint32 hd) with (Ret (zlen (str_bytes s))) by (symmetry; apply get_be_exact; lia).
  cbn [mbind outcome_bind].
  rewrite slice_Ret by (autorewrite with zlen; lia). cbn [mbind outcome_bind].
  rewrite sub_app_r by lia. rewrite Hhd, Z.sub_diag, sub_app_l by lia.
  replace (4 + zlen (str_bytes s) - 4) with (zlen (str_bytes s)) by lia.
  by rewrite sub_all, bytes_str_bytes.
Qed.

(** * Decimal numbers *)

Lemma digit_of_digit_byte d : 0 ≤ d < 10 → digit_of (digit_byte d) = Some d.
Proof.
  intros. unfold digit_of, digit_byte. rewrite byte.unsigned_of_Z. unfold byte.wrap.
  rewrite Z.mod_small by lia. rewrite decide_True by lia. f_equal. lia.
Qed.

(** Parsing continues over the digits that formatting put in front. *)
Lemma parse_format_digits fuel maxVal v acc :
  0 ≤ v ≤ maxVal → v < 10 ^ Z.of_nat fuel →
  parse_digits maxVal 0 (format_digits fuel v acc) = parse_digits maxVal v acc.
Proof.
  revert v acc. induction fuel as [|fuel IH]; intros v acc Hv Hf.
  { assert (v = 0) as -> by (cbn in Hf; lia). done. }
  assert (Hd : 0 ≤ v mod 10 < 10) by (apply Z.mod_pos_bound; lia).
  cbn [format_digits]. cbv zeta. case_decide as Hlt.
  - rewrite Z.mod_small by lia. cbn [parse_digits].
    rewrite digit_of_digit_byte by lia. cbv zeta. rewrite decide_False by lia. done.
  - rewrite Nat2Z.inj_succ, Z.pow_succ_r in Hf by lia. pose proof (Z.div_mod v 10).
    rewrite IH; [..|apply Z.div_lt_upper_bound; lia].
    2: { split; [apply Z.div_pos; lia|]. pose proof (Z.div_le_upper_bound v 10 v). lia. }
    cbn [parse_digits]. rewrite digit_of_digit_byte by lia. cbv zeta.
    rewrite decide_False by lia. f_equal. lia.
Qed.

Lemma format_digits_cons fuel v acc : fuel ≠ 0%nat → ∃ b l, format_digits fuel v acc = b :: l.
Proof.
  revert v acc. induction fuel as [|fuel IH]; intros v acc Hne; [done|].
  cbn [format_digits]. cbv zeta. case_decide; [eauto|].
  destruct fuel as [|fuel]; [cbn; eauto|]. by apply IH.
Qed.

Lemma ParseUint_FormatUint bits v :
  0 ≤ v < 2 ^ 64 → v < 2 ^ bits → strconv_ParseUint (strconv_FormatUint v) bits = Ret v.
Proof.
  intros Hv Hb. unfold strconv_ParseUint, strconv_FormatUint. rewrite str_bytes_str.
  destruct (format_digits_cons 20 v []) as (b & l & E); [lia|].
  rewrite E, <- E. rewrite parse_format_digits; [done|lia|].
  eapply Z.lt_trans; [apply Hv|]. vm_compute. done.
Qed.

Lemma parse_digits_range maxVal n l v : 0 ≤ n ≤ maxVal → parse_digits maxVal n l = Ret v → 0 ≤ v ≤ maxVal.
Proof.
  revert n. induction l as [|b l IH]; intros n Hn; cbn [parse_digits].
  { intros [= <-]. done. }
  destruct (digit_of b) as [d|] eqn:Ed; [|done]. cbv zeta. case_decide; [done|].
  intros Hp. apply IH in Hp; [done|]. unfold digit_of in Ed. case_decide; simplify_eq. lia.
Qed.

Lemma str_bytes_app s t : str_bytes (s +:+ t) = str_bytes s ++ str_bytes t.
Proof. unfold str_bytes, String.list_byte_of_string. induction s as [|c s IH]; [done|]. change (String.append (String.String c s) t) with (String.String c (String.append s t)). cbn [String.list_ascii_of_string map]. rewrite IH. done. Qed.

(** The first digit is no sign. *)
Lemma format_digits_head fuel v acc : 0 ≤ v → ∃ b l, format_digits (S fuel) v acc = b :: l ∧ b ≠ Byte.x2d ∧ b ≠ Byte.x2b.
Proof.
  assert (Hd : ∀ v, 0 ≤ v → digit_byte (v mod 10) ≠ Byte.x2d ∧ digit_byte (v mod 10) ≠ Byte.x2b).
  { intros w Hw. unfold digit_byte. pose proof (Z.mod_pos_bound w 10 ltac:(lia)). assert (Hb : byte.unsigned (byte.of_Z (48 + w mod 10)) = 48 + w mod 10) by (rewrite byte.unsigned_of_Z; unfold byte.wrap; rewrite Z.mod_small; lia).
    split; intros E; rewrite E in Hb; [change (byte.unsigned Byte.x2d) with 45 in Hb|change (byte.unsigned Byte.x2b) with 43 in Hb]; lia. }
  revert v acc. induction fuel as [|fuel IH]; intros v acc Hv; cbn [format_digits]; cbv zeta.
  - destruct (Hd v Hv). case_decide; eexists _, _; by split_and!.
  - destruct (Hd v Hv). case_decide; [eexists _, _; by split_and!|]. apply IH. apply Z.div_pos; lia.
Qed.

Lemma StrToInt64_Int64ToStr v : - 2 ^ 63 ≤ v < 2 ^ 63 → StrToInt64 (Int64ToStr v) = Ret v.
Proof.
  intros Hv. unfold StrToInt64, Int64ToStr, strconv_ParseInt, strconv_FormatInt. case_decide as Hneg.
  - rewrite str_bytes_str. rewrite bool_decide_true by done. rewrite orb_true_r, bytes_str_bytes, ParseUint_FormatUint by lia. cbn [mbind outcome_bind].
    rewrite decide_False by (intros [? _]; done). rewrite decide_False by (intros [_ ?]; lia). f_equal. lia.
  - assert (Hf : strconv_FormatUint v = bytes_str (str_bytes (strconv_FormatUint v))) by (by rewrite bytes_str_bytes).
    destruct (format_digits_head 19 v [] ltac:(lia)) as (b & l & E & Hm & Hp). assert (Hs : str_bytes (strconv_FormatUint v) = b :: l) by (unfold strconv_FormatUint; by rewrite str_bytes_str).
    rewrite Hs. rewrite !bool_decide_false by done. cbn [orb]. rewrite <- Hs, bytes_str_bytes, ParseUint_FormatUint by lia. cbn [mbind outcome_bind].
    rewrite decide_False by (intros [_ ?]; lia). by rewrite decide_False by (intros [? _]; done).
Qed.

Lemma ParseUint_range s bits v : 0 ≤ bits → strconv_ParseUint s bits = Ret v → 0 ≤ v < 2 ^ bits.
Proof.
  intros Hb. unfold strconv_ParseUint. destruct (str_bytes s); [done|].
  intros H%parse_digits_range; [lia|]. pose proof (Z.pow_pos_nonneg 2 bits). lia.
Qed.

Lemma StrToUUID_range s : 0 ≤ StrToUUID s < 2 ^ 64.
Proof.
  unfold StrToUUID. set (f := λ result b, _). cbv zeta.
  assert (∀ l acc, 0 ≤ acc < 2 ^ 64 → 0 ≤ fold_left f l acc < 2 ^ 64) as Hf.
  { induction l as [|x l IH]; intros acc Hacc; cbn; [done|]. apply IH, u64_range. }
  apply Hf. lia.
Qed.
