(* ===== verification/GoFile.v ===== *)
(** The part of [os.File] the storage packages use (standard library): a file
    is its bytes, the position of the sequential writes, and an oracle for the
    faults of the disk.

    Every operation that changes the file takes one answer from the oracle:
    [None] lets it succeed, [Some k] makes it fail with [ErrIO] after its first
    [k] bytes reached the file (a short write); an exhausted oracle means that
    the disk works.  Reads fail only at the end of the file or on a closed
    file. *)
From S2P Require Import Prelude.
Local Open Scope Z_scope.

Record file := mkFile {
  f_data : list byte;
  f_pos : Z;
  f_open : bool;
  f_faults : list (option nat)
}.

(** A freshly created or opened file holding [data]. *)
Definition file_of (data : list byte) : file := mkFile data 0 true [].

Definition healthy (f : file) : Prop := f_open f = true ∧ f_faults f = [].

Definition file_Size (f : file) : Z := zlen (f_data f).

(** [Stat().Size()] *)
Definition file_Stat (f : file) : outcome Z :=
  if f_open f then Ret (file_Size f) else Err ErrClosed.

(** The bytes of a file after [bs] is written at [off]; a gap is zeros. *)
Definition write_at (data : list byte) (off : Z) (bs : list byte) : list byte :=
  match bs with
  | [] => data
  | _ => let k := Z.to_nat off in
         let padded := data ++ replicate (k - length data) Byte.x00 in
         take k padded ++ bs ++ drop (k + length bs) padded
  end.

Definition next_fault (f : file) : option nat * file :=
  match f_faults f with
  | [] => (None, f)
  | a :: rest => (a, mkFile (f_data f) (f_pos f) (f_open f) rest)
  end.

Definition set_data (data : list byte) (f : file) : file :=
  mkFile data (f_pos f) (f_open f) (f_faults f).

Definition set_pos (pos : Z) (f : file) : file :=
  mkFile (f_data f) pos (f_open f) (f_faults f).

Definition file_WriteAt (bs : list byte) (off : Z) : M file unit := λ f,
  if negb (f_open f) then (f, Err ErrClosed)
  else if decide (off < 0) then (f, Err ErrNegativeOffset)
  else match next_fault f with
       | (None, f') => (set_data (write_at (f_data f) off bs) f', Ret tt)
       | (Some k, f') => (set_data (write_at (f_data f) off (take k bs)) f', Err ErrIO)
       end.

(** [Write]: at the current position, which moves past what was written. *)
Definition file_Write (bs : list byte) : M file unit := λ f,
  match file_WriteAt bs (f_pos f) f with
  | (f', Ret _) => (set_pos (f_pos f + zlen bs) f', Ret tt)
  | (f', Err e) =>
      let k := match e, fst (next_fault f) with ErrIO, Some k => zlen (take k bs) | _, _ => 0 end in
      (set_pos (f_pos f + k) f', Err e)
  | (f', o) => (f', o)
  end.

Definition file_Sync : M file unit := λ f,
  if negb (f_open f) then (f, Err ErrClosed)
  else match next_fault f with
       | (None, f') => (f', Ret tt)
       | (Some _, f') => (f', Err ErrIO)
       end.

Definition file_Truncate (size : Z) : M file unit := λ f,
  if negb (f_open f) then (f, Err ErrClosed)
  else if decide (size < 0) then (f, Err ErrInvalidArgument)
  else match next_fault f with
       | (None, f') =>
           let n := Z.to_nat size in
           (set_data (take n (f_data f ++ replicate (n - length (f_data f)) Byte.x00)) f', Ret tt)
       | (Some _, f') => (f', Err ErrIO)
       end.

(** [Seek(pos, 0)] *)
Definition file_Seek (pos : Z) : M file unit := λ f,
  if negb (f_open f) then (f, Err ErrClosed)
  else if decide (pos < 0) then (f, Err ErrInvalidArgument)
  else (set_pos pos f, Ret tt).

Definition file_Close : M file unit := λ f,
  if negb (f_open f) then (f, Err ErrClosed)
  else (mkFile (f_data f) (f_pos f) false (f_faults f), Ret tt).

(** [ReadAt] into a buffer of [n] bytes: all of them or an error. *)
Definition file_ReadAt (f : file) (n off : Z) : outcome (list byte) :=
  if negb (f_open f) then Err ErrClosed
  else if decide (off < 0) then Err ErrNegativeOffset
  else if decide (off + n ≤ zlen (f_data f)) then Ret (sub (f_data f) off n)
  else Err ErrEOF.

(** * Lemmas *)

Lemma healthy_file_of data : healthy (file_of data).
Proof. done. Qed.

Lemma next_fault_healthy f : healthy f → next_fault f = (None, f).
Proof. intros [_ H]. unfold next_fault. by rewrite H. Qed.

Lemma healthy_set_data data f : healthy f → healthy (set_data data f).
Proof. done. Qed.
Lemma healthy_set_pos pos f : healthy f → healthy (set_pos pos f).
Proof. done. Qed.
#[export] Hint Resolve healthy_file_of healthy_set_data healthy_set_pos : core.

Lemma file_WriteAt_healthy bs off f :
  healthy f → 0 ≤ off → file_WriteAt bs off f = (set_data (write_at (f_data f) off bs) f, Ret tt).
Proof.
  intros Hf Hoff. unfold file_WriteAt. rewrite (proj1 Hf). cbn [negb].
  rewrite decide_False by lia. by rewrite next_fault_healthy.
Qed.

Lemma file_Write_healthy bs f :
  healthy f → 0 ≤ f_pos f →
  file_Write bs f = (set_pos (f_pos f + zlen bs) (set_data (write_at (f_data f) (f_pos f) bs) f), Ret tt).
Proof. intros. unfold file_Write. by rewrite file_WriteAt_healthy by done. Qed.

Lemma file_Sync_healthy f : healthy f → file_Sync f = (f, Ret tt).
Proof. intros Hf. unfold file_Sync. rewrite (proj1 Hf). cbn [negb]. by rewrite next_fault_healthy. Qed.

Lemma file_Seek_healthy f pos : healthy f → 0 ≤ pos → file_Seek pos f = (set_pos pos f, Ret tt).
Proof. intros Hf ?. unfold file_Seek. rewrite (proj1 Hf). cbn [negb]. by rewrite decide_False by lia. Qed.

Lemma file_Truncate_shrink f n :
  healthy f → 0 ≤ n ≤ zlen (f_data f) →
  file_Truncate n f = (set_data (take (Z.to_nat n) (f_data f)) f, Ret tt).
Proof.
  intros Hf Hn. unfold file_Truncate. rewrite (proj1 Hf). cbn [negb].
  rewrite decide_False by lia. rewrite next_fault_healthy by done. cbv zeta.
  unfold zlen in Hn. replace (Z.to_nat n - length (f_data f))%nat with 0%nat by lia.
  cbn [replicate]. by rewrite app_nil_r.
Qed.

Lemma file_ReadAt_in f n off :
  f_open f = true → 0 ≤ off → off + n ≤ zlen (f_data f) →
  file_ReadAt f n off = Ret (sub (f_data f) off n).
Proof.
  intros Ho H1 H2. unfold file_ReadAt. rewrite Ho. cbn [negb].
  rewrite decide_False by lia. by rewrite decide_True by lia.
Qed.

(** Writing inside the file overwrites; writing at its end appends. *)
Lemma write_at_inside data off bs :
  0 ≤ off → off + zlen bs ≤ zlen data → write_at data off bs = copy_at data off bs.
Proof.
  unfold zlen. intros H1 H2. rewrite copy_at_in_bounds by (unfold zlen; lia).
  unfold write_at. destruct bs as [|b bs].
  { cbn [app]. unfold zlen. cbn [length Z.of_nat]. by rewrite Z.add_0_r, take_drop. }
  cbv zeta. replace (Z.to_nat off - length data)%nat with 0%nat by lia.
  cbn [replicate]. rewrite app_nil_r. unfold zlen. do 3 f_equal. lia.
Qed.

Lemma write_at_end data bs : write_at data (zlen data) bs = data ++ bs.
Proof.
  unfold write_at, zlen. destruct bs as [|b bs]; [by rewrite app_nil_r|].
  rewrite Nat2Z.id, Nat.sub_diag. cbn [replicate]. cbv zeta. rewrite app_nil_r.
  rewrite take_ge by lia. rewrite drop_ge by lia. by rewrite app_nil_r.
Qed.

(** Whatever is written, the bytes of the file outside the range stay. *)
Lemma write_at_lookup_other data off bs (i : nat) :
  0 ≤ off → Z.of_nat i < zlen data →
  Z.of_nat i < off ∨ off + zlen bs ≤ Z.of_nat i →
  write_at data off bs !! i = data !! i.
Proof.
  unfold write_at. intros Hoff Hi Hout. destruct bs as [|b bs]; [done|]. cbv zeta.
  set (d := data ++ _). unfold zlen in *.
  assert (Hd : d !! i = data !! i) by (apply lookup_app_l; lia).
  assert (Hl : length d = (length data + (Z.to_nat off - length data))%nat)
    by (unfold d; by rewrite length_app, length_replicate).
  rewrite <- Hd. destruct Hout as [Hlt|Hge].
  - rewrite lookup_app_l by (rewrite length_take; lia). by apply lookup_take_lt; lia.
  - rewrite lookup_app_r by (rewrite length_take; lia).
    rewrite length_take, lookup_app_r by lia. rewrite lookup_drop. f_equal. lia.
Qed.

Lemma zlen_write_at_ge data off bs : zlen data ≤ zlen (write_at data off bs).
Proof.
  unfold write_at. destruct bs as [|b bs]; [lia|]. cbv zeta. unfold zlen.
  rewrite !length_app, length_take, length_drop, length_app, length_replicate. lia.
Qed.

(** Under any fault a write keeps the bytes outside its range, and the file
    never shrinks. *)
Lemma file_WriteAt_preserves bs off f f' o (i : nat) :
  file_WriteAt bs off f = (f', o) → Z.of_nat i < zlen (f_data f) →
  Z.of_nat i < off ∨ off + zlen bs ≤ Z.of_nat i →
  f_data f' !! i = f_data f !! i ∧ zlen (f_data f) ≤ zlen (f_data f') ∧ f_open f' = f_open f.
Proof.
  unfold file_WriteAt. intros Hw Hi Hout. destruct (negb (f_open f)); [by simplify_eq|].
  case_decide; [by simplify_eq|].
  assert (Hf : f_open (next_fault f).2 = f_open f) by (unfold next_fault; by destruct (f_faults f)).
  destruct (next_fault f) as [[k|] g]; simplify_eq; cbn in *; split_and!; try done;
    try apply zlen_write_at_ge; apply write_at_lookup_other; try lia;
    unfold zlen in *; rewrite ?length_take; lia.
Qed.

Lemma file_Sync_data f f' o : file_Sync f = (f', o) → f_data f' = f_data f ∧ f_open f' = f_open f.
Proof.
  unfold file_Sync, next_fault. intros H.
  destruct (negb (f_open f)); [|destruct (f_faults f) as [|[] ?]]; by simplify_eq.
Qed.
