(* ===== verification/Tm.v ===== *)
(** Package [tm]: the transaction manager.  Transaction states live in the
    [.xid] file, one byte each behind an 8-byte counter
    ([xid.go], [transaction_manager.go], [mock_tm.go]). *)
From S2P Require Import Prelude.
From S2P Require Import Codec.
From S2P Require Import GoFile.
Local Open Scope Z_scope.

(** * xid.go *)

Notation XID := Z (only parsing).
Definition LEN_XID : Z := LEN_UUID.
Definition SUPER_XID : XID := 0.

Definition PutXID (buf : list byte) (xid : XID) : list byte := PutUUID buf xid.
Definition ParseXID (raw : list byte) : outcome XID := ParseUUID raw.
Definition XIDToRaw (xid : XID) : list byte := UUIDToRaw xid.

(** * transaction_manager.go *)

Definition _XID_FILE_HEADER_SIZE : Z := LEN_XID.
Definition XID_FIELD_SIZE : Z := 1.
Definition FIELD_TRAN_ACTIVE : byte := Byte.x00.
Definition FIELD_TRAN_COMMITTED : byte := Byte.x01.
Definition FIELD_TRAN_ABORTED : byte := Byte.x02.

Record transactionManager := mkTM { tm_file : file; xidCounter : XID }.

Definition on_file {A} : M file A → M transactionManager A :=
  zoom tm_file (λ f t, mkTM f (xidCounter t)).

Definition xidPosition (xid : XID) : Z * Z :=
  let offset := i64 (_XID_FILE_HEADER_SIZE + i64 (i64 (u64 (xid - 1)) * XID_FIELD_SIZE)) in
  (i64 offset, XID_FIELD_SIZE).

Definition updateXID (xid : XID) (status : byte) : M transactionManager unit :=
  let '(offset, length) := xidPosition xid in
  let tmp := <[0%nat := status]> (make_bytes length) in
  _ ← on_file (file_WriteAt tmp offset);
  on_file file_Sync.

Definition incrXIDCounter : M transactionManager unit :=
  _ ← modify (λ t, mkTM (tm_file t) (u64 (xidCounter t + 1)));
  t ← get;
  let buf := Uint64ToRaw (xidCounter t) in
  _ ← on_file (file_WriteAt buf 0);
  on_file file_Sync.

Definition Begin : M transactionManager XID :=
  t ← get;
  let xid := u64 (xidCounter t + 1) in
  _ ← updateXID xid FIELD_TRAN_ACTIVE;
  _ ← incrXIDCounter;
  mret xid.

Definition Commit (xid : XID) : M transactionManager unit := updateXID xid FIELD_TRAN_COMMITTED.

Definition Abort (xid : XID) : M transactionManager unit := updateXID xid FIELD_TRAN_ABORTED.

Definition checkXID (t : transactionManager) (xid : XID) (status : byte) : bool :=
  let '(offset, length) := xidPosition xid in
  match file_ReadAt (tm_file t) length offset with
  | Ret tmp => bool_decide (tmp !! 0%nat = Some status)
  | _ => false
  end.

Definition IsActive (t : transactionManager) (xid : XID) : bool :=
  if decide (xid = SUPER_XID) then false else checkXID t xid FIELD_TRAN_ACTIVE.

Definition IsCommitted (t : transactionManager) (xid : XID) : bool :=
  if decide (xid = SUPER_XID) then true else checkXID t xid FIELD_TRAN_COMMITTED.

Definition IsAborted (t : transactionManager) (xid : XID) : bool :=
  if decide (xid = SUPER_XID) then true else checkXID t xid FIELD_TRAN_ABORTED.

Definition checkXIDCounter : M transactionManager unit :=
  t ← get;
  size ← lift (file_Stat (tm_file t));
  if decide (size < _XID_FILE_HEADER_SIZE) then fail ErrBadXIDFile
  else
    header ← lift (file_ReadAt (tm_file t) _XID_FILE_HEADER_SIZE 0);
    counter ← lift (ParseUUID header);
    _ ← modify (λ t, mkTM (tm_file t) counter);
    let '(end_, _) := xidPosition (u64 (counter + 1)) in
    if decide (end_ ≠ size) then fail ErrBadXIDFile else mret tt.

Definition newTransactionManager (f : file) : outcome transactionManager :=
  match checkXIDCounter (mkTM f 0) with
  | (tm, Ret _) => Ret tm
  | (_, Err e) => Err e
  | (_, Panic) => Panic
  | (_, OutOfFuel) => OutOfFuel
  end.

(** [opened] is what [os.OpenFile] returned: for [Create] the truncated file,
    for [Open] the existing one. *)
Definition Create (opened : outcome file) : outcome transactionManager :=
  f ← opened;
  let xidCounterInit := make_bytes LEN_XID in
  match file_WriteAt xidCounterInit 0 f with
  | (f', Ret _) => newTransactionManager f'
  | (_, Err e) => Err e
  | (_, Panic) => Panic
  | (_, OutOfFuel) => OutOfFuel
  end.

Definition Open (opened : outcome file) : outcome transactionManager :=
  f ← opened; newTransactionManager f.

Definition Close : M transactionManager unit := on_file file_Close.

(** * mock_tm.go *)

Inductive MockTranManager := mkMock.

(** * The interface [TransactionManager] *)

Class TransactionManager (T : Type) := {
  tm_Begin : M T XID;
  tm_Commit : XID → M T unit;
  tm_Abort : XID → M T unit;
  tm_IsActive : T → XID → bool;
  tm_IsCommitted : T → XID → bool;
  tm_IsAborted : T → XID → bool
}.

#[export] Instance transactionManager_impl : TransactionManager transactionManager := {|
  tm_Begin := Begin; tm_Commit := Commit; tm_Abort := Abort;
  tm_IsActive := IsActive; tm_IsCommitted := IsCommitted; tm_IsAborted := IsAborted
|}.

#[export] Instance MockTranManager_impl : TransactionManager MockTranManager := {|
  tm_Begin := mret 0; tm_Commit _ := mret tt; tm_Abort _ := mret tt;
  tm_IsActive _ _ := false; tm_IsCommitted _ _ := false; tm_IsAborted _ _ := false
|}.

(** * The abstract transaction table *)

Inductive status := Active | Committed | Aborted.
#[export] Instance status_eq_dec : EqDecision status.
Proof. solve_decision. Defined.

(** The largest XID whose position still fits [int64]. *)
Definition XID_LIMIT : Z := 2 ^ 63 - 9.

(** What the clients of the interface rely on: a manager represents the list
    of the states of transactions 1, 2, ...; [Begin] appends an active one,
    [Commit] and [Abort] set the state of an existing one, the queries read it. *)
Class TransactionManagerOk (T : Type) `{!TransactionManager T} := {
  tm_rep : T → list status → Prop;
  tm_Begin_ok t sts :
    tm_rep t sts → zlen sts < XID_LIMIT →
    ∃ t', tm_Begin t = (t', Ret (zlen sts + 1)) ∧ tm_rep t' (sts ++ [Active]);
  tm_Commit_ok t sts xid :
    tm_rep t sts → 1 ≤ xid ≤ zlen sts →
    ∃ t', tm_Commit xid t = (t', Ret tt) ∧ tm_rep t' (<[Z.to_nat (xid - 1) := Committed]> sts);
  tm_Abort_ok t sts xid :
    tm_rep t sts → 1 ≤ xid ≤ zlen sts →
    ∃ t', tm_Abort xid t = (t', Ret tt) ∧ tm_rep t' (<[Z.to_nat (xid - 1) := Aborted]> sts);
  tm_IsActive_ok t sts xid :
    tm_rep t sts → 1 ≤ xid ≤ XID_LIMIT →
    tm_IsActive t xid = bool_decide (sts !! Z.to_nat (xid - 1) = Some Active);
  tm_IsCommitted_ok t sts xid :
    tm_rep t sts → 1 ≤ xid ≤ XID_LIMIT →
    tm_IsCommitted t xid = bool_decide (sts !! Z.to_nat (xid - 1) = Some Committed);
  tm_IsCommitted_super t : tm_IsCommitted t SUPER_XID = true;
  tm_IsActive_super t : tm_IsActive t SUPER_XID = false
}.

Definition status_byte (s : status) : byte :=
  match s with
  | Active => FIELD_TRAN_ACTIVE
  | Committed => FIELD_TRAN_COMMITTED
  | Aborted => FIELD_TRAN_ABORTED
  end.

(** The file of a manager that has [sts]: the counter, then the states. *)
Definition xid_image (sts : list status) : list byte :=
  Uint64ToRaw (zlen sts) ++ (status_byte <$> sts).

Definition tm_repr (t : transactionManager) (sts : list status) : Prop :=
  healthy (tm_file t) ∧ zlen sts ≤ XID_LIMIT ∧ xidCounter t = zlen sts ∧
  f_data (tm_file t) = xid_image sts.

(** * Lemmas *)

Lemma xidPosition_val xid : 1 ≤ xid ≤ XID_LIMIT + 1 → xidPosition xid = (7 + xid, 1).
Proof.
  unfold xidPosition, XID_LIMIT, _XID_FILE_HEADER_SIZE, LEN_XID, LEN_UUID, XID_FIELD_SIZE.
  intros. cbv zeta. rewrite u64_id by lia. rewrite (i64_id (xid - 1)), Z.mul_1_r by lia.
  rewrite !(i64_id (xid - 1)) by lia. rewrite !(i64_id (8 + _)) by (rewrite ?i64_id; lia).
  f_equal. lia.
Qed.

Lemma status_byte_inj : Inj (=) (=) status_byte.
Proof. intros [] []; done. Qed.
#[export] Existing Instance status_byte_inj.

Lemma zlen_fmap {A B} (f : A → B) l : zlen (f <$> l) = zlen l.
Proof. unfold zlen. by rewrite length_fmap. Qed.

Lemma zlen_xid_image sts : zlen (xid_image sts) = 8 + zlen sts.
Proof. unfold xid_image, Uint64ToRaw. by rewrite zlen_app, zlen_be_bytes, zlen_fmap. Qed.

Lemma lookup_xid_image sts xid :
  1 ≤ xid → xid_image sts !! Z.to_nat (7 + xid) = status_byte <$> sts !! Z.to_nat (xid - 1).
Proof.
  intros. unfold xid_image, Uint64ToRaw. rewrite lookup_app_r by (rewrite length_be_bytes; lia).
  rewrite length_be_bytes, list_lookup_fmap. do 2 f_equal. lia.
Qed.

(** Overwriting one state, and appending one. *)
Lemma xid_image_set sts xid s :
  1 ≤ xid ≤ zlen sts →
  write_at (xid_image sts) (7 + xid) [status_byte s] =
    xid_image (<[Z.to_nat (xid - 1) := s]> sts).
Proof.
  intros H. pose proof (zlen_xid_image sts) as Hl.
  rewrite write_at_inside by zlen_lia.
  assert (Hlen : length (<[Z.to_nat (xid - 1) := s]> sts) = length sts) by apply length_insert.
  apply list_eq. intros i. destruct (decide (Z.of_nat i < zlen (xid_image sts))).
  2: { rewrite !lookup_ge_None_2; [done|..].
       - pose proof (zlen_xid_image (<[Z.to_nat (xid - 1) := s]> sts)). unfold zlen in *. lia.
       - unfold zlen in *. pose proof (zlen_copy_at (xid_image sts) (7 + xid) [status_byte s]).
         unfold zlen in *. lia. }
  rewrite lookup_copy_at by lia. rewrite zlen_cons, zlen_nil. unfold xid_image, Uint64ToRaw.
  destruct (decide (i < 8)%nat).
  { rewrite decide_False by lia. rewrite !lookup_app_l by (by rewrite length_be_bytes).
    unfold zlen. by rewrite Hlen. }
  rewrite !(lookup_app_r (be_bytes 8 _)) by (rewrite length_be_bytes; lia).
  rewrite !length_be_bytes, !list_lookup_fmap.
  case_decide.
  - replace (i - 8)%nat with (Z.to_nat (xid - 1)) by lia.
    rewrite list_lookup_insert_eq by (unfold zlen in *; lia).
    replace (i - Z.to_nat (7 + xid))%nat with 0%nat by lia. done.
  - rewrite list_lookup_insert_ne by lia. done.
Qed.

Lemma xid_image_app sts s :
  write_at (write_at (xid_image sts) (7 + (zlen sts + 1)) [status_byte s]) 0
    (Uint64ToRaw (zlen sts + 1)) = xid_image (sts ++ [s]).
Proof.
  replace (7 + (zlen sts + 1)) with (zlen (xid_image sts)) by (rewrite zlen_xid_image; lia).
  rewrite write_at_end. pose proof (zlen_nonneg sts). pose proof (zlen_xid_image sts).
  unfold Uint64ToRaw.
  rewrite write_at_inside by zlen_lia.
  rewrite copy_at_in_bounds by zlen_lia.
  change (take (Z.to_nat 0) _) with (@nil byte). cbn [app].
  rewrite zlen_be_bytes. unfold xid_image, Uint64ToRaw. rewrite <- app_assoc.
  change (Z.to_nat (0 + Z.of_nat 8)) with 8%nat.
  rewrite drop_app_length' by (by rewrite length_be_bytes).
  rewrite fmap_app, zlen_app. done.
Qed.

Definition with_data (t : transactionManager) (data : list byte) (counter : XID) : transactionManager :=
  mkTM (set_data data (tm_file t)) counter.

Lemma updateXID_run t xid b :
  healthy (tm_file t) → 1 ≤ xid ≤ XID_LIMIT + 1 →
  updateXID xid b t =
    (with_data t (write_at (f_data (tm_file t)) (7 + xid) [b]) (xidCounter t), Ret tt).
Proof.
  intros Hh Hx. unfold updateXID. rewrite xidPosition_val by lia.
  unfold on_file. run_M. rewrite file_WriteAt_healthy by (done || lia). cbn.
  rewrite file_Sync_healthy by done. done.
Qed.

Lemma incrXIDCounter_run t :
  healthy (tm_file t) →
  incrXIDCounter t =
    (with_data t (write_at (f_data (tm_file t)) 0 (Uint64ToRaw (u64 (xidCounter t + 1))))
       (u64 (xidCounter t + 1)), Ret tt).
Proof.
  intros Hh. unfold incrXIDCounter, on_file. run_M. cbn [tm_file xidCounter].
  rewrite file_WriteAt_healthy by (done || lia). cbn [tm_file xidCounter].
  by rewrite file_Sync_healthy by done.
Qed.

Lemma Begin_run t sts :
  tm_repr t sts → zlen sts < XID_LIMIT →
  Begin t = (with_data t (xid_image (sts ++ [Active])) (zlen sts + 1), Ret (zlen sts + 1)).
Proof.
  intros (Hh & Hl & Hc & Hd) Hlt. pose proof (zlen_nonneg sts).
  unfold Begin. unfold get. run_M. rewrite Hc. rewrite u64_id by (unfold XID_LIMIT in *; lia).
  rewrite updateXID_run by (done || lia). cbv beta iota.
  rewrite incrXIDCounter_run by done. cbn [with_data tm_file xidCounter set_data f_data].
  rewrite Hc, u64_id by (unfold XID_LIMIT in *; lia).
  rewrite Hd. change FIELD_TRAN_ACTIVE with (status_byte Active).
  rewrite xid_image_app. done.
Qed.

Lemma updateXID_repr t sts xid s :
  tm_repr t sts → 1 ≤ xid ≤ zlen sts →
  ∃ t', updateXID xid (status_byte s) t = (t', Ret tt) ∧
        tm_repr t' (<[Z.to_nat (xid - 1) := s]> sts).
Proof.
  intros (Hh & Hl & Hc & Hd) Hx. rewrite updateXID_run by (done || lia).
  eexists. split; [done|]. rewrite Hd, xid_image_set by done.
  split; [done|]. unfold zlen in *. rewrite length_insert. done.
Qed.

Lemma checkXID_repr t sts xid s :
  tm_repr t sts → 1 ≤ xid ≤ XID_LIMIT →
  checkXID t xid (status_byte s) = bool_decide (sts !! Z.to_nat (xid - 1) = Some s).
Proof.
  intros (Hh & Hl & Hc & Hd) Hx. unfold checkXID. rewrite xidPosition_val by lia.
  unfold file_ReadAt. rewrite (proj1 Hh). cbn [negb]. rewrite decide_False by lia.
  rewrite Hd, zlen_xid_image. case_decide as Hin.
  - apply bool_decide_ext. rewrite lookup_sub by lia. rewrite decide_True by lia.
    rewrite Nat.add_0_r, lookup_xid_image by lia.
    destruct (sts !! _); cbn; [|done]. split; [intros [= ?%(inj status_byte)]|]; congruence.
  - symmetry. apply bool_decide_eq_false_2. rewrite lookup_ge_None_2; [done|].
    unfold zlen in *. lia.
Qed.

#[export] Program Instance transactionManager_ok : TransactionManagerOk transactionManager := {|
  tm_rep := tm_repr
|}.
Next Obligation.
  intros t sts Hr Hlt. cbn. rewrite (Begin_run t sts) by done. eexists; split; [done|].
  destruct Hr as (Hh & Hl & Hc & Hd).
  split; [done|]. cbn. split_and!; [zlen_lia|zlen_lia|done].
Qed.
Next Obligation. intros t sts xid. apply (updateXID_repr t sts xid Committed). Qed.
Next Obligation. intros t sts xid. apply (updateXID_repr t sts xid Aborted). Qed.
Next Obligation.
  intros t sts xid Hr Hx. cbn. unfold IsActive, SUPER_XID. rewrite decide_False by lia.
  by apply (checkXID_repr t sts xid Active).
Qed.
Next Obligation.
  intros t sts xid Hr Hx. cbn. unfold IsCommitted, SUPER_XID. rewrite decide_False by lia.
  by apply (checkXID_repr t sts xid Committed).
Qed.
Next Obligation. done. Qed.
Next Obligation. done. Qed.

Lemma Open_Ret f : Open (Ret f) = newTransactionManager f.
Proof. done. Qed.

(** Loading, on any file that is open. *)
Lemma newTransactionManager_run f :
  f_open f = true →
  newTransactionManager f =
    let d := f_data f in let c := be_value (take 8 d) in
    if decide (zlen d < 8) then Err ErrBadXIDFile
    else if decide ((xidPosition (u64 (c + 1))).1 ≠ zlen d) then Err ErrBadXIDFile
    else Ret (mkTM f c).
Proof.
  intros Ho. unfold newTransactionManager, checkXIDCounter. run_M. cbn [tm_file].
  unfold file_Stat, file_Size. rewrite Ho. cbv beta iota zeta.
  unfold _XID_FILE_HEADER_SIZE, LEN_XID, LEN_UUID. case_decide as Hs; [done|].
  rewrite file_ReadAt_in by (done || lia). cbv beta iota.
  assert (H8 : sub (f_data f) 0 8 = take 8 (f_data f)) by done.
  rewrite H8. unfold ParseUUID, ParseUint64, GetUint64.
  assert (H8' : zlen (take 8 (f_data f)) = 8) by (rewrite <- H8; apply zlen_sub; lia).
  rewrite get_be_ge by lia. rewrite take_take. cbn [Nat.min]. cbv beta iota.
  destruct (xidPosition _) as [end_ len]. cbn [fst]. by case_decide.
Qed.

Lemma be_value_xid_image sts rest :
  zlen sts ≤ XID_LIMIT → be_value (take 8 (xid_image sts ++ rest)) = zlen sts.
Proof.
  intros Hl. pose proof (zlen_nonneg sts). unfold xid_image. rewrite <- app_assoc.
  rewrite (take_app_length' (Uint64ToRaw _)) by done.
  unfold Uint64ToRaw. rewrite be_value_be_bytes. apply Z.mod_small.
  unfold XID_LIMIT in *. cbn. lia.
Qed.

Lemma newTransactionManager_repr sts :
  zlen sts ≤ XID_LIMIT →
  ∃ t, newTransactionManager (file_of (xid_image sts)) = Ret t ∧ tm_repr t sts.
Proof.
  intros Hl. pose proof (zlen_nonneg sts) as Hn. pose proof (zlen_xid_image sts) as Hz.
  exists (mkTM (file_of (xid_image sts)) (zlen sts)). split; [|by split_and!].
  rewrite newTransactionManager_run by done. cbn [f_data file_of]. cbv zeta.
  rewrite decide_False by lia.
  pose proof (be_value_xid_image sts []) as Hv. rewrite app_nil_r in Hv. rewrite Hv by done.
  unfold XID_LIMIT in *. rewrite u64_id by lia.
  rewrite xidPosition_val by (unfold XID_LIMIT; lia). cbn [fst]. by rewrite decide_False by lia.
Qed.

(** * Runs of operations against the abstract table *)

Inductive tm_op := OpBegin | OpCommit (xid : XID) | OpAbort (xid : XID) | OpReopen.

(** [None]: the operation names a transaction that was never begun, or the
    table is full. *)
Definition abs_step (sts : list status) (op : tm_op) : option (list status) :=
  let set_status xid s :=
    if decide (1 ≤ xid ≤ zlen sts) then Some (<[Z.to_nat (xid - 1) := s]> sts) else None in
  match op with
  | OpBegin => if decide (zlen sts < XID_LIMIT) then Some (sts ++ [Active]) else None
  | OpCommit xid => set_status xid Committed
  | OpAbort xid => set_status xid Aborted
  | OpReopen => Some sts
  end.

Fixpoint abs_run (sts : list status) (ops : list tm_op) : option (list status) :=
  match ops with
  | [] => Some sts
  | op :: ops' => sts' ← abs_step sts op; abs_run sts' ops'
  end.

(** The same operations on the implementation; [OpReopen] loads a new manager
    from the bytes the file has. *)
Definition tm_step (t : transactionManager) (op : tm_op) : outcome transactionManager :=
  let done {A} (r : transactionManager * outcome A) : outcome transactionManager :=
    let '(t', o) := r in _ ← o; Ret t' in
  match op with
  | OpBegin => done (Begin t)
  | OpCommit xid => done (Commit xid t)
  | OpAbort xid => done (Abort xid t)
  | OpReopen => Open (Ret (file_of (f_data (tm_file t))))
  end.

Fixpoint tm_run (t : transactionManager) (ops : list tm_op) : outcome transactionManager :=
  match ops with
  | [] => Ret t
  | op :: ops' => t' ← tm_step t op; tm_run t' ops'
  end.

Lemma tm_step_refines t sts op sts' :
  tm_repr t sts → abs_step sts op = Some sts' → ∃ t', tm_step t op = Ret t' ∧ tm_repr t' sts'.
Proof.
  intros Hr Ha. destruct op as [|xid|xid|]; cbn in Ha; repeat case_decide; simplify_eq; cbn.
  - destruct (tm_Begin_ok t sts) as (t' & Hb & Hr'); [done|done|]. cbn in Hb.
    rewrite Hb. cbn. eauto.
  - destruct (tm_Commit_ok t sts xid) as (t' & Hb & Hr'); [done|done|]. cbn in Hb.
    rewrite Hb. cbn. eauto.
  - destruct (tm_Abort_ok t sts xid) as (t' & Hb & Hr'); [done|done|]. cbn in Hb.
    rewrite Hb. cbn. eauto.
  - destruct Hr as (_ & Hl & _ & ->). by apply newTransactionManager_repr.
Qed.

Lemma tm_run_refines t sts ops sts' :
  tm_repr t sts → abs_run sts ops = Some sts' → ∃ t', tm_run t ops = Ret t' ∧ tm_repr t' sts'.
Proof.
  revert t sts. induction ops as [|op ops IH]; intros t sts Hr Ha; cbn in *.
  { simplify_eq. eauto. }
  destruct (abs_step sts op) as [sts1|] eqn:Es; [|done]. cbn in Ha.
  destruct (tm_step_refines t sts op sts1) as (t1 & -> & Hr1); [done|done|]. cbn. eauto.
Qed.

Lemma Create_repr : ∃ t, Create (Ret (file_of [])) = Ret t ∧ tm_repr t [].
Proof.
  destruct (newTransactionManager_repr []) as (t & Ht & Hr); [done|]. exists t. split; [|done].
  rewrite <- Ht. reflexivity.
Qed.

Lemma tm_repr_queries t sts xid :
  tm_repr t sts → 1 ≤ xid ≤ XID_LIMIT →
  IsActive t xid = bool_decide (sts !! Z.to_nat (xid - 1) = Some Active) ∧
  IsCommitted t xid = bool_decide (sts !! Z.to_nat (xid - 1) = Some Committed) ∧
  IsAborted t xid = bool_decide (sts !! Z.to_nat (xid - 1) = Some Aborted).
Proof.
  intros Hr Hx. split_and!.
  - exact (tm_IsActive_ok t sts xid Hr Hx).
  - exact (tm_IsCommitted_ok t sts xid Hr Hx).
  - unfold IsAborted, SUPER_XID. rewrite decide_False by lia. by apply (checkXID_repr t sts xid Aborted).
Qed.

(** The state region of a file that only lost or gained bytes elsewhere. *)
Lemma checkXID_ext t t' xid b :
  f_open (tm_file t') = f_open (tm_file t) → 1 ≤ xid ≤ XID_LIMIT →
  7 + xid < zlen (f_data (tm_file t)) → zlen (f_data (tm_file t)) ≤ zlen (f_data (tm_file t')) →
  f_data (tm_file t') !! Z.to_nat (7 + xid) = f_data (tm_file t) !! Z.to_nat (7 + xid) →
  checkXID t' xid b = checkXID t xid b.
Proof.
  intros Ho Hx H1 H2 Hl. unfold checkXID. rewrite xidPosition_val by lia. unfold file_ReadAt.
  rewrite Ho. destruct (f_open (tm_file t)); [|done]. cbn [negb].
  rewrite !(decide_False (P := 7 + xid < 0)) by lia. rewrite !decide_True by lia.
  apply bool_decide_ext. rewrite !lookup_sub by lia. rewrite decide_True by lia.
  by rewrite !Nat.add_0_r, Hl.
Qed.

(** Writing one range and syncing, with any fault, in terms of a file. *)
Lemma on_file_write_preserves bs off t t' (o : outcome unit) (i : nat) :
  (_ ← on_file (file_WriteAt bs off); on_file file_Sync) t = (t', o) →
  Z.of_nat i < zlen (f_data (tm_file t)) → Z.of_nat i < off ∨ off + zlen bs ≤ Z.of_nat i →
  f_data (tm_file t') !! i = f_data (tm_file t) !! i ∧
  zlen (f_data (tm_file t)) ≤ zlen (f_data (tm_file t')) ∧
  f_open (tm_file t') = f_open (tm_file t) ∧ xidCounter t' = xidCounter t.
Proof.
  unfold on_file. run_M. intros H Hi Hout.
  destruct (file_WriteAt bs off (tm_file t)) as [f1 o1] eqn:E1.
  destruct (file_WriteAt_preserves _ _ _ _ _ i E1) as (A1 & A2 & A3); [done..|].
  destruct o1; simplify_eq; cbn in *; try done.
  destruct (file_Sync f1) as [f2 o2] eqn:E2. apply file_Sync_data in E2 as [D1 D2].
  simplify_eq. cbn. rewrite D1, D2. done.
Qed.

(** [Begin] touches the byte of the new transaction and the counter, whatever
    the disk does; states of older transactions are never at risk. *)
Lemma Begin_preserves t t' o xid b :
  Begin t = (t', o) → 0 ≤ xidCounter t ≤ XID_LIMIT →
  1 ≤ xid ≤ xidCounter t → 7 + xid < zlen (f_data (tm_file t)) →
  checkXID t' xid b = checkXID t xid b.
Proof.
  intros HB Hc Hx Hlen. unfold Begin, get in HB. run_M.
  rewrite u64_id in HB by (unfold XID_LIMIT in *; lia).
  destruct (updateXID _ _ t) as [t1 o1] eqn:E1.
  unfold updateXID in E1. rewrite xidPosition_val in E1 by lia.
  apply (on_file_write_preserves _ _ _ _ _ (Z.to_nat (7 + xid))) in E1 as (D1 & L1 & O1 & C1);
    [|lia|left; lia].
  assert (Ht1 : checkXID t1 xid b = checkXID t xid b) by (apply checkXID_ext; done || lia).
  destruct o1; simplify_eq; try done.
  destruct (incrXIDCounter t1) as [t2 o2] eqn:E2.
  assert (Hb : t' = t2) by (destruct o2; by simplify_eq). subst t'.
  unfold incrXIDCounter in E2. unfold modify, get in E2. cbv beta delta [mbind M_bind] in E2. cbn in E2.
  apply (on_file_write_preserves _ _ _ _ _ (Z.to_nat (7 + xid))) in E2 as (D2 & L2 & O2 & C2);
    cbn in *; [|lia|right; unfold Uint64ToRaw; zlen_lia].
  rewrite <- Ht1. apply checkXID_ext; cbn; congruence || lia.
Qed.

(** * Properties *)

(** C7: from a created file, every sequence of [Begin], [Commit], [Abort] and
    restarts that the abstract table allows runs without error, and afterwards
    [IsActive], [IsCommitted] and [IsAborted] of every transaction answer what
    the abstract table says; restarting the manager loses nothing. *)
Theorem tm_refines_table ops sts :
  abs_run [] ops = Some sts →
  ∃ t0 t, Create (Ret (file_of [])) = Ret t0 ∧ tm_run t0 ops = Ret t ∧
    xidCounter t = zlen sts ∧
    ∀ xid, 1 ≤ xid ≤ XID_LIMIT →
      IsActive t xid = bool_decide (sts !! Z.to_nat (xid - 1) = Some Active) ∧
      IsCommitted t xid = bool_decide (sts !! Z.to_nat (xid - 1) = Some Committed) ∧
      IsAborted t xid = bool_decide (sts !! Z.to_nat (xid - 1) = Some Aborted).
Proof.
  intros Ha. destruct Create_repr as (t0 & H0 & Hr0).
  destruct (tm_run_refines t0 [] ops sts) as (t & Ht & Hr); [done|done|].
  exists t0, t. split_and!; [done|done|apply Hr|]. intros xid Hx. by apply tm_repr_queries.
Qed.

Lemma tm_refines_table_witness :
  ∃ t0 t, Create (Ret (file_of [])) = Ret t0 ∧
    tm_run t0 [OpBegin; OpBegin; OpCommit 1; OpReopen; OpAbort 2; OpBegin] = Ret t ∧
    xidCounter t = zlen [Committed; Aborted; Active] ∧
    ∀ xid, 1 ≤ xid ≤ XID_LIMIT →
      IsActive t xid = bool_decide ([Committed; Aborted; Active] !! Z.to_nat (xid - 1) = Some Active) ∧
      IsCommitted t xid = bool_decide ([Committed; Aborted; Active] !! Z.to_nat (xid - 1) = Some Committed) ∧
      IsAborted t xid = bool_decide ([Committed; Aborted; Active] !! Z.to_nat (xid - 1) = Some Aborted).
Proof. apply tm_refines_table. vm_compute. reflexivity. Defined.

(** C8: a crash between the two writes of [Begin] (the state byte is on disk,
    the counter is not) leaves a file that [Open] rejects: the length check of
    [checkXIDCounter] no longer matches the header, so one unfinished [Begin]
    makes the whole database refuse to start. *)
Theorem Begin_crash_bad_file t sts :
  tm_repr t sts → zlen sts < XID_LIMIT →
  ∃ t1, updateXID (zlen sts + 1) FIELD_TRAN_ACTIVE t = (t1, Ret tt) ∧
    Open (Ret (file_of (f_data (tm_file t1)))) = Err ErrBadXIDFile.
Proof.
  intros (Hh & Hl & Hc & Hd) Hlt. pose proof (zlen_nonneg sts). pose proof (zlen_xid_image sts) as Hz.
  rewrite updateXID_run by (done || lia). eexists; split; [done|].
  cbn [with_data tm_file set_data f_data]. rewrite Open_Ret.
  rewrite newTransactionManager_run by done. cbn [f_data file_of]. cbv zeta. rewrite Hd.
  replace (7 + (zlen sts + 1)) with (zlen (xid_image sts)) by lia. rewrite write_at_end.
  rewrite decide_False by zlen_lia. rewrite be_value_xid_image by lia.
  rewrite u64_id, xidPosition_val by (unfold XID_LIMIT in *; lia). cbn [fst].
  by rewrite decide_True by zlen_lia.
Qed.

Lemma Begin_crash_bad_file_witness :
  ∃ t1, updateXID 1 FIELD_TRAN_ACTIVE (mkTM (file_of (make_bytes 8)) 0) = (t1, Ret tt) ∧
    Open (Ret (file_of (f_data (tm_file t1)))) = Err ErrBadXIDFile.
Proof.
  apply (Begin_crash_bad_file (mkTM (file_of (make_bytes 8)) 0) []); [|done].
  split_and!; try done.
Defined.

(** [Open] accepts an existing [.xid] file exactly when its length is the
    8-byte header plus one byte per transaction the header counts. *)
Theorem Open_accepts d :
  zlen d ≤ XID_LIMIT + 8 →
  is_Ret (Open (Ret (file_of d))) = bool_decide (8 ≤ zlen d ∧ zlen d = 8 + be_value (take 8 d)).
Proof.
  intros Hl. rewrite Open_Ret, newTransactionManager_run by done.
  cbn [f_data file_of]. cbv zeta. case_decide as Hs.
  { symmetry. apply bool_decide_eq_false_2. lia. }
  set (c := be_value (take 8 d)). assert (Hc : 0 ≤ c < 2 ^ 64).
  { pose proof (be_value_range (take 8 d)) as Hr. fold c in Hr.
    replace (zlen (take 8 d)) with 8 in Hr by (unfold zlen in *; rewrite length_take; lia). lia. }
  assert (Hend : (xidPosition (u64 (c + 1))).1 = zlen d ↔ zlen d = 8 + c).
  { unfold xidPosition, _XID_FILE_HEADER_SIZE, LEN_XID, LEN_UUID, XID_FIELD_SIZE, XID_LIMIT in *.
    cbn [fst]. unfold u64, i64. rewrite Z.mul_1_r. Z.div_mod_to_equations. lia. }
  case_decide as He; symmetry; [apply bool_decide_eq_false_2|apply bool_decide_eq_true_2]; naive_solver lia.
Qed.

Lemma Open_accepts_witness :
  is_Ret (Open (Ret (file_of (xid_image [Committed; Active])))) =
  bool_decide (8 ≤ zlen (xid_image [Committed; Active]) ∧
               zlen (xid_image [Committed; Active]) = 8 + be_value (take 8 (xid_image [Committed; Active]))).
Proof. apply Open_accepts. vm_compute. done. Defined.

(** whatever the disk does during [Begin] (any write or sync fails, any
    prefix of a write reaches the file), the recorded state of every earlier
    transaction stays readable and unchanged. *)
Theorem Begin_fault_safe t faults sts xid b :
  tm_repr t sts → zlen sts < XID_LIMIT → 1 ≤ xid ≤ zlen sts →
  let t1 := mkTM (mkFile (f_data (tm_file t)) (f_pos (tm_file t)) true faults) (xidCounter t) in
  checkXID (Begin t1).1 xid b = checkXID t1 xid b.
Proof.
  intros (Hh & Hl & Hc & Hd) Hlt Hx t1. destruct (Begin t1) as [t' o] eqn:E. cbn [fst].
  apply (Begin_preserves t1 t' o); [done|..]; cbn [t1 xidCounter tm_file f_data]; rewrite ?Hc; try lia.
  rewrite Hd, zlen_xid_image. lia.
Qed.

Lemma Begin_fault_safe_witness :
  let t := mkTM (file_of (xid_image [Committed])) 1 in
  let t1 := mkTM (mkFile (xid_image [Committed]) 0 true [None; None; Some 3%nat]) 1 in
  (Begin t1).2 = Err ErrIO ∧ checkXID (Begin t1).1 1 FIELD_TRAN_COMMITTED = checkXID t1 1 FIELD_TRAN_COMMITTED.
Proof.
  cbv zeta. split; [vm_compute; reflexivity|].
  apply (Begin_fault_safe (mkTM (file_of (xid_image [Committed])) 1) [None; None; Some 3%nat] [Committed]);
    [split_and!; vm_compute; done|vm_compute; done|vm_compute; done].
Defined.
