(* ===== verification/LockTable.v ===== *)
(** Package [sm/locktable]: row locks, their wait queues and the deadlock check
    on the wait-for graph ([lock_table.go]).

    Every method of the table runs under its mutex, so a method is one step.
    Channels are cells of a small store: a waiter holds the identifier of its
    channel and may go on once the cell is filled. *)
From S2P Require Import Prelude.
From S2P Require Import Codec.
From stdpp Require Import relations.
Local Open Scope Z_scope.

(** * Data *)

(** A [chan struct{}] of capacity 1, by its identifier. *)
Abbreviation chan := nat (only parsing).

Record lockTable := mkLT {
  x2u : gmap UUID (list UUID);
  u2x : gmap UUID UUID;
  wait : gmap UUID (list UUID);
  waitCh : gmap UUID chan;
  xwaitu : gmap UUID UUID;
  (* the channels made so far: [true] holds a token *)
  chans : gmap chan bool;
  nextCh : chan
}.

Definition NewLockTable : lockTable := mkLT ∅ ∅ ∅ ∅ ∅ ∅ 0%nat.

Definition set_x2u m lt := mkLT m (u2x lt) (wait lt) (waitCh lt) (xwaitu lt) (chans lt) (nextCh lt).
Definition set_u2x m lt := mkLT (x2u lt) m (wait lt) (waitCh lt) (xwaitu lt) (chans lt) (nextCh lt).
Definition set_wait m lt := mkLT (x2u lt) (u2x lt) m (waitCh lt) (xwaitu lt) (chans lt) (nextCh lt).
Definition set_waitCh m lt := mkLT (x2u lt) (u2x lt) (wait lt) m (xwaitu lt) (chans lt) (nextCh lt).
Definition set_xwaitu m lt := mkLT (x2u lt) (u2x lt) (wait lt) (waitCh lt) m (chans lt) (nextCh lt).

(** [make(chan struct{}, 1)] *)
Definition make_chan : M lockTable chan := λ lt,
  (mkLT (x2u lt) (u2x lt) (wait lt) (waitCh lt) (xwaitu lt)
     (<[nextCh lt := false]> (chans lt)) (S (nextCh lt)), Ret (nextCh lt)).

(** [ch <- struct{}{}]; sending on a full channel blocks for good here, since
    the sender holds the mutex of the table. *)
Definition send (ch : chan) : M lockTable unit := λ lt,
  match chans lt !! ch with
  | Some false => (mkLT (x2u lt) (u2x lt) (wait lt) (waitCh lt) (xwaitu lt)
                     (<[ch := true]> (chans lt)) (nextCh lt), Ret tt)
  | _ => (lt, OutOfFuel)
  end.

(** * Lists in maps *)

Definition isInList (listMap : gmap UUID (list UUID)) (uid0 uid1 : UUID) : bool :=
  match listMap !! uid0 with
  | None => false
  | Some l => existsb (λ uid, bool_decide (uid = uid1)) l
  end.

Definition putIntoList (listMap : gmap UUID (list UUID)) (uid0 uid1 : UUID) : gmap UUID (list UUID) :=
  <[uid0 := default [] (listMap !! uid0) ++ [uid1]]> listMap.

(** The loop of [removeFromList]: the element [e] is not advanced when it is
    not the one to remove. *)
Fixpoint removeLoop (fuel : nat) (uid1 : UUID) (l : list UUID) : outcome (list UUID) :=
  match fuel with
  | O => OutOfFuel
  | S fuel' =>
      match l with
      | [] => Ret []
      | uid :: l' => if decide (uid = uid1) then Ret l' else removeLoop fuel' uid1 l
      end
  end.

Definition removeFromList (listMap : gmap UUID (list UUID)) (uid0 uid1 : UUID)
    : outcome (gmap UUID (list UUID)) :=
  match listMap !! uid0 with
  | None => Panic
  | Some l =>
      l' ← removeLoop (S (length l)) uid1 l;
      Ret (if decide (l' = []) then delete uid0 listMap else <[uid0 := l']> listMap)
  end.

(** * The deadlock check *)

Fixpoint dfs (fuel : nat) (lt : lockTable) (xid : UUID) (xidStamp : gmap UUID Z) (stamp : Z)
    : outcome (gmap UUID Z * bool) :=
  match fuel with
  | O => OutOfFuel
  | S fuel' =>
      if decide (xidStamp !! xid = Some stamp) then Ret (xidStamp, true)
      else if match xidStamp !! xid with Some stp => bool_decide (stp < stamp) | None => false end
      then Ret (xidStamp, false)
      else
        let xidStamp := <[xid := stamp]> xidStamp in
        match xwaitu lt !! xid with
        | None => Ret (xidStamp, false)
        | Some uid =>
            match u2x lt !! uid with
            | None => Panic (* utils.Assert(ok) *)
            | Some xid => dfs fuel' lt xid xidStamp stamp
            end
        end
  end.

(** Every call stamps a node that waits for something, except the last two. *)
Definition dfs_fuel (lt : lockTable) : nat := S (S (size (xwaitu lt))).

(** [order] is the order in which [range] visits the keys of [x2u]. *)
Fixpoint deadLockLoop (lt : lockTable) (order : list UUID) (xidStamp : gmap UUID Z) (stamp : Z)
    : outcome bool :=
  match order with
  | [] => Ret false
  | xid :: rest =>
      if decide (0 < default 0 (xidStamp !! xid)) then deadLockLoop lt rest xidStamp stamp
      else
        let stamp := stamp + 1 in
        '(xidStamp, found) ← dfs (dfs_fuel lt) lt xid xidStamp stamp;
        if (found : bool) then Ret true else deadLockLoop lt rest xidStamp stamp
  end.

Definition hasDeadLock (order : list UUID) (lt : lockTable) : outcome bool :=
  deadLockLoop lt order ∅ 1.

(** * Operations *)

Definition grant_now : M lockTable (bool * option chan) :=
  ch ← make_chan;
  _ ← send ch;
  mret (true, Some ch).

Definition Add (order : list UUID) (xid uid : UUID) : M lockTable (bool * option chan) :=
  lt ← get;
  if isInList (x2u lt) xid uid then grant_now
  else match u2x lt !! uid with
  | None =>
      _ ← modify (λ lt, set_u2x (<[uid := xid]> (u2x lt)) lt);
      _ ← modify (λ lt, set_x2u (putIntoList (x2u lt) xid uid) lt);
      grant_now
  | Some _ =>
      _ ← modify (λ lt, set_xwaitu (<[xid := uid]> (xwaitu lt)) lt);
      _ ← modify (λ lt, set_wait (putIntoList (wait lt) uid xid) lt);
      lt ← get;
      dead ← lift (hasDeadLock order lt);
      if (dead : bool) then
        _ ← modify (λ lt, set_xwaitu (delete xid (xwaitu lt)) lt);
        w ← lift (removeFromList (wait lt) uid xid);
        _ ← modify (set_wait w);
        mret (false, None)
      else
        ch ← make_chan;
        _ ← modify (λ lt, set_waitCh (<[xid := ch]> (waitCh lt)) lt);
        mret (true, Some ch)
  end.

(** The loop of [selectNewXID] over the queue [l]; the result is what is left
    of the queue. *)
Fixpoint selectLoop (uid : UUID) (l : list UUID) : M lockTable (list UUID) :=
  match l with
  | [] => mret []
  | xid :: l' =>
      lt ← get;
      match waitCh lt !! xid with
      | None => selectLoop uid l'
      | Some ch =>
          _ ← modify (λ lt, set_u2x (<[uid := xid]> (u2x lt)) lt);
          _ ← modify (λ lt, set_waitCh (delete xid (waitCh lt)) lt);
          _ ← modify (λ lt, set_xwaitu (delete xid (xwaitu lt)) lt);
          _ ← send ch;
          mret l'
      end
  end.

Definition selectNewXID (uid : UUID) : M lockTable unit :=
  _ ← modify (λ lt, set_u2x (delete uid (u2x lt)) lt);
  lt ← get;
  match wait lt !! uid with
  | None => mret tt
  | Some [] => crash (* utils.Assert(l.Len() > 0) *)
  | Some l =>
      l' ← selectLoop uid l;
      modify (λ lt, set_wait (if decide (l' = []) then delete uid (wait lt)
                              else <[uid := l']> (wait lt)) lt)
  end.

Fixpoint releaseAll (l : list UUID) : M lockTable unit :=
  match l with
  | [] => mret tt
  | uid :: l' => _ ← selectNewXID uid; releaseAll l'
  end.

Definition Remove (xid : UUID) : M lockTable unit :=
  lt ← get;
  _ ← match x2u lt !! xid with
      | None => mret tt
      | Some l => releaseAll l
      end;
  _ ← modify (λ lt, set_xwaitu (delete xid (xwaitu lt)) lt);
  _ ← modify (λ lt, set_x2u (delete xid (x2u lt)) lt);
  modify (λ lt, set_waitCh (delete xid (waitCh lt)) lt).

(** * The wait-for graph *)

(** The transaction that [x] waits for: the holder of the row it asked. *)
Definition next (lt : lockTable) (x : UUID) : option UUID := uid ← xwaitu lt !! x; u2x lt !! uid.

Definition edge (lt : lockTable) : relation UUID := λ x y, next lt x = Some y.

(** Someone on the way from [x] waits for itself: [x] can never go on. *)
Definition stuck (lt : lockTable) (x : UUID) : Prop :=
  ∃ y, rtc (edge lt) x y ∧ tc (edge lt) y y.

(** Every awaited row has a holder, so the assertion of [dfs] cannot fail. *)
Definition resolved (lt : lockTable) : Prop :=
  ∀ x uid, xwaitu lt !! x = Some uid → is_Some (u2x lt !! uid).

Lemma tc_mono {A} (R R' : relation A) x y : (∀ a b, R a b → R' a b) → tc R x y → tc R' x y.
Proof. intros HR. induction 1; [by apply tc_once, HR|by eapply tc_l; [apply HR|]]. Qed.

Lemma tc_target {A} (R : relation A) x y : tc R x y → ∃ v, R v y.
Proof. induction 1; eauto. Qed.

Section Graph.
Context (lt : lockTable).

Lemma sn_edge x y : edge lt x y → sn (edge lt) y → sn (edge lt) x.
Proof. intros He Hy. constructor. intros z Hz. cbn in Hz. unfold edge in *. congruence. Qed.

Lemma sn_end x : next lt x = None → sn (edge lt) x.
Proof. intros He. constructor. intros z Hz. cbn in Hz. unfold edge in *. congruence. Qed.

Lemma sn_tc x y : tc (edge lt) x y → sn (edge lt) y → sn (edge lt) x.
Proof. induction 1; eauto using sn_edge. Qed.

Lemma sn_rtc x y : sn (edge lt) x → rtc (edge lt) x y → sn (edge lt) y.
Proof. intros Hs Hr. revert Hs. induction Hr as [|x z y He Hr IH]; [done|]. intros [Hs]. by apply IH, Hs. Qed.

Lemma sn_irrefl x : sn (edge lt) x → ¬ tc (edge lt) x x.
Proof.
  induction 1 as [x _ IH]. intros Hc. inversion Hc as [? ? He|? y ? He Hc']; subst.
  - by apply (IH x).
  - apply (IH y); [done|]. by eapply tc_r.
Qed.

(** A transaction is stuck exactly when its chain of waits does not end. *)
Lemma sn_not_stuck x : sn (edge lt) x → ¬ stuck lt x.
Proof. intros Hs (y & Hxy & Hyy). eapply sn_irrefl; [by eapply sn_rtc|done]. Qed.

Lemma stuck_step x y : edge lt x y → stuck lt y → stuck lt x.
Proof. intros He (z & Hyz & Hzz). exists z. split; [by eapply rtc_l|done]. Qed.

(** Nodes that wait and carry no stamp: what [dfs] may still visit. *)
Definition unseen (st : gmap UUID Z) : gset UUID := filter (λ x, st !! x = None) (dom (xwaitu lt)).

Lemma unseen_insert st x stamp :
  x ∈ dom (xwaitu lt) → st !! x = None → (size (unseen (<[x := stamp]> st)) < size (unseen st))%nat.
Proof.
  intros Hx Hn. apply subset_size. unfold unseen. split.
  - intros z [Hz1 Hz2]%elem_of_filter. apply elem_of_filter. split; [|done].
    destruct (decide (x = z)); [by simplify_map_eq|]. by rewrite lookup_insert_ne in Hz1.
  - intros Hc. assert (Hx' : x ∈ unseen st) by (apply elem_of_filter; done).
    apply Hc in Hx'. apply elem_of_filter in Hx' as [H _]. by rewrite lookup_insert_eq in H.
Qed.

(** The stamps on entry of [dfs]: earlier searches found no cycle, and the
    nodes of this search lie on the way to [xid]. *)
Record dfs_inv (st : gmap UUID Z) (xid : UUID) (stamp : Z) : Prop := {
  inv_le : ∀ z stp, st !! z = Some stp → stp ≤ stamp;
  inv_old : ∀ z stp, st !! z = Some stp → stp < stamp → sn (edge lt) z;
  inv_path : ∀ z, st !! z = Some stamp → tc (edge lt) z xid
}.

Definition dfs_post (st : gmap UUID Z) (xid : UUID) (stamp : Z) (r : gmap UUID Z * bool) : Prop :=
  if r.2 then stuck lt xid
  else sn (edge lt) xid ∧
       ∀ z stp, r.1 !! z = Some stp → stp ≤ stamp ∧ (st !! z = Some stp ∨ stp = stamp ∧ sn (edge lt) z).

Lemma dfs_correct fuel st xid stamp :
  resolved lt → dfs_inv st xid stamp → (size (unseen st) < fuel)%nat →
  ∃ r, dfs fuel lt xid st stamp = Ret r ∧ dfs_post st xid stamp r.
Proof.
  intros Hres. revert st xid. induction fuel as [|fuel IH]; intros st xid [Hle Hold Hpath] Hf; [lia|].
  cbn [dfs]. case_decide as Hst.
  { eexists; split; [done|]. exists xid. split; [done|by apply Hpath]. }
  destruct (st !! xid) as [stp|] eqn:Ex.
  { pose proof (Hle _ _ Ex). assert (stp < stamp) by (destruct (decide (stp = stamp)); [congruence|lia]).
    rewrite bool_decide_eq_true_2 by done. eexists; split; [done|]. cbn. split; [by eapply Hold|eauto]. }
  destruct (xwaitu lt !! xid) as [uid|] eqn:Ew.
  2: { assert (Hs : sn (edge lt) xid) by (apply sn_end; unfold next; by rewrite Ew).
       eexists; split; [done|]. cbn. split; [done|].
       intros z stp [[<- <-]|[_ Hl]]%lookup_insert_Some; [|by eauto].
       split; [lia|by right]. }
  destruct (Hres xid uid Ew) as [y Hy]. rewrite Hy.
  assert (He : edge lt xid y) by (unfold edge, next; by rewrite Ew).
  destruct (IH (<[xid := stamp]> st) y) as (r & Hr & Hpost).
  - split.
    + intros z stp [[<- <-]|[_ Hl]]%lookup_insert_Some; [lia|by eapply Hle].
    + intros z stp [[<- <-]|[_ Hl]]%lookup_insert_Some; [lia|by eapply Hold].
    + intros z [[<- _]|[_ Hl]]%lookup_insert_Some; [by apply tc_once|by eapply tc_r; [apply Hpath|]].
  - pose proof (unseen_insert st xid stamp) as Hu. rewrite elem_of_dom in Hu.
    specialize (Hu ltac:(eauto) Ex). lia.
  - exists r. split; [done|]. destruct r as [st' []]; cbn in *; [by eapply stuck_step|].
    destruct Hpost as [Hs Hz]. assert (sn (edge lt) xid) by (by eapply sn_edge).
    split; [done|]. intros z stp Hl. destruct (Hz z stp Hl) as [Hle' Hor]. split; [done|].
    destruct Hor as [Hor|?]; [|by right].
    apply lookup_insert_Some in Hor as [[<- <-]|[_ Hor]]; [by right|by left].
Qed.

Lemma unseen_fuel st : (size (unseen st) < dfs_fuel lt)%nat.
Proof.
  unfold dfs_fuel. rewrite <- size_dom. assert (unseen st ⊆ dom (xwaitu lt)) as H%subseteq_size;
    [unfold unseen; set_solver|lia].
Qed.

Lemma deadLockLoop_correct order st stamp :
  resolved lt → 0 < stamp →
  (∀ z stp, st !! z = Some stp → 0 < stp ≤ stamp ∧ sn (edge lt) z) →
  ∃ b, deadLockLoop lt order st stamp = Ret b ∧
    if (b : bool) then ∃ x, x ∈ order ∧ stuck lt x else ∀ x, x ∈ order → sn (edge lt) x.
Proof.
  intros Hres. revert st stamp. induction order as [|x order IH]; intros st stamp Hpos Hst; cbn [deadLockLoop].
  { eexists; split; [done|]. set_solver. }
  case_decide as Hx.
  { destruct (st !! x) as [stp|] eqn:Ex; cbn in Hx; [|lia]. apply Hst in Ex as [_ Hs].
    destruct (IH st stamp) as (b & -> & Hb); [done|done|]. exists b. split; [done|].
    destruct b; set_solver. }
  assert (Ex : st !! x = None).
  { destruct (st !! x) as [stp|] eqn:Ex; [|done]. cbn in Hx. apply Hst in Ex. lia. }
  destruct (dfs_correct (dfs_fuel lt) st x (stamp + 1)) as ([st' found] & -> & Hpost); [done| |apply unseen_fuel|].
  { split; [intros z stp Hz|intros z stp Hz _|intros z Hz]; apply Hst in Hz; [lia|apply Hz|lia]. }
  cbn [mbind outcome_bind]. destruct found; cbn in Hpost.
  { eexists; split; [done|]. set_solver. }
  destruct Hpost as [Hs Hz]. destruct (IH st' (stamp + 1)) as (b & -> & Hb); [lia| |].
  { intros z stp [Hl [Ho|[-> Ho]]]%Hz; [|split; [lia|done]].
    apply Hst in Ho. split; [lia|apply Ho]. }
  exists b. split; [done|]. destruct b; set_solver.
Qed.

Lemma hasDeadLock_spec order :
  resolved lt →
  ∃ b, hasDeadLock order lt = Ret b ∧
    if (b : bool) then ∃ x, x ∈ order ∧ stuck lt x else ∀ x, x ∈ order → sn (edge lt) x.
Proof. intros Hres. apply deadLockLoop_correct; [done|lia|]. intros z stp. by rewrite lookup_empty. Qed.
End Graph.

(** * Well-formed tables *)

(** A waiter has a channel, stands in the queue of the row it waits for, and
    that row is held; the channels of waiters are distinct and still empty. *)
Record lt_queues (lt : lockTable) : Prop := {
  q_ch x : is_Some (waitCh lt !! x) ↔ is_Some (xwaitu lt !! x);
  q_wait x uid : xwaitu lt !! x = Some uid → ∃ l, wait lt !! uid = Some l ∧ x ∈ l;
  q_live uid l x : wait lt !! uid = Some l → x ∈ l → is_Some (waitCh lt !! x) → xwaitu lt !! x = Some uid;
  q_nonempty uid : wait lt !! uid ≠ Some [];
  q_res : resolved lt;
  q_chan x ch : waitCh lt !! x = Some ch → chans lt !! ch = Some false;
  q_inj x y ch : waitCh lt !! x = Some ch → waitCh lt !! y = Some ch → x = y;
  q_fresh ch : (nextCh lt ≤ ch)%nat → chans lt !! ch = None
}.

(** The rows listed for a transaction in [P] are held by it. *)
Definition holds_ok (P : UUID → Prop) (lt : lockTable) : Prop :=
  ∀ x l uid, P x → x2u lt !! x = Some l → uid ∈ l → u2x lt !! uid = Some x.

(** The lists of held rows have no repetitions. *)
Definition lists_nodup (lt : lockTable) : Prop := ∀ x l, x2u lt !! x = Some l → NoDup l.

Definition lt_inv (lt : lockTable) : Prop :=
  lt_queues lt ∧ holds_ok (λ _, True) lt ∧ lists_nodup lt.

(** A transaction that is running: it stands in no queue.  Clients call [Add]
    only then, since a waiting goroutine is blocked on its channel. *)
Definition idle (lt : lockTable) (x : UUID) : Prop := ∀ uid l, wait lt !! uid = Some l → x ∉ l.

Lemma lt_inv_new : lt_inv NewLockTable.
Proof.
  split; [split|split]; unfold resolved, holds_ok, lists_nodup; cbn; intros *; rewrite ?lookup_empty; try done.
Qed.

Lemma idle_not_waiting lt x : lt_queues lt → idle lt x → waitCh lt !! x = None ∧ xwaitu lt !! x = None.
Proof.
  intros Hq Hi. assert (Hx : xwaitu lt !! x = None).
  { destruct (xwaitu lt !! x) as [uid|] eqn:E; [|done].
    apply (q_wait lt Hq) in E as (l & Hl & Hin). by apply Hi in Hl. }
  split; [|done]. apply eq_None_not_Some. rewrite (q_ch lt Hq), Hx. by intros [].
Qed.

(** The first entry of a queue whose transaction still waits. *)
Fixpoint find_live (wc : gmap UUID chan) (l : list UUID) : option (UUID * chan * list UUID) :=
  match l with
  | [] => None
  | x :: l' => match wc !! x with None => find_live wc l' | Some ch => Some (x, ch, l') end
  end.

Definition hand_over (uid y : UUID) (ch : chan) (lt : lockTable) : lockTable :=
  mkLT (x2u lt) (<[uid := y]> (u2x lt)) (wait lt) (delete y (waitCh lt)) (delete y (xwaitu lt))
    (<[ch := true]> (chans lt)) (nextCh lt).

Lemma selectLoop_run uid l lt :
  (∀ x ch, waitCh lt !! x = Some ch → chans lt !! ch = Some false) →
  selectLoop uid l lt =
    match find_live (waitCh lt) l with
    | None => (lt, Ret [])
    | Some (y, ch, l') => (hand_over uid y ch lt, Ret l')
    end.
Proof.
  intros Hch. induction l as [|x l IH]; [done|]. cbn [selectLoop find_live].
  unfold get at 1. run_M. destruct (waitCh lt !! x) as [ch|] eqn:Ex; [|done].
  unfold modify, send. cbn. by rewrite (Hch x ch).
Qed.

Lemma find_live_Some wc l y ch l' :
  find_live wc l = Some (y, ch, l') →
  ∃ pre, l = pre ++ y :: l' ∧ wc !! y = Some ch ∧ ∀ x, x ∈ pre → wc !! x = None.
Proof.
  induction l as [|x l IH]; cbn; [done|]. destruct (wc !! x) as [c|] eqn:Ex.
  - intros [= -> -> ->]. exists []. set_solver.
  - intros (pre & -> & Hy & Hpre)%IH. exists (x :: pre). set_solver.
Qed.

Lemma find_live_None wc l : find_live wc l = None → ∀ x, x ∈ l → wc !! x = None.
Proof. induction l as [|x l IH]; cbn; [set_solver|]. destruct (wc !! x) eqn:Ex; set_solver. Qed.

(** Who gets a row that is released. *)
Definition successor (lt : lockTable) (uid : UUID) : option UUID :=
  '(y, _, _) ← find_live (waitCh lt) (default [] (wait lt !! uid)); Some y.

Lemma successor_Some lt uid y :
  lt_queues lt → successor lt uid = Some y →
  ∃ l ch l', wait lt !! uid = Some l ∧ find_live (waitCh lt) l = Some (y, ch, l') ∧
    waitCh lt !! y = Some ch ∧ xwaitu lt !! y = Some uid.
Proof.
  intros Hq. unfold successor. destruct (wait lt !! uid) as [l|] eqn:El; cbn; [|done].
  destruct (find_live (waitCh lt) l) as [[[y' ch] l']|] eqn:Ef; cbn; [|done].
  intros [= ->]. pose proof (find_live_Some _ _ _ _ _ Ef) as (pre & Hl & Hy & _).
  exists l, ch, l'. split_and!; try done. apply (q_live lt Hq uid l); [done| |by rewrite Hy].
  rewrite Hl. set_solver.
Qed.

(** The whole effect of [selectNewXID]. *)
Definition released (uid : UUID) (lt : lockTable) : lockTable :=
  let lt0 := set_u2x (delete uid (u2x lt)) lt in
  match wait lt !! uid with
  | None => lt0
  | Some l =>
      match find_live (waitCh lt) l with
      | None => set_wait (delete uid (wait lt)) lt0
      | Some (y, ch, l') =>
          set_wait (if decide (l' = []) then delete uid (wait lt) else <[uid := l']> (wait lt))
            (hand_over uid y ch lt0)
      end
  end.

Lemma selectNewXID_run uid lt : lt_queues lt → selectNewXID uid lt = (released uid lt, Ret tt).
Proof.
  intros Hq. unfold selectNewXID, modify, get. run_M. cbn [set_u2x wait]. unfold released.
  destruct (wait lt !! uid) as [l|] eqn:El; [|done].
  destruct l as [|x l]; [by apply (q_nonempty lt Hq) in El|].
  rewrite selectLoop_run by apply (q_chan lt Hq). cbn [set_u2x waitCh].
  destruct (find_live (waitCh lt) (x :: l)) as [[[y ch] l']|]; [done|]. cbn.
  by rewrite decide_True by done.
Qed.

Lemma released_x2u uid lt : x2u (released uid lt) = x2u lt.
Proof. unfold released. destruct (wait lt !! uid) as [l|]; [|done]. by destruct (find_live _ _) as [[[? ?] ?]|]. Qed.

Lemma released_u2x uid lt uid' :
  u2x (released uid lt) !! uid' = if decide (uid = uid') then successor lt uid else u2x lt !! uid'.
Proof.
  unfold released, successor.
  destruct (wait lt !! uid) as [l|]; cbn; [destruct (find_live _ _) as [[[y ch] l']|]; cbn|];
    case_decide; subst; rewrite ?lookup_insert_eq, ?lookup_insert_ne, ?lookup_delete_eq, ?lookup_delete_ne by done;
    done.
Qed.

Lemma released_queues_none uid lt :
  lt_queues lt → successor lt uid = None → lt_queues (released uid lt).
Proof.
  intros Hq Hs. assert (Hno : ∀ x, xwaitu lt !! x ≠ Some uid).
  { intros x Hx. destruct (q_wait lt Hq _ _ Hx) as (l & Hl & Hin).
    unfold successor in Hs. rewrite Hl in Hs. cbn in Hs.
    destruct (find_live (waitCh lt) l) as [[[? ?] ?]|] eqn:Ef; [done|].
    pose proof (find_live_None _ _ Ef x Hin) as Hn. pose proof (q_ch lt Hq x) as Hc.
    rewrite Hn, Hx in Hc. destruct (proj2 Hc); [eauto|done]. }
  assert (Hw : wait (released uid lt) = delete uid (wait lt)).
  { unfold released, successor in *. destruct (wait lt !! uid) as [l|] eqn:El; cbn in *.
    - by destruct (find_live _ _) as [[[? ?] ?]|].
    - by rewrite delete_id. }
  assert (Hrest : waitCh (released uid lt) = waitCh lt ∧ xwaitu (released uid lt) = xwaitu lt ∧
                  chans (released uid lt) = chans lt ∧ nextCh (released uid lt) = nextCh lt).
  { unfold released, successor in *. destruct (wait lt !! uid) as [l|] eqn:El; cbn in *; [|done].
    by destruct (find_live _ _) as [[[? ?] ?]|]. }
  destruct Hrest as (R1 & R2 & R3 & R4).
  split; rewrite ?R1, ?R2, ?R3, ?R4, ?Hw; try apply Hq.
  - intros x uid' Hx. destruct (q_wait lt Hq _ _ Hx) as (l & Hl & Hin). exists l.
    rewrite lookup_delete_ne by (intros ->; by eapply Hno). done.
  - intros uid' l x [Hne Hl]%lookup_delete_Some. by apply (q_live lt Hq).
  - intros uid' [_ Hl]%lookup_delete_Some. by apply (q_nonempty lt Hq) in Hl.
  - intros x uid' Hx. rewrite R2 in Hx. rewrite released_u2x.
    rewrite decide_False by (intros ->; by eapply Hno). by apply (q_res lt Hq x).
Qed.

Lemma released_queues_some uid y lt :
  lt_queues lt → successor lt uid = Some y → lt_queues (released uid lt).
Proof.
  intros Hq Hs. destruct (successor_Some lt uid y Hq Hs) as (l & ch & l' & Hl & Hf & Hy & Hxy).
  destruct (find_live_Some _ _ _ _ _ Hf) as (pre & Hl' & _ & Hpre).
  assert (Hr : released uid lt =
    set_wait (if decide (l' = []) then delete uid (wait lt) else <[uid := l']> (wait lt))
      (hand_over uid y ch (set_u2x (delete uid (u2x lt)) lt))) by (unfold released; by rewrite Hl, Hf).
  assert (Hwait : ∀ uid' k,
    (if decide (l' = []) then delete uid (wait lt) else <[uid := l']> (wait lt)) !! uid' = Some k →
    (uid' = uid ∧ k = l' ∧ k ≠ []) ∨ (uid' ≠ uid ∧ wait lt !! uid' = Some k)).
  { intros uid' k. case_decide.
    - intros [? ?]%lookup_delete_Some. by right.
    - intros [[<- <-]|[? ?]]%lookup_insert_Some; [by left|by right]. }
  split; try (rewrite Hr; cbn).
  - intros x. destruct (decide (y = x)) as [->|].
    { rewrite !lookup_delete_eq. split; intros []; done. }
    rewrite !lookup_delete_ne by done. apply Hq.
  - intros x uid' [Hne Hx]%lookup_delete_Some. destruct (q_wait lt Hq _ _ Hx) as (k & Hk & Hin).
    destruct (decide (uid' = uid)) as [->|].
    + assert (x ∈ l').
      { rewrite Hl in Hk. simplify_eq. pose proof (q_ch lt Hq x) as Hc. rewrite Hx in Hc.
        destruct (proj2 Hc) as [c Hc']; [eauto|].
        apply elem_of_app in Hin as [Hin%Hpre|Hin]; [congruence|]. set_solver. }
      rewrite decide_False by (intros ->; set_solver). exists l'. by rewrite lookup_insert_eq.
    + exists k. case_decide; [by rewrite lookup_delete_ne|by rewrite lookup_insert_ne].
  - intros uid' k x Hk Hin. intros [c Hc].
    apply lookup_delete_Some in Hc as [Hne Hc]. rewrite lookup_delete_ne by done.
    apply Hwait in Hk as [(-> & -> & _)|[_ Hk]].
    + apply (q_live lt Hq uid l); [done| |by eauto]. rewrite Hl'. set_solver.
    + apply (q_live lt Hq uid' k); eauto.
  - intros uid' Hk. apply Hwait in Hk as [(_ & ? & ?)|[_ Hk]]; [done|].
    by apply (q_nonempty lt Hq) in Hk.
  - intros x uid' Hx. cbn in Hx |- *. apply lookup_delete_Some in Hx as [_ Hx].
    destruct (decide (uid = uid')) as [->|]; [rewrite lookup_insert_eq; eauto|].
    rewrite lookup_insert_ne, lookup_delete_ne by done. by apply (q_res lt Hq x).
  - intros x c [Hne Hx]%lookup_delete_Some. rewrite lookup_insert_ne; [by apply (q_chan lt Hq x)|].
    intros ->. apply Hne. by apply (q_inj lt Hq y x c).
  - intros x x' c [_ Hx]%lookup_delete_Some [_ Hx']%lookup_delete_Some. by apply (q_inj lt Hq x x' c).
  - intros c Hc. rewrite lookup_insert_ne; [by apply Hq|]. intros ?; subst.
    pose proof (q_chan lt Hq y _ Hy). pose proof (q_fresh lt Hq _ Hc). congruence.
Qed.

Lemma released_queues uid lt : lt_queues lt → lt_queues (released uid lt).
Proof.
  intros Hq. destruct (successor lt uid) as [y|] eqn:E.
  - by eapply released_queues_some.
  - by apply released_queues_none.
Qed.

Lemma releaseAll_run l lt :
  lt_queues lt → releaseAll l lt = (foldl (λ lt uid, released uid lt) lt l, Ret tt) ∧
    lt_queues (foldl (λ lt uid, released uid lt) lt l).
Proof.
  revert lt. induction l as [|uid l IH]; intros lt Hq; [done|]. cbn [releaseAll foldl].
  run_M. rewrite selectNewXID_run by done. apply IH. by apply released_queues.
Qed.

(** The state after [Remove]. *)
Definition removed (x : UUID) (lt : lockTable) : lockTable :=
  let lt1 := foldl (λ lt uid, released uid lt) lt (default [] (x2u lt !! x)) in
  mkLT (delete x (x2u lt1)) (u2x lt1) (wait lt1) (delete x (waitCh lt1)) (delete x (xwaitu lt1))
    (chans lt1) (nextCh lt1).

Lemma Remove_run x lt : lt_queues lt → Remove x lt = (removed x lt, Ret tt).
Proof.
  intros Hq. unfold Remove, get, modify. run_M. unfold removed.
  destruct (x2u lt !! x) as [l|]; cbn; [|done].
  destruct (releaseAll_run l lt Hq) as [-> _]. done.
Qed.

Lemma find_live_delete wc l y : y ∉ l → find_live (delete y wc) l = find_live wc l.
Proof.
  induction l as [|x l IH]; intros Hy; [done|]. cbn. rewrite lookup_delete_ne by set_solver.
  rewrite IH by set_solver. done.
Qed.

(** Releasing one row does not change who is next for another. *)
Lemma successor_released uid uid' lt :
  lt_queues lt → uid ≠ uid' → successor (released uid lt) uid' = successor lt uid'.
Proof.
  intros Hq Hne. destruct (successor lt uid) as [y|] eqn:Hs.
  - destruct (successor_Some lt uid y Hq Hs) as (l & ch & l' & Hl & Hf & Hy & Hxy).
    unfold successor, released. rewrite Hl, Hf. cbn [set_wait hand_over wait waitCh].
    assert ((if decide (l' = []) then delete uid (wait lt) else <[uid:=l']> (wait lt)) !! uid' = wait lt !! uid') as ->
      by (case_decide; [by rewrite lookup_delete_ne|by rewrite lookup_insert_ne]).
    cbn [set_u2x waitCh wait]. rewrite find_live_delete; [done|].
    destruct (wait lt !! uid') as [k|] eqn:Ek; cbn; [|set_solver].
    intros Hin. pose proof (q_live lt Hq uid' k y Ek Hin ltac:(eauto)). congruence.
  - unfold successor, released in *. destruct (wait lt !! uid) as [l|] eqn:Hl; cbn in *; [|done].
    destruct (find_live _ l) as [[[? ?] ?]|]; cbn in *; [done|]. by rewrite lookup_delete_ne.
Qed.

Lemma foldl_released lt l :
  lt_queues lt → NoDup l →
  let lt1 := foldl (λ lt uid, released uid lt) lt l in
  x2u lt1 = x2u lt ∧
  ∀ uid, u2x lt1 !! uid = if decide (uid ∈ l) then successor lt uid else u2x lt !! uid.
Proof.
  revert lt. induction l as [|uid0 l IH]; intros lt Hq Hnd; cbn [foldl].
  { split; [done|]. intros uid. rewrite decide_False by set_solver. done. }
  apply NoDup_cons in Hnd as [Hni Hnd].
  destruct (IH (released uid0 lt)) as [Hx Hu]; [by apply released_queues|done|].
  split; [by rewrite Hx, released_x2u|]. intros uid. rewrite Hu, released_u2x.
  destruct (decide (uid ∈ l)) as [Hin|Hni'].
  - rewrite decide_True by set_solver. apply successor_released; [done|]. by intros ->.
  - case_decide as He; [subst; rewrite decide_True by set_solver; done|].
    rewrite decide_False by set_solver. done.
Qed.

Lemma removed_u2x x lt uid :
  lt_inv lt →
  u2x (removed x lt) !! uid =
    if decide (uid ∈ default [] (x2u lt !! x)) then successor lt uid else u2x lt !! uid.
Proof.
  intros (Hq & Hh & Hnd). unfold removed. cbn [u2x]. apply foldl_released; [done|].
  destruct (x2u lt !! x) as [l|] eqn:E; [by apply (Hnd x)|apply NoDup_nil_2].
Qed.

Lemma removed_inv x lt : lt_inv lt → lt_inv (removed x lt).
Proof.
  intros Hi. pose proof Hi as (Hq & Hh & Hnd).
  assert (Hl : NoDup (default [] (x2u lt !! x))).
  { destruct (x2u lt !! x) as [l|] eqn:E; [by apply (Hnd x)|apply NoDup_nil_2]. }
  destruct (releaseAll_run (default [] (x2u lt !! x)) lt Hq) as [_ Hq1].
  destruct (foldl_released lt _ Hq Hl) as [Hx1 Hu1].
  assert (Hh' : holds_ok (λ _, True) (removed x lt)).
  { intros y k uid _ Hk Hin. unfold removed in Hk. cbn [x2u] in Hk. rewrite Hx1 in Hk.
    apply lookup_delete_Some in Hk as [Hne Hk]. rewrite removed_u2x by done.
    pose proof (Hh y k uid I Hk Hin) as Hy. rewrite decide_False; [done|].
    destruct (x2u lt !! x) as [l|] eqn:El; cbn; [|set_solver].
    intros Hin'. pose proof (Hh x l uid I El Hin'). congruence. }
  split_and!; [|done|].
  2: { intros y k. unfold removed. cbn [x2u]. rewrite Hx1. intros [_ Hk]%lookup_delete_Some. by apply (Hnd y). }
  unfold removed in *. set (lt1 := foldl _ lt _) in *. clear -Hq1.
  split; cbn.
  - intros y. destruct (decide (x = y)) as [->|]; [rewrite !lookup_delete_eq; split; intros []; done|].
    rewrite !lookup_delete_ne by done. apply Hq1.
  - intros y uid [_ Hy]%lookup_delete_Some. by apply (q_wait lt1 Hq1).
  - intros uid l y Hl Hin [c [Hne Hc]%lookup_delete_Some]. rewrite lookup_delete_ne by done.
    apply (q_live lt1 Hq1 uid l); eauto.
  - apply Hq1.
  - intros y uid Hy. cbn in *. apply lookup_delete_Some in Hy as [_ Hy]. by apply (q_res lt1 Hq1 y).
  - intros y c [_ Hy]%lookup_delete_Some. by apply (q_chan lt1 Hq1 y).
  - intros y z c [_ Hy]%lookup_delete_Some [_ Hz]%lookup_delete_Some. by apply (q_inj lt1 Hq1 y z c).
  - apply Hq1.
Qed.

(** * The effect of [Add] *)

(** A fresh channel that holds a token. *)
Definition with_token (lt : lockTable) : lockTable :=
  mkLT (x2u lt) (u2x lt) (wait lt) (waitCh lt) (xwaitu lt)
    (<[nextCh lt := true]> (chans lt)) (S (nextCh lt)).

(** [x] takes the free row [uid]. *)
Definition acquired (x uid : UUID) (lt : lockTable) : lockTable :=
  set_x2u (putIntoList (x2u lt) x uid) (set_u2x (<[uid := x]> (u2x lt)) lt).

(** The wait edge that [Add] tries. *)
Definition waiting (x uid : UUID) (lt : lockTable) : lockTable :=
  set_wait (putIntoList (wait lt) uid x) (set_xwaitu (<[x := uid]> (xwaitu lt)) lt).

(** [x] waits on a fresh channel. *)
Definition enqueued (x uid : UUID) (lt : lockTable) : lockTable :=
  let lt1 := waiting x uid lt in
  mkLT (x2u lt1) (u2x lt1) (wait lt1) (<[x := nextCh lt]> (waitCh lt1)) (xwaitu lt1)
    (<[nextCh lt := false]> (chans lt1)) (S (nextCh lt)).

Lemma grant_now_run lt : grant_now lt = (with_token lt, Ret (true, Some (nextCh lt))).
Proof.
  unfold grant_now, make_chan, send. run_M. cbn. rewrite lookup_insert_eq. unfold with_token.
  by rewrite insert_insert_eq.
Qed.

Lemma removeLoop_stuck fuel uid1 y l : y ≠ uid1 → removeLoop fuel uid1 (y :: l) = OutOfFuel.
Proof. intros Hne. induction fuel as [|fuel IH]; [done|]. cbn. by rewrite decide_False. Qed.

(** Undoing the insertion into a queue works for an empty queue only. *)
Lemma removeFromList_put (m : gmap UUID (list UUID)) uid x :
  m !! uid ≠ Some [] → (∀ l, m !! uid = Some l → x ∉ l) →
  removeFromList (putIntoList m uid x) uid x = if decide (m !! uid = None) then Ret m else OutOfFuel.
Proof.
  intros Hne Hx. unfold removeFromList, putIntoList. rewrite lookup_insert_eq.
  destruct (m !! uid) as [[|z k]|] eqn:Em; cbn [default id app]; [done|..].
  -
    rewrite removeLoop_stuck by (intros ->; by eapply Hx; [done|left]).
    cbn [mbind outcome_bind]. by rewrite decide_False.
  - cbn. rewrite !decide_True by done. cbn. rewrite decide_True by done.
    by rewrite (delete_insert_id m uid [x] Em).
Qed.

Lemma resolved_waiting x uid lt : resolved lt → is_Some (u2x lt !! uid) → resolved (waiting x uid lt).
Proof.
  intros Hr Hu z uid' Hz. cbn in *. apply lookup_insert_Some in Hz as [[_ <-]|[_ Hz]]; [done|].
  by apply (Hr z).
Qed.

Lemma Add_free_run order x uid lt :
  u2x lt !! uid = None → isInList (x2u lt) x uid = false →
  Add order x uid lt = (with_token (acquired x uid lt), Ret (true, Some (nextCh lt))).
Proof.
  intros Hu Hl. unfold Add, get, modify. run_M. rewrite Hl, Hu.
  change (nextCh lt) with (nextCh (acquired x uid lt)). apply grant_now_run.
Qed.

Lemma Add_held_run order x uid lt :
  isInList (x2u lt) x uid = true →
  Add order x uid lt = (with_token lt, Ret (true, Some (nextCh lt))).
Proof. intros Hl. unfold Add, get. run_M. rewrite Hl. apply grant_now_run. Qed.

Lemma Add_wait_run order x uid y lt :
  lt_inv lt → idle lt x → isInList (x2u lt) x uid = false → u2x lt !! uid = Some y →
  Add order x uid lt =
    match hasDeadLock order (waiting x uid lt) with
    | Ret false => (enqueued x uid lt, Ret (true, Some (nextCh lt)))
    | Ret true =>
        if decide (wait lt !! uid = None) then (lt, Ret (false, None))
        else (set_xwaitu (xwaitu lt) (waiting x uid lt), OutOfFuel)
    | Err e => (waiting x uid lt, Err e)
    | Panic => (waiting x uid lt, Panic)
    | OutOfFuel => (waiting x uid lt, OutOfFuel)
    end.
Proof.
  intros (Hq & Hh & Hnd) Hid Hl Hu. destruct (idle_not_waiting lt x Hq Hid) as [Hxc Hxw].
  unfold Add, get, modify. run_M. rewrite Hl, Hu.
  change (set_wait (putIntoList (wait (set_xwaitu (<[x:=uid]> (xwaitu lt)) lt)) uid x)
    (set_xwaitu (<[x:=uid]> (xwaitu lt)) lt)) with (waiting x uid lt).
  destruct (hasDeadLock order (waiting x uid lt)) as [[]| | |]; cbn; try done.
  rewrite (delete_insert_id _ x uid Hxw).
  rewrite removeFromList_put by (apply (q_nonempty lt Hq) || apply Hid).
  case_decide; [by destruct lt|done].
Qed.

Lemma isInList_spec m x uid :
  isInList m x uid = true ↔ ∃ l, m !! x = Some l ∧ uid ∈ l.
Proof.
  unfold isInList. destruct (m !! x) as [l|]; [|split; [done|intros (? & ? & _); done]].
  rewrite existsb_exists. setoid_rewrite bool_decide_eq_true. setoid_rewrite <- list_elem_of_In.
  split; [intros (z & Hz & ->); eauto|intros (k & [= ->] & Hk); eauto].
Qed.

Lemma with_token_inv lt : lt_inv lt → lt_inv (with_token lt).
Proof.
  intros (Hq & Hh & Hnd). split_and!; [|done|done]. split; cbn; try apply Hq.
  - intros x ch Hx. rewrite lookup_insert_ne; [by apply (q_chan lt Hq x)|].
    intros ?; subst. pose proof (q_chan lt Hq x _ Hx). pose proof (q_fresh lt Hq (nextCh lt)). naive_solver.
  - intros ch Hc. rewrite lookup_insert_ne by lia. apply (q_fresh lt Hq). lia.
Qed.

Lemma acquired_inv x uid lt :
  lt_inv lt → u2x lt !! uid = None → lt_inv (acquired x uid lt).
Proof.
  intros (Hq & Hh & Hnd) Hu. split_and!.
  - split; cbn; try apply Hq. intros z uid' Hz. cbn in *.
    destruct (q_res lt Hq z uid' Hz) as [y Hy]. rewrite lookup_insert_ne by (intros ->; congruence). eauto.
  - intros y l uid' _. cbn. unfold putIntoList. intros [[<- <-]|[Hne Hl]]%lookup_insert_Some Hin.
    + apply elem_of_app in Hin as [Hin|Hin]; [|apply list_elem_of_singleton in Hin as ->; by rewrite lookup_insert_eq].
      destruct (x2u lt !! x) as [k|] eqn:Ek; cbn in Hin; [|set_solver].
      pose proof (Hh x k uid' I Ek Hin). rewrite lookup_insert_ne; [done|congruence].
    + pose proof (Hh y l uid' I Hl Hin). rewrite lookup_insert_ne; [done|congruence].
  - intros y l. cbn. unfold putIntoList. intros [[<- <-]|[Hne Hl]]%lookup_insert_Some; [|by apply (Hnd y)].
    destruct (x2u lt !! x) as [k|] eqn:Ek; cbn; [|apply NoDup_singleton].
    apply NoDup_app. split_and!; [by apply (Hnd x)| |apply NoDup_singleton].
    intros z Hz ->%list_elem_of_singleton. pose proof (Hh x k uid I Ek Hz). congruence.
Qed.

Lemma enqueued_inv x uid y lt :
  lt_inv lt → idle lt x → u2x lt !! uid = Some y → lt_inv (enqueued x uid lt).
Proof.
  intros (Hq & Hh & Hnd) Hid Hu. destruct (idle_not_waiting lt x Hq Hid) as [Hxc Hxw].
  split_and!; [|done|done]. split; cbn; unfold putIntoList.
  - intros z. destruct (decide (x = z)) as [->|]; [rewrite !lookup_insert_eq; split; eauto|].
    rewrite !lookup_insert_ne by done. apply Hq.
  - intros z uid' [[<- <-]|[Hne Hz]]%lookup_insert_Some.
    + eexists. rewrite lookup_insert_eq. split; [done|]. set_solver.
    + destruct (q_wait lt Hq _ _ Hz) as (l & Hl & Hin).
      destruct (decide (uid = uid')) as [->|]; [|exists l; by rewrite lookup_insert_ne].
      eexists. rewrite lookup_insert_eq, Hl. split; [done|]. cbn. set_solver.
  - intros uid' l z [[<- <-]|[Hne Hl]]%lookup_insert_Some Hin [c Hc].
    + destruct (decide (x = z)) as [->|]; [by rewrite lookup_insert_eq|].
      rewrite lookup_insert_ne in Hc by done. rewrite lookup_insert_ne by done. apply elem_of_app in Hin as [Hin|Hin]; [|set_solver].
      destruct (wait lt !! uid) as [k|] eqn:Ek; cbn in Hin; [|set_solver].
      apply (q_live lt Hq uid k); eauto.
    + assert (x ≠ z) by (intros ->; by eapply Hid). rewrite lookup_insert_ne in Hc by done. rewrite lookup_insert_ne by done.
      apply (q_live lt Hq uid' l); eauto.
  - intros uid' [[_ Hl]|[_ Hl]]%lookup_insert_Some; [|by apply (q_nonempty lt Hq) in Hl].
    by destruct (default [] (wait lt !! uid)).
  - intros z uid' Hz. cbn in *. apply lookup_insert_Some in Hz as [[_ <-]|[_ Hz]]; [eauto|].
    by apply (q_res lt Hq z).
  - intros z c [[_ <-]|[_ Hz]]%lookup_insert_Some; [by rewrite lookup_insert_eq|].
    rewrite lookup_insert_ne; [by apply (q_chan lt Hq z)|]. intros ?; subst.
    pose proof (q_chan lt Hq z _ Hz). pose proof (q_fresh lt Hq (nextCh lt)). naive_solver.
  - intros z z' c [[<- <-]|[_ Hz]]%lookup_insert_Some [[<- Hc]|[_ Hz']]%lookup_insert_Some.
    + done.
    + pose proof (q_chan lt Hq z' _ Hz'). pose proof (q_fresh lt Hq (nextCh lt)). naive_solver.
    + subst. pose proof (q_chan lt Hq z _ Hz). pose proof (q_fresh lt Hq (nextCh lt)). naive_solver.
    + by apply (q_inj lt Hq z z' c).
  - intros c Hc. rewrite lookup_insert_ne by lia. apply (q_fresh lt Hq). lia.
Qed.

Lemma hasDeadLock_waiting order x uid y lt :
  lt_inv lt → u2x lt !! uid = Some y →
  ∃ b, hasDeadLock order (waiting x uid lt) = Ret b ∧
    if (b : bool) then ∃ z, z ∈ order ∧ stuck (waiting x uid lt) z
    else ∀ z, z ∈ order → sn (edge (waiting x uid lt)) z.
Proof.
  intros (Hq & _ & _) Hu. apply hasDeadLock_spec, resolved_waiting; [apply Hq|by rewrite Hu].
Qed.

Lemma Add_inv order x uid lt lt' r :
  lt_inv lt → idle lt x → Add order x uid lt = (lt', Ret r) → lt_inv lt'.
Proof.
  intros Hi Hid. destruct (isInList (x2u lt) x uid) eqn:El.
  { rewrite Add_held_run by done. intros [= <- _]. by apply with_token_inv. }
  destruct (u2x lt !! uid) as [y|] eqn:Eu.
  - rewrite (Add_wait_run order x uid y) by done.
    destruct (hasDeadLock_waiting order x uid y lt Hi Eu) as ([] & -> & _).
    + case_decide; [by intros [= <- _]|done].
    + intros [= <- _]. by apply (enqueued_inv x uid y).
  - rewrite Add_free_run by done. intros [= <- _]. by apply with_token_inv, acquired_inv.
Qed.

(** * Runs of the table *)

(** A step of some client: a running transaction asks for a row, or any
    transaction is removed.  [order] is free: [range] may visit the map in any
    order. *)
Inductive lt_step : relation lockTable :=
| step_Add order x uid lt lt' r :
    idle lt x → Add order x uid lt = (lt', Ret r) → lt_step lt lt'
| step_Remove x lt lt' : Remove x lt = (lt', Ret tt) → lt_step lt lt'.

Definition lt_reachable (lt : lockTable) : Prop := rtc lt_step NewLockTable lt.

Lemma lt_step_inv lt lt' : lt_step lt lt' → lt_inv lt → lt_inv lt'.
Proof.
  destruct 1 as [order x uid lt lt' r Hid HA|x lt lt' HR]; intros Hi; [by eapply Add_inv|].
  rewrite Remove_run in HR by apply Hi. simplify_eq. by apply removed_inv.
Qed.

Lemma lt_steps_inv lt0 lt : lt_inv lt0 → rtc lt_step lt0 lt → lt_inv lt.
Proof. intros Hi Hr. revert Hi. induction Hr as [|a b c Hs _ IH]; eauto using lt_step_inv. Qed.

Lemma lt_reachable_inv lt : lt_reachable lt → lt_inv lt.
Proof. intros Hr. eapply lt_steps_inv; [apply lt_inv_new|done]. Qed.

(** * Decision procedures for concrete tables *)

Definition idleb (lt : lockTable) (x : UUID) : bool :=
  bool_decide (map_Forall (λ _ l, x ∉ l) (wait lt)).

Lemma idleb_idle lt x : idleb lt x = true → idle lt x.
Proof. intros H%bool_decide_eq_true uid l Hl. by apply (H uid l). Qed.

Definition resolvedb (lt : lockTable) : bool :=
  bool_decide (map_Forall (λ _ uid, is_Some (u2x lt !! uid)) (xwaitu lt)).

Lemma resolvedb_resolved lt : resolvedb lt = true → resolved lt.
Proof. intros H%bool_decide_eq_true x uid Hx. by apply (H x uid). Qed.

(** Requests of running transactions and removals, as a checked script. *)
Inductive lt_op := DoAdd (order : list UUID) (x uid : UUID) | DoRemove (x : UUID).

Fixpoint lt_script (ops : list lt_op) (lt : lockTable) : option lockTable :=
  match ops with
  | [] => Some lt
  | DoAdd order x uid :: ops' =>
      if idleb lt x then
        match Add order x uid lt with (lt', Ret _) => lt_script ops' lt' | _ => None end
      else None
  | DoRemove x :: ops' =>
      match Remove x lt with (lt', Ret _) => lt_script ops' lt' | _ => None end
  end.

Lemma lt_script_reachable ops lt lt' : lt_script ops lt = Some lt' → rtc lt_step lt lt'.
Proof.
  revert lt. induction ops as [|[order x uid|x] ops IH]; intros lt; cbn [lt_script].
  - intros [= ->]. done.
  - destruct (idleb lt x) eqn:Hid; [|done]. destruct (Add order x uid lt) as [lt1 []] eqn:E; try done.
    intros H%IH. eapply rtc_l; [|done]. by eapply step_Add; [apply idleb_idle|].
  - destruct (Remove x lt) as [lt1 [[]| | |]] eqn:E; try done.
    intros H%IH. eapply rtc_l; [|done]. by apply step_Remove with x.
Qed.

Definition script_table (ops : list lt_op) : lockTable := default NewLockTable (lt_script ops NewLockTable).

Lemma script_table_reachable ops :
  is_Some (lt_script ops NewLockTable) → lt_reachable (script_table ops).
Proof. intros [lt H]. unfold script_table. rewrite H. by apply lt_script_reachable in H. Qed.

(** * Rows that are never released again *)

(** [uid] is held by [y] but listed for nobody. *)
Definition unlisted (lt : lockTable) (uid y : UUID) : Prop :=
  u2x lt !! uid = Some y ∧ ∀ x l, x2u lt !! x = Some l → uid ∉ l.

Lemma unlisted_step lt lt' uid y : lt_inv lt → unlisted lt uid y → lt_step lt lt' → unlisted lt' uid y.
Proof.
  intros Hi [Hu Hx] Hs. destruct Hs as [order x uid' lt lt' r Hid HA|x lt lt' HR].
  - destruct (isInList (x2u lt) x uid') eqn:El.
    { rewrite Add_held_run in HA by done. by simplify_eq. }
    destruct (u2x lt !! uid') as [y'|] eqn:Eu.
    + rewrite (Add_wait_run order x uid' y') in HA by done.
      destruct (hasDeadLock_waiting order x uid' y' lt Hi Eu) as ([] & Hd & _); rewrite Hd in HA;
        [case_decide|]; by simplify_eq.
    + rewrite Add_free_run in HA by done. simplify_eq. split; cbn.
      { rewrite lookup_insert_ne; [done|congruence]. }
      unfold putIntoList. intros z l [[<- <-]|[_ Hl]]%lookup_insert_Some; [|by apply (Hx z)].
      intros [Hin|Hin]%elem_of_app; [|apply list_elem_of_singleton in Hin; congruence].
      destruct (x2u lt !! x) as [k|] eqn:Ek; cbn in Hin; [by eapply Hx|set_solver].
  - rewrite Remove_run in HR by apply Hi. simplify_eq. split.
    + rewrite removed_u2x by done. rewrite decide_False; [done|].
      destruct (x2u lt !! x) as [l|] eqn:El; cbn; [by eapply Hx|set_solver].
    + destruct Hi as (Hq & _ & Hnd). intros z l. unfold removed. cbn.
      destruct (foldl_released lt (default [] (x2u lt !! x)) Hq) as [Hfx _].
      { destruct (x2u lt !! x) as [k|] eqn:E; [by apply (Hnd x)|apply NoDup_nil_2]. }
      rewrite Hfx. intros [_ Hl]%lookup_delete_Some. by apply (Hx z).
Qed.

Lemma unlisted_forever lt lt' uid y :
  lt_inv lt → unlisted lt uid y → rtc lt_step lt lt' → unlisted lt' uid y.
Proof.
  intros Hi Hu Hr. revert Hi Hu. induction Hr as [|a b c Hs _ IH]; intros Hi Hu; [done|].
  eapply IH; [by eapply lt_step_inv|by eapply unlisted_step].
Qed.

Lemma removed_unlisted lt x y uid :
  lt_inv lt → uid ∈ default [] (x2u lt !! x) → successor lt uid = Some y →
  unlisted (removed x lt) uid y.
Proof.
  intros Hi Hin Hs. split; [by rewrite removed_u2x, decide_True|].
  destruct Hi as (Hq & Hh & Hnd). intros z l. unfold removed. cbn.
  destruct (x2u lt !! x) as [k|] eqn:Ek; cbn in *; [|set_solver].
  destruct (foldl_released lt k Hq (Hnd x k Ek)) as [Hfx _]. rewrite Hfx.
  intros [Hne Hl]%lookup_delete_Some Hin'.
  pose proof (Hh x k uid I Ek Hin). pose proof (Hh z l uid I Hl Hin'). congruence.
Qed.

(** Tokens are never taken back by the table. *)
Lemma released_chans uid lt ch : chans lt !! ch = Some true → chans (released uid lt) !! ch = Some true.
Proof.
  intros H. unfold released. destruct (wait lt !! uid) as [l|]; [|done].
  destruct (find_live _ _) as [[[y c] l']|]; [|done]. cbn.
  destruct (decide (c = ch)) as [->|]; [by rewrite lookup_insert_eq|by rewrite lookup_insert_ne].
Qed.

Lemma released_wakes uid lt y ch :
  lt_queues lt → successor lt uid = Some y → waitCh lt !! y = Some ch →
  chans (released uid lt) !! ch = Some true.
Proof.
  intros Hq Hs Hc. destruct (successor_Some lt uid y Hq Hs) as (l & ch' & l' & Hl & Hf & Hy & _).
  unfold released. rewrite Hl, Hf. cbn. simplify_eq. by rewrite lookup_insert_eq.
Qed.

Lemma foldl_wakes lt l uid y ch :
  lt_queues lt → NoDup l → uid ∈ l → successor lt uid = Some y → waitCh lt !! y = Some ch →
  chans (foldl (λ lt uid, released uid lt) lt l) !! ch = Some true.
Proof.
  revert lt. induction l as [|u l IH]; intros lt Hq Hnd Hin Hs Hc; [set_solver|].
  apply NoDup_cons in Hnd as [Hni Hnd]. cbn [foldl].
  destruct (decide (u = uid)) as [->|Hne].
  - assert (Hk : ∀ k lt, chans lt !! ch = Some true → chans (foldl (λ lt uid, released uid lt) lt k) !! ch = Some true).
    { induction k as [|a k IHk]; intros lt0 H0; [done|]. by apply IHk, released_chans. }
    by apply Hk, (released_wakes _ _ y).
  - apply IH; [by apply released_queues|done|set_solver|by rewrite successor_released|].
    unfold released. destruct (wait lt !! u) as [k|] eqn:Ek; [|done].
    destruct (find_live (waitCh lt) k) as [[[z c] k']|] eqn:Ef; [|done]. cbn.
    rewrite lookup_delete_ne; [done|]. intros ->.
    destruct (successor_Some lt uid y Hq Hs) as (? & ? & ? & _ & _ & _ & Hy).
    assert (successor lt u = Some y) as Hsu by (unfold successor; rewrite Ek; cbn; by rewrite Ef).
    destruct (successor_Some lt u y Hq Hsu) as (? & ? & ? & _ & _ & _ & Hy'). congruence.
Qed.

Lemma removed_wakes x lt uid y ch :
  lt_inv lt → uid ∈ default [] (x2u lt !! x) → successor lt uid = Some y → waitCh lt !! y = Some ch →
  chans (removed x lt) !! ch = Some true.
Proof.
  intros (Hq & _ & Hnd) Hin Hs Hc. unfold removed. cbn [chans].
  apply (foldl_wakes lt _ uid y); [done| |done..].
  destruct (x2u lt !! x) as [l|] eqn:E; [by apply (Hnd x)|apply NoDup_nil_2].
Qed.

(** ** A row that two transactions want one after the other *)

Lemma find_live_app wc pre y ch l :
  (∀ x, x ∈ pre → wc !! x = None) → wc !! y = Some ch → find_live wc (pre ++ y :: l) = Some (y, ch, l).
Proof.
  intros Hpre Hy. induction pre as [|x pre IH]; cbn; [by rewrite Hy|].
  rewrite Hpre by set_solver. apply IH. set_solver.
Qed.

(** The first to queue for a row is the next to get it. *)
Lemma successor_enqueued lt y uid :
  lt_inv lt → idle lt y → (∀ z, xwaitu lt !! z ≠ Some uid) → successor (enqueued y uid lt) uid = Some y.
Proof.
  intros (Hq & _ & _) Hid Hno. unfold successor.
  assert (wait (enqueued y uid lt) !! uid = Some (default [] (wait lt !! uid) ++ [y])) as -> by apply lookup_insert_eq.
  cbn [default]. unfold id. rewrite (find_live_app _ _ y (nextCh lt)); [done| |apply lookup_insert_eq].
  cbn [waitCh enqueued waiting]. intros x Hx. destruct (wait lt !! uid) as [l|] eqn:El; cbn in Hx; [|set_solver].
  rewrite lookup_insert_ne by (intros ->; by eapply Hid). apply eq_None_not_Some. intros Hs.
  by eapply Hno, (q_live lt Hq uid l x).
Qed.

Definition taken (x uid : UUID) (lt : lockTable) : lockTable := with_token (acquired x uid lt).

Lemma free_no_waiter lt uid : lt_inv lt → u2x lt !! uid = None → ∀ z, xwaitu lt !! z ≠ Some uid.
Proof. intros (Hq & _ & _) Hu z Hz. destruct (q_res lt Hq z uid Hz) as [w Hw]. congruence. Qed.

(** Waiting for a transaction that itself waits for nothing closes no cycle. *)
Lemma waiting_keeps_free lt x y uid :
  lt_inv lt → idle lt x → x ≠ y → u2x lt !! uid = None → (∀ z, ¬ stuck lt z) →
  ∀ z, ¬ stuck (waiting y uid (taken x uid lt)) z.
Proof.
  intros Hi Hid Hne Hu Hno z (w & _ & Hw). set (lt' := waiting _ _ _) in *.
  destruct (idle_not_waiting lt x ltac:(apply Hi) Hid) as [_ Hx].
  assert (Hend : ∀ v, ¬ edge lt' x v).
  { intros v. unfold edge, next, lt'. cbn. rewrite lookup_insert_ne by done. by rewrite Hx. }
  assert (Hstep : ∀ a b, edge lt' a b → b ≠ x → edge lt a b).
  { intros a b. unfold edge, next, lt'. cbn. intros (u & Ha & Hb)%bind_Some Hbx.
    destruct (decide (u = uid)) as [->|Hnu]; [rewrite lookup_insert_eq in Hb; congruence|].
    rewrite lookup_insert_ne in Hb by done.
    apply lookup_insert_Some in Ha as [[_ ?]|[_ Ha]]; [by subst|]. by rewrite Ha. }
  assert (Hback : ∀ a b, tc (edge lt') a b → b ≠ x → tc (edge lt) a b).
  { intros a b. induction 1 as [a b Hab|a c b Hac Hcb IH]; intros Hb; [by apply tc_once, Hstep|].
    eapply tc_l; [apply Hstep; [done|]|by apply IH]. intros ->. inversion Hcb; by eapply Hend. }
  apply (Hno w). exists w. split; [done|]. apply Hback; [done|]. intros ->. inversion Hw; by eapply Hend.
Qed.

(** [x] takes a free row, [y] queues for it, [x] is removed. *)
Lemma two_requests order x y uid lt :
  lt_inv lt → idle lt x → idle lt y → x ≠ y → u2x lt !! uid = None → (∀ z, ¬ stuck lt z) →
  let lt1 := taken x uid lt in
  let lt2 := enqueued y uid lt1 in
  Add order y uid lt1 = (lt2, Ret (true, Some (nextCh lt1))) ∧ lt_inv lt2 ∧
  chans lt2 !! nextCh lt1 = Some false ∧ chans (removed x lt2) !! nextCh lt1 = Some true.
Proof.
  intros Hi Hix Hiy Hne Hu Hno lt1 lt2. pose proof (free_no_waiter lt uid Hi Hu) as Hfree.
  assert (Hi1 : lt_inv lt1) by (by apply with_token_inv, acquired_inv).
  assert (Hux : u2x lt1 !! uid = Some x) by apply lookup_insert_eq.
  assert (Hi2 : lt_inv lt2) by (by apply (enqueued_inv y uid x)).
  split_and!; [|done|apply lookup_insert_eq|].
  - assert (El : isInList (x2u lt1) y uid = false).
    { apply not_true_is_false. intros (l & Hl & Hin)%isInList_spec. destruct Hi1 as (_ & Hh & _).
      pose proof (Hh y l uid I Hl Hin). congruence. }
    rewrite (Add_wait_run order y uid x) by done.
    destruct (hasDeadLock_waiting order y uid x lt1 Hi1 Hux) as ([] & -> & Hb); [|done].
    destruct Hb as (z & _ & Hz). by destruct (waiting_keeps_free lt x y uid Hi Hix Hne Hu Hno z).
  - apply (removed_wakes x lt2 uid y); [done| |by apply successor_enqueued|apply lookup_insert_eq].
    cbn. unfold putIntoList. rewrite lookup_insert_eq. cbn. set_solver.
Qed.

(** Nobody will ever put a token into [ch]: whoever listens on it waits for the
    row [uid], and that row is never released. *)
Definition in_vain (lt : lockTable) (uid y : UUID) (ch : chan) : Prop :=
  unlisted lt uid y ∧ chans lt !! ch = Some false ∧
  ∀ x, waitCh lt !! x = Some ch → xwaitu lt !! x = Some uid.

Lemma fresh_chan lt ch b : lt_queues lt → chans lt !! ch = Some b → ch ≠ nextCh lt.
Proof. intros Hq Hc ->. pose proof (q_fresh lt Hq (nextCh lt)). naive_solver. Qed.

Lemma released_in_vain lt uid uid' ch :
  lt_queues lt → uid' ≠ uid → chans lt !! ch = Some false →
  (∀ x, waitCh lt !! x = Some ch → xwaitu lt !! x = Some uid) →
  chans (released uid' lt) !! ch = Some false ∧
  ∀ x, waitCh (released uid' lt) !! x = Some ch → xwaitu (released uid' lt) !! x = Some uid.
Proof.
  intros Hq Hne Hc Hx. destruct (successor lt uid') as [y|] eqn:Es.
  - destruct (successor_Some lt uid' y Hq Es) as (l & c & l' & Hl & Hf & Hy & Hxy).
    unfold released. rewrite Hl, Hf. cbn. split.
    + rewrite lookup_insert_ne; [done|]. intros ->. specialize (Hx y Hy). congruence.
    + intros x [Hn Hw]%lookup_delete_Some. rewrite lookup_delete_ne by done. by apply Hx.
  - unfold released, successor in *. destruct (wait lt !! uid') as [l|]; [|done]. cbn in Es.
    by destruct (find_live _ l) as [[[? ?] ?]|].
Qed.

Lemma foldl_in_vain l lt uid ch :
  lt_queues lt → uid ∉ l → chans lt !! ch = Some false →
  (∀ x, waitCh lt !! x = Some ch → xwaitu lt !! x = Some uid) →
  let lt1 := foldl (λ lt uid, released uid lt) lt l in
  chans lt1 !! ch = Some false ∧ ∀ x, waitCh lt1 !! x = Some ch → xwaitu lt1 !! x = Some uid.
Proof.
  revert lt. induction l as [|u l IH]; intros lt Hq Hni Hc Hx; [done|]. cbn [foldl].
  destruct (released_in_vain lt uid u ch Hq ltac:(set_solver) Hc Hx) as [Hc' Hx'].
  apply IH; [by apply released_queues|set_solver|done|done].
Qed.

Lemma in_vain_step lt lt' uid y ch :
  lt_inv lt → in_vain lt uid y ch → lt_step lt lt' → in_vain lt' uid y ch.
Proof.
  intros Hi (Hu & Hc & Hx) Hs. split; [by eapply unlisted_step|]. pose proof Hi as (Hq & _ & _).
  pose proof (fresh_chan lt ch false Hq Hc) as Hfr.
  destruct Hs as [order x uid' lt lt' r Hid HA|x lt lt' HR].
  - destruct (isInList (x2u lt) x uid') eqn:El.
    { rewrite Add_held_run in HA by done. simplify_eq. cbn. by rewrite lookup_insert_ne. }
    destruct (u2x lt !! uid') as [y'|] eqn:Eu.
    2: { rewrite Add_free_run in HA by done. simplify_eq. cbn. by rewrite lookup_insert_ne. }
    rewrite (Add_wait_run order x uid' y') in HA by done.
    destruct (hasDeadLock_waiting order x uid' y' lt Hi Eu) as ([] & Hd & _); rewrite Hd in HA;
      [case_decide; by simplify_eq|]. simplify_eq. cbn. split; [by rewrite lookup_insert_ne|].
    intros z [[_ ?]|[Hn Hz]]%lookup_insert_Some; [done|]. rewrite lookup_insert_ne by done. by apply Hx.
  - rewrite Remove_run in HR by done. simplify_eq.
    assert (Hni : uid ∉ default [] (x2u lt !! x)).
    { destruct (x2u lt !! x) as [l|] eqn:El; cbn; [by eapply Hu|set_solver]. }
    destruct (foldl_in_vain _ lt uid ch Hq Hni Hc Hx) as [Hc' Hx'].
    unfold removed. cbn [chans waitCh xwaitu]. split; [done|].
    intros z [Hn Hz]%lookup_delete_Some. rewrite lookup_delete_ne by done. by apply Hx'.
Qed.

Lemma in_vain_forever lt lt' uid y ch :
  lt_inv lt → in_vain lt uid y ch → rtc lt_step lt lt' → chans lt' !! ch = Some false.
Proof.
  intros Hi Hv Hr. revert Hi Hv. induction Hr as [|a b c Hs _ IH]; intros Hi Hv; [apply Hv|].
  apply IH; [by eapply lt_step_inv|by eapply in_vain_step].
Qed.

Lemma waiter_in_vain lt uid y z ch :
  lt_inv lt → unlisted lt uid y → xwaitu lt !! z = Some uid → waitCh lt !! z = Some ch →
  in_vain lt uid y ch.
Proof.
  intros (Hq & _ & _) Hu Hz Hc. split; [done|]. split; [by apply (q_chan lt Hq z)|].
  intros x Hx. by rewrite (q_inj lt Hq x z ch Hx Hc).
Qed.

(** A request for a row that is never released. *)
Lemma unlisted_Add lt uid y order z :
  lt_inv lt → unlisted lt uid y → idle lt z →
  Add order z uid lt = (lt, Ret (false, None)) ∨
  (Add order z uid lt).2 = OutOfFuel ∨
  ∃ lt3 ch, Add order z uid lt = (lt3, Ret (true, Some ch)) ∧
    ∀ lt4, rtc lt_step lt3 lt4 → chans lt4 !! ch = Some false.
Proof.
  intros Hi Hu Hid. pose proof Hu as [Hy Hno].
  assert (El : isInList (x2u lt) z uid = false).
  { apply not_true_is_false. intros (l & Hl & Hin)%isInList_spec. by eapply Hno. }
  pose proof (Add_wait_run order z uid y lt Hi Hid El Hy) as HA. rewrite HA.
  destruct (hasDeadLock_waiting order z uid y lt Hi Hy) as ([] & Hd & _); rewrite Hd in HA |- *.
  { case_decide; [by left|by right; left]. }
  right; right. do 2 eexists. split; [done|]. intros lt4 Hst.
  assert (Hs : lt_step lt (enqueued z uid lt)) by (by eapply step_Add).
  eapply in_vain_forever; [by eapply lt_step_inv| |done].
  eapply (waiter_in_vain _ uid y z); [by eapply lt_step_inv|by eapply unlisted_step|..];
    cbn; by rewrite lookup_insert_eq.
Qed.

(** * Properties *)

(** C13: in every state the table can reach from [NewLockTable], queues,
    channels and holders agree, no assertion of the code fails ([Remove] always
    returns, [Add] never panics), and each row has one holder that is the one
    listed for it. *)
Theorem lock_table_safe lt :
  lt_reachable lt →
  lt_inv lt ∧ (∀ x, ∃ lt', Remove x lt = (lt', Ret tt)) ∧
  ∀ order x uid, idle lt x → (Add order x uid lt).2 ≠ Panic.
Proof.
  intros Hr%lt_reachable_inv. split_and!; [done|intros x; rewrite Remove_run by apply Hr; eauto|].
  intros order x uid Hid. destruct (isInList (x2u lt) x uid) eqn:El; [by rewrite Add_held_run|].
  destruct (u2x lt !! uid) as [y|] eqn:Eu; [|by rewrite Add_free_run].
  rewrite (Add_wait_run order x uid y) by done.
  destruct (hasDeadLock_waiting order x uid y lt Hr Eu) as ([] & -> & _); by repeat case_decide.
Qed.

Lemma lock_table_safe_witness :
  let lt := script_table [DoAdd [] 1 10; DoAdd [1] 2 10; DoRemove 1; DoAdd [] 3 10] in
  lt_inv lt ∧ (∀ x, ∃ lt', Remove x lt = (lt', Ret tt)) ∧
  ∀ order x uid, idle lt x → (Add order x uid lt).2 ≠ Panic.
Proof. apply lock_table_safe, script_table_reachable. vm_compute. eauto. Defined.

(** C14: the deadlock check always ends with an answer, whatever the order of
    the map iteration, and the answer is exact: it is [true] just when some
    transaction it starts from can follow wait edges into a cycle. *)
Theorem hasDeadLock_correct lt order :
  resolved lt →
  ∃ b, hasDeadLock order lt = Ret b ∧ (b = true ↔ ∃ x, x ∈ order ∧ stuck lt x).
Proof.
  intros Hres. destruct (hasDeadLock_spec lt order Hres) as ([] & -> & Hb); eexists; (split; [done|]).
  - by split.
  - split; [done|]. intros (x & Hx & Hs). by apply Hb, sn_not_stuck in Hx.
Qed.

Lemma hasDeadLock_correct_witness :
  let lt := waiting 1 20 (script_table [DoAdd [] 1 10; DoAdd [1] 2 20; DoAdd [1; 2] 2 10]) in
  ∃ b, hasDeadLock [2; 1] lt = Ret b ∧ (b = true ↔ ∃ x, x ∈ [2; 1] ∧ stuck lt x).
Proof. apply hasDeadLock_correct, resolvedb_resolved. vm_compute. reflexivity. Defined.

(** what [Add] does for a running transaction, on every branch: a free row
    (or one it has listed) is granted at once through a filled channel; a held
    row makes it wait on an empty channel when the check finds no cycle;
    when the check finds one and nobody else queues, the table is restored
    and [false] returned. *)
Theorem Add_behaviour lt order x uid :
  lt_reachable lt → idle lt x →
  match u2x lt !! uid with
  | None =>
      ∃ lt' ch, Add order x uid lt = (lt', Ret (true, Some ch)) ∧ chans lt' !! ch = Some true ∧
        u2x lt' !! uid = Some x ∧ isInList (x2u lt') x uid = true
  | Some y =>
      if isInList (x2u lt) x uid then
        y = x ∧ ∃ lt' ch, Add order x uid lt = (lt', Ret (true, Some ch)) ∧ chans lt' !! ch = Some true
      else ∃ dead, hasDeadLock order (waiting x uid lt) = Ret dead ∧
        if (dead : bool) then wait lt !! uid = None → Add order x uid lt = (lt, Ret (false, None))
        else ∃ lt' ch, Add order x uid lt = (lt', Ret (true, Some ch)) ∧
          chans lt' !! ch = Some false ∧ waitCh lt' !! x = Some ch ∧ next lt' x = Some y ∧
          wait lt' !! uid = Some (default [] (wait lt !! uid) ++ [x])
  end.
Proof.
  intros Hr%lt_reachable_inv Hid. destruct (u2x lt !! uid) as [y|] eqn:Eu.
  - destruct (isInList (x2u lt) x uid) eqn:El.
    + split.
      * apply isInList_spec in El as (l & Hl & Hin). destruct Hr as (_ & Hh & _).
        pose proof (Hh x l uid I Hl Hin). congruence.
      * rewrite Add_held_run by done. do 2 eexists. split; [done|]. apply lookup_insert_eq.
    + rewrite (Add_wait_run order x uid y) by done.
      destruct (hasDeadLock_waiting order x uid y lt Hr Eu) as (b & Hb & _). exists b. split; [done|].
      rewrite Hb. destruct b; [intros; by rewrite decide_True|]. do 2 eexists. split; [done|].
      unfold next. cbn. rewrite !lookup_insert_eq. cbn. split_and!; try done. apply lookup_insert_eq.
  - assert (El : isInList (x2u lt) x uid = false).
    { apply not_true_is_false. intros (l & Hl & Hin)%isInList_spec. destruct Hr as (_ & Hh & _).
      pose proof (Hh x l uid I Hl Hin). congruence. }
    rewrite Add_free_run by done. do 2 eexists. split_and!; [done|apply lookup_insert_eq..|].
    apply isInList_spec. eexists. split; [apply lookup_insert_eq|]. set_solver.
Qed.

Lemma Add_behaviour_witness :
  let lt := script_table [DoAdd [] 1 10; DoAdd [1] 2 20] in
  u2x lt !! 20 = Some 2 ∧ isInList (x2u lt) 1 20 = false ∧
  ∃ dead, hasDeadLock [1; 2] (waiting 1 20 lt) = Ret dead ∧
    if (dead : bool) then wait lt !! 20 = None → Add [1; 2] 1 20 lt = (lt, Ret (false, None))
    else ∃ lt' ch, Add [1; 2] 1 20 lt = (lt', Ret (true, Some ch)) ∧
      chans lt' !! ch = Some false ∧ waitCh lt' !! 1 = Some ch ∧ next lt' 1 = Some 2 ∧
      wait lt' !! 20 = Some (default [] (wait lt !! 20) ++ [1]).
Proof.
  split; [reflexivity|]. split; [reflexivity|].
  refine (Add_behaviour (script_table [DoAdd [] 1 10; DoAdd [1] 2 20]) [1; 2] 1 20 _ _).
  - apply script_table_reachable. vm_compute. eauto.
  - apply idleb_idle. reflexivity.
Defined.

(** [Remove] passes every row listed for the transaction to the first
    transaction of its queue that still waits, in queue order, wakes it by
    filling its channel, frees the row when nobody waits, and leaves the other
    rows with their holders. *)
Theorem Remove_hands_over lt x :
  lt_reachable lt →
  ∃ lt', Remove x lt = (lt', Ret tt) ∧ x2u lt' !! x = None ∧ xwaitu lt' !! x = None ∧
    ∀ uid, if isInList (x2u lt) x uid
           then u2x lt' !! uid = successor lt uid ∧
                ∀ y ch, successor lt uid = Some y → waitCh lt !! y = Some ch → chans lt' !! ch = Some true
           else u2x lt' !! uid = u2x lt !! uid.
Proof.
  intros Hr%lt_reachable_inv. pose proof Hr as (Hq & _ & Hnd). rewrite Remove_run by done.
  eexists. split_and!; [done|apply lookup_delete_eq..|]. intros uid.
  destruct (isInList (x2u lt) x uid) eqn:El.
  - apply isInList_spec in El as (l & Hl & Hin). rewrite removed_u2x by done.
    rewrite Hl. cbn [default]. rewrite decide_True by done. split; [done|]. intros y ch Hs Hc.
    apply (removed_wakes x lt uid y); [done|by rewrite Hl|done|done].
  - rewrite removed_u2x by done. rewrite decide_False; [done|]. intros Hin.
    apply not_true_iff_false in El. apply El, isInList_spec.
    destruct (x2u lt !! x) as [l|]; cbn in Hin; [eauto|set_solver].
Qed.

Lemma Remove_hands_over_witness :
  let lt := script_table [DoAdd [] 1 10; DoAdd [1] 2 10; DoAdd [1] 3 10; DoRemove 2] in
  successor lt 10 = Some 3 ∧
  ∃ lt', Remove 1 lt = (lt', Ret tt) ∧ x2u lt' !! 1 = None ∧ xwaitu lt' !! 1 = None ∧
    ∀ uid, if isInList (x2u lt) 1 uid
           then u2x lt' !! uid = successor lt uid ∧
                ∀ y ch, successor lt uid = Some y → waitCh lt !! y = Some ch → chans lt' !! ch = Some true
           else u2x lt' !! uid = u2x lt !! uid.
Proof.
  split; [reflexivity|]. apply Remove_hands_over, script_table_reachable. vm_compute. eauto.
Defined.

(** As long as every holder is a key of [x2u] (no row was handed over yet),
    [Add] keeps the table free of deadlock: if nobody was stuck before and it
    returns [true], nobody is stuck afterwards. *)
Theorem Add_keeps_deadlock_free lt lt' order x uid ch :
  lt_reachable lt → idle lt x →
  (∀ z, is_Some (x2u lt !! z) → z ∈ order) →
  (∀ u y, u2x lt !! u = Some y → is_Some (x2u lt !! y)) →
  (∀ z, ¬ stuck lt z) →
  Add order x uid lt = (lt', Ret (true, ch)) →
  ∀ z, ¬ stuck lt' z.
Proof.
  intros Hr%lt_reachable_inv Hid Hord Hreg Hno. destruct (isInList (x2u lt) x uid) eqn:El.
  { rewrite Add_held_run by done. intros [= <- _]. done. }
  destruct (u2x lt !! uid) as [y|] eqn:Eu.
  - rewrite (Add_wait_run order x uid y) by done.
    destruct (hasDeadLock_waiting order x uid y lt Hr Eu) as ([] & -> & Hb); [by case_decide|].
    intros [= <- _] z (w & _ & Hw).
    change (edge (enqueued x uid lt)) with (edge (waiting x uid lt)) in Hw.
    assert (Hin : w ∈ order).
    { destruct (tc_target _ _ _ Hw) as (v & Hv). unfold edge, next in Hv. cbn in Hv. apply bind_Some in Hv as (u & _ & Hu). by apply Hord, (Hreg u). }
    by apply Hb, sn_irrefl in Hin.
  - rewrite Add_free_run by done. intros [= <- _].
    assert (He : ∀ a b, edge (with_token (acquired x uid lt)) a b → edge lt a b).
    { unfold edge, next. cbn. intros a b (u & Hu & Hb)%bind_Some. rewrite Hu. cbn.
      destruct Hr as (Hq & _). destruct (q_res lt Hq a u Hu) as [c Hc].
      rewrite lookup_insert_ne in Hb by congruence. done. }
    intros z (w & Hzw & Hww). apply (Hno z). exists w.
    split; [by eapply rtc_subrel|by eapply tc_mono].
Qed.

Lemma Add_keeps_deadlock_free_witness :
  let lt := script_table [DoAdd [] 1 10; DoAdd [1] 2 20] in
  (Add [1; 2] 1 20 lt).2 = Ret (true, Some 2%nat) ∧ ∀ z, ¬ stuck (Add [1; 2] 1 20 lt).1 z.
Proof.
  intros lt. split; [reflexivity|]. refine (Add_keeps_deadlock_free lt (Add [1; 2] 1 20 lt).1 [1; 2] 1 20 (Some 2%nat) _ _ _ _ _ _).
  - apply script_table_reachable. vm_compute. eauto.
  - apply idleb_idle. reflexivity.
  - intros z Hz%elem_of_dom. assert (dom (x2u lt) ⊆ list_to_set [1; 2]) as H
      by (apply (bool_decide_eq_true_1 _); vm_compute; reflexivity). set_solver.
  - intros u y. apply (map_Forall_lookup_1 (λ _ y, is_Some (x2u lt !! y)) (u2x lt)).
    apply (bool_decide_eq_true_1 _). vm_compute. reflexivity.
  - intros z (w & _ & Hw). assert (∃ v, edge lt w v) as (v & Hv) by (destruct Hw; eauto).
    unfold edge, next in Hv. assert (xwaitu lt = ∅) as E by reflexivity. rewrite E, lookup_empty in Hv. done.
  - reflexivity.
Defined.

(** C15: a row that is handed over on [Remove] is never given back: the new
    holder is not entered in [x2u], so after whatever requests and removals
    follow, its own removal included, it is still recorded as the holder.  No
    later request for the row, the holder's own included, is ever granted: it
    is refused as a deadlock, or [Add] does not return, or it gets an empty
    channel; and the channel of everyone who waits for the row, from before or
    from now on, stays empty for good. *)
Theorem handed_over_row_leaks lt x y uid lt1 :
  lt_reachable lt → isInList (x2u lt) x uid = true → successor lt uid = Some y →
  Remove x lt = (lt1, Ret tt) →
  ∀ lt2, rtc lt_step lt1 lt2 →
    u2x lt2 !! uid = Some y ∧
    (∀ order z, idle lt2 z →
      Add order z uid lt2 = (lt2, Ret (false, None)) ∨
      (Add order z uid lt2).2 = OutOfFuel ∨
      ∃ lt3 ch, Add order z uid lt2 = (lt3, Ret (true, Some ch)) ∧
        ∀ lt4, rtc lt_step lt3 lt4 → chans lt4 !! ch = Some false) ∧
    ∀ z ch, xwaitu lt2 !! z = Some uid → waitCh lt2 !! z = Some ch →
      ∀ lt4, rtc lt_step lt2 lt4 → chans lt4 !! ch = Some false.
Proof.
  intros Hr%lt_reachable_inv Hl Hs HR lt2 Hsteps. rewrite Remove_run in HR by apply Hr. simplify_eq.
  assert (Hi1 : lt_inv (removed x lt)) by (by apply removed_inv).
  assert (Hu : unlisted lt2 uid y).
  { eapply unlisted_forever; [done| |done]. apply removed_unlisted; [done| |done].
    apply isInList_spec in Hl as (l & -> & Hin). done. }
  assert (Hi : lt_inv lt2) by (by eapply lt_steps_inv).
  split; [apply Hu|]. split; [by intros; eapply unlisted_Add|].
  intros z ch Hz Hc lt4 Hst. by eapply (in_vain_forever lt2); [|eapply (waiter_in_vain lt2 uid y z)|].
Qed.

Lemma handed_over_row_leaks_witness :
  let lt := script_table [DoAdd [] 1 10; DoAdd [1] 2 10] in
  let lt2 := script_table [DoAdd [] 1 10; DoAdd [1] 2 10; DoRemove 1; DoRemove 2] in
  u2x lt2 !! 10 = Some 2 ∧
  (∀ order z, idle lt2 z →
    Add order z 10 lt2 = (lt2, Ret (false, None)) ∨
    (Add order z 10 lt2).2 = OutOfFuel ∨
    ∃ lt3 ch, Add order z 10 lt2 = (lt3, Ret (true, Some ch)) ∧
      ∀ lt4, rtc lt_step lt3 lt4 → chans lt4 !! ch = Some false) ∧
  ∀ z ch, xwaitu lt2 !! z = Some 10 → waitCh lt2 !! z = Some ch →
    ∀ lt4, rtc lt_step lt2 lt4 → chans lt4 !! ch = Some false.
Proof.
  intros lt lt2.
  refine (handed_over_row_leaks lt 1 2 10 (Remove 1 lt).1 _ _ _ _ lt2 _); [|reflexivity|reflexivity|reflexivity|].
  - apply script_table_reachable. vm_compute. eauto.
  - apply (lt_script_reachable [DoRemove 2]). vm_compute. reflexivity.
Defined.

(** the deadlock check misses cycles among transactions that got their
    rows by hand-over: after six legal requests and one removal, 2 waits for 4
    and 4 waits for 2, although every [Add] returned [true]; nobody is left
    who could break the cycle. *)
Theorem missed_deadlock :
  let lt := script_table [DoAdd [] 1 10; DoAdd [1] 1 20; DoAdd [1] 2 10; DoAdd [1] 4 20;
                          DoRemove 1; DoAdd [] 2 20] in
  lt_reachable lt ∧ idle lt 4 ∧ dom (x2u lt) = ∅ ∧
  ∃ lt' ch, Add [] 4 10 lt = (lt', Ret (true, Some ch)) ∧
    next lt' 2 = Some 4 ∧ next lt' 4 = Some 2 ∧ stuck lt' 2 ∧ stuck lt' 4.
Proof.
  intros lt. split; [apply script_table_reachable; vm_compute; eauto|].
  split; [apply idleb_idle; reflexivity|]. split; [reflexivity|].
  exists (Add [] 4 10 lt).1, 5%nat. split; [reflexivity|].
  assert (H24 : edge (Add [] 4 10 lt).1 2 4) by reflexivity.
  assert (H42 : edge (Add [] 4 10 lt).1 4 2) by reflexivity.
  split_and!; [done|done|exists 2|exists 4]; (split; [done|]); eapply tc_l; eauto using tc_once.
Qed.

(** when the check finds a cycle while other transactions already queue for
    the row, [removeFromList] never advances past the head of the queue: no
    amount of fuel ends the loop, so [Add] does not return (and keeps the mutex
    of the table). *)
Theorem Add_deadlock_hangs lt order x uid y z l :
  lt_reachable lt → idle lt x → isInList (x2u lt) x uid = false →
  u2x lt !! uid = Some y → wait lt !! uid = Some (z :: l) →
  hasDeadLock order (waiting x uid lt) = Ret true →
  (Add order x uid lt).2 = OutOfFuel ∧
  ∀ fuel, removeLoop fuel x (z :: l ++ [x]) = OutOfFuel.
Proof.
  intros Hr%lt_reachable_inv Hid Hl Hu Hw Hd. split.
  - rewrite (Add_wait_run order x uid y) by done. rewrite Hd, Hw. by rewrite decide_False.
  - intros fuel. apply removeLoop_stuck. intros ->. eapply Hid; [done|left].
Qed.

Lemma Add_deadlock_hangs_witness :
  let lt := script_table [DoAdd [] 1 10; DoAdd [1] 2 20; DoAdd [1; 2] 3 20; DoAdd [1; 2] 2 10] in
  (Add [1; 2] 1 20 lt).2 = OutOfFuel ∧ ∀ fuel, removeLoop fuel 1 (3 :: [] ++ [1]) = OutOfFuel.
Proof.
  intros lt. refine (Add_deadlock_hangs lt [1; 2] 1 20 2 3 [] _ _ _ _ _ _); try reflexivity.
  - apply script_table_reachable. vm_compute. eauto.
  - apply idleb_idle. reflexivity.
Defined.
