(* ===== verification/DmI.v ===== *)
(** The interface [dm.DataManager] as its clients see it: items are byte
    strings addressed by UUIDs, inserted once and updated in place. *)
From S2P Require Import Prelude.
From S2P Require Import Codec.
From S2P Require Import Tm.
Local Open Scope Z_scope.

(** [dm_Read d uid]: the data of the item, [None] for an item whose valid flag
    was cleared by recovery, or an error.  [dm_Write xid uid data] is
    [Before]; writes through [Data()]; [After(xid)]. *)
Class DataManager (D : Type) := {
  dm_Read : D → UUID → outcome (option (list byte));
  dm_Insert : XID → list byte → M D UUID;
  dm_Write : XID → UUID → list byte → M D unit
}.

(** Items up to this size always fit a page (with their header of three bytes
    and the granularity of the free-space index). *)
Definition ITEM_LIMIT : Z := 8156.

(** The contract: a manager represents a map from UUIDs to valid items;
    [dm_room d n] says that there is room for [n] more items; [dm_writer] are the
    transactions that may write, the super transaction among them. *)
Class DataManagerOk (D : Type) `{!DataManager D} := {
  dm_rep : D → gmap UUID (list byte) → Prop;
  dm_room : D → nat → Prop;
  dm_writer : XID → Prop;
  dm_writer_super : dm_writer SUPER_XID;
  dm_Read_ok d items uid data :
    dm_rep d items → items !! uid = Some data → dm_Read d uid = Ret (Some data);
  dm_Insert_ok d items xid data n :
    dm_rep d items → dm_writer xid → zlen data ≤ ITEM_LIMIT → dm_room d (S n) →
    ∃ d' uid, dm_Insert xid data d = (d', Ret uid) ∧
      items !! uid = None ∧ 0 < uid < INF ∧ dm_rep d' (<[uid := data]> items) ∧ dm_room d' n;
  dm_Write_ok d items xid uid old data :
    dm_rep d items → dm_writer xid → items !! uid = Some old → zlen data = zlen old →
    ∃ d', dm_Write xid uid data d = (d', Ret tt) ∧ dm_rep d' (<[uid := data]> items) ∧ (∀ n, dm_room d n → dm_room d' n)
}.

(** * A data manager in memory *)

(** The map itself with a counter for the next address: the smallest instance
    of the contract, used to evaluate the clients on concrete inputs. *)
Record memDM := mkMem { mem_items : gmap UUID (list byte); mem_next : UUID }.

#[export] Instance memDM_impl : DataManager memDM := {|
  dm_Read d uid := match mem_items d !! uid with Some data => Ret (Some data) | None => Ret None end;
  dm_Insert _ data := λ d,
    if decide (mem_next d < INF) then
      (mkMem (<[mem_next d := data]> (mem_items d)) (mem_next d + 1), Ret (mem_next d))
    else (d, Err ErrBusy);
  dm_Write _ uid data := λ d, (mkMem (<[uid := data]> (mem_items d)) (mem_next d), Ret tt)
|}.

#[export] Program Instance memDM_ok : DataManagerOk memDM := {|
  dm_rep d items := mem_items d = items ∧ 0 < mem_next d ∧ ∀ uid, mem_next d ≤ uid → items !! uid = None;
  dm_room d n := mem_next d + Z.of_nat n ≤ INF;
  dm_writer _ := True
|}.
Next Obligation. done. Qed.
Next Obligation. intros d items uid data (<- & _) H. cbn. by rewrite H. Qed.
Next Obligation.
  intros d items xid data n (<- & Hn & Hf) _ _ Hacc. cbn in *. rewrite decide_True by lia.
  eexists _, _. split; [done|]. split_and!; [apply Hf; lia|lia|lia|done|cbn; lia| |cbn; lia]. cbn. intros uid Hu.
  rewrite lookup_insert_ne by lia. apply Hf. lia.
Qed.
Next Obligation.
  intros d items xid uid old data (<- & Hn & Hf) _ Ho Hl. cbn. eexists. split; [done|]. split_and!; [done..| |done].
  cbn. intros uid' Hu. rewrite lookup_insert_ne; [by apply Hf|]. intros ->. by rewrite Hf in Ho by lia.
Qed.
