(* ===== verification/Logger.v ===== *)
(** Package [dm/logger]: the write-ahead log file ([logger.go]).

    The file is a running checksum of all log records, then the records, each
    with its length and its own checksum.  Opening it scans the records, drops
    a torn tail and compares the running checksum. *)
From S2P Require Import Prelude.
From S2P Require Import Codec.
From S2P Require Import GoFile.
Local Open Scope Z_scope.

Definition _SEED : Z := 13331.
Definition _OF_SIZE : Z := 0.
Definition _OF_CHECKSUM : Z := _OF_SIZE + 4.
Definition _OF_DATA : Z := _OF_CHECKSUM + 4.

Record logger := mkLog { lg_file : file; lg_pos : Z; fileSize : Z; xChecksum : Z }.

Definition on_lfile {A} : M file A → M logger A :=
  zoom lg_file (λ f lg, mkLog f (lg_pos lg) (fileSize lg) (xChecksum lg)).

Definition set_lg_pos p lg := mkLog (lg_file lg) p (fileSize lg) (xChecksum lg).

Definition calChecksum (accumulation : Z) (data : list byte) : Z :=
  fold_left (λ acc b, u32 (byte.unsigned b + u32 (acc * _SEED))) data accumulation.

Definition warpLog (data : list byte) : list byte :=
  let log := make_bytes (zlen data + _OF_DATA) in
  let log := on_tail log _OF_SIZE (λ t, PutUint32 t (u32 (zlen data))) in
  let log := copy_at log _OF_DATA data in
  let checksum := calChecksum 0 data in
  on_tail log _OF_CHECKSUM (λ t, PutUint32 t checksum).

Definition updateXChecksum (log : list byte) : M logger unit :=
  _ ← modify (λ lg, mkLog (lg_file lg) (lg_pos lg) (fileSize lg) (calChecksum (xChecksum lg) log));
  lg ← get;
  _ ← on_lfile (file_WriteAt (Uint32ToRaw (xChecksum lg)) 0);
  on_lfile file_Sync.

Definition Log (data : list byte) : M logger unit :=
  let log := warpLog data in
  _ ← on_lfile (file_Write log);
  updateXChecksum log.

Definition Truncate (x : Z) : M logger unit := on_lfile (file_Truncate x).

Definition Rewind : M logger unit := modify (set_lg_pos 4).

(** [None] for [ok == false]. *)
Definition next : M logger (option (list byte)) :=
  lg ← get;
  if decide (fileSize lg ≤ lg_pos lg + _OF_DATA) then mret None
  else
    tmp ← lift (file_ReadAt (lg_file lg) 4 (lg_pos lg));
    size ← lift (ParseUint32 tmp);
    if decide (fileSize lg < lg_pos lg + size + _OF_DATA) then mret None
    else
      log ← lift (file_ReadAt (lg_file lg) (_OF_DATA + size) (lg_pos lg));
      body ← lift (slice_from log _OF_DATA);
      let checksum1 := calChecksum 0 body in
      raw2 ← lift (slice_from log _OF_CHECKSUM);
      checksum2 ← lift (ParseUint32 raw2);
      if decide (checksum1 ≠ checksum2) then mret None
      else
        _ ← modify (λ lg, set_lg_pos (lg_pos lg + zlen log) lg);
        mret (Some log).

Definition Next : M logger (option (list byte)) :=
  log ← next;
  match log with
  | None => mret None
  | Some log => body ← lift (slice_from log _OF_DATA); mret (Some body)
  end.

(** The scan of [checkAndRemoveTail]; every record takes bytes of the file. *)
Fixpoint checkLoop (fuel : nat) (xCheckSum : Z) : M logger Z :=
  match fuel with
  | O => lift OutOfFuel
  | S fuel' =>
      log ← next;
      match log with
      | None => mret xCheckSum
      | Some log => checkLoop fuel' (calChecksum xCheckSum log)
      end
  end.

Definition checkAndRemoveTail : M logger unit :=
  _ ← Rewind;
  lg ← get;
  xCheckSum ← checkLoop (S (length (f_data (lg_file lg)))) 0;
  lg ← get;
  if decide (xCheckSum = xChecksum lg) then
    _ ← on_lfile (file_Truncate (lg_pos lg));
    _ ← on_lfile (file_Seek (lg_pos lg));
    Rewind
  else fail ErrBadLogFile.

Definition init : M logger unit :=
  lg ← get;
  size ← lift (file_Stat (lg_file lg));
  if decide (size < 4) then fail ErrBadLogFile
  else
    raw ← lift (file_ReadAt (lg_file lg) 4 0);
    xck ← lift (ParseUint32 raw);
    _ ← modify (λ lg, mkLog (lg_file lg) (lg_pos lg) size xck);
    checkAndRemoveTail.

(** [opened]: what [os.OpenFile] returned. *)
Definition Open (opened : outcome file) : outcome logger :=
  f ← opened;
  match init (mkLog f 0 0 0) with
  | (lg, Ret _) => Ret lg
  | (_, Err e) => Err e
  | (_, Panic) => Panic
  | (_, OutOfFuel) => OutOfFuel
  end.

Definition Create (opened : outcome file) : outcome logger :=
  f ← opened;
  match (_ ← file_Write (Uint32ToRaw 0); file_Sync) f with
  | (f', Ret _) => Ret (mkLog f' 0 0 0)
  | (_, Err e) => Err e
  | (_, Panic) => Panic
  | (_, OutOfFuel) => OutOfFuel
  end.

Definition Close : M logger unit := on_lfile file_Close.

(** * The interface [Logger] *)

Class LoggerI (L : Type) := {
  lg_Log : list byte → M L unit;
  lg_Truncate : Z → M L unit;
  lg_Next : M L (option (list byte));
  lg_Rewind : M L unit
}.

#[export] Instance logger_impl : LoggerI logger := {|
  lg_Log := Log; lg_Truncate := Truncate; lg_Next := Next; lg_Rewind := Rewind |}.

(** The logger of the tests: it keeps nothing, and its [Next] always has one
    more record. *)
Definition mockLogger := unit.

#[export] Instance mockLogger_impl : LoggerI mockLogger := {|
  lg_Log := λ _, mret tt; lg_Truncate := λ _, mret tt; lg_Next := mret (Some []); lg_Rewind := mret tt |}.

(** * The file of a log *)

Definition record (d : list byte) : list byte := Uint32ToRaw (zlen d) ++ Uint32ToRaw (calChecksum 0 d) ++ d.
Definition records (ds : list (list byte)) : list byte := mjoin (record <$> ds).
Definition running (ds : list (list byte)) : Z := calChecksum 0 (records ds).
Definition log_image (ds : list (list byte)) : list byte := Uint32ToRaw (running ds) ++ records ds.

(** What the data manager logs: something, and less than 4 GiB. *)
Definition loggable (d : list byte) : Prop := 0 < zlen d < 2 ^ 32.

Lemma zlen_record d : zlen (record d) = 8 + zlen d.
Proof. unfold record. rewrite !zlen_app, !zlen_raw32. lia. Qed.

Lemma calChecksum_range acc d : 0 ≤ acc < 2 ^ 32 → 0 ≤ calChecksum acc d < 2 ^ 32.
Proof.
  revert acc. induction d as [|b d IH]; intros acc Ha; [done|]. cbn. apply IH. apply u32_range.
Qed.

Lemma calChecksum_app acc a b : calChecksum acc (a ++ b) = calChecksum (calChecksum acc a) b.
Proof. apply fold_left_app. Qed.

Lemma records_snoc ds d : records (ds ++ [d]) = records ds ++ record d.
Proof. unfold records. rewrite fmap_app. unfold mjoin. rewrite join_app. cbn. by rewrite app_nil_r. Qed.

Lemma records_cons d ds : records (d :: ds) = record d ++ records ds.
Proof. done. Qed.

Lemma warpLog_record d : zlen d < 2 ^ 32 → warpLog d = record d.
Proof.
  intros Hd. pose proof (zlen_nonneg d). unfold warpLog, _OF_DATA, _OF_CHECKSUM, _OF_SIZE, PutUint32. cbn [Z.add].
  change (0 + 4 + 4) with 8. change (0 + 4) with 4. rewrite u32_id by lia.
  rewrite (on_tail_put_be 4 (make_bytes _) 0) by (rewrite ?zlen_make_bytes; lia).
  replace (zlen d + 8) with (4 + (4 + zlen d)) by lia.
  change (make_bytes (4 + (4 + zlen d))) with ([] ++ make_bytes (4 + (4 + zlen d))).
  rewrite copy_at_fill by (rewrite ?zlen_be_bytes; done || lia). rewrite zlen_be_bytes, app_nil_l.
  replace (4 + (4 + zlen d) - Z.of_nat 4) with (4 + zlen d) by lia.
  rewrite make_bytes_split by lia. rewrite app_assoc.
  rewrite copy_at_fill by (rewrite ?zlen_app, ?zlen_be_bytes, ?zlen_make_bytes; lia). rewrite Z.sub_diag, app_nil_r.
  rewrite on_tail_put_be by (rewrite ?zlen_app, ?zlen_be_bytes, ?zlen_make_bytes; lia).
  rewrite (copy_at_piece _ (be_bytes 4 (zlen d)) (make_bytes 4) d) by (rewrite ?zlen_be_bytes; done || by rewrite <- app_assoc).
  done.
Qed.

(** Reading a record that is whole. *)
Lemma next_record lg pre d rest :
  f_open (lg_file lg) = true → f_data (lg_file lg) = pre ++ record d ++ rest → lg_pos lg = zlen pre →
  zlen (f_data (lg_file lg)) ≤ fileSize lg → loggable d →
  next lg = (set_lg_pos (zlen pre + zlen (record d)) lg, Ret (Some (record d))).
Proof.
  intros Ho Hf Hp Hs [Hd1 Hd2]. pose proof (zlen_nonneg pre). pose proof (zlen_nonneg rest).
  assert (Hlen : zlen (f_data (lg_file lg)) = zlen pre + (8 + zlen d) + zlen rest) by (rewrite Hf, !zlen_app, zlen_record; lia).
  unfold next, _OF_DATA, _OF_CHECKSUM, _OF_SIZE. change (0 + 4 + 4) with 8. change (0 + 4) with 4.
  rewrite M_get_bind, decide_False by lia.
  rewrite file_ReadAt_in by (done || lia). rewrite M_lift_bind, Hf.
  rewrite (sub_at _ pre (Uint32ToRaw (zlen d)) (Uint32ToRaw (calChecksum 0 d) ++ d ++ rest));
    [|unfold record; by rewrite <- !app_assoc|by rewrite Hp|apply zlen_raw32].
  assert (Hps : ParseUint32 (Uint32ToRaw (zlen d)) = Ret (zlen d)) by (apply get_be_exact; lia).
  rewrite Hps, M_lift_bind, decide_False by lia.
  rewrite file_ReadAt_in by (done || lia). rewrite M_lift_bind, Hf.
  rewrite (sub_at _ pre (record d) rest) by (done || rewrite ?zlen_record; lia).
  rewrite (slice_from_at _ (Uint32ToRaw (zlen d) ++ Uint32ToRaw (calChecksum 0 d)) d 8) by done.
  rewrite M_lift_bind. rewrite (slice_from_at _ (Uint32ToRaw (zlen d)) (Uint32ToRaw (calChecksum 0 d) ++ d) 4) by done.
  assert (Hpc : ParseUint32 (Uint32ToRaw (calChecksum 0 d) ++ d) = Ret (calChecksum 0 d))
    by (apply get_be_app, calChecksum_range; lia).
  rewrite M_lift_bind, Hpc, M_lift_bind, decide_False by (intros Hn; by apply Hn). unfold modify, mbind, M_bind. by rewrite Hp.
Qed.

(** A tail where the scan stops, the file being as long as it was at [Open]. *)
Definition stops (tail : list byte) : Prop :=
  ∀ lg pre, f_open (lg_file lg) = true → f_data (lg_file lg) = pre ++ tail → lg_pos lg = zlen pre →
    fileSize lg = zlen (f_data (lg_file lg)) → next lg = (lg, Ret None).

(** A record of which only the first [k] bytes were written. *)
Lemma torn_stops d k : loggable d → (k < length (record d))%nat → stops (take k (record d)).
Proof.
  intros [Hd1 Hd2] Hk lg pre Ho Hf Hp Hs. pose proof (zlen_nonneg pre). pose proof (zlen_record d) as Hrec.
  assert (Hl : zlen (take k (record d)) = Z.of_nat k) by (unfold zlen; rewrite length_take; lia).
  rewrite Hf, zlen_app, Hl in Hs. unfold zlen at 1 in Hrec. unfold next, _OF_DATA, _OF_CHECKSUM, _OF_SIZE. change (0 + 4 + 4) with 8.
  rewrite M_get_bind. case_decide as Hend; [done|].
  assert (Htk : take k (record d) = Uint32ToRaw (zlen d) ++ take (k - 4) (Uint32ToRaw (calChecksum 0 d) ++ d)).
  { unfold record. rewrite take_app_ge by (change (length (Uint32ToRaw (zlen d))) with 4%nat; lia). done. }
  rewrite file_ReadAt_in by (rewrite ?Hf, ?zlen_app, ?Hl; done || lia). rewrite M_lift_bind, Hf, Htk.
  rewrite (sub_at _ pre (Uint32ToRaw (zlen d)) (take (k - 4) (Uint32ToRaw (calChecksum 0 d) ++ d))) by done.
  assert (Hps : ParseUint32 (Uint32ToRaw (zlen d)) = Ret (zlen d)) by (apply get_be_exact; lia).
  rewrite Hps, M_lift_bind, decide_True by lia. done.
Qed.

Lemma nil_stops : stops [].
Proof.
  intros lg pre Ho Hf Hp Hs. unfold next, _OF_DATA, _OF_CHECKSUM, _OF_SIZE. rewrite M_get_bind.
  rewrite decide_True; [done|]. rewrite Hs, Hf, Hp, app_nil_r. lia.
Qed.

Lemma checkLoop_run fuel acc lg pre ds tail :
  f_open (lg_file lg) = true → f_data (lg_file lg) = pre ++ records ds ++ tail → lg_pos lg = zlen pre →
  fileSize lg = zlen (f_data (lg_file lg)) → Forall loggable ds → stops tail → (length ds < fuel)%nat →
  checkLoop fuel acc lg = (set_lg_pos (zlen pre + zlen (records ds)) lg, Ret (calChecksum acc (records ds))).
Proof.
  revert fuel acc lg pre. induction ds as [|d ds IH]; intros fuel acc lg pre Ho Hf Hp Hs Hall Hstop Hfuel;
    (destruct fuel as [|fuel]; [lia|]); cbn [checkLoop].
  - rewrite (M_bind_run _ _ _ _ _ (Hstop lg pre Ho Hf Hp Hs)). unfold set_lg_pos. destruct lg. cbn in *.
    do 2 f_equal. change (zlen (records [])) with 0. rewrite Z.add_0_r. by subst.
  - apply Forall_cons in Hall as [Hd Hall]. rewrite records_cons, <- app_assoc in Hf.
    rewrite (M_bind_run _ _ _ _ _ (next_record lg pre d (records ds ++ tail) Ho Hf Hp ltac:(lia) Hd)).
    rewrite (IH fuel _ _ (pre ++ record d)); [|done|by rewrite <- app_assoc|by rewrite zlen_app|done|done|done|cbn in Hfuel; lia].
    rewrite records_cons, calChecksum_app, !zlen_app. unfold set_lg_pos. cbn. do 2 f_equal. lia.
Qed.

Lemma records_length ds : (length ds ≤ length (records ds))%nat.
Proof.
  induction ds as [|d ds IH]; [cbn; lia|]. rewrite records_cons, length_app. cbn [length].
  pose proof (zlen_record d). pose proof (zlen_nonneg d). unfold zlen at 1 in H. lia.
Qed.

Definition log_rep (lg : logger) (ds : list (list byte)) : Prop :=
  healthy (lg_file lg) ∧ f_data (lg_file lg) = log_image ds ∧ f_pos (lg_file lg) = zlen (log_image ds) ∧
  xChecksum lg = running ds.

Lemma running_range ds : 0 ≤ running ds < 2 ^ 32.
Proof. apply calChecksum_range. lia. Qed.

(** Opening a file that holds a running checksum, whole records and a tail. *)
Lemma Open_run f xck ds tail :
  healthy f → 0 ≤ xck < 2 ^ 32 → f_data f = Uint32ToRaw xck ++ records ds ++ tail → Forall loggable ds → stops tail →
  Open (Ret f) =
    if decide (running ds = xck) then
      Ret (mkLog (set_pos (zlen (log_image ds)) (set_data (log_image ds) f)) 4 (zlen (f_data f)) xck)
    else Err ErrBadLogFile.
Proof.
  intros Hh Hx Hf Hall Hstop. pose proof (zlen_nonneg (records ds)). pose proof (zlen_nonneg tail). pose proof (proj1 Hh) as Ho.
  assert (Hlen : zlen (f_data f) = 4 + (zlen (records ds) + zlen tail)) by (rewrite Hf, !zlen_app, zlen_raw32; lia).
  unfold Open, init. cbn [mbind outcome_bind].
  assert (Hinit : init (mkLog f 0 0 0) = checkAndRemoveTail (mkLog f 0 (zlen (f_data f)) xck)).
  { unfold init. rewrite M_get_bind. unfold file_Stat. cbn [lg_file]. rewrite Ho, M_lift_bind. unfold file_Size.
    rewrite decide_False by lia. rewrite file_ReadAt_in by (done || lia). rewrite M_lift_bind, Hf.
    rewrite (sub_at _ [] (Uint32ToRaw xck) (records ds ++ tail)) by done.
    assert (Hps : ParseUint32 (Uint32ToRaw xck) = Ret xck) by (by apply get_be_exact).
    by rewrite Hps, M_lift_bind, <- Hf. }
  unfold init in Hinit. rewrite Hinit. clear Hinit. unfold checkAndRemoveTail, Rewind.
  set (lg1 := mkLog f 4 (zlen (f_data f)) xck).
  rewrite (M_bind_run _ _ _ lg1 tt) by done. rewrite M_get_bind.
  assert (Hfuel : (length ds < S (length (f_data (lg_file lg1))))%nat).
  { pose proof (records_length ds). cbn. rewrite Hf, !length_app. lia. }
  erewrite M_bind_run by by apply (checkLoop_run _ 0 lg1 (Uint32ToRaw xck) ds tail).
  rewrite zlen_raw32, M_get_bind. fold (running ds). cbn [xChecksum set_lg_pos lg1]. destruct (decide (running ds = xck)) as [Hr|]; [|done].
  cbn [lg_pos set_lg_pos]. unfold on_lfile, zoom, mbind, M_bind. cbn [lg_file lg1 set_lg_pos].
  rewrite file_Truncate_shrink by (done || lia).
  rewrite file_Seek_healthy by (done || lia).
  assert (Htake : take (Z.to_nat (4 + zlen (records ds))) (f_data f) = log_image ds).
  { rewrite Hf, app_assoc. unfold log_image. rewrite Hr. rewrite take_app_length'; [done|].
    rewrite length_app. change (length (Uint32ToRaw xck)) with 4%nat. unfold zlen. lia. }
  assert (Hpos : 4 + zlen (records ds) = zlen (log_image ds)) by (unfold log_image; rewrite zlen_app, zlen_raw32; lia).
  by rewrite Htake, Hpos.
Qed.

Lemma Log_run lg ds d :
  log_rep lg ds → zlen d < 2 ^ 32 →
  ∃ lg', Log d lg = (lg', Ret tt) ∧ log_rep lg' (ds ++ [d]).
Proof.
  intros (Hh & Hf & Hp & Hx) Hd. unfold Log. rewrite warpLog_record by done.
  assert (Himg : write_at (write_at (log_image ds) (zlen (log_image ds)) (record d)) 0
      (Uint32ToRaw (calChecksum (running ds) (record d))) = log_image (ds ++ [d])).
  { rewrite write_at_end, write_at_inside; [|lia|].
    2: { unfold log_image. rewrite !zlen_app, !zlen_raw32. pose proof (zlen_nonneg (records ds)). pose proof (zlen_nonneg (record d)). lia. }
    unfold log_image. rewrite <- app_assoc.
    rewrite (copy_at_piece _ [] (Uint32ToRaw (running ds)) (records ds ++ record d)) by done.
    unfold running. rewrite records_snoc, calChecksum_app. done. }
  pose proof (zlen_nonneg (log_image ds)) as Hnn. eexists. split.
  - erewrite M_bind_run; [|unfold on_lfile, zoom; rewrite file_Write_healthy by (done || lia); done].
    unfold updateXChecksum, modify, get, on_lfile, zoom, mbind, M_bind. cbn [lg_file xChecksum lg_pos fileSize].
    rewrite file_WriteAt_healthy by (done || lia). cbn [lg_file xChecksum lg_pos fileSize].
    rewrite file_Sync_healthy by done. done.
  - split_and!; cbn [lg_file xChecksum set_data set_pos f_data f_pos f_open f_faults].
    + apply Hh.
    + by rewrite Hf, Hp, Hx.
    + rewrite Hp. unfold log_image. rewrite records_snoc, !zlen_app, !zlen_raw32. lia.
    + rewrite Hx. unfold running. by rewrite records_snoc, calChecksum_app.
Qed.

(** * Using the log *)

(** A client that logs one record after the other. *)
Fixpoint Log_all (ds : list (list byte)) : M logger unit :=
  match ds with
  | [] => mret tt
  | d :: ds => _ ← Log d; Log_all ds
  end.

(** The loop of the recovery: call [Next] until it says that there is no more
    ([n] bounds the calls). *)
Fixpoint Next_all (n : nat) : M logger (list (list byte)) :=
  match n with
  | O => lift OutOfFuel
  | S n =>
      log ← Next;
      match log with
      | None => mret []
      | Some d => ds ← Next_all n; mret (d :: ds)
      end
  end.

Lemma Log_all_run ds' : ∀ lg ds,
  log_rep lg ds → Forall loggable ds' →
  ∃ lg', Log_all ds' lg = (lg', Ret tt) ∧ log_rep lg' (ds ++ ds').
Proof.
  induction ds' as [|d ds' IH]; intros lg ds Hrep Hall.
  - exists lg. by rewrite app_nil_r.
  - apply Forall_cons in Hall as [[Hd1 Hd2] Hall].
    destruct (Log_run lg ds d Hrep Hd2) as (lg1 & Hrun & Hrep1).
    destruct (IH lg1 (ds ++ [d]) Hrep1 Hall) as (lg' & Hrun' & Hrep').
    exists lg'. rewrite <- app_assoc in Hrep'. split; [|done].
    cbn [Log_all]. by rewrite (M_bind_run _ _ _ _ _ Hrun).
Qed.

Lemma Create_run : ∃ lg, Create (Ret (file_of [])) = Ret lg ∧ log_rep lg [].
Proof. eexists. split; [reflexivity|]. by vm_compute. Qed.

Lemma Next_record lg pre d rest :
  f_open (lg_file lg) = true → f_data (lg_file lg) = pre ++ record d ++ rest → lg_pos lg = zlen pre →
  zlen (f_data (lg_file lg)) ≤ fileSize lg → loggable d →
  Next lg = (set_lg_pos (zlen pre + zlen (record d)) lg, Ret (Some d)).
Proof.
  intros. unfold Next. rewrite (M_bind_run _ _ _ _ _ (next_record lg pre d rest ltac:(done) ltac:(done) ltac:(done) ltac:(done) ltac:(done))).
  by rewrite (slice_from_at _ (Uint32ToRaw (zlen d) ++ Uint32ToRaw (calChecksum 0 d)) d 8) by done.
Qed.

(** [Next_all] reads the records of the file and then answers what [Next]
    answers at its end. *)
Lemma Next_all_run ds : ∀ lg pre n,
  f_open (lg_file lg) = true → f_data (lg_file lg) = pre ++ records ds → lg_pos lg = zlen pre →
  zlen (f_data (lg_file lg)) ≤ fileSize lg → Forall loggable ds →
  let lg' := set_lg_pos (zlen (pre ++ records ds)) lg in
  Next_all (length ds + S n) lg = (rest ← Next_all (S n); mret (ds ++ rest)) lg'.
Proof.
  induction ds as [|d ds IH]; intros lg pre n Ho Hf Hp Hs Hall lg'.
  - assert (lg' = lg) as ->.
    { unfold lg', set_lg_pos. change (records []) with (@nil byte). rewrite app_nil_r. destruct lg. cbn in *. by subst. }
    cbn [length Nat.add app]. unfold mbind at 1, M_bind. destruct (Next_all (S n) lg) as [? []]; done.
  - apply Forall_cons in Hall as [Hd Hall]. rewrite records_cons in Hf.
    cbn [length Nat.add Next_all].
    rewrite (M_bind_run _ _ _ _ _ (Next_record lg pre d (records ds) Ho Hf Hp Hs Hd)).
    pose proof (IH (set_lg_pos (zlen pre + zlen (record d)) lg) (pre ++ record d) n) as IH'. cbv zeta in IH'.
    unfold mbind at 1, M_bind. rewrite IH'; [|done|by rewrite <- app_assoc|by rewrite zlen_app|done|done].
    unfold lg'. rewrite records_cons, <- app_assoc. unfold set_lg_pos. cbn [lg_file fileSize xChecksum].
    cbn [Next_all]. unfold mbind, M_bind. destruct (Next _) as [? [[]| | |]]; try done. by destruct (Next_all n _) as [? []].
Qed.

(** At the end of the file [Next] compares with the size the file had when it
    was opened. *)
Lemma Next_end lg :
  f_open (lg_file lg) = true → 0 ≤ lg_pos lg → lg_pos lg = zlen (f_data (lg_file lg)) →
  Next lg = (lg, if decide (fileSize lg ≤ lg_pos lg + 8) then Ret None else Err ErrEOF).
Proof.
  intros Ho Hp He. unfold Next, next, _OF_DATA, _OF_CHECKSUM, _OF_SIZE. change (0 + 4 + 4) with 8. change (0 + 4) with 4.
  unfold mbind at 1, M_bind at 1. rewrite M_get_bind. destruct (decide (fileSize lg ≤ lg_pos lg + 8)); [done|].
  unfold file_ReadAt. rewrite Ho. cbn [negb]. rewrite decide_False by lia. by rewrite decide_False by lia.
Qed.

(** The state [Open] leaves. *)
Lemma Open_result ds k d :
  Forall loggable ds → loggable d → (k < length (record d))%nat →
  let bytes := log_image ds ++ take k (record d) in
  ∃ lg, Open (Ret (file_of bytes)) = Ret lg ∧ log_rep lg ds ∧ lg_pos lg = 4 ∧ fileSize lg = zlen bytes.
Proof.
  intros Hall Hd Hk bytes. eexists. split_and!.
  - rewrite (Open_run (file_of bytes) (running ds) ds (take k (record d))); [by rewrite decide_True|done|apply running_range| |done|].
    + cbn [file_of f_data]. unfold bytes, log_image. by rewrite <- app_assoc.
    + by apply torn_stops.
  - done.
  - done.
  - done.
Qed.

Lemma Next_all_at_end lg ds :
  log_rep lg ds → lg_pos lg = 4 → zlen (log_image ds) ≤ fileSize lg → Forall loggable ds →
  snd (Next_all (S (length ds)) lg) =
    if decide (fileSize lg ≤ zlen (log_image ds) + 8) then Ret ds else Err ErrEOF.
Proof.
  intros (Hh & Hf & Hp & Hx) Hpos Hs Hall. replace (S (length ds)) with (length ds + 1)%nat by lia.
  pose proof (zlen_nonneg (log_image ds)).
  rewrite (Next_all_run ds lg (Uint32ToRaw (running ds)) 0); [|apply Hh|done|by rewrite zlen_raw32|by rewrite Hf|done].
  change (Uint32ToRaw (running ds) ++ records ds) with (log_image ds). cbn [Next_all].
  unfold mbind, M_bind. rewrite Next_end; [|apply Hh|done|cbn; by rewrite Hf].
  cbn [set_lg_pos lg_pos fileSize lg_file]. destruct (decide _); [|done]. cbn. by rewrite app_nil_r.
Qed.

(** ** What the recovery and the data manager rely on *)

(** [lg_rep l ds]: the log holds the records [ds], and more can be added.
    [lg_at l ds rest]: the records [rest] of [ds] are still to be read. *)
Class LoggerOk (L : Type) `{!LoggerI L} := {
  lg_rep : L → list (list byte) → Prop;
  lg_at : L → list (list byte) → list (list byte) → Prop;
  lg_at_rep l ds rest : lg_at l ds rest → lg_rep l ds;
  lg_Log_ok l ds d : lg_rep l ds → loggable d → ∃ l', lg_Log d l = (l', Ret tt) ∧ lg_rep l' (ds ++ [d]);
  lg_Rewind_ok l ds rest : lg_at l ds rest → ∃ l', lg_Rewind l = (l', Ret tt) ∧ lg_at l' ds ds;
  lg_Next_ok l ds d rest : lg_at l ds (d :: rest) → ∃ l', lg_Next l = (l', Ret (Some d)) ∧ lg_at l' ds rest;
  lg_Next_end l ds : lg_at l ds [] → ∃ l', lg_Next l = (l', Ret None) ∧ lg_at l' ds []
}.

(** The scan is after the records [done]; the file is as long as it was when
    it was opened. *)
Definition scanning (lg : logger) (ds rest : list (list byte)) : Prop :=
  log_rep lg ds ∧ Forall loggable ds ∧ fileSize lg = zlen (log_image ds) ∧
  ∃ read, ds = read ++ rest ∧ lg_pos lg = 4 + zlen (records read).

Lemma records_app a b : records (a ++ b) = records a ++ records b.
Proof. unfold records. by rewrite fmap_app, join_app. Qed.

(** What a later process finds. *)
Lemma Open_image ds : Forall loggable ds → ∃ lg, Open (Ret (file_of (log_image ds))) = Ret lg ∧ scanning lg ds ds.
Proof.
  intros Hall. eexists. split.
  - rewrite (Open_run (file_of (log_image ds)) (running ds) ds []); [by rewrite decide_True|done|apply running_range|by rewrite app_nil_r|done|apply nil_stops].
  - split; [done|]. split; [done|]. split; [done|]. by exists [].
Qed.

#[export] Program Instance logger_ok : LoggerOk logger := {| lg_rep := log_rep; lg_at := scanning |}.
Next Obligation. by intros ??? []. Qed.
Next Obligation. intros l ds d Hr [_ Hd]. by apply Log_run. Qed.
Next Obligation.
  intros l ds rest (Hr & Hall & Hs & _). eexists. split; [done|]. split_and!; try apply Hr; try done. by exists [].
Qed.
Next Obligation.
  intros l ds d rest (Hr & Hall & Hs & read & -> & Hp). pose proof Hr as (Hh & Hf & _ & _).
  pose proof Hall as [_ [Hd _]%Forall_cons]%Forall_app. eexists. split.
  - cbn. apply (Next_record l (Uint32ToRaw (running (read ++ d :: rest)) ++ records read) d (records rest)); [apply Hh| | | |done].
    + rewrite Hf. unfold log_image. rewrite records_app, records_cons, <- !app_assoc. done.
    + rewrite Hp, zlen_app, zlen_raw32. done.
    + by rewrite Hf, Hs.
  - split_and!; try apply Hr; try done. exists (read ++ [d]). rewrite <- app_assoc. split; [done|].
    cbn [set_lg_pos lg_pos]. rewrite records_snoc, !zlen_app, zlen_raw32. lia.
Qed.
Next Obligation.
  intros l ds (Hr & Hall & Hs & read & -> & Hp). pose proof Hr as (Hh & Hf & _ & _). rewrite app_nil_r in *.
  pose proof (zlen_nonneg (records read)). exists l. split; [|split_and!; try done; exists read; by rewrite app_nil_r].
  assert (Hl : zlen (log_image read) = 4 + zlen (records read)) by (unfold log_image; by rewrite zlen_app, zlen_raw32).
  cbn. rewrite Next_end; [|apply Hh|lia|by rewrite Hf, Hl]. by rewrite decide_True by lia.
Qed.

Lemma loggable_sample : loggable [Byte.x01].
Proof. by vm_compute. Defined.

(** C20: Durability of the log.  A log that is created and to which any records
    of 1 to 2^32 - 1 bytes are appended, each synced by [Log], is read back
    exactly by a later process (an empty record would make [Open] refuse the
    file; the package [dm] logs none): [Open] accepts the bytes of the file, leaves them unchanged with
    the write position at their end (so that [Log] appends), and [Next]
    returns the records in the order they were logged and then says that
    there are no more. *)
Theorem log_survives_reopen ds :
  Forall loggable ds →
  ∃ lg lg' lg2,
    Create (Ret (file_of [])) = Ret lg ∧ Log_all ds lg = (lg', Ret tt) ∧
    Open (Ret (file_of (f_data (lg_file lg')))) = Ret lg2 ∧
    f_data (lg_file lg2) = f_data (lg_file lg') ∧ f_pos (lg_file lg2) = zlen (f_data (lg_file lg')) ∧
    xChecksum lg2 = xChecksum lg' ∧ snd (Next_all (S (length ds)) lg2) = Ret ds.
Proof.
  intros Hall. destruct Create_run as (lg & Hc & Hr0). destruct (Log_all_run ds lg [] Hr0 Hall) as (lg' & Hl & (Hh' & Hf' & Hp' & Hx')).
  cbn [app] in *. destruct (Open_result ds 0 [Byte.x01] Hall loggable_sample ltac:(vm_compute; lia)) as (lg2 & Ho & Hrep & Hpos & Hsz).
  rewrite take_0, app_nil_r in Ho, Hsz. exists lg, lg', lg2. rewrite Hf'. split_and!; try done; try apply Hrep.
  - rewrite Hx'. apply Hrep.
  - rewrite Next_all_at_end by (done || lia). by rewrite decide_True by lia.
Qed.

Lemma log_survives_reopen_witness :
  ∃ lg lg' lg2,
    Create (Ret (file_of [])) = Ret lg ∧ Log_all [[Byte.x01]; [Byte.x02; Byte.x03]] lg = (lg', Ret tt) ∧
    Open (Ret (file_of (f_data (lg_file lg')))) = Ret lg2 ∧
    f_data (lg_file lg2) = f_data (lg_file lg') ∧ f_pos (lg_file lg2) = zlen (f_data (lg_file lg')) ∧
    xChecksum lg2 = xChecksum lg' ∧ snd (Next_all 3 lg2) = Ret [[Byte.x01]; [Byte.x02; Byte.x03]].
Proof. apply (log_survives_reopen [[Byte.x01]; [Byte.x02; Byte.x03]]). by repeat constructor. Defined.

(** A torn write.  When only the first [k] bytes of a record reached the
    file (the process or the machine stopped inside the write, so the running
    checksum still is the old one), [Open] accepts the log and cuts the torn
    tail off; but it keeps the size the file had before the cut, so that the
    loop of the recovery, after the whole records, gets an end-of-file error
    from [Next] instead of "no more" as soon as more than 8 bytes of the torn
    record are there.  Opening the cut file again reads the records. *)
Theorem torn_tail_open ds d k :
  Forall loggable ds → loggable d → (k < length (record d))%nat →
  ∃ lg lg2,
    Open (Ret (file_of (log_image ds ++ take k (record d)))) = Ret lg ∧
    f_data (lg_file lg) = log_image ds ∧ f_pos (lg_file lg) = zlen (log_image ds) ∧
    snd (Next_all (S (length ds)) lg) = (if decide (k ≤ 8)%nat then Ret ds else Err ErrEOF) ∧
    Open (Ret (file_of (f_data (lg_file lg)))) = Ret lg2 ∧ snd (Next_all (S (length ds)) lg2) = Ret ds.
Proof.
  intros Hall Hd Hk. destruct (Open_result ds k d Hall Hd Hk) as (lg & Ho & Hrep & Hpos & Hsz).
  destruct (Open_result ds 0 d Hall Hd ltac:(lia)) as (lg2 & Ho2 & Hrep2 & Hpos2 & Hsz2).
  rewrite take_0, app_nil_r in Ho2, Hsz2. pose proof Hrep as (Hh & Hf & Hp & Hx).
  assert (Hlen : zlen (log_image ds ++ take k (record d)) = zlen (log_image ds) + Z.of_nat k).
  { rewrite zlen_app. unfold zlen at 2. rewrite length_take. lia. }
  exists lg, lg2. rewrite Hf. split_and!; try done.
  - rewrite Next_all_at_end by (done || lia). destruct (decide (k ≤ 8)%nat); [by rewrite decide_True by lia|by rewrite decide_False by lia].
  - rewrite Next_all_at_end by (done || lia). by rewrite decide_True by lia.
Qed.

Lemma torn_tail_open_witness :
  ∃ lg lg2,
    Open (Ret (file_of (log_image [[Byte.x01]] ++ take 9 (record [Byte.x05; Byte.x06])))) = Ret lg ∧
    f_data (lg_file lg) = log_image [[Byte.x01]] ∧ f_pos (lg_file lg) = zlen (log_image [[Byte.x01]]) ∧
    snd (Next_all 2 lg) = Err ErrEOF ∧
    Open (Ret (file_of (f_data (lg_file lg)))) = Ret lg2 ∧ snd (Next_all 2 lg2) = Ret [[Byte.x01]].
Proof. apply (torn_tail_open [[Byte.x01]] [Byte.x05; Byte.x06] 9); [by repeat constructor|by vm_compute|cbn; lia]. Defined.

(** A stop between the two writes of [Log].  The record is written and the
    running checksum in the head of the file is not (the fault oracle lets the
    first write succeed and the second one fail before its first byte):
    although every record of the file is whole, the scan's checksum differs
    from the one in the head unless they collide, and [Open] rejects the whole
    log as a bad file. *)
Theorem crash_between_log_writes ds d lg :
  log_rep (mkLog (mkFile (f_data (lg_file lg)) (f_pos (lg_file lg)) true []) (lg_pos lg) (fileSize lg) (xChecksum lg)) ds →
  lg_file lg = mkFile (f_data (lg_file lg)) (f_pos (lg_file lg)) true [None; Some 0%nat] →
  Forall loggable ds → loggable d → running (ds ++ [d]) ≠ running ds →
  ∃ lg', Log d lg = (lg', Err ErrIO) ∧
    f_data (lg_file lg') = Uint32ToRaw (running ds) ++ records (ds ++ [d]) ∧
    Open (Ret (file_of (f_data (lg_file lg')))) = Err ErrBadLogFile.
Proof.
  destruct lg as [[data pos op faults] lpos fs xck]. cbn [lg_file f_data f_pos lg_pos fileSize xChecksum].
  intros (Hh & Hf & Hp & Hx) [= -> ->] Hall Hd Hne. cbn [lg_file f_data f_pos xChecksum] in Hf, Hp, Hx. subst.
  pose proof (zlen_nonneg (log_image ds)). pose proof Hd as [_ Hd2].
  assert (Hbytes : write_at (log_image ds) (zlen (log_image ds)) (record d) = Uint32ToRaw (running ds) ++ records (ds ++ [d])).
  { rewrite write_at_end, records_snoc. unfold log_image. by rewrite <- app_assoc. }
  eexists. split_and!.
  - unfold Log. rewrite warpLog_record by done.
    unfold updateXChecksum, modify, get, on_lfile, zoom, mbind, M_bind, file_Write, file_WriteAt.
    cbn [lg_file f_data f_pos f_open f_faults negb]. rewrite decide_False by lia. cbn [next_fault f_faults fst snd lg_file].
    unfold set_data, set_pos. cbn [f_data f_pos f_open f_faults lg_file negb]. rewrite decide_False by lia.
    cbn [next_fault f_faults f_data f_pos f_open]. done.
  - done.
  - cbn [lg_file f_data write_at take]. rewrite Hbytes.
    rewrite (Open_run _ (running ds) (ds ++ [d]) []); [by rewrite decide_False|done|apply running_range|cbn; by rewrite app_nil_r| |apply nil_stops].
    apply Forall_app. split; [done|]. by apply Forall_singleton.
Qed.

Lemma crash_between_log_writes_witness :
  ∃ lg', Log [Byte.x07] (mkLog (mkFile (log_image [[Byte.x01]]) (zlen (log_image [[Byte.x01]])) true [None; Some 0%nat]) 4 0 (running [[Byte.x01]])) = (lg', Err ErrIO) ∧
    f_data (lg_file lg') = Uint32ToRaw (running [[Byte.x01]]) ++ records ([[Byte.x01]] ++ [[Byte.x07]]) ∧
    Open (Ret (file_of (f_data (lg_file lg')))) = Err ErrBadLogFile.
Proof. apply crash_between_log_writes; [by vm_compute|done|by repeat constructor|by vm_compute|by vm_compute]. Defined.
