(* ===== verification/Cacher.v ===== *)
(** Package [utils/cacher]: the reference-counted cache of resources
    ([cacher.go]) the page cache and the data manager are built on.

    [Get] holds the lock twice, before and after it loads the resource; the two
    pieces are [Get_enter] and [Get_finish], [Get] alone is their composition
    with the loader, and [cache_step] interleaves the pieces of many
    goroutines. *)
From S2P Require Import Prelude.
From S2P Require Import Codec.
From stdpp Require Import relations.
Local Open Scope Z_scope.

(** A channel of [getting]: its readers only wait until it is closed. *)
Definition wake := nat.

(** [options.Get] and [options.Release] are arguments of the operations. *)
Record cacher (H : Type) := mkCacher {
  cache : gmap UUID H;
  refs : gmap UUID Z;
  getting : gmap UUID wake;
  count : Z;
  MaxHandles : Z;
  wakes : nat;              (* channels made so far *)
  closed : gset wake
}.
Arguments mkCacher {H}.
Arguments cache {H}.
Arguments refs {H}.
Arguments getting {H}.
Arguments count {H}.
Arguments MaxHandles {H}.
Arguments wakes {H}.
Arguments closed {H}.

Section Cacher.
Context {H : Type}.
Implicit Types (c : cacher H) (uid : UUID) (h : H).

Definition NewCacher (maxHandles : Z) : cacher H := mkCacher ∅ ∅ ∅ 0 maxHandles 0 ∅.

Definition set_cache (f : gmap UUID H → gmap UUID H) c := mkCacher (f (cache c)) (refs c) (getting c) (count c) (MaxHandles c) (wakes c) (closed c).
Definition set_refs (f : gmap UUID Z → gmap UUID Z) c := mkCacher (cache c) (f (refs c)) (getting c) (count c) (MaxHandles c) (wakes c) (closed c).
Definition set_getting (f : gmap UUID wake → gmap UUID wake) c := mkCacher (cache c) (refs c) (f (getting c)) (count c) (MaxHandles c) (wakes c) (closed c).
Definition set_count (f : Z → Z) c := mkCacher (cache c) (refs c) (getting c) (u32 (f (count c))) (MaxHandles c) (wakes c) (closed c).

Definition make_wake : M (cacher H) wake := λ c,
  (mkCacher (cache c) (refs c) (getting c) (count c) (MaxHandles c) (S (wakes c)) (closed c), Ret (wakes c)).
Definition close_wake (ch : wake) : M (cacher H) unit :=
  modify (λ c, mkCacher (cache c) (refs c) (getting c) (count c) (MaxHandles c) (wakes c) ({[ch]} ∪ closed c)).

(** A read of a map of numbers: zero when the key is absent. *)
Definition ref_count c uid : Z := default 0 (refs c !! uid).

Inductive get_result :=
| GetWait (ch : wake)       (* <-ch; continue *)
| GetHit (h : H)            (* return h, nil *)
| GetLoad (ch : wake).      (* break: load outside the lock *)

(** The body of the loop, under the lock. *)
Definition Get_enter uid : M (cacher H) get_result :=
  c ← get;
  match getting c !! uid with
  | Some ch => mret (GetWait ch)
  | None =>
      match cache c !! uid with
      | Some h =>
          _ ← modify (λ c, set_refs (<[uid := u32 (ref_count c uid + 1)]>) c);
          mret (GetHit h)
      | None =>
          if decide (0 < MaxHandles c ∧ count c = MaxHandles c) then fail ErrCacheFull
          else
            ch ← make_wake;
            _ ← modify (set_getting (<[uid := ch]>));
            _ ← modify (set_count (λ n, n + 1));
            mret (GetLoad ch)
      end
  end.

(** From the second [c.lock.Lock()], [res] being what [options.Get] returned. *)
Definition Get_finish uid (res : H + goerror) : M (cacher H) H :=
  c ← get;
  ch ← lift (match getting c !! uid with Some ch => Ret ch | None => Panic end);
  _ ← modify (set_getting (delete uid));
  match res with
  | inr err =>
      _ ← modify (set_count (λ n, n - 1));
      _ ← close_wake ch;
      fail err
  | inl h =>
      _ ← modify (set_cache (<[uid := h]>));
      _ ← modify (set_refs (<[uid := 1]>));
      _ ← close_wake ch;
      mret h
  end.

(** [Release] up to the callback: the resource to release when the count is
    zero.  A resource that is not there is a nil interface, on which every
    callback of the program panics. *)
Definition Release_enter uid : M (cacher H) (option H) :=
  _ ← modify (λ c, set_refs (<[uid := u32 (ref_count c uid - 1)]>) c);
  c ← get;
  if decide (ref_count c uid = 0) then
    h ← lift (match cache c !! uid with Some h => Ret h | None => Panic end);
    mret (Some h)
  else mret None.

Definition Release_finish uid : M (cacher H) unit :=
  _ ← modify (set_refs (delete uid));
  _ ← modify (set_cache (delete uid));
  modify (set_count (λ n, n - 1)).

(** ** The methods run alone, the cache being a part of the caller's state *)

Section Methods.
Context {W : Type} (sel : W → cacher H) (upd : cacher H → W → W).
Context (options_Get : UUID → M W H) (options_Release : H → M W unit).

(** Run alone, nobody loads: a wait would be for ever. *)
Definition Get uid : M W H :=
  r ← zoom sel upd (Get_enter uid);
  match r with
  | GetWait _ => lift OutOfFuel
  | GetHit h => mret h
  | GetLoad _ =>
      catch (options_Get uid)
        (λ h, zoom sel upd (Get_finish uid (inl h)))
        (λ e, zoom sel upd (Get_finish uid (inr e)))
  end.

Definition Release uid : M W unit :=
  r ← zoom sel upd (Release_enter uid);
  match r with
  | None => mret tt
  | Some h => _ ← options_Release h; zoom sel upd (Release_finish uid)
  end.

(** [order]: the keys in the order the range statement visits them. *)
Fixpoint Close_loop (order : list UUID) : M W unit :=
  match order with
  | [] => mret tt
  | uid :: order' =>
      w ← get;
      _ ← match cache (sel w) !! uid with
          | None => mret tt
          | Some h =>
              _ ← options_Release h;
              _ ← zoom sel upd (modify (set_refs (delete uid)));
              zoom sel upd (modify (set_cache (delete uid)))
          end;
      Close_loop order'
  end.

Definition Close (order : list UUID) : M W unit := Close_loop order.
End Methods.

(** * Goroutines *)

(** What a goroutine is doing. *)
Inductive user :=
| Loading uid (ch : wake)       (* outside the lock, in options.Get *)
| Waiting uid (ch : wake)       (* blocked on the channel *)
| Holding uid h.                (* between Get and Release *)

(** The users of the cache, and the cache. *)
Record pool := mkPool { pl_users : list user; pl_c : cacher H }.

Inductive cache_step : pool → pool → Prop :=
| step_enter us c c' uid r :
    Get_enter uid c = (c', Ret r) →
    cache_step (mkPool us c)
      (mkPool (match r with GetWait ch => Waiting uid ch | GetHit h => Holding uid h | GetLoad ch => Loading uid ch end :: us) c')
| step_wake us1 us2 c c' uid ch r :
    ch ∈ closed c → Get_enter uid c = (c', Ret r) →
    cache_step (mkPool (us1 ++ Waiting uid ch :: us2) c)
      (mkPool (us1 ++ match r with GetWait ch => Waiting uid ch | GetHit h => Holding uid h | GetLoad ch => Loading uid ch end :: us2) c')
| step_full us1 us2 c c' uid ch e :
    ch ∈ closed c → Get_enter uid c = (c', Err e) →
    cache_step (mkPool (us1 ++ Waiting uid ch :: us2) c) (mkPool (us1 ++ us2) c')
| step_loaded us1 us2 c c' uid ch h h' :
    Get_finish uid (inl h) c = (c', Ret h') →
    cache_step (mkPool (us1 ++ Loading uid ch :: us2) c) (mkPool (us1 ++ Holding uid h' :: us2) c')
| step_failed us1 us2 c c' uid ch e e' :
    Get_finish uid (inr e) c = (c', Err e') →
    cache_step (mkPool (us1 ++ Loading uid ch :: us2) c) (mkPool (us1 ++ us2) c')
| step_release us1 us2 c c1 c' uid h r :
    Release_enter uid c = (c1, Ret r) →
    c' = match r with None => c1 | Some _ => fst (Release_finish uid c1) end →
    cache_step (mkPool (us1 ++ Holding uid h :: us2) c) (mkPool (us1 ++ us2) c').
End Cacher.

(** * The invariant *)

Section Invariant.
Context {H : Type}.
Implicit Types (c : cacher H) (uid : UUID) (h : H) (us : list (user (H:=H))).

#[local] Arguments ref_count : simpl never.

Definition holds uid (u : user (H:=H)) : bool :=
  match u with Holding uid' _ => bool_decide (uid' = uid) | _ => false end.
Definition loads uid (u : user (H:=H)) : bool :=
  match u with Loading uid' _ => bool_decide (uid' = uid) | _ => false end.

Definition tally (f : user (H:=H) → bool) us : Z := zlen (filter (λ u, f u = true) us).

Lemma tally_cons f u us : tally f (u :: us) = (if f u then 1 else 0) + tally f us.
Proof.
  unfold tally. rewrite filter_cons. destruct (f u) eqn:E; case_decide; try congruence; rewrite ?zlen_cons; lia.
Qed.

Lemma tally_app f us1 us2 : tally f (us1 ++ us2) = tally f us1 + tally f us2.
Proof. unfold tally. by rewrite filter_app, zlen_app. Qed.

Lemma tally_nonneg f us : 0 ≤ tally f us.
Proof. apply zlen_nonneg. Qed.

Lemma tally_le f us : tally f us ≤ zlen us.
Proof. unfold tally, zlen. pose proof (length_filter (λ u, f u = true) us). lia. Qed.

Lemma tally_pos f us u : u ∈ us → f u = true → 1 ≤ tally f us.
Proof.
  intros (l1 & l2 & ->)%list_elem_of_split Hf. rewrite tally_app, tally_cons, Hf.
  pose proof (tally_nonneg f l1). pose proof (tally_nonneg f l2). lia.
Qed.

Record pool_ok (n : Z) (p : pool (H:=H)) : Prop := {
  ok_users : zlen (pl_users p) ≤ n;
  ok_refs uid : ref_count (pl_c p) uid = tally (holds uid) (pl_users p);
  ok_refs_dom uid : refs (pl_c p) !! uid = None ↔ cache (pl_c p) !! uid = None;
  ok_refs_pos uid r : refs (pl_c p) !! uid = Some r → 1 ≤ r;
  ok_held uid h : Holding uid h ∈ pl_users p → cache (pl_c p) !! uid = Some h;
  ok_loading uid ch : Loading uid ch ∈ pl_users p → getting (pl_c p) !! uid = Some ch;
  ok_getting uid : tally (loads uid) (pl_users p) = if getting (pl_c p) !! uid is Some _ then 1 else 0;
  ok_disjoint uid ch : getting (pl_c p) !! uid = Some ch → cache (pl_c p) !! uid = None;
  ok_count : count (pl_c p) = Z.of_nat (size (cache (pl_c p))) + Z.of_nat (size (getting (pl_c p)));
  ok_bound : 0 < MaxHandles (pl_c p) → count (pl_c p) ≤ MaxHandles (pl_c p);
  ok_total : count (pl_c p) ≤ n;
  ok_waiting uid ch : Waiting uid ch ∈ pl_users p → ch ∈ closed (pl_c p) ∨ getting (pl_c p) !! uid = Some ch
}.

Lemma ref_count_insert c uid v uid' :
  ref_count (set_refs (<[uid := v]>) c) uid' = if decide (uid = uid') then v else ref_count c uid'.
Proof.
  unfold ref_count. cbn. case_decide; [subst; by rewrite lookup_insert_eq|by rewrite lookup_insert_ne].
Qed.

Lemma pool_ok_perm n us us' c : us ≡ₚ us' → pool_ok n (mkPool us c) → pool_ok n (mkPool us' c).
Proof.
  intros Hp []. assert (Ht : ∀ f, tally f us' = tally f us) by (intros f; unfold tally, zlen; by rewrite Hp).
  assert (Hin : ∀ u, u ∈ us' ↔ u ∈ us) by (intros; by rewrite Hp).
  split; cbn in *; try setoid_rewrite Ht; try setoid_rewrite Hin; try done. unfold zlen. by rewrite <- Hp.
Qed.

Lemma pool_ok_forget n uid ch us c : pool_ok n (mkPool (Waiting uid ch :: us) c) → pool_ok n (mkPool us c).
Proof.
  intros []. split; cbn in *; rewrite ?zlen_cons in *; try done; try lia.
  - intros uid' h Hu. apply ok_held0. by right.
  - intros uid' ch' Hu. apply ok_loading0. by right.
  - intros uid' ch' Hu. apply ok_waiting0. by right.
Qed.

Lemma Get_enter_inv uid c c' o :
  Get_enter uid c = (c', o) →
  match getting c !! uid, cache c !! uid with
  | Some ch, _ => o = Ret (GetWait ch) ∧ c' = c
  | None, Some h => o = Ret (GetHit h) ∧ c' = set_refs (<[uid := u32 (ref_count c uid + 1)]>) c
  | None, None =>
      if decide (0 < MaxHandles c ∧ count c = MaxHandles c) then o = Err ErrCacheFull ∧ c' = c
      else o = Ret (GetLoad (wakes c)) ∧
        c' = mkCacher (cache c) (refs c) (<[uid := wakes c]> (getting c)) (u32 (count c + 1)) (MaxHandles c) (S (wakes c)) (closed c)
  end.
Proof.
  unfold Get_enter. rewrite M_get_bind. destruct (getting c !! uid) as [ch|]; [by intros [= <- <-]|].
  destruct (cache c !! uid) as [h|]; [by intros [= <- <-]|]. case_decide; by intros [= <- <-].
Qed.

Definition entered uid (r : get_result (H:=H)) : user (H:=H) :=
  match r with GetWait ch => Waiting uid ch | GetHit h => Holding uid h | GetLoad ch => Loading uid ch end.

Lemma pool_ok_enter n uid us c c' r :
  pool_ok n (mkPool us c) → n + 1 < 2 ^ 32 → Get_enter uid c = (c', Ret r) →
  pool_ok (n + 1) (mkPool (entered uid r :: us) c').
Proof.
  intros Hok Hn Hrun. pose proof (Get_enter_inv _ _ _ _ Hrun) as Hinv. destruct Hok. cbn in *.
  pose proof (tally_le (holds uid) us). pose proof (tally_nonneg (holds uid) us).
  destruct (getting c !! uid) as [ch|] eqn:Eg.
  - destruct Hinv as [[= ->] ->]. split; cbn; rewrite ?zlen_cons; try done; try lia.
    + intros uid' h [?|?]%elem_of_cons; [done|by apply ok_held0].
    + intros uid' ch' [?|?]%elem_of_cons; [done|by apply ok_loading0].
    + intros uid' ch' [[= -> ->]|?]%elem_of_cons; [by right|by apply ok_waiting0].
  - destruct (cache c !! uid) as [h|] eqn:Ec.
    + destruct Hinv as [[= ->] ->]. pose proof (ok_refs0 uid) as Hr. split; cbn; rewrite ?zlen_cons; try done; try lia.
      * intros uid'. rewrite ref_count_insert, tally_cons. cbn. case_decide as Hu.
        -- subst. rewrite bool_decide_true by done. rewrite u32_id by lia. lia.
        -- rewrite bool_decide_false by done. apply ok_refs0.
      * intros uid'. destruct (decide (uid = uid')) as [<-|Hne]; [by rewrite lookup_insert_eq, Ec|by rewrite lookup_insert_ne].
      * intros uid' r. destruct (decide (uid = uid')) as [<-|Hne].
        -- rewrite lookup_insert_eq, u32_id by lia. intros [= <-]. lia.
        -- rewrite lookup_insert_ne by done. apply ok_refs_pos0.
      * intros uid' h' [[= -> ->]|?]%elem_of_cons; [done|by apply ok_held0].
      * intros uid' ch' [?|?]%elem_of_cons; [done|by apply ok_loading0].
      * intros uid' ch' [?|?]%elem_of_cons; [done|by apply ok_waiting0].
    + case_decide as Hd; [by destruct Hinv|]. destruct Hinv as [[= ->] ->].
      pose proof (ok_getting0 uid) as Hg. rewrite Eg in Hg. split; cbn; rewrite ?zlen_cons; try done; try lia.
      * intros uid' h' [?|?]%elem_of_cons; [done|by apply ok_held0].
      * intros uid' ch' [[= -> ->]|Hl]%elem_of_cons; [by rewrite lookup_insert_eq|].
        destruct (decide (uid = uid')) as [<-|Hne]; [|rewrite lookup_insert_ne by done; by apply ok_loading0].
        apply ok_loading0 in Hl. congruence.
      * intros uid'. rewrite tally_cons. cbn. destruct (decide (uid = uid')) as [<-|Hne].
        -- rewrite lookup_insert_eq, bool_decide_true by done. lia.
        -- rewrite lookup_insert_ne, bool_decide_false by done. apply ok_getting0.
      * intros uid' ch'. destruct (decide (uid = uid')) as [<-|Hne]; [done|].
        rewrite lookup_insert_ne by done. apply ok_disjoint0.
      * rewrite map_size_insert_None by done. rewrite u32_id by lia. lia.
      * intros Hm. rewrite u32_id by lia. assert (count c ≠ MaxHandles c) by tauto. lia.
      * rewrite u32_id by lia. lia.
      * intros uid' ch' [?|Hw]%elem_of_cons; [done|]. destruct (ok_waiting0 _ _ Hw); [by left|right].
        rewrite lookup_insert_ne; [done|]. congruence.
Qed.

Lemma Get_finish_inv uid res c c' o ch :
  getting c !! uid = Some ch → Get_finish uid res c = (c', o) →
  match res with
  | inl h => o = Ret h ∧ c' = mkCacher (<[uid := h]> (cache c)) (<[uid := 1]> (refs c)) (delete uid (getting c)) (count c)
               (MaxHandles c) (wakes c) ({[ch]} ∪ closed c)
  | inr e => o = Err e ∧ c' = mkCacher (cache c) (refs c) (delete uid (getting c)) (u32 (count c - 1))
               (MaxHandles c) (wakes c) ({[ch]} ∪ closed c)
  end.
Proof.
  intros Hg. unfold Get_finish. rewrite M_get_bind, Hg, M_lift_bind. by destruct res; intros [= <- <-].
Qed.

(** What is true of the waiters when the loader of [uid] is done. *)
Lemma waiting_woken c uid uid' ch ch' (closed' : gset wake) (us : list (user (H:=H))) :
  (∀ uid ch, Waiting uid ch ∈ us → ch ∈ closed' ∨ getting c !! uid = Some ch) →
  getting c !! uid = Some ch → Waiting uid' ch' ∈ us →
  ch' ∈ {[ch]} ∪ closed' ∨ delete uid (getting c) !! uid' = Some ch'.
Proof.
  intros Hw Hg [?|?]%Hw; [set_solver|]. destruct (decide (uid = uid')) as [<-|]; [left; set_solver by congruence|].
  right. by rewrite lookup_delete_ne.
Qed.

Lemma pool_ok_loaded n uid ch h us c c' h' :
  pool_ok n (mkPool (Loading uid ch :: us) c) → Get_finish uid (inl h) c = (c', Ret h') →
  pool_ok n (mkPool (Holding uid h' :: us) c').
Proof.
  intros [] Hrun. cbn in *. rewrite zlen_cons in ok_users0. assert (Hg : getting c !! uid = Some ch) by (apply ok_loading0; by left).
  destruct (Get_finish_inv _ _ _ _ _ _ Hg Hrun) as [[= <-] ->]. pose proof (ok_getting0 uid) as Ht. rewrite Hg, tally_cons in Ht. cbn in Ht.
  rewrite bool_decide_true in Ht by done. pose proof (ok_disjoint0 _ _ Hg) as Hc.
  assert (Hr : tally (holds uid) us = 0).
  { specialize (ok_refs0 uid). rewrite tally_cons in ok_refs0. cbn in ok_refs0. unfold ref_count in ok_refs0.
    apply ok_refs_dom0 in Hc. by rewrite Hc in ok_refs0. }
  split; cbn; rewrite ?zlen_cons; try done; try lia.
  - intros uid'. specialize (ok_refs0 uid'). rewrite tally_cons in *. unfold ref_count in *. cbn in *.
    destruct (decide (uid = uid')) as [<-|Hne].
    + rewrite lookup_insert_eq, bool_decide_true by done. cbn. lia.
    + by rewrite lookup_insert_ne, bool_decide_false by done.
  - intros uid'. destruct (decide (uid = uid')) as [<-|Hne]; [by rewrite !lookup_insert_eq|by rewrite !lookup_insert_ne].
  - intros uid' r. destruct (decide (uid = uid')) as [<-|Hne].
    + rewrite lookup_insert_eq. intros [= <-]. lia.
    + rewrite lookup_insert_ne by done. apply ok_refs_pos0.
  - intros uid' h2 [[= -> ->]|Hu]%elem_of_cons; [by rewrite lookup_insert_eq|].
    destruct (decide (uid = uid')) as [<-|Hne].
    + exfalso. pose proof (tally_pos (holds uid) us _ Hu ltac:(cbn; by rewrite bool_decide_true)). lia.
    + rewrite lookup_insert_ne by done. apply ok_held0. by right.
  - intros uid' ch' [?|Hu]%elem_of_cons; [done|]. destruct (decide (uid = uid')) as [<-|Hne].
    + exfalso. pose proof (tally_pos (loads uid) us _ Hu ltac:(cbn; by rewrite bool_decide_true)). lia.
    + rewrite lookup_delete_ne by done. apply ok_loading0. by right.
  - intros uid'. rewrite tally_cons. cbn. specialize (ok_getting0 uid'). rewrite tally_cons in ok_getting0. cbn in ok_getting0.
    destruct (decide (uid = uid')) as [<-|Hne].
    + rewrite lookup_delete_eq. lia.
    + rewrite lookup_delete_ne by done. by rewrite bool_decide_false in ok_getting0.
  - intros uid' ch'. destruct (decide (uid = uid')) as [<-|Hne]; [by rewrite lookup_delete_eq|].
    rewrite lookup_delete_ne, lookup_insert_ne by done. apply ok_disjoint0.
  - rewrite ok_count0, map_size_insert_None by done. rewrite map_size_delete_Some by eauto.
    assert (size (getting c) ≠ 0%nat) by (intros E%map_size_empty_inv; by rewrite E in Hg). lia.
  - intros uid' ch' [?|Hu]%elem_of_cons; [done|]. apply (waiting_woken c uid uid' ch ch' _ us); [|done|done].
    intros ?? ?. apply ok_waiting0. by right.
Qed.

Lemma pool_ok_failed n uid ch e us c c' e' :
  pool_ok n (mkPool (Loading uid ch :: us) c) → n < 2 ^ 32 → Get_finish uid (inr e) c = (c', Err e') →
  pool_ok n (mkPool us c').
Proof.
  intros [] Hn Hrun. cbn in *. assert (Hg : getting c !! uid = Some ch) by (apply ok_loading0; by left).
  destruct (Get_finish_inv _ _ _ _ _ _ Hg Hrun) as [[= <-] ->]. pose proof (ok_getting0 uid) as Ht. rewrite Hg, tally_cons in Ht. cbn in Ht.
  rewrite bool_decide_true in Ht by done. rewrite zlen_cons in ok_users0.
  assert (size (getting c) ≠ 0%nat) by (intros E%map_size_empty_inv; by rewrite E in Hg).
  assert (Hcnt : u32 (count c - 1) = count c - 1) by (apply u32_id; lia).
  split; cbn; rewrite ?Hcnt, ?zlen_cons; try done; try lia.
  - intros uid' h' Hu. apply ok_held0. by right.
  - intros uid' ch' Hu. destruct (decide (uid = uid')) as [<-|Hne].
    + exfalso. pose proof (tally_pos (loads uid) us _ Hu ltac:(cbn; by rewrite bool_decide_true)). lia.
    + rewrite lookup_delete_ne by done. apply ok_loading0. by right.
  - intros uid'. specialize (ok_getting0 uid'). rewrite tally_cons in ok_getting0. cbn in ok_getting0.
    destruct (decide (uid = uid')) as [<-|Hne].
    + rewrite lookup_delete_eq. lia.
    + rewrite lookup_delete_ne by done. by rewrite bool_decide_false in ok_getting0.
  - intros uid' ch'. destruct (decide (uid = uid')) as [<-|Hne]; [by rewrite lookup_delete_eq|].
    rewrite lookup_delete_ne by done. apply ok_disjoint0.
  - rewrite map_size_delete_Some by eauto. lia.
  - intros uid' ch' Hu. apply (waiting_woken c uid uid' ch ch' _ us); [|done|done].
    intros ?? ?. apply ok_waiting0. by right.
Qed.

Lemma Release_finish_run uid c :
  Release_finish uid c =
    (mkCacher (delete uid (cache c)) (delete uid (refs c)) (getting c) (u32 (count c - 1)) (MaxHandles c) (wakes c) (closed c), Ret tt).
Proof. done. Qed.

Lemma Release_inv n uid h us c :
  pool_ok n (mkPool (Holding uid h :: us) c) → n < 2 ^ 32 →
  Release_enter uid c = (set_refs (<[uid := tally (holds uid) us]>) c, Ret (if decide (tally (holds uid) us = 0) then Some h else None)).
Proof.
  intros [] Hn. cbn in *. assert (Hc : cache c !! uid = Some h) by (apply ok_held0; by left).
  pose proof (ok_refs0 uid) as Hr. rewrite tally_cons in Hr. cbn in Hr. rewrite bool_decide_true in Hr by done.
  pose proof (tally_le (holds uid) us). pose proof (tally_nonneg (holds uid) us). rewrite zlen_cons in ok_users0.
  unfold Release_enter. erewrite M_bind_run by done. rewrite M_get_bind. rewrite Hr.
  replace (1 + tally (holds uid) us - 1) with (tally (holds uid) us) by lia. rewrite u32_id by lia.
  assert (E : ref_count (set_refs (<[uid := tally (holds uid) us]>) c) uid = tally (holds uid) us)
    by (rewrite ref_count_insert; by destruct (decide (uid = uid))).
  rewrite E. cbn [set_refs refs cache].
  destruct (decide (tally (holds uid) us = 0)); [|done]. by rewrite Hc, M_lift_bind.
Qed.

Lemma pool_ok_release n uid h us c c1 c' r :
  pool_ok n (mkPool (Holding uid h :: us) c) → n < 2 ^ 32 →
  Release_enter uid c = (c1, Ret r) → c' = match r with None => c1 | Some _ => fst (Release_finish uid c1) end →
  pool_ok n (mkPool us c').
Proof.
  intros Hok Hn Hrun ->. rewrite (Release_inv _ _ _ _ _ Hok Hn) in Hrun. injection Hrun as <- <-.
  destruct Hok. cbn in *. assert (Hc : cache c !! uid = Some h) by (apply ok_held0; by left).
  pose proof (tally_nonneg (holds uid) us). rewrite zlen_cons in ok_users0.
  assert (size (cache c) ≠ 0%nat) by (intros E%map_size_empty_inv; by rewrite E in Hc).
  assert (Hcnt : u32 (count c - 1) = count c - 1) by (apply u32_id; lia).
  assert (Hrest : ∀ uid', tally (holds uid') (Holding uid h :: us) = (if decide (uid = uid') then 1 else 0) + tally (holds uid') us).
  { intros uid'. rewrite tally_cons. cbn. case_decide; [by rewrite bool_decide_true|by rewrite bool_decide_false]. }
  setoid_rewrite Hrest in ok_refs0. case_decide as Hz; rewrite ?Release_finish_run; cbn; split; cbn; rewrite ?Hcnt, ?zlen_cons; try done; try lia.
  - intros uid'. unfold ref_count. cbn. specialize (ok_refs0 uid'). unfold ref_count in ok_refs0.
    destruct (decide (uid = uid')) as [<-|Hne]; [by rewrite lookup_delete_eq|].
    rewrite lookup_delete_ne, lookup_insert_ne by done. lia.
  - intros uid'. destruct (decide (uid = uid')) as [<-|Hne]; [by rewrite !lookup_delete_eq|].
    by rewrite !lookup_delete_ne, lookup_insert_ne by done.
  - intros uid' r. destruct (decide (uid = uid')) as [<-|Hne]; [by rewrite lookup_delete_eq|].
    rewrite lookup_delete_ne, lookup_insert_ne by done. apply ok_refs_pos0.
  - intros uid' h' Hu. destruct (decide (uid = uid')) as [<-|Hne].
    + exfalso. pose proof (tally_pos (holds uid) us _ Hu ltac:(cbn; by rewrite bool_decide_true)). lia.
    + rewrite lookup_delete_ne by done. apply ok_held0. by right.
  - intros uid' ch' Hu. apply ok_loading0. by right.
  - intros uid' ch' Hg. destruct (decide (uid = uid')) as [<-|Hne]; [by rewrite lookup_delete_eq|].
    rewrite lookup_delete_ne by done. by apply (ok_disjoint0 _ ch').
  - rewrite map_size_delete_Some by eauto. lia.
  - intros uid' ch' Hu. apply ok_waiting0. by right.
  - intros uid'. unfold ref_count. cbn. specialize (ok_refs0 uid'). unfold ref_count in ok_refs0.
    destruct (decide (uid = uid')) as [<-|Hne]; [by rewrite lookup_insert_eq|].
    rewrite lookup_insert_ne by done. lia.
  - intros uid'. destruct (decide (uid = uid')) as [<-|Hne]; [by rewrite lookup_insert_eq, Hc|].
    by rewrite lookup_insert_ne by done.
  - intros uid' r. destruct (decide (uid = uid')) as [<-|Hne]; [|rewrite lookup_insert_ne by done; apply ok_refs_pos0].
    rewrite lookup_insert_eq. intros [= <-]. lia.
  - intros uid' h' Hu. apply ok_held0. by right.
  - intros uid' ch' Hu. apply ok_loading0. by right.
  - intros uid' ch' Hu. apply ok_waiting0. by right.
Qed.

Lemma pool_ok_start m : 0 ≤ m → pool_ok 0 (mkPool [] (NewCacher (H:=H) m)).
Proof.
  intros Hm. split; cbn; try done; try lia.
  all: by intros ?? ?%elem_of_nil.
Qed.

Lemma pool_ok_mono n n' p : pool_ok n p → n ≤ n' → pool_ok n' p.
Proof. intros [] Hn. split; try done; lia. Qed.

Lemma perm_out us1 us2 (u : user (H:=H)) : us1 ++ u :: us2 ≡ₚ u :: us1 ++ us2.
Proof. symmetry. apply Permutation_middle. Qed.

Lemma pool_ok_step n p p' : pool_ok n p → n + 1 < 2 ^ 32 → cache_step p p' → pool_ok (n + 1) p'.
Proof.
  intros Hok Hn Hstep. destruct Hstep.
  - by eapply pool_ok_enter.
  - eapply pool_ok_perm; [symmetry; apply perm_out|]. eapply pool_ok_enter; [|done|done].
    eapply pool_ok_forget, pool_ok_perm; [apply perm_out|done].
  - pose proof (Get_enter_inv _ _ _ _ H1) as Hinv. destruct (getting c !! uid); [by destruct Hinv|].
    destruct (cache c !! uid); [by destruct Hinv|]. case_decide; [|by destruct Hinv]. destruct Hinv as [_ ->].
    apply (pool_ok_mono n); [|lia]. eapply pool_ok_forget, pool_ok_perm; [apply perm_out|done].
  - eapply pool_ok_perm; [symmetry; apply perm_out|]. apply (pool_ok_mono n); [|lia].
    eapply pool_ok_loaded; [|done]. eapply pool_ok_perm; [apply perm_out|done].
  - apply (pool_ok_mono n); [|lia]. eapply pool_ok_failed; [|lia|done]. eapply pool_ok_perm; [apply perm_out|done].
  - apply (pool_ok_mono n); [|lia]. eapply pool_ok_release; [|lia|done|done]. eapply pool_ok_perm; [apply perm_out|done].
Qed.

Lemma pool_ok_steps k n p p' :
  nsteps cache_step k p p' → pool_ok n p → n + Z.of_nat k < 2 ^ 32 → pool_ok (n + Z.of_nat k) p'.
Proof.
  intros Hs. revert n. induction Hs as [p|k p p1 p' Hstep Hs IH]; intros n Hok Hn; [by rewrite Z.add_0_r|].
  replace (n + Z.of_nat (S k)) with (n + 1 + Z.of_nat k) in * by lia. apply IH; [|lia]. eapply pool_ok_step; [done|lia|done].
Qed.

Lemma MaxHandles_steps k (p p' : pool (H:=H)) : nsteps cache_step k p p' → MaxHandles (pl_c p') = MaxHandles (pl_c p).
Proof.
  induction 1 as [|k p p1 p' Hstep Hs IH]; [done|]. rewrite IH. clear IH Hs. destruct Hstep; cbn.
  1-3: pose proof (Get_enter_inv _ _ _ _ ltac:(eassumption)) as Hi;
    destruct (getting c !! uid); [by destruct Hi as [_ ->]|]; destruct (cache c !! uid); [by destruct Hi as [_ ->]|];
    case_decide; by destruct Hi as [_ ->].
  1-2: unfold Get_finish in H0; rewrite M_get_bind in H0; destruct (getting c !! uid); [|done]; by injection H0 as <-.
  assert (MaxHandles c1 = MaxHandles c) as <-; [|by subst; destruct r].
  unfold Release_enter in H0. unfold modify, get, mbind, M_bind in H0. destruct (decide _) in H0; [|by injection H0 as <-].
  cbn in H0. destruct (cache c !! uid); [by injection H0 as <-|done].
Qed.

Lemma tally_pos_inv f us : 1 ≤ tally f us → ∃ u, u ∈ us ∧ f u = true.
Proof.
  induction us as [|u us IH]; [done|]. rewrite tally_cons. destruct (f u) eqn:E.
  - intros _. exists u. split; [by left|done].
  - intros (u' & Hu & Hf)%IH. exists u'. split; [by right|done].
Qed.

(** C6: Sharing through the cache.  Whatever the interleaving of the
    goroutines that get and release resources: all holders of a key have one
    and the same resource; a key is loaded by at most one goroutine at a time
    and never while somebody holds it; the cache contains exactly the held
    keys; with a limit set, held and loading keys together never exceed it;
    the channel a goroutine waits on is closed, or the key is being loaded by
    the goroutine that will close it (no lost wake-up); and releasing hands the
    resource to the release callback exactly when the last holder lets go. *)
Theorem cache_pool_safe k m (p : pool (H:=H)) :
  0 ≤ m → Z.of_nat k < 2 ^ 32 → nsteps cache_step k (mkPool [] (NewCacher m)) p →
  let c := pl_c p in let us := pl_users p in
  (∀ uid h1 h2, Holding uid h1 ∈ us → Holding uid h2 ∈ us → h1 = h2) ∧
  (∀ uid ch, Loading uid ch ∈ us → tally (loads uid) us = 1 ∧ tally (holds uid) us = 0) ∧
  (∀ uid, is_Some (cache c !! uid) ↔ ∃ h, Holding uid h ∈ us) ∧
  (0 < m → Z.of_nat (size (cache c)) + Z.of_nat (size (getting c)) ≤ m) ∧
  (∀ uid ch, Waiting uid ch ∈ us → ch ∈ closed c ∨ Loading uid ch ∈ us) ∧
  (∀ uid h, Holding uid h ∈ us →
     ∃ c', Release_enter uid c = (c', Ret (if decide (tally (holds uid) us = 1) then Some h else None))).
Proof.
  intros Hm Hk Hs. pose proof (pool_ok_steps _ 0 _ _ Hs (pool_ok_start m Hm) ltac:(lia)) as Hok.
  pose proof (MaxHandles_steps _ _ _ Hs) as Hmax. destruct p as [us c]. cbn in *. rewrite Z.add_0_l in Hok.
  pose proof Hok as []. cbn in *. split_and!.
  - intros uid h1 h2 H1%ok_held0 H2%ok_held0. congruence.
  - intros uid ch Hl%ok_loading0. rewrite ok_getting0, Hl. split; [done|]. rewrite <- ok_refs0.
    unfold ref_count. apply ok_disjoint0, ok_refs_dom0 in Hl. by rewrite Hl.
  - intros uid. split; [|intros [h Hh%ok_held0]; by eexists]. intros [h Hc].
    destruct (refs c !! uid) as [r|] eqn:Er; [|apply ok_refs_dom0 in Er; congruence].
    pose proof (ok_refs_pos0 _ _ Er). specialize (ok_refs0 uid). unfold ref_count in ok_refs0. rewrite Er in ok_refs0. cbn in ok_refs0.
    destruct (tally_pos_inv (holds uid) us) as ([| |uid' h'] & Hu & Hf); [lia|done|done|]. apply bool_decide_eq_true in Hf as ->. eauto.
  - intros Hpos. rewrite <- Hmax. rewrite <- Hmax in Hpos. rewrite <- ok_count0. by apply ok_bound0.
  - intros uid ch [?|Hg]%ok_waiting0; [by left|right]. specialize (ok_getting0 uid). rewrite Hg in ok_getting0.
    destruct (tally_pos_inv (loads uid) us) as ([uid' ch'| |] & Hu & Hf); [lia| |done|done].
    apply bool_decide_eq_true in Hf as ->. pose proof (ok_loading0 _ _ Hu). by simplify_eq.
  - intros uid h Hh. pose proof Hh as (us1 & us2 & ->)%list_elem_of_split. eexists.
    erewrite (Release_inv _ uid h (us1 ++ us2) c); [|eapply pool_ok_perm; [apply perm_out|done]|lia].
    f_equal. f_equal. rewrite !tally_app, tally_cons. cbn. rewrite bool_decide_true by done.
    destruct (decide (tally (holds uid) us1 + tally (holds uid) us2 = 0)); [by rewrite decide_True by lia|by rewrite decide_False by lia].
Qed.
End Invariant.

Lemma sample_pool :
  ∃ c, nsteps (cache_step (H:=nat)) 4 (mkPool [] (NewCacher 1)) (mkPool [Holding 7 42%nat; Holding 7 42%nat] c).
Proof.
  eexists. eapply nsteps_l; [by eapply (step_enter _ _ _ 7)|]. eapply nsteps_l; [by eapply (step_enter _ _ _ 7)|]. cbn.
  eapply nsteps_l; [by eapply (step_loaded [Waiting 7 0%nat] [] _ _ 7 0%nat 42%nat)|]. cbn.
  eapply nsteps_l; [eapply (step_wake [] [Holding 7 42%nat] _ _ 7 0%nat); [by vm_compute|done]|]. cbn. apply nsteps_O.
Defined.

Lemma cache_pool_safe_witness :
  ∃ c : cacher nat, Z.of_nat (size (cache c)) + Z.of_nat (size (getting c)) ≤ 1 ∧
    ∃ c', Release_enter 7 c = (c', Ret None).
Proof.
  destruct sample_pool as [c Hs]. exists c.
  destruct (cache_pool_safe 4 1 _ ltac:(lia) ltac:(lia) Hs) as (_ & _ & _ & Hb & _ & Hr). cbn in *.
  split; [apply Hb; lia|]. destruct (Hr 7 42%nat ltac:(by left)) as [c' Hc']. by exists c'.
Defined.

(** * The cache between operations *)

(** [pins]: the resources somebody holds, with the number of holders; nobody
    is loading. *)
Record cacher_rep {H} (pins : gmap UUID (H * Z)) (c : cacher H) : Prop := {
  rep_cache : cache c = fst <$> pins;
  rep_refs : refs c = snd <$> pins;
  rep_getting : getting c = ∅;
  rep_count : count c = Z.of_nat (size pins);
  rep_pos uid h n : pins !! uid = Some (h, n) → 1 ≤ n
}.

(** Another resource can be loaded. *)
Definition has_room {H} (c : cacher H) : Prop := MaxHandles c = 0 ∨ count c < MaxHandles c.

Section Alone.
Context {H : Type}.
Implicit Types (c : cacher H) (pins : gmap UUID (H * Z)) (uid : UUID) (h : H).

Lemma cacher_rep_New m : cacher_rep ∅ (NewCacher (H:=H) m).
Proof. split; cbn; rewrite ?fmap_empty; done. Qed.

Lemma Get_enter_hit pins c uid h n :
  cacher_rep pins c → pins !! uid = Some (h, n) → n + 1 < 2 ^ 32 →
  ∃ c', Get_enter uid c = (c', Ret (GetHit h)) ∧ cacher_rep (<[uid := (h, n + 1)]> pins) c' ∧ MaxHandles c' = MaxHandles c.
Proof.
  intros [] Hpin Hn. pose proof (rep_pos0 _ _ _ Hpin). destruct (Get_enter uid c) as [c' o] eqn:E. apply Get_enter_inv in E.
  rewrite rep_getting0, lookup_empty, rep_cache0, lookup_fmap, Hpin in E. destruct E as [-> ->].
  exists (set_refs (<[uid := u32 (ref_count c uid + 1)]>) c). split; [done|]. split; [|done].
  assert (ref_count c uid = n) as -> by (unfold ref_count; by rewrite rep_refs0, lookup_fmap, Hpin).
  split; cbn; try done.
  - rewrite rep_cache0, fmap_insert. symmetry. apply insert_id. by rewrite lookup_fmap, Hpin.
  - rewrite u32_id by lia. by rewrite rep_refs0, fmap_insert.
  - rewrite rep_count0, map_size_insert_Some; [done|eauto].
  - intros uid' h' n' [(<- & [= <- <-])|[_ Hp]]%lookup_insert_Some; [lia|by eapply rep_pos0].
Qed.

Lemma Get_enter_load pins c uid :
  cacher_rep pins c → pins !! uid = None → has_room c → Z.of_nat (size pins) + 1 < 2 ^ 32 →
  ∃ c' ch, Get_enter uid c = (c', Ret (GetLoad ch)) ∧ MaxHandles c' = MaxHandles c ∧
    (∀ h, ∃ c2, Get_finish uid (inl h) c' = (c2, Ret h) ∧ cacher_rep (<[uid := (h, 1)]> pins) c2 ∧ MaxHandles c2 = MaxHandles c) ∧
    (∀ e, ∃ c2, Get_finish uid (inr e) c' = (c2, Err e) ∧ cacher_rep pins c2 ∧ MaxHandles c2 = MaxHandles c).
Proof.
  intros [] Hpin Hroom Hsz. destruct (Get_enter uid c) as [c' o] eqn:E. apply Get_enter_inv in E.
  rewrite rep_getting0, lookup_empty, rep_cache0, lookup_fmap, Hpin in E. cbn in E.
  rewrite decide_False in E by (unfold has_room in *; lia). destruct E as [-> ->].
  eexists _, _. split; [done|]. split; [done|]. rewrite rep_count0, u32_id by lia. split.
  - intros h. destruct (Get_finish uid (inl h) _) as [c2 o2] eqn:E.
    eapply Get_finish_inv in E; [|cbn; by rewrite lookup_insert_eq]. destruct E as [-> ->]. eexists. split; [done|]. split; [|done].
    split; cbn; rewrite ?rep_cache0, ?rep_refs0, ?fmap_insert; try done.
    + rewrite ?rep_getting0. apply map_eq. intros uid'. by destruct (decide (uid = uid')) as [<-|];
        [rewrite lookup_delete_eq|rewrite lookup_delete_ne, lookup_insert_ne].
    + rewrite map_size_insert_None by done. lia.
    + intros uid' h' n' [(<- & [= <- <-])|[_ Hp]]%lookup_insert_Some; [lia|by eapply rep_pos0].
  - intros e. destruct (Get_finish uid (inr e) _) as [c2 o2] eqn:E.
    eapply Get_finish_inv in E; [|cbn; by rewrite lookup_insert_eq]. destruct E as [-> ->]. eexists. split; [done|]. split; [|done].
    split; cbn; try done.
    + rewrite ?rep_getting0. apply map_eq. intros uid'. by destruct (decide (uid = uid')) as [<-|];
        [rewrite lookup_delete_eq|rewrite lookup_delete_ne, lookup_insert_ne].
    + rewrite u32_id by lia. lia.
Qed.

(** The holders of a resource after one of them let go. *)
Definition unpin uid pins : gmap UUID (H * Z) :=
  match pins !! uid with
  | Some (h, n) => if decide (n = 1) then delete uid pins else <[uid := (h, n - 1)]> pins
  | None => pins
  end.

Lemma Release_enter_run pins c uid h n :
  cacher_rep pins c → pins !! uid = Some (h, n) → n < 2 ^ 32 → Z.of_nat (size pins) < 2 ^ 32 →
  ∃ c', MaxHandles c' = MaxHandles c ∧
    if decide (n = 1) then
      Release_enter uid c = (c', Ret (Some h)) ∧
      ∃ c2, Release_finish uid c' = (c2, Ret tt) ∧ cacher_rep (unpin uid pins) c2 ∧ MaxHandles c2 = MaxHandles c
    else Release_enter uid c = (c', Ret None) ∧ cacher_rep (unpin uid pins) c'.
Proof.
  intros [] Hpin Hn Hsz. pose proof (rep_pos0 _ _ _ Hpin).
  assert (Href : ref_count c uid = n) by (unfold ref_count; by rewrite rep_refs0, lookup_fmap, Hpin).
  exists (set_refs (<[uid := n - 1]>) c). split; [done|].
  assert (Henter : Release_enter uid c = (set_refs (<[uid := n - 1]>) c, Ret (if decide (n = 1) then Some h else None))).
  { unfold Release_enter. erewrite M_bind_run by done. rewrite M_get_bind. rewrite Href, u32_id by lia.
    assert (E : ref_count (set_refs (<[uid := n - 1]>) c) uid = n - 1) by (rewrite ref_count_insert; by destruct (decide (uid = uid))).
    rewrite E. destruct (decide (n = 1)); [|by rewrite decide_False by lia]. rewrite decide_True by lia.
    cbn [set_refs cache]. by rewrite rep_cache0, lookup_fmap, Hpin. }
  rewrite Henter. unfold unpin. rewrite Hpin. destruct (decide (n = 1)) as [->|Hne].
  - split; [done|]. rewrite Release_finish_run. eexists. split; [done|]. split; [|done].
    split; cbn [cache refs getting count set_refs]; try done.
    + by rewrite rep_cache0, fmap_delete.
    + by rewrite delete_insert_eq, rep_refs0, fmap_delete.
    + rewrite map_size_delete_Some by eauto.
      assert (size pins ≠ 0%nat) by (intros E%map_size_empty_inv; by rewrite E in Hpin). rewrite rep_count0, u32_id by lia. lia.
    + intros uid' h' n' [_ Hp]%lookup_delete_Some. by eapply rep_pos0.
  - split; [done|]. split; cbn [cache refs getting count set_refs]; try done.
    + rewrite rep_cache0, fmap_insert. symmetry. apply insert_id. by rewrite lookup_fmap, Hpin.
    + by rewrite rep_refs0, fmap_insert.
    + rewrite rep_count0, map_size_insert_Some; [done|eauto].
    + intros uid' h' n' [(<- & [= <- <-])|[_ Hp]]%lookup_insert_Some; [lia|by eapply rep_pos0].
Qed.

(** Getting and letting go again. *)
Lemma unpin_pin pins uid h n :
  (∀ h' m, pins !! uid = Some (h', m) → h' = h ∧ n = m + 1 ∧ 1 ≤ m) → (pins !! uid = None → n = 1) →
  unpin uid (<[uid := (h, n)]> pins) = pins.
Proof.
  intros Hs Hn. unfold unpin. rewrite lookup_insert_eq. destruct (pins !! uid) as [[h' m]|] eqn:E.
  - destruct (Hs _ _ eq_refl) as (-> & -> & ?). rewrite decide_False by lia. rewrite insert_insert_eq, insert_id; [done|].
    by replace (m + 1 - 1) with m by lia.
  - rewrite decide_True by auto. by rewrite delete_insert_id.
Qed.

(** ** The methods *)

Context {W : Type} (sel : W → cacher H) (upd : cacher H → W → W).
Context (options_Get : UUID → M W H) (options_Release : H → M W unit).

Lemma Get_hit w uid c' h : Get_enter uid (sel w) = (c', Ret (GetHit h)) → Get sel upd options_Get uid w = (upd c' w, Ret h).
Proof. intros E. unfold Get, zoom, mbind, M_bind. by rewrite E. Qed.

Lemma Get_load w uid c1 ch w1 h c2 :
  Get_enter uid (sel w) = (c1, Ret (GetLoad ch)) → options_Get uid (upd c1 w) = (w1, Ret h) →
  Get_finish uid (inl h) (sel w1) = (c2, Ret h) → Get sel upd options_Get uid w = (upd c2 w1, Ret h).
Proof. intros E1 E2 E3. unfold Get, zoom, mbind, M_bind, catch. rewrite E1, E2. by rewrite E3. Qed.

Lemma Get_fails w uid c1 ch w1 e c2 :
  Get_enter uid (sel w) = (c1, Ret (GetLoad ch)) → options_Get uid (upd c1 w) = (w1, Err e) →
  Get_finish uid (inr e) (sel w1) = (c2, Err e) → Get sel upd options_Get uid w = (upd c2 w1, Err e).
Proof. intros E1 E2 E3. unfold Get, zoom, mbind, M_bind, catch. rewrite E1, E2. by rewrite E3. Qed.

Lemma Release_more w uid c' : Release_enter uid (sel w) = (c', Ret None) → Release sel upd options_Release uid w = (upd c' w, Ret tt).
Proof. intros E. unfold Release, zoom, mbind, M_bind. by rewrite E. Qed.

Lemma Release_last w uid c1 h w1 c2 :
  Release_enter uid (sel w) = (c1, Ret (Some h)) → options_Release h (upd c1 w) = (w1, Ret tt) →
  Release_finish uid (sel w1) = (c2, Ret tt) → Release sel upd options_Release uid w = (upd c2 w1, Ret tt).
Proof. intros E1 E2 E3. unfold Release, zoom, mbind, M_bind. rewrite E1, E2. by rewrite E3. Qed.
End Alone.
