(* ===== verification/Page.v ===== *)
(** Package [dm], the format of the pages: addresses ([types.go],
    [pcacher/types.go]), ordinary pages ([pageX.go]), the first page
    ([page1.go]) and the index of the free space ([pindex/pindex.go]).

    A page is its bytes; a function that writes to a page returns the bytes it
    leaves. *)
From S2P Require Import Prelude.
From S2P Require Import Codec.
Local Open Scope Z_scope.

(** * pcacher/types.go, types.go *)

Notation Pgno := Z (only parsing).    (* uint32 *)
Notation Offset := Z (only parsing).  (* uint16 *)

Definition LEN_PGNO : Z := 4.
Definition LEN_OFFSET : Z := 2.

Definition Pgno2UUID (pgno : Pgno) : UUID := u64 pgno.
Definition UUID2Pgno (uuid : UUID) : Pgno := u32 uuid.
Definition PutPgno (buf : list byte) (pgno : Pgno) : list byte := PutUint32 buf pgno.
Definition ParsePgno (raw : list byte) : outcome Pgno := ParseUint32 raw.

Definition UUID2Address (uid : UUID) : Pgno * Offset :=
  let u := u64 uid in
  let offset := u16 (Z.land u (Z.shiftl 1 16 - 1)) in
  let pgno := u32 (Z.land (Z.shiftr u 32) (Z.shiftl 1 32 - 1)) in
  (pgno, offset).

Definition Address2UUID (pgno : Pgno) (offset : Offset) : UUID :=
  let u0 := u64 pgno in
  let u1 := u64 offset in
  Z.lor (u64 (Z.shiftl u0 32)) u1.

Definition PutOffset (buf : list byte) (offset : Offset) : list byte := PutUint16 buf (u16 offset).
Definition ParseOffset (raw : list byte) : outcome Offset := v ← ParseUint16 raw; Ret (u16 v).
Definition OffsetToRaw (offset : Offset) : list byte := Uint16ToRaw (u16 offset).

(** * pageX.go *)

Definition PAGE_SIZE : Z := Z.shiftl 1 13.
Definition _PX_OF_FREE : Z := 0.
Definition _PX_OF_DATA : Z := 2.

(** [pxRawUpdateFSO(raw, offset)]: the bytes of [raw] afterwards. *)
Definition pxRawUpdateFSO (raw : list byte) (offset : Offset) : list byte :=
  on_tail raw _PX_OF_FREE (λ buf, PutOffset buf offset).

Definition PXInitRaw : list byte := pxRawUpdateFSO (make_bytes PAGE_SIZE) _PX_OF_DATA.

Definition PXMaxFreeSpace : Z := PAGE_SIZE - _PX_OF_DATA.

Definition pxRawFSO (raw : list byte) : outcome Offset :=
  tail ← slice_from raw _PX_OF_FREE; ParseOffset tail.

Definition PxFSO (pg : list byte) : outcome Offset := pxRawFSO pg.

Definition PXInsert (pg raw : list byte) : outcome (list byte * Offset) :=
  offset ← pxRawFSO pg;
  _ ← slice_from pg offset;
  let pg := copy_at pg offset raw in
  Ret (pxRawUpdateFSO pg (u16 (offset + u16 (zlen raw))), offset).

Definition PXFreeSpace (pg : list byte) : outcome Z :=
  offset ← pxRawFSO pg; Ret (PAGE_SIZE - offset).

Definition PXRecoverUpdate (pg : list byte) (offset : Offset) (raw : list byte) : outcome (list byte) :=
  _ ← slice_from pg offset; Ret (copy_at pg offset raw).

Definition PXRecoverInsert (pg : list byte) (offset : Offset) (raw : list byte) : outcome (list byte) :=
  _ ← slice_from pg offset;
  let pg := copy_at pg offset raw in
  let logFSO := u16 (offset + u16 (zlen raw)) in
  currentFSO ← pxRawFSO pg;
  let currentFSO := if decide (currentFSO < _PX_OF_DATA ∨ PAGE_SIZE < currentFSO) then logFSO else currentFSO in
  Ret (if decide (currentFSO < logFSO) then pxRawUpdateFSO pg logFSO else pg).

(** * page1.go *)

Definition _P1_OF_VC : Z := 100.
Definition _P1_LEN_VC : Z := 8.

(** [utils.RandBytes]; [rnd] gives the numbers [rand.Int] returns. *)
Definition RandBytes (length : Z) (rnd : nat → Z) : list byte :=
  (λ i, let tmp := rnd i mod 62 in
        if decide (tmp < 26) then byte.of_Z (97 + tmp)
        else if decide (tmp < 52) then byte.of_Z (65 + tmp - 26)
        else byte.of_Z (48 + tmp - 52)) <$> seq 0 (Z.to_nat length).

(** [copy(raw[a:b], src)] *)
Definition copy_into (raw : list byte) (a b : Z) (src : list byte) : outcome (list byte) :=
  dst ← slice raw a b; Ret (copy_at raw a (take (length dst) src)).

Definition p1RawSetVCOpen (rnd : nat → Z) (raw : list byte) : outcome (list byte) :=
  copy_into raw _P1_OF_VC (_P1_OF_VC + _P1_LEN_VC) (RandBytes _P1_LEN_VC rnd).

Definition p1RawSetVCClose (raw : list byte) : outcome (list byte) :=
  src ← slice raw _P1_OF_VC (_P1_OF_VC + _P1_LEN_VC);
  copy_into raw (_P1_OF_VC + _P1_LEN_VC) (_P1_OF_VC + _P1_LEN_VC * 2) src.

Definition P1InitRaw (rnd : nat → Z) : outcome (list byte) := p1RawSetVCOpen rnd (make_bytes PAGE_SIZE).

Definition P1SetVCOpen (rnd : nat → Z) (pg : list byte) : outcome (list byte) := p1RawSetVCOpen rnd pg.
Definition P1SetVCClose (pg : list byte) : outcome (list byte) := p1RawSetVCClose pg.

Definition p1RawCheckVC (raw : list byte) : outcome bool :=
  vc1 ← slice raw _P1_OF_VC (_P1_OF_VC + _P1_LEN_VC);
  vc2 ← slice raw (_P1_OF_VC + _P1_LEN_VC) (_P1_OF_VC + _P1_LEN_VC * 2);
  Ret (bool_decide (vc1 = vc2)).

Definition P1CheckVC (pg : list byte) : outcome bool := p1RawCheckVC pg.

(** * pindex.go *)

Definition _NO_INTERVAL : Z := 40.
Definition _THRESHOLD : Z := PAGE_SIZE ÷ _NO_INTERVAL.

(** [lists[no]]: page numbers with the free space they had when added. *)
Notation pindex := (list (list (Pgno * Z))).

Definition NewPindex : pindex := replicate (Z.to_nat (_NO_INTERVAL + 1)) [].

(** Go's division truncates towards zero; a bad index panics. *)
Definition Add (pgno : Pgno) (freeSpace : Z) : M pindex unit :=
  pi ← get;
  let no := freeSpace ÷ _THRESHOLD in
  l ← lift (idx pi no);
  put (<[Z.to_nat no := l ++ [(pgno, freeSpace)]]> pi).

(** The loop of [Select] from list [no] on, [n] lists being left. *)
Fixpoint Select_loop (n : nat) (no : Z) : M pindex (option (Pgno * Z)) :=
  match n with
  | O => mret None
  | S n' =>
      pi ← get;
      l ← lift (idx pi no);
      match l with
      | [] => Select_loop n' (no + 1)
      | pr :: l' => _ ← put (<[Z.to_nat no := l']> pi); mret (Some pr)
      end
  end.

(** [None] for [0, 0, false]; the lists from [no] to [_NO_INTERVAL]. *)
Definition Select (spaceSize : Z) : M pindex (option (Pgno * Z)) :=
  let no := spaceSize ÷ _THRESHOLD in
  let no := if decide (no < _NO_INTERVAL) then no + 1 else no in
  Select_loop (Z.to_nat (_NO_INTERVAL + 1 - no)) no.

(** * Addresses *)

Definition address_ok (a : Pgno * Offset) : Prop := 0 ≤ a.1 < 2 ^ 32 ∧ 0 ≤ a.2 < 2 ^ 16.

Lemma Address2UUID_value pgno offset : address_ok (pgno, offset) → Address2UUID pgno offset = pgno * 2 ^ 32 + offset.
Proof.
  intros [Hp Ho]. cbn in *. unfold Address2UUID. rewrite (u64_id pgno), (u64_id offset) by lia. rewrite Z.shiftl_mul_pow2 by lia.
  rewrite u64_id by lia. rewrite <- (Z.shiftl_mul_pow2 pgno 32) at 1 by lia. apply lor_shiftl_add; lia.
Qed.

Lemma UUID2Address_value uid : 0 ≤ uid < 2 ^ 64 → UUID2Address uid = (uid `div` 2 ^ 32, uid mod 2 ^ 16).
Proof.
  intros Hu. unfold UUID2Address. rewrite u64_id by lia.
  change (Z.shiftl 1 16 - 1) with (Z.ones 16). change (Z.shiftl 1 32 - 1) with (Z.ones 32).
  rewrite !Z.land_ones, Z.shiftr_div_pow2 by lia. unfold u16, u32.
  assert (0 ≤ uid / 2 ^ 32 < 2 ^ 32) by (split; [apply Z.div_pos|apply Z.div_lt_upper_bound]; lia).
  rewrite !Z.mod_mod by lia. by rewrite (Z.mod_small (uid / 2 ^ 32)) by lia.
Qed.

Lemma UUID2Address_Address2UUID a : address_ok a → UUID2Address (Address2UUID a.1 a.2) = a.
Proof.
  destruct a as [pgno offset]. intros Ha. cbn [fst snd]. rewrite Address2UUID_value by done. destruct Ha as [Hp Ho]. cbn in *.
  rewrite UUID2Address_value by lia. f_equal; [rewrite Z.div_add_l, Z.div_small by lia; lia|].
  rewrite <- Zplus_mod_idemp_l. change (2 ^ 32) with (2 ^ 16 * 2 ^ 16). rewrite Z.mul_assoc, Z_mod_mult, Z.add_0_l. apply Z.mod_small. lia.
Qed.

Lemma Address2UUID_range a : address_ok a → 0 ≤ Address2UUID a.1 a.2 < 2 ^ 64.
Proof. destruct a. intros Ha. cbn [fst snd]. rewrite Address2UUID_value by done. destruct Ha. cbn in *. lia. Qed.

(** * The layout of an ordinary page *)

(** A page holding [items] one after the other; the rest is free. *)
Definition page_rep (items : list (list byte)) (pg : list byte) : Prop :=
  zlen pg = PAGE_SIZE ∧
  ∃ free, pg = OffsetToRaw (2 + zlen (mjoin items)) ++ mjoin items ++ free.

(** Where the item number [i] starts. *)
Definition item_offset (items : list (list byte)) (i : nat) : Z := 2 + zlen (mjoin (take i items)).

Lemma PAGE_SIZE_value : PAGE_SIZE = 8192.
Proof. done. Qed.

Lemma zlen_OffsetToRaw o : zlen (OffsetToRaw o) = 2.
Proof. apply zlen_be_bytes. Qed.

Lemma page_rep_bound items pg : page_rep items pg → 2 + zlen (mjoin items) ≤ PAGE_SIZE.
Proof.
  intros [Hlen [free ->]]. rewrite !zlen_app, zlen_OffsetToRaw in Hlen. pose proof (zlen_nonneg free). lia.
Qed.

(** Reading and changing the FSO of a page with any rest. *)
Lemma pxRawFSO_at o rest : 0 ≤ o < 2 ^ 16 → pxRawFSO (OffsetToRaw o ++ rest) = Ret o.
Proof.
  intros Ho. unfold pxRawFSO. rewrite (slice_from_at _ [] (OffsetToRaw o ++ rest)) by done. cbn [mbind outcome_bind].
  unfold ParseOffset, ParseUint16, GetUint16, OffsetToRaw, Uint16ToRaw. rewrite u16_id by done.
  rewrite get_be_app by done. cbn. by rewrite u16_id.
Qed.

Lemma pxRawUpdateFSO_at head o rest : zlen head = 2 → pxRawUpdateFSO (head ++ rest) o = OffsetToRaw o ++ rest.
Proof.
  intros Hh. pose proof (zlen_nonneg rest). unfold pxRawUpdateFSO, _PX_OF_FREE, PutOffset, PutUint16.
  rewrite on_tail_put_be by (rewrite ?zlen_app; lia). rewrite (copy_at_piece _ [] head rest) by (done || by rewrite zlen_be_bytes, Hh).
  done.
Qed.

Lemma pxRawFSO_rep items pg : page_rep items pg → pxRawFSO pg = Ret (2 + zlen (mjoin items)).
Proof.
  intros Hr. pose proof (page_rep_bound _ _ Hr). rewrite PAGE_SIZE_value in *. pose proof (zlen_nonneg (mjoin items)).
  destruct Hr as [_ [free ->]]. apply pxRawFSO_at. lia.
Qed.

Lemma PXFreeSpace_rep items pg : page_rep items pg → PXFreeSpace pg = Ret (PAGE_SIZE - (2 + zlen (mjoin items))).
Proof. intros Hr. unfold PXFreeSpace. by rewrite (pxRawFSO_rep items). Qed.

Lemma PXInitRaw_rep : page_rep [] PXInitRaw.
Proof.
  split; [by vm_compute|]. exists (make_bytes 8190). unfold PXInitRaw.
  change (make_bytes PAGE_SIZE) with (make_bytes (2 + 8190)). rewrite make_bytes_split by lia.
  by rewrite pxRawUpdateFSO_at.
Qed.

Lemma mjoin_app {A} (a b : list (list A)) : mjoin (a ++ b) = mjoin a ++ mjoin b.
Proof. apply join_app. Qed.
Lemma mjoin_snoc {A} (a : list (list A)) x : mjoin (a ++ [x]) = mjoin a ++ x.
Proof. rewrite mjoin_app. unfold mjoin. cbn. by rewrite app_nil_r. Qed.

(** The items around one of them. *)
Lemma join_middle {A} (items : list (list A)) i raw :
  items !! i = Some raw → mjoin items = mjoin (take i items) ++ raw ++ mjoin (drop (S i) items).
Proof. intros Hi. rewrite <- (take_drop_middle items i raw Hi) at 1. unfold mjoin. by rewrite join_app. Qed.

Lemma join_insert {A} (items : list (list A)) i raw raw' :
  items !! i = Some raw → mjoin (<[i := raw']> items) = mjoin (take i items) ++ raw' ++ mjoin (drop (S i) items).
Proof.
  intros Hi. rewrite insert_take_drop by (eapply lookup_lt_Some; eauto). unfold mjoin. by rewrite join_app.
Qed.

(** The page cut at an item. *)
Lemma page_rep_item items pg i raw :
  page_rep items pg → items !! i = Some raw →
  ∃ free, pg = (OffsetToRaw (2 + zlen (mjoin items)) ++ mjoin (take i items)) ++ raw ++ mjoin (drop (S i) items) ++ free ∧
    zlen (OffsetToRaw (2 + zlen (mjoin items)) ++ mjoin (take i items)) = item_offset items i.
Proof.
  intros [_ [free ->]] Hi. exists free. rewrite zlen_app, zlen_OffsetToRaw. split; [|done].
  rewrite <- !app_assoc. f_equal. rewrite (join_middle items i raw) by done. by rewrite <- !app_assoc.
Qed.

Lemma zlen_join_insert (items : list (list byte)) i raw raw' :
  items !! i = Some raw → zlen raw' = zlen raw → zlen (mjoin (<[i := raw']> items)) = zlen (mjoin items).
Proof. intros Hi Hl. rewrite (join_insert items i raw), (join_middle items i raw) by done. rewrite !zlen_app. lia. Qed.

(** Overwriting an item by one of its length. *)
Lemma page_rep_write items pg i raw raw' :
  page_rep items pg → items !! i = Some raw → zlen raw' = zlen raw →
  page_rep (<[i := raw']> items) (copy_at pg (item_offset items i) raw').
Proof.
  intros Hr Hi Hl. pose proof (proj1 Hr) as Hlen. destruct (page_rep_item _ _ _ _ Hr Hi) as (free & Hpg & Hpre).
  rewrite (copy_at_piece _ _ raw _ _ _ Hpg Hpre Hl). split.
  { rewrite Hpg in Hlen. rewrite !zlen_app in *. lia. }
  exists free. rewrite (zlen_join_insert _ _ _ _ Hi Hl), (join_insert items i raw) by done. by rewrite <- !app_assoc.
Qed.

Lemma PXInsert_rep items pg raw :
  page_rep items pg → 2 + zlen (mjoin items) + zlen raw ≤ PAGE_SIZE →
  ∃ pg', PXInsert pg raw = Ret (pg', item_offset items (length items)) ∧ page_rep (items ++ [raw]) pg'.
Proof.
  intros Hr Hfit. pose proof (zlen_nonneg (mjoin items)). pose proof (zlen_nonneg raw). rewrite PAGE_SIZE_value in Hfit.
  unfold PXInsert. rewrite (pxRawFSO_rep items) by done. cbn [mbind outcome_bind].
  destruct Hr as [Hlen [free ->]]. rewrite PAGE_SIZE_value, !zlen_app, zlen_OffsetToRaw in Hlen.
  rewrite (slice_from_at _ (OffsetToRaw (2 + zlen (mjoin items)) ++ mjoin items) free)
    by (by rewrite <- ?app_assoc || by rewrite zlen_app, zlen_OffsetToRaw).
  cbn [outcome_bind]. rewrite (u16_id (zlen raw)), u16_id by lia. eexists. split.
  { unfold item_offset. by rewrite take_ge by lia. }
  assert (Hj : mjoin (items ++ [raw]) = mjoin items ++ raw) by (unfold mjoin; rewrite join_app; cbn; by rewrite app_nil_r).
  assert (Hsp : free = take (Z.to_nat (zlen raw)) free ++ drop (Z.to_nat (zlen raw)) free) by (by rewrite take_drop).
  assert (Htk : zlen raw = zlen (take (Z.to_nat (zlen raw)) free)) by (unfold zlen in *; rewrite length_take; lia).
  rewrite (copy_at_piece _ (OffsetToRaw (2 + zlen (mjoin items)) ++ mjoin items) (take (Z.to_nat (zlen raw)) free) (drop (Z.to_nat (zlen raw)) free));
    [|by rewrite <- app_assoc, <- Hsp|by rewrite zlen_app, zlen_OffsetToRaw|done].
  rewrite <- app_assoc, pxRawUpdateFSO_at by apply zlen_OffsetToRaw. split.
  { rewrite Hsp, !zlen_app, <- Htk in Hlen. rewrite PAGE_SIZE_value, !zlen_app, zlen_OffsetToRaw. lia. }
  eexists. rewrite Hj, <- !app_assoc, zlen_app. by rewrite Z.add_assoc.
Qed.

(** * The index of free space *)

(** The pages the index knows, with the space it believes they have. *)
Definition entries (pi : pindex) : list (Pgno * Z) := mjoin pi.

(** Every page is in the list of its interval. *)
Definition pindex_ok (pi : pindex) : Prop :=
  length pi = Z.to_nat (_NO_INTERVAL + 1) ∧
  ∀ (k : nat) l pr, pi !! k = Some l → pr ∈ l → pr.2 ÷ _THRESHOLD = Z.of_nat k.

Lemma pindex_ok_New : pindex_ok NewPindex.
Proof. split; [done|]. intros k l pr [-> _]%lookup_replicate Hp. by apply elem_of_nil in Hp. Qed.

Lemma Add_run pi pgno freeSpace :
  pindex_ok pi → 0 ≤ freeSpace ≤ PAGE_SIZE →
  ∃ pi', Add pgno freeSpace pi = (pi', Ret tt) ∧ pindex_ok pi' ∧ entries pi' ≡ₚ (pgno, freeSpace) :: entries pi.
Proof.
  intros [Hlen Hin] Hf. change PAGE_SIZE with 8192 in Hf. change (Z.to_nat (_NO_INTERVAL + 1)) with 41%nat in Hlen.
  assert (Hno : 0 ≤ freeSpace ÷ _THRESHOLD ≤ 40).
  { change _THRESHOLD with 204. rewrite Z.quot_div_nonneg by lia. split; [apply Z.div_pos; lia|].
    apply (Z.div_le_mono freeSpace 8192 204); lia. }
  destruct (lookup_lt_is_Some_2 pi (Z.to_nat (freeSpace ÷ _THRESHOLD))) as [l Hl]; [lia|].
  unfold Add. rewrite M_get_bind. rewrite (idx_Ret _ _ l) by (done || lia). rewrite M_lift_bind. eexists. split; [done|]. split.
  - split; [by rewrite length_insert|]. intros k l' pr Hk Hp. apply list_lookup_insert_Some in Hk as [(<- & <- & _)|[_ Hk]]; [|by eapply Hin].
    apply elem_of_app in Hp as [Hp|Hp%list_elem_of_singleton]; [by eapply Hin|subst pr; cbn; lia].
  - unfold entries. rewrite (join_insert _ _ l), (join_middle pi _ l) by done.
    rewrite <- !app_assoc, (app_assoc _ l), (app_assoc _ l). symmetry. apply Permutation_middle.
Qed.

(** The loop takes the head of the first list that is not empty. *)
Lemma Select_loop_run n no pi :
  pindex_ok pi → 0 ≤ no → no + Z.of_nat n = 41 →
  ∃ pi' r, Select_loop n no pi = (pi', Ret r) ∧
  match r with
  | None => pi' = pi ∧ ∀ k, (Z.to_nat no ≤ k ≤ 40)%nat → pi !! k = Some []
  | Some (pgno, fs) => no ≤ fs ÷ _THRESHOLD ∧ pindex_ok pi' ∧ entries pi ≡ₚ (pgno, fs) :: entries pi'
  end.
Proof.
  intros Hok. revert no. induction n as [|n IH]; intros no H0 Hn; [eexists _, None; split; [done|]; split; [done|intros; lia]|].
  pose proof Hok as [Hlen Hin]. change (Z.to_nat (_NO_INTERVAL + 1)) with 41%nat in Hlen.
  destruct (lookup_lt_is_Some_2 pi (Z.to_nat no)) as [l Hl]; [lia|].
  cbn [Select_loop]. rewrite M_get_bind, (idx_Ret _ _ l) by (done || lia). rewrite M_lift_bind. destruct l as [|[pgno fs] l].
  - destruct (IH (no + 1)) as (pi' & r & Hrun & Hr); [lia..|]. exists pi', r. split; [done|].
    destruct r as [[pgno fs]|].
    + destruct Hr as (? & ? & ?). split; [lia|done].
    + destruct Hr as [-> Hr]. split; [done|]. intros k Hk. destruct (decide (k = Z.to_nat no)) as [->|]; [done|]. apply Hr. lia.
  - eexists _, (Some (pgno, fs)). split; [done|]. pose proof (Hin _ _ (pgno, fs) Hl ltac:(by left)) as Hq. cbn in Hq. split; [|split].
    + lia.
    + split; [by rewrite length_insert|]. intros k l' pr Hk Hp.
      apply list_lookup_insert_Some in Hk as [(<- & <- & _)|[_ Hk]]; [eapply Hin; [done|by right]|by eapply Hin].
    + unfold entries. rewrite (join_insert _ _ _ l Hl), (join_middle pi _ _ Hl). cbn. symmetry. apply Permutation_middle.
Qed.

(** [Select] takes a page with enough space out of the index as long as the
    space asked is in one of the first forty intervals. *)
Lemma Select_run pi space :
  pindex_ok pi → 0 ≤ space ≤ PXMaxFreeSpace →
  ∃ pi' r, Select space pi = (pi', Ret r) ∧
  match r with
  | None => pi' = pi ∧ pi !! 40%nat = Some []
  | Some (pgno, fs) => pindex_ok pi' ∧ entries pi ≡ₚ (pgno, fs) :: entries pi' ∧ (space < 8160 → space < fs)
  end.
Proof.
  intros Hok Hs. change PXMaxFreeSpace with 8190 in Hs. unfold Select. change _THRESHOLD with 204. change _NO_INTERVAL with 40.
  rewrite Z.quot_div_nonneg by lia. pose proof (Z.div_pos space 204). pose proof (Z.div_le_mono space 8190 204).
  change (8190 / 204) with 40 in *. set (no := if decide (space / 204 < 40) then space / 204 + 1 else space / 204).
  assert (0 ≤ no ≤ 40) by (unfold no; case_decide; lia).
  destruct (Select_loop_run (Z.to_nat (40 + 1 - no)) no pi) as (pi' & r & Hrun & Hr); [done|lia|lia|].
  exists pi', r. split; [done|]. destruct r as [[pgno fs]|].
  - destruct Hr as (Hno & Hok' & Hp). split; [done|]. split; [done|]. intros Hlt.
    assert (space / 204 < 40) by (apply Z.div_lt_upper_bound; lia). change _THRESHOLD with 204 in Hno.
    unfold no in Hno. rewrite decide_True in Hno by done. pose proof (Z.mod_pos_bound space 204). pose proof (Z.div_mod space 204).
    destruct (decide (0 ≤ fs)); [rewrite Z.quot_div_nonneg in Hno by lia; pose proof (Z.mod_pos_bound fs 204); pose proof (Z.div_mod fs 204); lia|].
    assert (fs ÷ 204 ≤ 0) by (apply Z.opp_le_mono; rewrite <- Z.quot_opp_l by lia; apply Z.quot_pos; lia). lia.
  - destruct Hr as [-> Hr]. split; [done|]. apply Hr. lia.
Qed.

(** * Redo and undo on the bytes of a page *)

Lemma pxRawFSO_bytes pg : 2 ≤ zlen pg → pxRawFSO pg = Ret (u16 (be_value (take 2 pg))).
Proof.
  intros Hl. unfold pxRawFSO, _PX_OF_FREE. rewrite slice_from_Ret by lia. cbn [mbind outcome_bind].
  unfold ParseOffset, ParseUint16, GetUint16. rewrite drop_0, get_be_ge by lia. done.
Qed.

(** The FSO depends on the first two bytes. *)
Lemma pxRawFSO_copy_at pg off raw : 2 ≤ off ≤ zlen pg → pxRawFSO (copy_at pg off raw) = pxRawFSO pg.
Proof.
  intros Ho. rewrite !pxRawFSO_bytes by (rewrite ?zlen_copy_at; lia). do 3 f_equal.
  unfold copy_at. rewrite take_app_le by (unfold zlen in *; rewrite length_take; lia). rewrite take_take. f_equal. lia.
Qed.

Lemma PXRecoverUpdate_run pg off raw :
  0 ≤ off ≤ zlen pg → PXRecoverUpdate pg off raw = Ret (copy_at pg off raw).
Proof. intros. unfold PXRecoverUpdate. by rewrite slice_from_Ret by lia. Qed.

(** An intact FSO moves behind the item if it is before its end. *)
Lemma PXRecoverInsert_run pg off raw f :
  zlen pg = PAGE_SIZE → pxRawFSO pg = Ret f → _PX_OF_DATA ≤ f ≤ PAGE_SIZE → _PX_OF_DATA ≤ off → off + zlen raw ≤ PAGE_SIZE →
  ∃ pg', PXRecoverInsert pg off raw = Ret pg' ∧ zlen pg' = PAGE_SIZE ∧ pxRawFSO pg' = Ret (Z.max f (off + zlen raw)) ∧
    drop 2 pg' = drop 2 (copy_at pg off raw).
Proof.
  unfold _PX_OF_DATA. intros Hl Hf Hfr Ho Hfit. pose proof (zlen_nonneg raw). rewrite PAGE_SIZE_value in *.
  unfold PXRecoverInsert, _PX_OF_DATA. rewrite slice_from_Ret by lia. cbn [mbind outcome_bind].
  rewrite pxRawFSO_copy_at, Hf by lia. cbn [mbind outcome_bind]. rewrite PAGE_SIZE_value.
  rewrite (u16_id (zlen raw)), u16_id by lia. rewrite (decide_False (P := _ ∨ _)) by lia.
  assert (Hlc : zlen (copy_at pg off raw) = 8192) by (rewrite zlen_copy_at; lia).
  case_decide as Hlt.
  - assert (Hsplit : copy_at pg off raw = take 2 (copy_at pg off raw) ++ drop 2 (copy_at pg off raw)) by (by rewrite take_drop).
    assert (Htk : zlen (take 2 (copy_at pg off raw)) = 2) by (unfold zlen in *; rewrite length_take; lia).
    rewrite Hsplit, pxRawUpdateFSO_at by done. eexists. split; [done|]. split_and!.
    + rewrite Hsplit, zlen_app, Htk in Hlc. rewrite zlen_app, zlen_OffsetToRaw. lia.
    + rewrite pxRawFSO_at by lia. f_equal. lia.
    + rewrite <- Hsplit. by rewrite drop_app_length' by (unfold OffsetToRaw, Uint16ToRaw; by rewrite length_be_bytes).
  - eexists. split; [done|]. split_and!; [done| |done]. rewrite pxRawFSO_copy_at, Hf by lia. f_equal. lia.
Qed.

(** An FSO outside the page stays as it is: the value derived from the log
    replaces it only in the comparison that follows. *)
Lemma PXRecoverInsert_garbage pg off raw f :
  zlen pg = PAGE_SIZE → pxRawFSO pg = Ret f → f < _PX_OF_DATA ∨ PAGE_SIZE < f → _PX_OF_DATA ≤ off → off + zlen raw ≤ PAGE_SIZE →
  PXRecoverInsert pg off raw = Ret (copy_at pg off raw) ∧ pxRawFSO (copy_at pg off raw) = Ret f.
Proof.
  unfold _PX_OF_DATA. intros Hl Hf Hfr Ho Hfit. pose proof (zlen_nonneg raw). rewrite PAGE_SIZE_value in *.
  unfold PXRecoverInsert, _PX_OF_DATA. rewrite slice_from_Ret by lia. cbn [mbind outcome_bind].
  rewrite pxRawFSO_copy_at, Hf by lia. cbn [mbind outcome_bind]. rewrite PAGE_SIZE_value.
  rewrite (decide_True (P := _ ∨ _)) by done. split; [|done]. by rewrite decide_False by lia.
Qed.

(** * Where the free space is misjudged *)

(** Moving the FSO leaves everything behind it. *)
Lemma pxRawUpdateFSO_run pg o : 2 ≤ zlen pg → 0 ≤ o < 2 ^ 16 →
  zlen (pxRawUpdateFSO pg o) = zlen pg ∧ pxRawFSO (pxRawUpdateFSO pg o) = Ret o ∧ drop 2 (pxRawUpdateFSO pg o) = drop 2 pg.
Proof.
  intros Hl Ho. assert (Htk : zlen (take 2 pg) = 2) by (unfold zlen in *; rewrite length_take; lia).
  assert (E : pxRawUpdateFSO pg o = OffsetToRaw o ++ drop 2 pg) by (rewrite <- (take_drop 2 pg) at 1; by apply pxRawUpdateFSO_at).
  rewrite E. split; [|split].
  - pose proof (zlen_OffsetToRaw o). rewrite zlen_app. unfold zlen in *. rewrite length_drop. lia.
  - by apply pxRawFSO_at.
  - by rewrite drop_app_length' by (unfold OffsetToRaw, Uint16ToRaw; by rewrite length_be_bytes).
Qed.

Lemma PXInsert_run pg raw o : zlen pg = PAGE_SIZE → pxRawFSO pg = Ret o → 2 ≤ o ≤ PAGE_SIZE → zlen raw ≤ PXMaxFreeSpace →
  ∃ pg', PXInsert pg raw = Ret (pg', o) ∧ zlen pg' = PAGE_SIZE ∧ pxRawFSO pg' = Ret (o + zlen raw) ∧ drop 2 pg' = drop 2 (copy_at pg o raw).
Proof.
  unfold PXMaxFreeSpace, _PX_OF_DATA. rewrite PAGE_SIZE_value. intros Hl Hf Ho Hr. pose proof (zlen_nonneg raw).
  unfold PXInsert. rewrite Hf. cbn [mbind outcome_bind]. rewrite slice_from_Ret by lia. cbn [mbind outcome_bind].
  rewrite (u16_id (zlen raw)), u16_id by lia. assert (Hc : zlen (copy_at pg o raw) = 8192) by (rewrite zlen_copy_at; lia).
  destruct (pxRawUpdateFSO_run (copy_at pg o raw) (o + zlen raw)) as (H1 & H2 & H3); [lia|lia|].
  eexists. split; [done|]. split; [congruence|done].
Qed.

(** Items of the last interval can be cut off.  The pages with between 8160
    and 8190 free bytes share the last list of the index, from which [Select]
    takes any: for an item of that size it returns a page whose free space is
    smaller (here: the only page there is).  [PXInsert] then writes what fits,
    cuts the item at the end of the page and leaves an FSO outside the page, so
    that the free space it reports is negative.  (Smaller items are safe:
    [DataRep.data_manager_refines_map].) *)
Theorem large_item_cut_off items pg raw (pgno : Pgno) :
  page_rep items pg → 8160 ≤ PAGE_SIZE - (2 + zlen (mjoin items)) < zlen raw → zlen raw ≤ PXMaxFreeSpace →
  let fs := PAGE_SIZE - (2 + zlen (mjoin items)) in
  (∃ pi, (_ ← Add pgno fs; Select (zlen raw)) NewPindex = (pi, Ret (Some (pgno, fs)))) ∧
  ∃ pg', PXInsert pg raw = Ret (pg', item_offset items (length items)) ∧ zlen pg' = PAGE_SIZE ∧
    drop (Z.to_nat (item_offset items (length items))) pg' = take (Z.to_nat fs) raw ∧
    PXFreeSpace pg' = Ret (fs - zlen raw).
Proof.
  intros Hrep Hfs Hraw fs. assert (Hmax : PXMaxFreeSpace = 8190) by done. rewrite Hmax in Hraw. pose proof (zlen_nonneg (mjoin items)).
  assert (Hq : ∀ s, 8160 ≤ s ≤ 8190 → s ÷ _THRESHOLD = 40).
  { intros s Hs. change _THRESHOLD with 204. rewrite Z.quot_div_nonneg by lia. symmetry. apply (Z.div_unique _ _ _ (s - 8160)); lia. }
  assert (Ho : item_offset items (length items) = 2 + zlen (mjoin items)) by (unfold item_offset; by rewrite take_ge).
  rewrite PAGE_SIZE_value in *. split.
  - assert (Hfsr : 8160 ≤ fs ≤ 8190) by (unfold fs; rewrite PAGE_SIZE_value; lia). eexists. unfold Add, Select.
    rewrite M_bind_assoc, M_get_bind, (Hq fs Hfsr), (Hq (zlen raw)) by lia. reflexivity.
  - destruct (PXInsert_run pg raw (2 + zlen (mjoin items))) as (pg' & Hins & Hl' & Hf' & Hd');
      [apply Hrep|by apply pxRawFSO_rep|rewrite PAGE_SIZE_value; lia|lia|].
    exists pg'. rewrite Ho. split; [exact Hins|]. split; [by rewrite Hl'|]. split.
    + destruct Hrep as [Hl _]. rewrite PAGE_SIZE_value in Hl. set (o := 2 + zlen (mjoin items)) in *. assert (2 ≤ o) by lia.
      replace (Z.to_nat o) with (2 + Z.to_nat (o - 2))%nat by lia. rewrite <- drop_drop, Hd', drop_drop.
      replace (2 + Z.to_nat (o - 2))%nat with (Z.to_nat o) by lia. unfold copy_at.
      rewrite drop_app_length' by (rewrite length_take; unfold zlen in *; lia).
      rewrite (drop_ge pg) by (unfold zlen in *; lia). rewrite app_nil_r. f_equal.
      assert (Hfso : fs = 8192 - o) by (unfold fs, o; by rewrite PAGE_SIZE_value). rewrite Hfso. unfold zlen in Hl. lia.
    + unfold PXFreeSpace. rewrite Hf'. cbn [mbind outcome_bind]. f_equal. unfold fs. rewrite PAGE_SIZE_value. lia.
Qed.

Lemma large_item_cut_off_witness :
  let items := [make_bytes 5] in let raw := replicate (Z.to_nat 8188) Byte.x61 in
  ∃ pg pg', page_rep items pg ∧ PXInsert pg raw = Ret (pg', 7) ∧ PXFreeSpace pg' = Ret (-3).
Proof.
  intros items raw. destruct (PXInsert_rep [] PXInitRaw (make_bytes 5) PXInitRaw_rep ltac:(by vm_compute)) as (pg & _ & Hrep). exists pg.
  destruct (large_item_cut_off items pg raw 2) as [_ (pg' & Hins & _ & _ & Hfs)];
    [exact Hrep|by vm_compute|by vm_compute|]. exists pg'. split; [exact Hrep|]. split; [exact Hins|]. exact Hfs.
Defined.

(** A damaged FSO survives the recovery.  If the FSO read from the disk is
    outside the page, redoing an insertion leaves it as it is, although the
    value in the log is known to be right (the assignment to [currentFSO] only
    disables the update that follows); and if it is 8396 or more, filling the
    free-space index then stops the process with an index out of range, so
    that the data base cannot be opened. *)
Theorem damaged_FSO_survives pg off raw f pgno pi :
  zlen pg = PAGE_SIZE → pxRawFSO pg = Ret f → f < _PX_OF_DATA ∨ PAGE_SIZE < f → _PX_OF_DATA ≤ off → off + zlen raw ≤ PAGE_SIZE →
  ∃ pg', PXRecoverInsert pg off raw = Ret pg' ∧ pxRawFSO pg' = Ret f ∧ PXFreeSpace pg' = Ret (PAGE_SIZE - f) ∧
    (8396 ≤ f → Add pgno (PAGE_SIZE - f) pi = (pi, Panic)).
Proof.
  intros Hl Hf Hg Ho Hfit. destruct (PXRecoverInsert_garbage pg off raw f Hl Hf Hg Ho Hfit) as [Hrun Hf'].
  exists (copy_at pg off raw). split; [exact Hrun|]. split; [exact Hf'|]. split; [unfold PXFreeSpace; by rewrite Hf'|].
  intros Hbig. rewrite PAGE_SIZE_value in *. unfold Add. rewrite M_get_bind. unfold idx, _THRESHOLD, _NO_INTERVAL.
  rewrite PAGE_SIZE_value. change (8192 ÷ 40) with 204. rewrite decide_False; [done|].
  replace (8192 - f) with (- (f - 8192)) by lia. rewrite Z.quot_opp_l by lia.
  rewrite Z.quot_div_nonneg by lia. assert (1 ≤ (f - 8192) / 204); [|lia]. apply Z.div_le_lower_bound; lia.
Qed.

Lemma damaged_FSO_survives_witness :
  let pg := copy_at PXInitRaw 0 [Byte.xff; Byte.xff] in
  ∃ pg', PXRecoverInsert pg 2 [Byte.x00; Byte.x61] = Ret pg' ∧ pxRawFSO pg' = Ret 65535 ∧ PXFreeSpace pg' = Ret (-57343) ∧
    Add 2 (-57343) NewPindex = (NewPindex, Panic).
Proof.
  intros pg. destruct (damaged_FSO_survives pg 2 [Byte.x00; Byte.x61] 65535 2 NewPindex) as (pg' & H1 & H2 & H3 & H4);
    [by vm_compute|by vm_compute|by right|done|by vm_compute|].
  exists pg'. split; [exact H1|]. split; [exact H2|]. split; [exact H3|]. by apply H4.
Defined.
