(* ===== verification/Pcacher.v ===== *)
(** Package [dm/pcacher]: the page cache ([pcacher.go], [page.go]).

    Page objects are shared: [GetPage] returns a pointer, the same one to all
    holders, so they live in a heap and a pointer is an index of it. *)
From S2P Require Import Prelude.
From S2P Require Import Codec.
From S2P Require Import GoFile.
From S2P Require Import Cacher.
From S2P Require Import Page.
Local Open Scope Z_scope.

Definition _MEM_LIM : Z := 10.

Record page := mkPage { p_pgno : Pgno; p_data : list byte; p_dirty : bool }.

Notation page_ptr := nat (only parsing).

Record pcacher := mkPC {
  pc_file : file;
  noPages : Z;               (* uint32 *)
  pc_c : cacher page_ptr;
  pc_heap : list page
}.

Definition on_pfile {A} : M file A → M pcacher A :=
  zoom pc_file (λ f p, mkPC f (noPages p) (pc_c p) (pc_heap p)).
Definition set_noPages (n : Z) (p : pcacher) := mkPC (pc_file p) n (pc_c p) (pc_heap p).
Definition set_pc_c (c : cacher page_ptr) (p : pcacher) := mkPC (pc_file p) (noPages p) c (pc_heap p).
Definition set_heap (h : list page) (p : pcacher) := mkPC (pc_file p) (noPages p) (pc_c p) h.

(** [pg] behind a pointer, and an assignment to one of its fields. *)
Definition deref (l : page_ptr) : M pcacher page :=
  p ← get; lift (match pc_heap p !! l with Some pg => Ret pg | None => Panic end).
Definition update_page (l : page_ptr) (f : page → page) : M pcacher unit :=
  modify (λ p, set_heap (alter f l (pc_heap p)) p).

(** page.go: [NewPage], [Dirty]; [Pgno] and [Data] are the fields. *)
Definition newPage (pgno : Pgno) (data : list byte) : page := mkPage pgno data false.
Definition Dirty (l : page_ptr) : M pcacher unit :=
  update_page l (λ pg, mkPage (p_pgno pg) (p_data pg) true).

(** Go code that writes through [pg.Data()]. *)
Definition set_Data (l : page_ptr) (data : list byte) : M pcacher unit :=
  update_page l (λ pg, mkPage (p_pgno pg) data (p_dirty pg)).

(** * pcacher.go *)

Definition pageOffset (pgno : Pgno) : Z := i64 (i64 (u32 (pgno - 1)) * PAGE_SIZE).

Definition newPcacher (f : file) (mem : Z) : outcome pcacher :=
  if decide (mem ÷ PAGE_SIZE < _MEM_LIM) then Err ErrMemTooSmall
  else
    size ← file_Stat f;
    let c := NewCacher (u32 (mem ÷ PAGE_SIZE)) in
    Ret (mkPC f (u32 (size ÷ PAGE_SIZE)) c []).

(** [opened]: what [os.OpenFile] returned. *)
Definition Create (opened : outcome file) (mem : Z) : outcome pcacher := f ← opened; newPcacher f mem.
Definition Open (opened : outcome file) (mem : Z) : outcome pcacher := f ← opened; newPcacher f mem.

Definition flush (pg : page) : M pcacher unit :=
  let offset := pageOffset (p_pgno pg) in
  _ ← on_pfile (file_WriteAt (p_data pg) offset);
  on_pfile file_Sync.

Definition getForCacher (uid : UUID) : M pcacher page_ptr :=
  let pgno := UUID2Pgno uid in
  let offset := pageOffset pgno in
  p ← get;
  buf ← lift (file_ReadAt (pc_file p) PAGE_SIZE offset);
  _ ← modify (λ p, set_heap (pc_heap p ++ [newPage pgno buf]) p);
  mret (length (pc_heap p)).

Definition releaseForCacher (l : page_ptr) : M pcacher unit :=
  pg ← deref l;
  if p_dirty pg then
    catch (flush pg) (λ _, update_page l (λ pg, mkPage (p_pgno pg) (p_data pg) false)) (λ _, mret tt)
  else mret tt.

Definition GetPage (pgno : Pgno) : M pcacher page_ptr :=
  Cacher.Get pc_c set_pc_c getForCacher (Pgno2UUID pgno).

Definition release (l : page_ptr) : M pcacher unit :=
  pg ← deref l;
  Cacher.Release pc_c set_pc_c releaseForCacher (Pgno2UUID (p_pgno pg)).

(** [utils.Fatal] ends the process. *)
Definition NewPage (initData : list byte) : M pcacher Pgno :=
  _ ← modify (λ p, set_noPages (u32 (noPages p + 1)) p);
  p ← get;
  let pgno := noPages p in
  catch (flush (newPage pgno initData)) (λ _, mret pgno) (λ _, crash).

Definition TruncateByPgno (maxPgno : Pgno) : M pcacher unit :=
  let size := pageOffset (u32 (maxPgno + 1)) in
  _ ← on_pfile (file_Truncate size);
  modify (set_noPages maxPgno).

Definition NoPages (p : pcacher) : Z := noPages p.

Definition FlushPage (l : page_ptr) : M pcacher unit := pg ← deref l; flush pg.

(** [order]: the keys in the order the cache is closed in. *)
Definition Close (order : list UUID) : M pcacher unit :=
  _ ← Cacher.Close pc_c set_pc_c releaseForCacher order;
  on_pfile file_Close.

(** * The pages a cache stands for *)

(** The page number [i + 1] on the disk. *)
Definition disk_page (f : file) (i : nat) : list byte := sub (f_data f) (Z.of_nat i * PAGE_SIZE) PAGE_SIZE.

(** [pages] is the content of the pages 1, 2, ...; [pins] gives the page object
    and the number of holders of every page somebody holds. *)
Record pages_rep (pages : list (list byte)) (pins : gmap UUID (page_ptr * Z)) (p : pcacher) : Prop := {
  rep_healthy : healthy (pc_file p);
  rep_no : noPages p = zlen pages;
  rep_limit : zlen pages < 2 ^ 32;
  rep_size : zlen (f_data (pc_file p)) = zlen pages * PAGE_SIZE;
  rep_pins (pgno : UUID) l n : pins !! pgno = Some (l, n) → 1 ≤ pgno ≤ zlen pages;
  rep_pages i data : pages !! i = Some data → zlen data = PAGE_SIZE ∧
    match pins !! (Z.of_nat i + 1) with
    | None => disk_page (pc_file p) i = data
    | Some (l, _) => ∃ dirty, pc_heap p !! l = Some (mkPage (Z.of_nat i + 1) data dirty) ∧
                       (dirty = false → disk_page (pc_file p) i = data)
    end
}.

Definition pc_rep pages pins (p : pcacher) : Prop := pages_rep pages pins p ∧ cacher_rep pins (pc_c p).

Lemma pages_rep_set_pc_c pages pins c p : pages_rep pages pins p → pages_rep pages pins (set_pc_c c p).
Proof. by intros []. Qed.

Lemma pageOffset_page i : Z.of_nat i < 2 ^ 32 - 1 → pageOffset (Z.of_nat i + 1) = Z.of_nat i * PAGE_SIZE.
Proof.
  intros Hi. unfold pageOffset. change PAGE_SIZE with 8192. replace (Z.of_nat i + 1 - 1) with (Z.of_nat i) by lia.
  rewrite u32_id by lia. rewrite (i64_id (Z.of_nat i)) by lia. apply i64_id. lia.
Qed.

Lemma PAGE_SIZE_eq : PAGE_SIZE = 8192.
Proof. done. Qed.
#[global] Opaque PAGE_SIZE.

Lemma pages_bound {A} (pages : list A) i data : pages !! i = Some data → Z.of_nat i + 1 ≤ zlen pages.
Proof. intros Hi%lookup_lt_Some. unfold zlen. lia. Qed.

(** Writing one page leaves the others. *)
Lemma disk_page_write f i j data :
  healthy f → zlen data = PAGE_SIZE → (Z.of_nat i + 1) * PAGE_SIZE ≤ zlen (f_data f) → (Z.of_nat j + 1) * PAGE_SIZE ≤ zlen (f_data f) →
  disk_page (set_data (copy_at (f_data f) (Z.of_nat i * PAGE_SIZE) data) f) j = if decide (i = j) then data else disk_page f j.
Proof.
  rewrite PAGE_SIZE_eq. intros Hh Hd Hi Hj. unfold disk_page. rewrite PAGE_SIZE_eq. cbn [set_data f_data]. case_decide as Hij.
  - subst j. rewrite <- Hd at 3. apply sub_copy_at_same; lia.
  - apply sub_copy_at_other; lia.
Qed.

(** Writing a page back to the disk. *)
Lemma flush_run pages pins p i data dirty :
  pages_rep pages pins p → pages !! i = Some data →
  flush (mkPage (Z.of_nat i + 1) data dirty) p =
    (mkPC (set_data (copy_at (f_data (pc_file p)) (Z.of_nat i * PAGE_SIZE) data) (pc_file p)) (noPages p) (pc_c p) (pc_heap p), Ret tt).
Proof.
  intros [] Hi. pose proof (pages_bound _ _ _ Hi). destruct (rep_pages0 _ _ Hi) as [Hd _].
  unfold flush, on_pfile, zoom, mbind, M_bind. cbn [p_pgno p_data].
  rewrite pageOffset_page by lia. rewrite file_WriteAt_healthy by (done || rewrite PAGE_SIZE_eq; lia).
  cbn [pc_file]. rewrite file_Sync_healthy by done. cbn. do 3 f_equal.
  rewrite write_at_inside; [done|rewrite PAGE_SIZE_eq; lia|rewrite PAGE_SIZE_eq in *; lia].
Qed.

Lemma pages_rep_flushed pages pins p i data :
  pages_rep pages pins p → pages !! i = Some data →
  let p' := mkPC (set_data (copy_at (f_data (pc_file p)) (Z.of_nat i * PAGE_SIZE) data) (pc_file p)) (noPages p) (pc_c p) (pc_heap p) in
  pages_rep pages pins p' ∧ disk_page (pc_file p') i = data.
Proof.
  intros [] Hi p'. pose proof (pages_bound _ _ _ Hi). destruct (rep_pages0 _ _ Hi) as [Hd _].
  assert (Hb : ∀ j data', pages !! j = Some data' → (Z.of_nat j + 1) * PAGE_SIZE ≤ zlen (f_data (pc_file p)))
    by (intros j ? Hj%pages_bound; rewrite rep_size0, PAGE_SIZE_eq; lia).
  assert (Hw : ∀ j data', pages !! j = Some data' → disk_page (pc_file p') j = if decide (i = j) then data else disk_page (pc_file p) j)
    by (intros j ? Hj; apply disk_page_write; [done|done|by eapply Hb|by eapply Hb]).
  split; [|rewrite (Hw _ _ Hi); by rewrite decide_True].
  split; cbn [p' pc_file noPages pc_c pc_heap]; [done|done|done| |done|].
  - cbn [set_data f_data]. rewrite zlen_copy_at; [done|]. rewrite rep_size0, PAGE_SIZE_eq. lia.
  - intros j data' Hj. destruct (rep_pages0 _ _ Hj) as [Hl Hp]. split; [done|]. fold p'. pose proof (Hw _ _ Hj) as Hwj.
    cbn [p' pc_file] in Hwj. rewrite Hwj. case_decide; [|done]. subst j. assert (data' = data) as -> by congruence.
    destruct (pins !! (Z.of_nat i + 1)) as [[l n]|]; [|done]. destruct Hp as (dirty & Hp & _). exists dirty. by split.
Qed.

Lemma uid_of_page i : Z.of_nat i < 2 ^ 32 - 1 →
  Pgno2UUID (Z.of_nat i + 1) = Z.of_nat i + 1 ∧ UUID2Pgno (Z.of_nat i + 1) = Z.of_nat i + 1.
Proof. intros. unfold Pgno2UUID, UUID2Pgno. rewrite u64_id, u32_id by lia. done. Qed.

Lemma pages_rep_index pages pins p i data : pages_rep pages pins p → pages !! i = Some data → Z.of_nat i < 2 ^ 32 - 1.
Proof. intros [] Hi%pages_bound. lia. Qed.

Lemma getForCacher_run pages pins p i data p1 :
  pages_rep pages pins p → pages !! i = Some data → pins !! (Z.of_nat i + 1) = None → pc_file p1 = pc_file p →
  getForCacher (Z.of_nat i + 1) p1 = (set_heap (pc_heap p1 ++ [newPage (Z.of_nat i + 1) data]) p1, Ret (length (pc_heap p1))).
Proof.
  intros Hr Hi Hpin Hf. pose proof (pages_rep_index _ _ _ _ _ Hr Hi) as Hix. destruct (uid_of_page i Hix) as [Hu1 Hu2].
  pose proof (pages_bound _ _ _ Hi). destruct Hr. destruct (rep_pages0 _ _ Hi) as [Hd Hdisk]. rewrite Hpin in Hdisk.
  unfold getForCacher. rewrite Hu2, M_get_bind, Hf, pageOffset_page by done. rewrite <- Hdisk.
  rewrite file_ReadAt_in; [done|apply rep_healthy0|rewrite PAGE_SIZE_eq; lia|rewrite rep_size0, PAGE_SIZE_eq; lia].
Qed.

(** The handle of a page nobody holds: it is read from the disk. *)
Lemma GetPage_load pages pins p i data :
  pc_rep pages pins p → pages !! i = Some data → pins !! (Z.of_nat i + 1) = None → has_room (pc_c p) →
  Z.of_nat (size pins) + 1 < 2 ^ 32 →
  ∃ p', GetPage (Z.of_nat i + 1) p = (p', Ret (length (pc_heap p))) ∧
    pc_rep pages (<[Z.of_nat i + 1 := (length (pc_heap p), 1)]> pins) p' ∧ MaxHandles (pc_c p') = MaxHandles (pc_c p).
Proof.
  intros [Hr Hc] Hi Hpin Hroom Hsz. pose proof (pages_rep_index _ _ _ _ _ Hr Hi) as Hix. destruct (uid_of_page i Hix) as [Hu1 Hu2].
  pose proof Hr as []. pose proof (pages_bound _ _ _ Hi) as Hb.
  destruct (Get_enter_load pins (pc_c p) (Z.of_nat i + 1)) as (c1 & ch & Henter & Hmax & Hok & _); [done..|].
  destruct (Hok (length (pc_heap p))) as (c2 & Hfin & Hrep & Hmax2).
  eexists. split; [|split].
  - unfold GetPage. rewrite Hu1. eapply Get_load; [done|by apply (getForCacher_run pages pins p i data (set_pc_c c1 p))|done].
  - split; [|done]. split; cbn [set_pc_c set_heap pc_file noPages pc_c pc_heap]; try done.
    + intros pgno l n [(<- & [= <- <-])|[_ Hp]]%lookup_insert_Some; [lia|by eapply rep_pins0].
    + intros j data' Hj. destruct (rep_pages0 _ _ Hj) as [Hl Hp]. split; [done|].
      destruct (decide (i = j)) as [<-|Hne].
      * rewrite lookup_insert_eq. rewrite Hpin in Hp. assert (data' = data) as -> by congruence. exists false. split; [|done].
        rewrite lookup_app_r by lia. by rewrite Nat.sub_diag.
      * rewrite lookup_insert_ne by lia. destruct (pins !! (Z.of_nat j + 1)) as [[l n]|]; [|done].
        destruct Hp as (dirty & Hp & ?). exists dirty. split; [|done]. by apply lookup_app_l_Some.
  - done.
Qed.

(** The handle of a page somebody holds already: the same object. *)
Lemma GetPage_hit pages pins p i data l n :
  pc_rep pages pins p → pages !! i = Some data → pins !! (Z.of_nat i + 1) = Some (l, n) → n + 1 < 2 ^ 32 →
  ∃ p', GetPage (Z.of_nat i + 1) p = (p', Ret l) ∧
    pc_rep pages (<[Z.of_nat i + 1 := (l, n + 1)]> pins) p' ∧ MaxHandles (pc_c p') = MaxHandles (pc_c p).
Proof.
  intros [Hr Hc] Hi Hpin Hn. pose proof (pages_rep_index _ _ _ _ _ Hr Hi) as Hix. destruct (uid_of_page i Hix) as [Hu1 Hu2].
  pose proof Hr as []. pose proof (rep_pins0 _ _ _ Hpin).
  destruct (Get_enter_hit pins (pc_c p) (Z.of_nat i + 1) l n) as (c1 & Henter & Hrep & Hmax); [done..|].
  eexists. split; [|split].
  - unfold GetPage. rewrite Hu1. by eapply Get_hit.
  - split; [|done]. split; cbn [set_pc_c pc_file noPages pc_c pc_heap]; try done.
    + intros pgno l' n' [(<- & [= <- <-])|[_ Hp]]%lookup_insert_Some; [lia|by eapply rep_pins0].
    + intros j data' Hj. destruct (rep_pages0 _ _ Hj) as [Hl Hp]. split; [done|].
      destruct (decide (i = j)) as [<-|Hne]; [rewrite lookup_insert_eq; by rewrite Hpin in Hp|by rewrite lookup_insert_ne by lia].
  - done.
Qed.

(** The object behind the handle of a page. *)
Lemma deref_run pages pins p i data l n :
  pages_rep pages pins p → pages !! i = Some data → pins !! (Z.of_nat i + 1) = Some (l, n) →
  ∃ dirty, deref l p = (p, Ret (mkPage (Z.of_nat i + 1) data dirty)) ∧ (dirty = false → disk_page (pc_file p) i = data) ∧
    pc_heap p !! l = Some (mkPage (Z.of_nat i + 1) data dirty).
Proof.
  intros [] Hi Hpin. destruct (rep_pages0 _ _ Hi) as [_ Hp]. rewrite Hpin in Hp. destruct Hp as (dirty & Hl & Hd).
  exists dirty. split; [|done]. unfold deref. by rewrite M_get_bind, Hl.
Qed.

(** An assignment to the object of a page. *)
Lemma update_page_run pages pins p i data l n f data' dirty :
  pages_rep pages pins p → pages !! i = Some data → pins !! (Z.of_nat i + 1) = Some (l, n) → zlen data' = PAGE_SIZE →
  pc_heap p !! l = Some (mkPage (Z.of_nat i + 1) data dirty) → ∀ dirty',
  f (mkPage (Z.of_nat i + 1) data dirty) = mkPage (Z.of_nat i + 1) data' dirty' → (dirty' = false → disk_page (pc_file p) i = data') →
  ∃ p', update_page l f p = (p', Ret tt) ∧ pages_rep (<[i := data']> pages) pins p' ∧ pc_c p' = pc_c p ∧
    pc_heap p' !! l = Some (mkPage (Z.of_nat i + 1) data' dirty').
Proof.
  intros Hr Hi Hpin Hd Hobj dirty' Hf Hdisk. pose proof Hr as []. pose proof (lookup_lt_Some _ _ _ Hi).
  assert (Hlen : zlen (<[i := data']> pages) = zlen pages) by (unfold zlen; by rewrite length_insert).
  assert (Hnew : alter f l (pc_heap p) !! l = Some (mkPage (Z.of_nat i + 1) data' dirty'))
    by (rewrite list_lookup_alter_eq, Hobj; cbn; by rewrite Hf).
  eexists. split; [done|]. split; [|done]. split; cbn [set_heap pc_file noPages pc_c pc_heap]; rewrite ?Hlen; try done.
  intros j dj [(<- & <- & _)|[Hne Hj]]%list_lookup_insert_Some.
  - split; [done|]. rewrite Hpin. by exists dirty'.
  - destruct (rep_pages0 _ _ Hj) as [Hl Hp]. split; [done|]. destruct (pins !! (Z.of_nat j + 1)) as [[l' n']|] eqn:Ej; [|done].
    destruct Hp as (dirtyj & Hp & Hdiskj). exists dirtyj. split; [|done]. rewrite list_lookup_alter_ne; [done|]. intros <-.
    rewrite Hobj in Hp. injection Hp. lia.
Qed.

(** The object of a page somebody holds has been marked. *)
Definition is_dirty (l : page_ptr) (p : pcacher) : Prop := ∃ pg, pc_heap p !! l = Some pg ∧ p_dirty pg = true.

Lemma Dirty_run pages pins p i data l n :
  pages_rep pages pins p → pages !! i = Some data → pins !! (Z.of_nat i + 1) = Some (l, n) →
  ∃ p', Dirty l p = (p', Ret tt) ∧ pages_rep pages pins p' ∧ pc_c p' = pc_c p ∧ is_dirty l p'.
Proof.
  intros Hr Hi Hpin. pose proof (rep_pages _ _ _ Hr _ _ Hi) as [Hlen _].
  destruct (deref_run _ _ _ _ _ _ _ Hr Hi Hpin) as (dirty & _ & _ & Hobj).
  destruct (update_page_run pages pins p i data l n (λ pg, mkPage (p_pgno pg) (p_data pg) true) data dirty Hr Hi Hpin Hlen Hobj true)
    as (p' & Hrun & Hr' & Hc & Hobj'); [done|done|].
  rewrite list_insert_id in Hr' by done. exists p'. split_and!; try done. by eexists.
Qed.

Lemma set_Data_run pages pins p i data l n data' :
  pages_rep pages pins p → pages !! i = Some data → pins !! (Z.of_nat i + 1) = Some (l, n) → zlen data' = PAGE_SIZE → is_dirty l p →
  ∃ p', set_Data l data' p = (p', Ret tt) ∧ pages_rep (<[i := data']> pages) pins p' ∧ pc_c p' = pc_c p ∧ is_dirty l p'.
Proof.
  intros Hr Hi Hpin Hd (pg & Hl & Hdirty).
  destruct (deref_run _ _ _ _ _ _ _ Hr Hi Hpin) as (dirty & _ & _ & Hobj). rewrite Hobj in Hl. injection Hl as <-. cbn in Hdirty. subst dirty.
  destruct (update_page_run pages pins p i data l n (λ pg, mkPage (p_pgno pg) data' (p_dirty pg)) data' true Hr Hi Hpin Hd Hobj true)
    as (p' & Hrun & Hr' & Hc & Hobj'); [done|done|].
  exists p'. split_and!; try done. by eexists.
Qed.

(** The release callback writes a page back if it was marked. *)
Lemma releaseForCacher_run pages pins p i data l n :
  pages_rep pages pins p → pages !! i = Some data → pins !! (Z.of_nat i + 1) = Some (l, n) →
  ∃ p', releaseForCacher l p = (p', Ret tt) ∧ pages_rep pages pins p' ∧ pc_c p' = pc_c p ∧ disk_page (pc_file p') i = data.
Proof.
  intros Hr Hi Hpin. destruct (deref_run _ _ _ _ _ _ _ Hr Hi Hpin) as (dirty & Hrun & Hdisk & Hobj).
  unfold releaseForCacher. rewrite (M_bind_run _ _ _ _ _ Hrun). cbn [p_dirty]. destruct dirty; [|exists p; by split_and!; auto].
  unfold catch. rewrite (flush_run _ _ _ _ _ _ Hr Hi). destruct (pages_rep_flushed _ _ _ _ _ Hr Hi) as [Hr1 Hd1]. cbv zeta in Hr1, Hd1.
  set (p1 := mkPC _ _ _ _) in *. pose proof (rep_pages _ _ _ Hr _ _ Hi) as [Hlen _].
  destruct (update_page_run pages pins p1 i data l n (λ pg, mkPage (p_pgno pg) (p_data pg) false) data true Hr1 Hi Hpin Hlen Hobj false)
    as (p' & Hrun' & Hr' & Hc & Hobj'); [done|done|].
  rewrite list_insert_id in Hr' by done. exists p'. split; [exact Hrun'|]. split; [exact Hr'|]. split; [exact Hc|]. injection Hrun' as <-. exact Hd1.
Qed.

(** Letting go of a page. *)
Lemma release_run pages pins p i data l n :
  pc_rep pages pins p → pages !! i = Some data → pins !! (Z.of_nat i + 1) = Some (l, n) → n < 2 ^ 32 → Z.of_nat (size pins) < 2 ^ 32 →
  ∃ p', release l p = (p', Ret tt) ∧ pc_rep pages (unpin (Z.of_nat i + 1) pins) p' ∧ MaxHandles (pc_c p') = MaxHandles (pc_c p).
Proof.
  intros [Hr Hc] Hi Hpin Hn Hsz. pose proof (pages_rep_index _ _ _ _ _ Hr Hi) as Hix. destruct (uid_of_page i Hix) as [Hu1 Hu2].
  destruct (deref_run _ _ _ _ _ _ _ Hr Hi Hpin) as (dirty & Hrun & _ & _).
  unfold release. rewrite (M_bind_run _ _ _ _ _ Hrun). cbn [p_pgno]. rewrite Hu1.
  destruct (Release_enter_run pins (pc_c p) (Z.of_nat i + 1) l n) as (c1 & Hmax & Hcase); [done..|].
  pose proof Hr as []. unfold unpin in *. rewrite Hpin in Hcase. rewrite Hpin. destruct (decide (n = 1)) as [->|Hne].
  - destruct Hcase as [Henter (c2 & Hfin & Hrep & Hmax2)].
    destruct (releaseForCacher_run pages pins (set_pc_c c1 p) i data l 1) as (p1 & Hrel & Hr1 & Hc1 & Hdisk); [done..|].
    eexists. split; [eapply Release_last; [done|done|by rewrite Hc1]|]. split; [|done]. split; [|done].
    destruct Hr1 as [rh1 rn1 rl1 rs1 rp1 rg1].
    split; cbn [set_pc_c pc_file noPages pc_c pc_heap]; [exact rh1|exact rn1|exact rl1|exact rs1| |].
    + intros pgno l' n' [_ Hp]%lookup_delete_Some. by eapply rep_pins0.
    + intros j data' Hj. destruct (rg1 _ _ Hj) as [Hl Hp]. split; [done|].
      destruct (decide (i = j)) as [<-|Hne]; [rewrite lookup_delete_eq; congruence|by rewrite lookup_delete_ne by lia].
  - destruct Hcase as [Henter Hrep]. eexists. split; [by eapply Release_more|]. split; [|done]. split; [|done].
    split; cbn [set_pc_c pc_file noPages pc_c pc_heap]; try done.
    + intros pgno l' n' [(<- & [= <- <-])|[_ Hp]]%lookup_insert_Some; by eapply rep_pins0.
    + intros j data' Hj. destruct (rep_pages0 _ _ Hj) as [Hl Hp]. split; [done|].
      destruct (decide (i = j)) as [<-|Hne']; [rewrite lookup_insert_eq; by rewrite Hpin in Hp|by rewrite lookup_insert_ne by lia].
Qed.

(** Objects stay in memory with their bytes, whoever lets go of a page. *)
Definition keeps_objects (p p' : pcacher) : Prop :=
  ∀ k pg, pc_heap p !! k = Some pg → ∃ dirty, pc_heap p' !! k = Some (mkPage (p_pgno pg) (p_data pg) dirty).

Lemma releaseForCacher_keeps l p p' o : releaseForCacher l p = (p', o) → keeps_objects p p'.
Proof.
  unfold releaseForCacher, deref. rewrite M_bind_assoc, M_get_bind. destruct (pc_heap p !! l) as [pg|] eqn:E; [|intros [= <- _] k [] ?; eauto].
  rewrite M_lift_bind. destruct (p_dirty pg); [|intros [= <- _] k [] ?; eauto].
  unfold catch. destruct (flush pg p) as [p1 o1] eqn:Ef.
  assert (Hh : pc_heap p1 = pc_heap p).
  { revert Ef. unfold flush, on_pfile, zoom, mbind, M_bind. destruct (file_WriteAt _ _ _) as [f1 []]; [|by intros [= <- _]..].
    cbn. destruct (file_Sync f1) as [f2 o2]. by intros [= <- _]. }
  destruct o1; intros [= <- _] k pk Hk; [|exists (p_dirty pk); rewrite Hh; by destruct pk..].
  cbn [set_heap pc_heap]. rewrite Hh. destruct (decide (k = l)) as [->|].
  - rewrite list_lookup_alter_eq, Hk. by exists false.
  - rewrite list_lookup_alter_ne by done. exists (p_dirty pk). by destruct pk.
Qed.

Lemma release_keeps l p p' o : release l p = (p', o) → keeps_objects p p'.
Proof.
  unfold release, deref. rewrite M_bind_assoc, M_get_bind. destruct (pc_heap p !! l) as [pg|] eqn:E; [|intros [= <- _] k [] ?; eauto].
  rewrite M_lift_bind. unfold Cacher.Release, zoom, mbind, M_bind.
  destruct (Release_enter _ _) as [c1 [[h|]| | |]]; try (intros [= <- _] k [] ?; cbn; by eauto).
  destruct (releaseForCacher h (set_pc_c c1 p)) as [p1 o1] eqn:Er. apply releaseForCacher_keeps in Er.
  destruct o1; [|by intros [= <- _]..]. destruct (Release_finish _ _) as [c2 o2]. intros [= <- _]. exact Er.
Qed.

(** A page is added to the end of the file. *)
Lemma NewPage_run pages pins p data :
  pc_rep pages pins p → zlen data = PAGE_SIZE → zlen pages + 1 < 2 ^ 32 →
  ∃ p', NewPage data p = (p', Ret (zlen pages + 1)) ∧ pc_rep (pages ++ [data]) pins p' ∧ MaxHandles (pc_c p') = MaxHandles (pc_c p).
Proof.
  intros [Hr Hc] Hd Hlim. pose proof Hr as []. pose proof (zlen_nonneg pages).
  assert (Hlen : zlen (pages ++ [data]) = zlen pages + 1) by (rewrite zlen_app; done).
  unfold NewPage. erewrite M_bind_run by done. rewrite M_get_bind. cbn [set_noPages noPages]. rewrite rep_no0, u32_id by lia.
  unfold catch, flush, on_pfile, zoom, mbind, M_bind. cbn [newPage p_pgno p_data pc_file].
  assert (Ho : pageOffset (zlen pages + 1) = zlen (f_data (pc_file p))).
  { change (zlen pages) with (Z.of_nat (length pages)). rewrite pageOffset_page by (unfold zlen in *; lia). by rewrite rep_size0. }
  rewrite Ho.
  rewrite file_WriteAt_healthy by (done || apply zlen_nonneg). cbn [pc_file]. rewrite file_Sync_healthy by done.
  rewrite write_at_end. eexists. split; [done|]. split; [|done]. split; [|exact Hc].
  split; cbn [pc_file noPages pc_heap]; [exact rep_healthy0|by rewrite Hlen|lia| | |].
  - cbn [set_data f_data]. rewrite zlen_app, Hlen, rep_size0, Hd. lia.
  - intros pgno l n Hp. rewrite Hlen. specialize (rep_pins0 _ _ _ Hp). lia.
  - intros j dj Hj. assert (Hdisk : ∀ k, (k < length pages)%nat → disk_page (set_data (f_data (pc_file p) ++ data) (pc_file p)) k = disk_page (pc_file p) k).
    { intros k Hk. unfold disk_page. cbn [set_data f_data]. apply sub_app_l; rewrite ?rep_size0, ?PAGE_SIZE_eq; unfold zlen; lia. }
    apply lookup_app_Some in Hj as [Hj|[Hge Hj]].
    + rewrite Hdisk by (by eapply lookup_lt_Some). by apply rep_pages0.
    + apply list_lookup_singleton_Some in Hj as [Hj <-]. assert (j = length pages) as -> by lia. split; [done|].
      destruct (pins !! (Z.of_nat (length pages) + 1)) as [[l n]|] eqn:E.
      { specialize (rep_pins0 _ _ _ E). unfold zlen in *. lia. }
      unfold disk_page. cbn [set_data f_data]. apply (sub_at _ (f_data (pc_file p)) data []); [by rewrite app_nil_r|by rewrite rep_size0|done].
Qed.

Lemma FlushPage_run pages pins p i data l n :
  pc_rep pages pins p → pages !! i = Some data → pins !! (Z.of_nat i + 1) = Some (l, n) →
  ∃ p', FlushPage l p = (p', Ret tt) ∧ pc_rep pages pins p' ∧ pc_c p' = pc_c p ∧ pc_heap p' = pc_heap p ∧ disk_page (pc_file p') i = data.
Proof.
  intros [Hr Hc] Hi Hpin. destruct (deref_run _ _ _ _ _ _ _ Hr Hi Hpin) as (dirty & Hrun & _ & _).
  unfold FlushPage. rewrite (M_bind_run _ _ _ _ _ Hrun), (flush_run _ _ _ _ _ _ Hr Hi).
  destruct (pages_rep_flushed _ _ _ _ _ Hr Hi) as [Hr1 Hd1]. cbv zeta in Hr1, Hd1.
  eexists. split; [done|]. split; [split; [exact Hr1|exact Hc]|]. split; [done|]. split; [done|exact Hd1].
Qed.

(** What a file of whole pages holds. *)
Definition file_pages (f : file) : list (list byte) :=
  disk_page f <$> seq 0 (Z.to_nat (zlen (f_data f) ÷ PAGE_SIZE)).

Lemma newPcacher_run f mem pages :
  healthy f → f_data f = mjoin pages → Forall (λ d, zlen d = PAGE_SIZE) pages → zlen pages < 2 ^ 32 → 10 * PAGE_SIZE ≤ mem < 2 ^ 32 * PAGE_SIZE →
  ∃ p, newPcacher f mem = Ret p ∧ pc_rep pages ∅ p ∧ 10 ≤ MaxHandles (pc_c p) ∧ pc_file p = f.
Proof.
  intros Hf Hdata Hall Hlim Hmem. pose proof (zlen_nonneg pages). rewrite PAGE_SIZE_eq in *.
  assert (Hjoin : ∀ ps, Forall (λ d : list byte, zlen d = 8192) ps → zlen (mjoin ps) = zlen ps * 8192).
  { induction 1 as [|d ps Hd _ IH]; [done|].
    change (mjoin (d :: ps)) with (d ++ mjoin ps). rewrite zlen_app, zlen_cons, IH, Hd. lia. }
  unfold newPcacher. rewrite PAGE_SIZE_eq, (Z.quot_div_nonneg mem) by lia. unfold _MEM_LIM.
  pose proof (Z.div_le_mono (10 * 8192) mem 8192). change (10 * 8192 / 8192) with 10 in *. rewrite decide_False by lia.
  unfold file_Stat. rewrite (proj1 Hf). cbn [mbind outcome_bind]. unfold file_Size. rewrite Hdata, Hjoin by done.
  rewrite Z.quot_mul, u32_id, u32_id by (lia || (split; [apply Z.div_pos; lia|apply Z.div_lt_upper_bound; lia])).
  eexists. split; [done|]. split; [|split; [cbn; lia|done]]. split; [|apply cacher_rep_New].
  split; cbn [pc_file noPages pc_heap]; [done|done|done|by rewrite Hdata, Hjoin, PAGE_SIZE_eq| |].
  - intros ? ? ?. by rewrite lookup_empty.
  - intros i d Hi. rewrite lookup_empty. rewrite Forall_lookup in Hall. split; [by rewrite PAGE_SIZE_eq; eapply Hall|].
    unfold disk_page. rewrite PAGE_SIZE_eq. eapply sub_at; [rewrite Hdata; by apply join_middle| |by eapply Hall].
    rewrite Hjoin by (apply Forall_take, Forall_lookup; done). unfold zlen. rewrite length_take. apply lookup_lt_Some in Hi. lia.
Qed.

(** The functions of pageX.go that take a page: mark it, then write through
    [pg.Data()]. *)
Definition write_page {A} (l : page_ptr) (f : list byte → outcome (list byte * A)) : M pcacher A :=
  _ ← Dirty l;
  pg ← deref l;
  '(data, a) ← lift (f (p_data pg));
  _ ← set_Data l data;
  mret a.

Lemma write_page_run {A} pages pins p i data l n (f : list byte → outcome (list byte * A)) data' a :
  pages_rep pages pins p → pages !! i = Some data → pins !! (Z.of_nat i + 1) = Some (l, n) →
  f data = Ret (data', a) → zlen data' = PAGE_SIZE →
  ∃ p', write_page l f p = (p', Ret a) ∧ pages_rep (<[i := data']> pages) pins p' ∧ pc_c p' = pc_c p.
Proof.
  intros Hr Hi Hpin Hf Hd. destruct (Dirty_run _ _ _ _ _ _ _ Hr Hi Hpin) as (p1 & Hrun1 & Hr1 & Hc1 & Hdirty).
  destruct (deref_run _ _ _ _ _ _ _ Hr1 Hi Hpin) as (dirty & Hrun2 & _ & _).
  destruct (set_Data_run _ _ _ _ _ _ _ data' Hr1 Hi Hpin Hd Hdirty) as (p3 & Hrun3 & Hr3 & Hc3 & _).
  exists p3. split; [|split; [exact Hr3|congruence]].
  unfold write_page. rewrite (M_bind_run _ _ _ _ _ Hrun1), (M_bind_run _ _ _ _ _ Hrun2). cbn [p_data].
  rewrite Hf, M_lift_bind, (M_bind_run _ _ _ _ _ Hrun3). done.
Qed.

(** Get a page nobody else holds, write to it, let it go. *)
Lemma page_session_run {A} pages pins p i data (f : list byte → outcome (list byte * A)) data' a :
  pc_rep pages pins p → pages !! i = Some data → pins !! (Z.of_nat i + 1) = None → has_room (pc_c p) →
  Z.of_nat (size pins) + 1 < 2 ^ 32 → f data = Ret (data', a) → zlen data' = PAGE_SIZE →
  ∃ p1 l p2 p3, GetPage (Z.of_nat i + 1) p = (p1, Ret l) ∧
    (∃ dirty, deref l p1 = (p1, Ret (mkPage (Z.of_nat i + 1) data dirty))) ∧
    write_page l f p1 = (p2, Ret a) ∧ release l p2 = (p3, Ret tt) ∧
    pc_rep (<[i := data']> pages) pins p3 ∧ MaxHandles (pc_c p3) = MaxHandles (pc_c p).
Proof.
  intros Hr Hi Hpin Hroom Hsz Hf Hd. destruct (GetPage_load _ _ _ _ _ Hr Hi Hpin Hroom Hsz) as (p1 & Hrun1 & [Hr1 Hc1] & Hm1).
  set (l := length (pc_heap p)) in *. set (pins1 := <[_ := _]> pins) in *.
  assert (Hpin1 : pins1 !! (Z.of_nat i + 1) = Some (l, 1)) by apply lookup_insert_eq.
  destruct (deref_run _ _ _ _ _ _ _ Hr1 Hi Hpin1) as (dirty & Hrun & _ & _).
  destruct (write_page_run _ _ _ _ _ _ _ f data' a Hr1 Hi Hpin1 Hf Hd) as (p2 & Hrun2 & Hr2 & Hc2).
  assert (Hi2 : <[i := data']> pages !! i = Some data') by (apply list_lookup_insert_eq; by eapply lookup_lt_Some).
  assert (Hszp : size pins1 = S (size pins)) by (unfold pins1; by rewrite map_size_insert_None).
  destruct (release_run (<[i := data']> pages) pins1 p2 i data' l 1) as (p3 & Hrun3 & Hr3 & Hm3); [|done|done|lia|lia|].
  { split; [exact Hr2|by rewrite Hc2]. }
  exists p1, l, p2, p3. split; [done|]. split; [by exists dirty|]. split; [done|]. split; [done|]. split.
  - unfold pins1 in Hr3. rewrite unpin_pin in Hr3; [done| |done]. intros h m Hh. congruence.
  - congruence.
Qed.

(** The file is cut to its first pages; nobody holds one of the others. *)
Lemma TruncateByPgno_run pages pins p m :
  pc_rep pages pins p → 1 ≤ m ≤ zlen pages → m < 2 ^ 32 - 1 → (∀ (k : Z) l n, pins !! k = Some (l, n) → k ≤ m) →
  ∃ p', TruncateByPgno m p = (p', Ret tt) ∧ pc_rep (take (Z.to_nat m) pages) pins p' ∧ MaxHandles (pc_c p') = MaxHandles (pc_c p).
Proof.
  intros [Hr Hc] Hm Hlim Hk. pose proof Hr as [].
  assert (Hlen : zlen (take (Z.to_nat m) pages) = m) by (unfold zlen in *; rewrite length_take; lia).
  unfold TruncateByPgno. rewrite u32_id by lia.
  assert (Ho : pageOffset (m + 1) = m * PAGE_SIZE) by (rewrite <- (Z2Nat.id m) by lia; apply pageOffset_page; lia).
  rewrite Ho. erewrite M_bind_run; [|unfold on_pfile, zoom; rewrite file_Truncate_shrink by (done || rewrite ?rep_size0, PAGE_SIZE_eq; lia); done].
  eexists. split; [done|]. split; [|done]. split; [|exact Hc].
  split; cbn [set_noPages pc_file noPages pc_heap]; [exact rep_healthy0|by rewrite Hlen|lia| | |].
  - cbn [set_data f_data]. rewrite Hlen. unfold zlen in *. rewrite length_take, PAGE_SIZE_eq in *. lia.
  - intros pgno l n Hp. rewrite Hlen. specialize (rep_pins0 _ _ _ Hp). specialize (Hk _ _ _ Hp). lia.
  - intros i data Hi. apply lookup_take_Some in Hi as [Hi Hlt]. destruct (rep_pages0 _ _ Hi) as [Hd Hp]. split; [done|].
    assert (Hdisk : disk_page (set_data (take (Z.to_nat (m * PAGE_SIZE)) (f_data (pc_file p))) (pc_file p)) i = disk_page (pc_file p) i).
    { unfold disk_page. cbn [set_data f_data]. rewrite <- (take_drop (Z.to_nat (m * PAGE_SIZE)) (f_data (pc_file p))) at 2.
      symmetry. apply sub_app_l; rewrite ?PAGE_SIZE_eq; [lia|lia|].
      unfold zlen. rewrite length_take. unfold zlen in rep_size0. rewrite PAGE_SIZE_eq in rep_size0. unfold zlen in Hm. lia. }
    by rewrite Hdisk.
Qed.
