(* ===== verification/WalLog.v ===== *)
(** Package [dm], the bytes of data items ([data_item.go]) and of the log
    records of the data manager ([recovery.go]). *)
From S2P Require Import Prelude.
From S2P Require Import Codec.
From S2P Require Import Tm.
From S2P Require Import Page.
Local Open Scope Z_scope.

(** * data_item.go *)

Definition _OF_VALID_FLAG : Z := 0.
Definition _OF_DATA_SIZE : Z := 1.
Definition _OF_DATA : Z := 3.

Definition WrapDataitemRaw (data : list byte) : list byte :=
  let raw := make_bytes (_OF_DATA + zlen data) in
  let raw := on_tail raw _OF_DATA_SIZE (λ buf, PutUint16 buf (u16 (zlen data))) in
  copy_at raw _OF_DATA data.

(** [raw[i] = b] *)
Definition set_byte (raw : list byte) (i : Z) (b : byte) : outcome (list byte) :=
  _ ← idx raw i; Ret (<[Z.to_nat i := b]> raw).

Definition InValidRawDataitem (raw : list byte) : outcome (list byte) := set_byte raw _OF_VALID_FLAG Byte.x01.

(** * recovery.go: the records *)

Definition _LOG_TYPE_INSERT : byte := Byte.x00.
Definition _LOG_TYPE_UPDATE : byte := Byte.x01.

(** [xid], the item's [oldraw], [uid] and [raw]. *)
Definition UpdateLog (xid : XID) (uid : UUID) (oldraw raw : list byte) : outcome (list byte) :=
  let log := make_bytes (1 + LEN_XID + LEN_UUID + zlen raw * 2) in
  log ← set_byte log 0 _LOG_TYPE_UPDATE;
  let pos := 1 in
  let log := on_tail log pos (λ buf, PutXID buf xid) in
  let pos := pos + LEN_XID in
  let log := on_tail log pos (λ buf, PutUUID buf uid) in
  let pos := pos + LEN_UUID in
  let log := copy_at log pos oldraw in
  let pos := pos + zlen oldraw in
  _ ← slice_from log pos;
  Ret (copy_at log pos raw).

(** [pgno] and [pg]: the number and the bytes of the page. *)
Definition InsertLog (xid : XID) (pgno : Pgno) (pg raw : list byte) : outcome (list byte) :=
  let log := make_bytes (1 + LEN_XID + LEN_PGNO + 2 + zlen raw) in
  log ← set_byte log 0 _LOG_TYPE_INSERT;
  let pos := 1 in
  let log := on_tail log pos (λ buf, PutXID buf xid) in
  let pos := pos + LEN_XID in
  let log := on_tail log pos (λ buf, PutPgno buf pgno) in
  let pos := pos + LEN_PGNO in
  offset ← PxFSO pg;
  let log := on_tail log pos (λ buf, PutOffset buf offset) in
  let pos := pos + LEN_OFFSET in
  Ret (copy_at log pos raw).

Definition isInsertLog (log : list byte) : outcome bool := b ← idx log 0; Ret (bool_decide (b = _LOG_TYPE_INSERT)).

Definition parseInsertLog (log : list byte) : outcome (XID * Pgno * Offset * list byte) :=
  let pos := 1 in
  buf ← slice_from log pos;
  xid ← ParseXID buf;
  let pos := pos + LEN_XID in
  buf ← slice_from log pos;
  pgno ← ParsePgno buf;
  let pos := pos + LEN_PGNO in
  buf ← slice_from log pos;
  offset ← ParseOffset buf;
  let pos := pos + LEN_OFFSET in
  raw ← slice_from log pos;
  Ret (xid, pgno, offset, raw).

Definition parseUpdateLog (log : list byte) : outcome (XID * Pgno * Offset * list byte * list byte) :=
  let pos := 1 in
  buf ← slice_from log pos;
  xid ← ParseXID buf;
  let pos := pos + LEN_XID in
  buf ← slice_from log pos;
  uuid ← ParseUUID buf;
  let '(pgno, offset) := UUID2Address uuid in
  let pos := pos + LEN_UUID in
  let length := (zlen log - pos) ÷ 2 in
  oldraw ← slice log pos (pos + length);
  newraw ← slice log (pos + length) (pos + length * 2);
  Ret (xid, pgno, offset, oldraw, newraw).

(** * The records as data *)

Inductive wal_op :=
| Inserted (xid : XID) (pgno : Pgno) (offset : Offset) (raw : list byte)
| Updated (xid : XID) (pgno : Pgno) (offset : Offset) (oldraw newraw : list byte).

Definition wal_bytes (op : wal_op) : list byte :=
  match op with
  | Inserted xid pgno offset raw => _LOG_TYPE_INSERT :: XIDToRaw xid ++ Uint32ToRaw pgno ++ OffsetToRaw offset ++ raw
  | Updated xid pgno offset oldraw newraw =>
      _LOG_TYPE_UPDATE :: XIDToRaw xid ++ UUIDToRaw (Address2UUID pgno offset) ++ oldraw ++ newraw
  end.

Definition wal_xid op : XID := match op with Inserted xid _ _ _ | Updated xid _ _ _ _ => xid end.
Definition wal_pgno op : Pgno := match op with Inserted _ pgno _ _ | Updated _ pgno _ _ _ => pgno end.
Definition wal_offset op : Offset := match op with Inserted _ _ offset _ | Updated _ _ offset _ _ => offset end.

(** The ranges of the fields. *)
Definition wal_ok (op : wal_op) : Prop :=
  0 ≤ wal_xid op < 2 ^ 64 ∧ address_ok (wal_pgno op, wal_offset op) ∧
  match op with Updated _ _ _ oldraw newraw => zlen oldraw = zlen newraw | _ => True end.

(** * Lemmas *)

Lemma zlen_XIDToRaw xid : zlen (XIDToRaw xid) = 8.
Proof. apply zlen_be_bytes. Qed.
Lemma zlen_UUIDToRaw uid : zlen (UUIDToRaw uid) = 8.
Proof. apply zlen_be_bytes. Qed.

Lemma WrapDataitemRaw_eq data : zlen data < 2 ^ 16 → WrapDataitemRaw data = Byte.x00 :: Uint16ToRaw (zlen data) ++ data.
Proof.
  intros Hd. pose proof (zlen_nonneg data). unfold WrapDataitemRaw, _OF_DATA, _OF_DATA_SIZE, PutUint16. rewrite u16_id by lia.
  replace (3 + zlen data) with (1 + (2 + zlen data)) by lia. rewrite make_bytes_split by lia.
  rewrite put_fill by (done || lia). rewrite copy_at_fill by (rewrite ?zlen_app, ?zlen_be_bytes; done || lia).
  replace (2 + zlen data - Z.of_nat 2 - zlen data) with 0 by lia. by rewrite app_nil_r.
Qed.

Lemma zlen_WrapDataitemRaw data : zlen (WrapDataitemRaw data) = 3 + zlen data.
Proof.
  pose proof (zlen_nonneg data). unfold WrapDataitemRaw, _OF_DATA, _OF_DATA_SIZE.
  assert (Hp : zlen (on_tail (make_bytes (3 + zlen data)) 1 (λ buf, PutUint16 buf (u16 (zlen data)))) = 3 + zlen data).
  { rewrite zlen_on_tail; [by rewrite zlen_make_bytes by lia|rewrite zlen_make_bytes; lia|intros; apply zlen_PutUint16]. }
  by rewrite zlen_copy_at by lia.
Qed.

(** The type byte of a zeroed buffer. *)
Lemma set_byte_head n b : 0 ≤ n → set_byte (make_bytes (1 + n)) 0 b = Ret ([b] ++ make_bytes n).
Proof. intros. rewrite make_bytes_split by lia. done. Qed.

(** The builders write the records they mean. *)
Lemma InsertLog_eq xid pgno pg offset raw :
  PxFSO pg = Ret offset → InsertLog xid pgno pg raw = Ret (wal_bytes (Inserted xid pgno offset raw)).
Proof.
  intros Hfso. pose proof (zlen_nonneg raw). unfold InsertLog. change LEN_XID with 8. unfold LEN_PGNO, LEN_OFFSET.
  replace (1 + 8 + 4 + 2 + zlen raw) with (1 + (8 + (4 + (2 + zlen raw)))) by lia. rewrite set_byte_head by lia.
  cbn [mbind outcome_bind]. rewrite Hfso. cbn [mbind outcome_bind]. unfold PutXID, PutUUID, PutUint64, PutPgno, PutUint32, PutOffset, PutUint16.
  rewrite put_fill by (done || lia). rewrite put_fill by (done || lia). rewrite put_fill by (done || lia).
  rewrite copy_at_fill by (done || lia).
  replace (8 + (4 + (2 + zlen raw)) - Z.of_nat 8 - Z.of_nat 4 - Z.of_nat 2 - zlen raw) with 0 by lia.
  rewrite app_nil_r, <- !app_assoc. done.
Qed.

Lemma UpdateLog_eq xid pgno offset oldraw raw :
  zlen oldraw = zlen raw →
  UpdateLog xid (Address2UUID pgno offset) oldraw raw = Ret (wal_bytes (Updated xid pgno offset oldraw raw)).
Proof.
  intros Hl. pose proof (zlen_nonneg raw). unfold UpdateLog. change LEN_XID with 8. change LEN_UUID with 8.
  replace (1 + 8 + 8 + zlen raw * 2) with (1 + (8 + (8 + (zlen raw + zlen raw)))) by lia. rewrite set_byte_head by lia.
  cbn [mbind outcome_bind]. unfold PutXID, PutUUID, PutUint64. rewrite put_fill by (done || lia). rewrite put_fill by (done || lia).
  rewrite copy_at_fill by (done || lia). set (pre := _ ++ oldraw). assert (Hpre : zlen pre = 1 + 8 + 8 + zlen oldraw).
  { unfold pre. rewrite !zlen_app, !zlen_be_bytes. change (zlen [_]) with 1. lia. }
  rewrite (slice_from_at _ pre (make_bytes (8 + (8 + (zlen raw + zlen raw)) - Z.of_nat 8 - Z.of_nat 8 - zlen oldraw))) by done.
  cbn [mbind outcome_bind]. rewrite copy_at_fill by (done || lia).
  replace (8 + (8 + (zlen raw + zlen raw)) - Z.of_nat 8 - Z.of_nat 8 - zlen oldraw - zlen raw) with 0 by lia.
  rewrite app_nil_r. unfold pre. rewrite <- !app_assoc. done.
Qed.

Lemma isInsertLog_bytes op : isInsertLog (wal_bytes op) = Ret (match op with Inserted _ _ _ _ => true | _ => false end).
Proof. by destruct op. Qed.

(** Reading the fields. *)
Lemma get_UUIDToRaw v rest : 0 ≤ v < 2 ^ 64 → get_be 8 (UUIDToRaw v ++ rest) = Ret v.
Proof. intros. by apply get_be_app. Qed.
Lemma get_XIDToRaw v rest : 0 ≤ v < 2 ^ 64 → get_be 8 (XIDToRaw v ++ rest) = Ret v.
Proof. intros. by apply get_be_app. Qed.
Lemma get_Uint32ToRaw v rest : 0 ≤ v < 2 ^ 32 → get_be 4 (Uint32ToRaw v ++ rest) = Ret v.
Proof. intros. by apply get_be_app. Qed.
Lemma get_OffsetToRaw v rest : 0 ≤ v < 2 ^ 16 → get_be 2 (OffsetToRaw v ++ rest) = Ret v.
Proof. intros. unfold OffsetToRaw, Uint16ToRaw. rewrite u16_id by done. by apply get_be_app. Qed.

Lemma parseInsertLog_bytes xid pgno offset raw :
  wal_ok (Inserted xid pgno offset raw) →
  parseInsertLog (wal_bytes (Inserted xid pgno offset raw)) = Ret (xid, pgno, offset, raw).
Proof.
  intros (Hx & (Hp & Ho) & _). cbn in Hx, Hp, Ho. unfold parseInsertLog. cbn [wal_bytes].
  change LEN_XID with 8. unfold LEN_PGNO, LEN_OFFSET, ParseXID, ParseUUID, ParseUint64, GetUint64, ParsePgno, ParseUint32, GetUint32, ParseOffset, ParseUint16, GetUint16.
  rewrite (slice_from_at _ [_LOG_TYPE_INSERT] (XIDToRaw xid ++ Uint32ToRaw pgno ++ OffsetToRaw offset ++ raw) 1) by done.
  cbn [mbind outcome_bind]. rewrite get_XIDToRaw by done. cbn [mbind outcome_bind].
  rewrite (slice_from_at _ (_LOG_TYPE_INSERT :: XIDToRaw xid) (Uint32ToRaw pgno ++ OffsetToRaw offset ++ raw) (1 + 8)) by done.
  cbn [mbind outcome_bind]. rewrite get_Uint32ToRaw by done. cbn [mbind outcome_bind].
  rewrite (slice_from_at _ (_LOG_TYPE_INSERT :: XIDToRaw xid ++ Uint32ToRaw pgno) (OffsetToRaw offset ++ raw) (1 + 8 + 4)) by done.
  cbn [mbind outcome_bind]. rewrite get_OffsetToRaw by done. cbn [mbind outcome_bind].
  rewrite (u16_id offset) by done.
  cbn [mbind outcome_bind].
  by rewrite (slice_from_at _ (_LOG_TYPE_INSERT :: XIDToRaw xid ++ Uint32ToRaw pgno ++ OffsetToRaw offset) raw (1 + 8 + 4 + 2)) by done.
Qed.

Lemma parseUpdateLog_bytes xid pgno offset oldraw newraw :
  wal_ok (Updated xid pgno offset oldraw newraw) →
  parseUpdateLog (wal_bytes (Updated xid pgno offset oldraw newraw)) = Ret (xid, pgno, offset, oldraw, newraw).
Proof.
  intros (Hx & Ha & Hl). cbn in Hx. unfold parseUpdateLog. cbn [wal_bytes wal_pgno wal_offset] in *.
  pose proof (Address2UUID_range _ Ha) as Hu. cbn [fst snd] in Hu. pose proof (zlen_nonneg newraw).
  change LEN_XID with 8. change LEN_UUID with 8. unfold ParseXID, ParseUUID, ParseUint64, GetUint64.
  set (uid := Address2UUID pgno offset) in *.
  rewrite (slice_from_at _ [_LOG_TYPE_UPDATE] (XIDToRaw xid ++ UUIDToRaw uid ++ oldraw ++ newraw) 1) by done.
  cbn [mbind outcome_bind]. rewrite get_XIDToRaw by done. cbn [mbind outcome_bind].
  rewrite (slice_from_at _ (_LOG_TYPE_UPDATE :: XIDToRaw xid) (UUIDToRaw uid ++ oldraw ++ newraw) (1 + 8)) by done.
  cbn [mbind outcome_bind]. rewrite get_UUIDToRaw by done. cbn [mbind outcome_bind].
  assert (Hua : UUID2Address uid = (pgno, offset)) by (by apply (UUID2Address_Address2UUID (pgno, offset))). rewrite Hua.
  set (pre := _LOG_TYPE_UPDATE :: XIDToRaw xid ++ UUIDToRaw uid).
  assert (Hpre : zlen pre = 17) by done.
  assert (Heq : _LOG_TYPE_UPDATE :: XIDToRaw xid ++ UUIDToRaw uid ++ oldraw ++ newraw = pre ++ oldraw ++ newraw)
    by (unfold pre; cbn [app]; by rewrite <- app_assoc).
  rewrite Heq. assert (Hlen : (zlen (pre ++ oldraw ++ newraw) - (1 + 8 + 8)) ÷ 2 = zlen newraw).
  { rewrite !zlen_app, Hpre, Hl. replace (17 + (zlen newraw + zlen newraw) - (1 + 8 + 8)) with (zlen newraw * 2) by lia. by apply Z.quot_mul. }
  rewrite Hlen. rewrite (slice_at _ pre oldraw newraw (1 + 8 + 8) (1 + 8 + 8 + zlen newraw)) by (done || lia). cbn [mbind outcome_bind].
  rewrite (slice_at _ (pre ++ oldraw) newraw [] (1 + 8 + 8 + zlen newraw) (1 + 8 + 8 + zlen newraw * 2)); [done|by rewrite app_nil_r, app_assoc|rewrite zlen_app; lia|lia].
Qed.
