(* ===== verification/Recovery.v ===== *)
(** Package [dm]: the recovery ([recovery.go]).

    [Recovery] reads the log three times: to find the pages it needs, to redo
    the records of the transactions that are not active, and to collect the
    records of the active ones, which it undoes in reverse order. *)
From S2P Require Import Prelude.
From S2P Require Import Codec.
From S2P Require Import GoFile.
From S2P Require Import Tm.
From S2P Require Import Logger.
From S2P Require Import Cacher.
From S2P Require Import Page.
From S2P Require Import Pcacher.
From S2P Require Import WalLog.
Local Open Scope Z_scope.

Inductive do_flag := _REDO | _UNDO.

#[export] Instance do_flag_eq_dec : EqDecision do_flag.
Proof. solve_decision. Defined.

(** [if err != nil { panic(err) }] *)
Definition or_panic {S A} (m : M S A) : M S A := catch m mret (λ _, crash).

(** A page function without a result. *)
Definition no_result (o : outcome (list byte)) : outcome (list byte * unit) := data ← o; Ret (data, tt).

Definition doUpdateLog (log : list byte) (flag : do_flag) : M pcacher unit :=
  '(_, pgno, offset, oldraw, newraw) ← lift (parseUpdateLog log);
  let raw := if decide (flag = _REDO) then newraw else oldraw in
  pg ← or_panic (GetPage pgno);
  _ ← write_page pg (λ data, no_result (PXRecoverUpdate data offset raw));
  release pg.

Definition doInsertLog (log : list byte) (flag : do_flag) : M pcacher unit :=
  '(_, pgno, offset, raw) ← lift (parseInsertLog log);
  pg ← or_panic (GetPage pgno);
  raw ← lift (if decide (flag = _UNDO) then InValidRawDataitem raw else Ret raw);
  _ ← write_page pg (λ data, no_result (PXRecoverInsert data offset raw));
  release pg.

Definition doLog (log : list byte) (flag : do_flag) : M pcacher unit :=
  ins ← lift (isInsertLog log);
  if (ins : bool) then doInsertLog log flag else doUpdateLog log flag.

Section Recovery.
Context {T : Type} `{!TransactionManager T} {L : Type} `{!LoggerI L}.

(** The three objects [Recovery] is given. *)
Record system := mkSys { sys_tm : T; sys_lg : L; sys_pc : pcacher }.

Definition on_tm {A} : M T A → M system A := zoom sys_tm (λ t s, mkSys t (sys_lg s) (sys_pc s)).
Definition on_lg {A} : M L A → M system A := zoom sys_lg (λ l s, mkSys (sys_tm s) l (sys_pc s)).
Definition on_pc {A} : M pcacher A → M system A := zoom sys_pc (λ p s, mkSys (sys_tm s) (sys_lg s) p).

(** The fields a record starts with, as its kind says. *)
Definition logPgno (log : list byte) : outcome Pgno :=
  ins ← isInsertLog log;
  if (ins : bool) then '(_, pgno, _, _) ← parseInsertLog log; Ret pgno
  else '(_, pgno, _, _, _) ← parseUpdateLog log; Ret pgno.

Definition logXID (log : list byte) : outcome XID :=
  ins ← isInsertLog log;
  if (ins : bool) then '(xid, _, _, _) ← parseInsertLog log; Ret xid
  else '(xid, _, _, _, _) ← parseUpdateLog log; Ret xid.

(** The loops run until [Next] says that there are no more records; [fuel]
    bounds the number of records. *)
Fixpoint maxPgnoLoop (fuel : nat) (maxPgno : Pgno) : M system Pgno :=
  match fuel with
  | O => lift OutOfFuel
  | S fuel =>
      log ← or_panic (on_lg lg_Next);
      match log with
      | None => mret maxPgno
      | Some log =>
          pgno ← lift (logPgno log);
          maxPgnoLoop fuel (if decide (maxPgno < pgno) then pgno else maxPgno)
      end
  end.

Fixpoint redoLoop (fuel : nat) : M system unit :=
  match fuel with
  | O => lift OutOfFuel
  | S fuel =>
      log ← or_panic (on_lg lg_Next);
      match log with
      | None => mret tt
      | Some log =>
          xid ← lift (logXID log);
          s ← get;
          _ ← (if tm_IsActive (sys_tm s) xid then mret tt else on_pc (doLog log _REDO));
          redoLoop fuel
      end
  end.

Definition redoTransactions (fuel : nat) : M system unit := _ ← on_lg lg_Rewind; redoLoop fuel.

Fixpoint collectLoop (fuel : nat) (logCache : gmap XID (list (list byte))) : M system (gmap XID (list (list byte))) :=
  match fuel with
  | O => lift OutOfFuel
  | S fuel =>
      log ← or_panic (on_lg lg_Next);
      match log with
      | None => mret logCache
      | Some log =>
          xid ← lift (logXID log);
          s ← get;
          collectLoop fuel
            (if tm_IsActive (sys_tm s) xid then <[xid := default [] (logCache !! xid) ++ [log]]> logCache else logCache)
      end
  end.

Fixpoint undoLogs (logs : list (list byte)) : M pcacher unit :=
  match logs with
  | [] => mret tt
  | log :: logs => _ ← doLog log _UNDO; undoLogs logs
  end.

(** [order]: the keys of [logCache] in the order the range statement visits
    them. *)
Fixpoint undoLoop (order : list XID) (logCache : gmap XID (list (list byte))) : M system unit :=
  match order with
  | [] => mret tt
  | xid :: order =>
      _ ← on_pc (undoLogs (reverse (default [] (logCache !! xid))));
      _ ← catch (on_tm (tm_Abort xid)) mret (λ _, mret tt);
      undoLoop order logCache
  end.

Definition undoTransactions (fuel : nat) (order : gmap XID (list (list byte)) → list XID) : M system unit :=
  _ ← on_lg lg_Rewind;
  logCache ← collectLoop fuel ∅;
  undoLoop (order logCache) logCache.

Definition Recovery (fuel : nat) (order : gmap XID (list (list byte)) → list XID) : M system unit :=
  _ ← on_lg lg_Rewind;
  maxPgno ← maxPgnoLoop fuel 0;
  let maxPgno := if decide (maxPgno = 0) then 1 else maxPgno in
  _ ← or_panic (on_pc (TruncateByPgno maxPgno));
  _ ← redoTransactions fuel;
  undoTransactions fuel order.
End Recovery.
Arguments system T L : clear implicits.
Arguments mkSys {T L}.

(** * Records as writes to pages *)

Definition invalid (raw : list byte) : list byte := match raw with [] => [] | _ :: rest => Byte.x01 :: rest end.

(** What redoing or undoing a record writes. *)
Definition w_raw (w : do_flag * wal_op) : list byte :=
  match w with
  | (_REDO, Inserted _ _ _ raw) => raw
  | (_UNDO, Inserted _ _ _ raw) => invalid raw
  | (_REDO, Updated _ _ _ _ newraw) => newraw
  | (_UNDO, Updated _ _ _ oldraw _) => oldraw
  end.

Definition w_page (w : do_flag * wal_op) (data : list byte) : outcome (list byte) :=
  match w.2 with
  | Inserted _ _ offset _ => PXRecoverInsert data offset (w_raw w)
  | Updated _ _ offset _ _ => PXRecoverUpdate data offset (w_raw w)
  end.

(** The index of the page of a record. *)
Definition wal_index (op : wal_op) : nat := Z.to_nat (wal_pgno op - 1).

Definition w_pages (w : do_flag * wal_op) (pages : list (list byte)) : outcome (list (list byte)) :=
  match pages !! wal_index w.2 with
  | Some data => data' ← w_page w data; Ret (<[wal_index w.2 := data']> pages)
  | None => Panic
  end.

Fixpoint ws_pages (ws : list (do_flag * wal_op)) (pages : list (list byte)) : outcome (list (list byte)) :=
  match ws with
  | [] => Ret pages
  | w :: ws => pages' ← w_pages w pages; ws_pages ws pages'
  end.

(** A record of an item on a data page: its place is inside the page. *)
Definition item_op (op : wal_op) : Prop :=
  wal_ok op ∧ 2 ≤ wal_pgno op ∧ _PX_OF_DATA ≤ wal_offset op ∧ 
  match op with
  | Inserted _ _ offset raw => 0 < zlen raw ∧ offset + zlen raw ≤ PAGE_SIZE
  | Updated _ _ offset oldraw newraw => 0 < zlen newraw ∧ offset + zlen newraw ≤ PAGE_SIZE
  end.

Lemma zlen_invalid raw : zlen (invalid raw) = zlen raw.
Proof. by destruct raw. Qed.

Lemma InValidRawDataitem_run raw : 0 < zlen raw → InValidRawDataitem raw = Ret (invalid raw).
Proof. by destruct raw. Qed.

(** The pages between the writes: of the right size. *)
Definition pages_wf (pages : list (list byte)) : Prop := Forall (λ d, zlen d = PAGE_SIZE) pages.

Lemma w_page_size w data data' : item_op w.2 → zlen data = PAGE_SIZE → w_page w data = Ret data' → zlen data' = PAGE_SIZE.
Proof.
  destruct w as [fl op]. intros (_ & _ & Ho & Hfit) Hl. unfold _PX_OF_DATA in Ho. cbn [snd] in *. unfold w_page. cbn [snd].
  destruct op as [xid pgno off raw|xid pgno off old new]; cbn [wal_offset] in *.
  - unfold PXRecoverInsert. rewrite slice_from_Ret by (pose proof (zlen_nonneg raw); lia). cbn [mbind outcome_bind].
    destruct (pxRawFSO _); try done. cbn [outcome_bind]. set (raw' := w_raw _). pose proof (zlen_nonneg raw).
    assert (Hc : zlen (copy_at data off raw') = PAGE_SIZE) by (rewrite zlen_copy_at; lia).
    intros [= <-]. destruct (decide _); [|done]. unfold pxRawUpdateFSO. rewrite zlen_on_tail; [done|unfold _PX_OF_FREE; lia|].
    intros. apply zlen_PutUint16.
  - pose proof (zlen_nonneg new). rewrite PXRecoverUpdate_run by lia. intros [= <-]. rewrite zlen_copy_at; lia.
Qed.

Lemma doLog_run pages pins p fl op pages' :
  pc_rep pages pins p → item_op op → pins !! wal_pgno op = None → has_room (pc_c p) → Z.of_nat (size pins) + 1 < 2 ^ 32 →
  w_pages (fl, op) pages = Ret pages' →
  ∃ p', doLog (wal_bytes op) fl p = (p', Ret tt) ∧ pc_rep pages' pins p' ∧ MaxHandles (pc_c p') = MaxHandles (pc_c p).
Proof.
  intros Hr Hop Hpin Hroom Hsz Hw. unfold w_pages in Hw. cbn [snd] in Hw. destruct (pages !! wal_index op) as [data|] eqn:Hi; [|done].
  apply outcome_bind_Ret in Hw as (data' & Hw & [= <-]). pose proof Hop as (Hok & Hpg & _ & Hfit).
  pose proof (proj1 (rep_pages _ _ _ (proj1 Hr) _ _ Hi)) as Hd. pose proof (w_page_size (fl, op) data data' Hop Hd Hw) as Hd'.
  assert (Hpgno : wal_pgno op = Z.of_nat (wal_index op) + 1) by (unfold wal_index; lia). rewrite Hpgno in Hpin.
  destruct (page_session_run pages pins p (wal_index op) data (λ data, no_result (w_page (fl, op) data)) data' tt)
    as (p1 & l & p2 & p3 & Hg & _ & Hwr & Hrel & Hr3 & Hm3); [done..|unfold no_result; by rewrite Hw|done|].
  rewrite <- Hpgno in Hg. exists p3. split; [|done]. unfold doLog. rewrite isInsertLog_bytes, M_lift_bind.
  assert (Hpg1 : or_panic (GetPage (wal_pgno op)) p = (p1, Ret l)) by (unfold or_panic, catch; by rewrite Hg).
  destruct op as [xid pgno off raw|xid pgno off old new]; cbn [wal_pgno] in *.
  - unfold doInsertLog. rewrite parseInsertLog_bytes by done. rewrite M_lift_bind. rewrite (M_bind_run _ _ _ _ _ Hpg1).
    assert (Hraw : (if decide (fl = _UNDO) then InValidRawDataitem raw else Ret raw) = Ret (w_raw (fl, Inserted xid pgno off raw)))
      by (destruct fl; cbn; [done|by apply InValidRawDataitem_run, Hfit]).
    rewrite Hraw, M_lift_bind. unfold w_page in Hwr. cbn [snd] in Hwr. by rewrite (M_bind_run _ _ _ _ _ Hwr).
  - unfold doUpdateLog. rewrite parseUpdateLog_bytes by done. rewrite M_lift_bind. rewrite (M_bind_run _ _ _ _ _ Hpg1).
    assert (Hraw : (if decide (fl = _REDO) then new else old) = w_raw (fl, Updated xid pgno off old new)) by (by destruct fl).
    rewrite Hraw. unfold w_page in Hwr. cbn [snd] in Hwr. by rewrite (M_bind_run _ _ _ _ _ Hwr).
Qed.

(** A page cache with room for one more page, nobody holding a data page. *)
Definition ready (pages : list (list byte)) (pins : gmap UUID (page_ptr * Z)) (p : pcacher) : Prop :=
  pc_rep pages pins p ∧ has_room (pc_c p) ∧ Z.of_nat (size pins) + 1 < 2 ^ 32 ∧ ∀ k, 2 ≤ k → pins !! k = None.

Lemma ready_keeps pages pages' pins p p' :
  ready pages pins p → pc_rep pages' pins p' → MaxHandles (pc_c p') = MaxHandles (pc_c p) → ready pages' pins p'.
Proof.
  intros ([_ Hc] & Hroom & Hsz & Hk) [Hr' Hc'] Hm. split; [done|]. split; [|done].
  unfold has_room in *. by rewrite Hm, (rep_count _ _ Hc'), <- (rep_count _ _ Hc).
Qed.

Lemma doLog_ready pages pins p fl op pages' :
  ready pages pins p → item_op op → w_pages (fl, op) pages = Ret pages' →
  ∃ p', doLog (wal_bytes op) fl p = (p', Ret tt) ∧ ready pages' pins p'.
Proof.
  intros Hr Hop Hw. pose proof Hr as (Hrep & Hroom & Hsz & Hk).
  destruct (doLog_run pages pins p fl op pages') as (p' & Hrun & Hr' & Hm); [done..|apply Hk, Hop|done|done|done|].
  exists p'. split; [done|by eapply ready_keeps].
Qed.

Section RecoveryRuns.
Context {T : Type} `{!TransactionManager T} `{!TransactionManagerOk T} {L : Type} `{!LoggerI L} `{!LoggerOk L}.
Implicit Types (t : T) (l : L) (p : pcacher) (ops : list wal_op).

Lemma logPgno_bytes op : wal_ok op → logPgno (wal_bytes op) = Ret (wal_pgno op).
Proof.
  intros Hok. unfold logPgno. rewrite isInsertLog_bytes. cbn [mbind outcome_bind].
  destruct op; [by rewrite parseInsertLog_bytes|by rewrite parseUpdateLog_bytes].
Qed.

Lemma logXID_bytes op : wal_ok op → logXID (wal_bytes op) = Ret (wal_xid op).
Proof.
  intros Hok. unfold logXID. rewrite isInsertLog_bytes. cbn [mbind outcome_bind].
  destruct op; [by rewrite parseInsertLog_bytes|by rewrite parseUpdateLog_bytes].
Qed.

Lemma Rewind_sys t l p ds rest : lg_at l ds rest → ∃ l', on_lg lg_Rewind (mkSys t l p) = (mkSys t l' p, Ret tt) ∧ lg_at l' ds ds.
Proof. intros (l' & Hrun & Hat)%lg_Rewind_ok. exists l'. split; [|done]. unfold on_lg, zoom. cbn. by rewrite Hrun. Qed.

Lemma Next_sys t l p ds rest :
  lg_at l ds rest → ∃ l', or_panic (on_lg lg_Next) (mkSys t l p) = (mkSys t l' p, Ret (head rest)) ∧ lg_at l' ds (tail rest).
Proof.
  intros Hat. unfold or_panic, catch, on_lg, zoom. cbn [sys_lg sys_tm sys_pc].
  destruct rest as [|d rest]; [apply lg_Next_end in Hat as (l' & Hrun & Hat)|apply lg_Next_ok in Hat as (l' & Hrun & Hat)];
    exists l'; by rewrite Hrun.
Qed.

(** The largest page number of the records. *)
Definition max_pgno (m : Pgno) ops : Pgno := foldl (λ m op, if decide (m < wal_pgno op) then wal_pgno op else m) m ops.

Lemma maxPgnoLoop_run ops : ∀ fuel m t l p ds,
  lg_at l ds (wal_bytes <$> ops) → Forall wal_ok ops → (length ops < fuel)%nat →
  ∃ l', maxPgnoLoop fuel m (mkSys t l p) = (mkSys t l' p, Ret (max_pgno m ops)) ∧ lg_at l' ds [].
Proof.
  induction ops as [|op ops IH]; intros [|fuel] m t l p ds Hat Hok Hfuel; try (cbn in Hfuel; lia);
    cbn [maxPgnoLoop]; destruct (Next_sys t l p ds _ Hat) as (l1 & Hrun & Hat1); rewrite (M_bind_run _ _ _ _ _ Hrun); cbn [fmap list_fmap head tail] in *.
  - by exists l1.
  - apply Forall_cons in Hok as [Hop Hok]. rewrite logPgno_bytes, M_lift_bind by done.
    destruct (IH fuel (if decide (m < wal_pgno op) then wal_pgno op else m) t l1 p ds Hat1 Hok) as (l' & Hrun' & Hat'); [cbn in Hfuel; lia|].
    exists l'. by rewrite Hrun'.
Qed.

Definition redo_writes (active : XID → bool) ops : list (do_flag * wal_op) :=
  pair _REDO <$> filter (λ op, active (wal_xid op) = false) ops.

Lemma redoLoop_run ops : ∀ fuel t l p ds pages pins pages',
  lg_at l ds (wal_bytes <$> ops) → Forall item_op ops → (length ops < fuel)%nat → ready pages pins p →
  ws_pages (redo_writes (tm_IsActive t) ops) pages = Ret pages' →
  ∃ l' p', redoLoop fuel (mkSys t l p) = (mkSys t l' p', Ret tt) ∧ lg_at l' ds [] ∧ ready pages' pins p'.
Proof.
  induction ops as [|op ops IH]; intros [|fuel] t l p ds pages pins pages' Hat Hok Hfuel Hr Hw; try (cbn in Hfuel; lia);
    cbn [redoLoop]; destruct (Next_sys t l p ds _ Hat) as (l1 & Hrun & Hat1); rewrite (M_bind_run _ _ _ _ _ Hrun); cbn [fmap list_fmap head tail] in *.
  - injection Hw as <-. by exists l1, p.
  - apply Forall_cons in Hok as [Hop Hok]. rewrite logXID_bytes, M_lift_bind, M_get_bind by apply Hop. cbn [sys_tm].
    unfold redo_writes in Hw. rewrite filter_cons in Hw. destruct (tm_IsActive t (wal_xid op)) eqn:Ea.
    + rewrite decide_False in Hw by done. rewrite M_ret_bind. apply (IH fuel t l1 p ds pages pins pages' Hat1 Hok); [cbn in Hfuel; lia|done|done].
    + rewrite decide_True in Hw by done. cbn [fmap list_fmap ws_pages] in Hw. apply outcome_bind_Ret in Hw as (pages1 & Hw1 & Hw).
      destruct (doLog_ready pages pins p _REDO op pages1 Hr Hop Hw1) as (p1 & Hdo & Hr1).
      erewrite M_bind_run; [|unfold on_pc, zoom; cbn [sys_pc]; by rewrite Hdo]. cbn [sys_tm sys_lg].
      apply (IH fuel t l1 p1 ds pages1 pins pages' Hat1 Hok); [cbn in Hfuel; lia|done|done].
Qed.

(** The records of the active transactions, by transaction. *)
Definition collect (active : XID → bool) (m : gmap XID (list (list byte))) ops : gmap XID (list (list byte)) :=
  foldl (λ m op, if active (wal_xid op) then <[wal_xid op := default [] (m !! wal_xid op) ++ [wal_bytes op]]> m else m) m ops.

Lemma collect_cons active m op ops :
  collect active m (op :: ops) =
    collect active (if active (wal_xid op) then <[wal_xid op := default [] (m !! wal_xid op) ++ [wal_bytes op]]> m else m) ops.
Proof. done. Qed.

Lemma collectLoop_run ops : ∀ fuel m t l p ds,
  lg_at l ds (wal_bytes <$> ops) → Forall wal_ok ops → (length ops < fuel)%nat →
  ∃ l', collectLoop fuel m (mkSys t l p) = (mkSys t l' p, Ret (collect (tm_IsActive t) m ops)) ∧ lg_at l' ds [].
Proof.
  induction ops as [|op ops IH]; intros [|fuel] m t l p ds Hat Hok Hfuel; try (cbn in Hfuel; lia);
    cbn [collectLoop]; destruct (Next_sys t l p ds _ Hat) as (l1 & Hrun & Hat1); rewrite (M_bind_run _ _ _ _ _ Hrun); cbn [fmap list_fmap head tail] in *.
  - by exists l1.
  - apply Forall_cons in Hok as [Hop Hok]. rewrite logXID_bytes, M_lift_bind, M_get_bind by done. cbn [sys_tm].
    edestruct (λ m, IH fuel m t l1 p ds Hat1 Hok) as (l' & Hrun' & Hat'); [cbn in Hfuel; lia|]. exists l'. by rewrite Hrun'.
Qed.

Lemma collect_lookup active ops : ∀ m xid,
  default [] (collect active m ops !! xid) =
    default [] (m !! xid) ++ (wal_bytes <$> filter (λ op, wal_xid op = xid ∧ active xid = true) ops).
Proof.
  induction ops as [|op ops IH]; intros m xid; [cbn; by rewrite app_nil_r|].
  rewrite collect_cons, IH, filter_cons. destruct (active (wal_xid op)) eqn:Ea.
  - destruct (decide (wal_xid op = xid)) as [<-|Hne].
    + rewrite lookup_insert_eq, decide_True by done. cbn. by rewrite <- app_assoc.
    + rewrite lookup_insert_ne by done. by rewrite decide_False by tauto.
  - rewrite decide_False; [done|]. intros [<- ?]. congruence.
Qed.

Lemma collect_dom active ops : ∀ m xid,
  is_Some (collect active m ops !! xid) ↔ is_Some (m !! xid) ∨ ∃ op, op ∈ ops ∧ wal_xid op = xid ∧ active xid = true.
Proof.
  induction ops as [|op ops IH]; intros m xid.
  - cbn. split; [by left|]. intros [?|(? & Hin & _)]; [done|]. by apply elem_of_nil in Hin.
  - rewrite collect_cons, IH. destruct (active (wal_xid op)) eqn:Ea.
    + rewrite lookup_insert_is_Some'. setoid_rewrite elem_of_cons. naive_solver.
    + setoid_rewrite elem_of_cons. naive_solver congruence.
Qed.

Lemma undoLogs_run ops : ∀ p pages pins pages',
  Forall item_op ops → ready pages pins p → ws_pages (pair _UNDO <$> ops) pages = Ret pages' →
  ∃ p', undoLogs (wal_bytes <$> ops) p = (p', Ret tt) ∧ ready pages' pins p'.
Proof.
  induction ops as [|op ops IH]; intros p pages pins pages' Hok Hr Hw; cbn [fmap list_fmap undoLogs ws_pages] in *.
  - injection Hw as <-. by exists p.
  - apply Forall_cons in Hok as [Hop Hok]. apply outcome_bind_Ret in Hw as (pages1 & Hw1 & Hw).
    destruct (doLog_ready pages pins p _UNDO op pages1 Hr Hop Hw1) as (p1 & Hdo & Hr1).
    rewrite (M_bind_run _ _ _ _ _ Hdo). by eapply IH.
Qed.

Definition undo_writes (active : XID → bool) (order : list XID) ops : list (do_flag * wal_op) :=
  order ≫= λ xid, pair _UNDO <$> reverse (filter (λ op, wal_xid op = xid ∧ active xid = true) ops).

Lemma ws_pages_app ws1 ws2 pages : ws_pages (ws1 ++ ws2) pages = (pages' ← ws_pages ws1 pages; ws_pages ws2 pages').
Proof. revert pages. induction ws1 as [|w ws1 IH]; intros pages; [done|]. cbn. destruct (w_pages w pages); cbn; [apply IH|done..]. Qed.

(** The states of the transactions after the recovery has aborted some. *)
Definition abort_all (order : list XID) (sts : list status) : list status :=
  foldl (λ sts xid, <[Z.to_nat (xid - 1) := Aborted]> sts) sts order.

Lemma undoLoop_run ops order : ∀ t sts l p pages pins pages' active,
  tm_rep t sts → Forall (λ xid, 1 ≤ xid ≤ zlen sts) order → Forall item_op ops → ready pages pins p →
  ws_pages (undo_writes active order ops) pages = Ret pages' →
  ∃ t' p', undoLoop order (collect active ∅ ops) (mkSys t l p) = (mkSys t' l p', Ret tt) ∧ ready pages' pins p' ∧ tm_rep t' (abort_all order sts).
Proof.
  induction order as [|xid order IH]; intros t sts l p pages pins pages' active Ht Hord Hok Hr Hw; cbn [undoLoop].
  - injection Hw as <-. by exists t, p.
  - apply Forall_cons in Hord as [Hxid Hord]. unfold undo_writes in Hw. cbn [mbind list_bind] in Hw.
    rewrite ws_pages_app in Hw. apply outcome_bind_Ret in Hw as (pages1 & Hw1 & Hw).
    rewrite collect_lookup, lookup_empty. cbn [default from_option app]. rewrite <- fmap_reverse.
    destruct (undoLogs_run (reverse (filter (λ op, wal_xid op = xid ∧ active xid = true) ops)) p pages pins pages1) as (p1 & Hrun & Hr1); [|done|done|].
    { apply Forall_reverse, Forall_forall. intros op [_ Hin]%list_elem_of_filter. by eapply Forall_forall. }
    erewrite M_bind_run; [|unfold on_pc, zoom; cbn [sys_pc]; by rewrite Hrun]. cbn [sys_tm sys_lg].
    destruct (tm_Abort_ok t sts xid Ht Hxid) as (t1 & Hab & Ht1).
    erewrite M_bind_run; [|unfold catch, on_tm, zoom; cbn [sys_tm]; by rewrite Hab]. cbn [sys_lg sys_pc].
    eapply IH; [done| |done|done|done]. unfold zlen in *. by rewrite length_insert.
Qed.
End RecoveryRuns.
