(* ===== verification/Restore.v ===== *)
(** What the recovery achieves: the log determines the data items.

    [history ops st] says that the records [ops] were written, one after the
    other, by a data manager whose pages ended up holding the items [st].
    [recovered_value] is what an item should be after a crash: the value of the
    last finished transaction, or marked invalid when its insertion did not
    finish.  The theorem [Recovery_run] says that the recovery produces exactly
    these items whatever state the pages on the disk were in. *)
From S2P Require Import Prelude.
From S2P Require Import Codec.
From S2P Require Import GoFile.
From S2P Require Import Tm.
From S2P Require Import Logger.
From S2P Require Import Cacher.
From S2P Require Import Page.
From S2P Require Import Pcacher.
From S2P Require Import WalLog.
From S2P Require Import Recovery.
Local Open Scope Z_scope.

(** * Lists *)

Section Filters.
Context {A : Type} (P : A → Prop) `{!∀ x, Decision (P x)}.
Implicit Types (l : list A).

Lemma filter_none l : (∀ x, x ∈ l → ¬ P x) → filter P l = [].
Proof.
  induction l as [|x l IH]; intros Hn; [done|]. rewrite filter_cons, decide_False by (apply Hn; by left).
  apply IH. intros y Hy. apply Hn. by right.
Qed.

Lemma filter_all l : (∀ x, x ∈ l → P x) → filter P l = l.
Proof.
  induction l as [|x l IH]; intros Hn; [done|]. rewrite filter_cons, decide_True by (apply Hn; by left).
  f_equal. apply IH. intros y Hy. apply Hn. by right.
Qed.

Lemma filter_fmap {B} (f : B → A) (l : list B) : filter P (f <$> l) = f <$> filter (λ x, P (f x)) l.
Proof. induction l as [|x l IH]; [done|]. cbn [fmap list_fmap]. rewrite !filter_cons, IH. by case_decide. Qed.

Lemma filter_bind {B} (f : B → list A) (l : list B) : filter P (l ≫= f) = l ≫= λ x, filter P (f x).
Proof. induction l as [|x l IH]; [done|]. cbn [mbind list_bind]. by rewrite filter_app, <- IH. Qed.

Lemma filter_comm (Q : A → Prop) `{!∀ x, Decision (Q x)} l : filter P (filter Q l) = filter Q (filter P l).
Proof.
  induction l as [|x l IH]; [done|]. rewrite !filter_cons.
  destruct (decide (P x)) as [HP|HP], (decide (Q x)) as [HQ|HQ]; rewrite ?filter_cons, IH;
    rewrite ?(decide_True _ _ HP), ?(decide_True _ _ HQ), ?(decide_False _ _ HP), ?(decide_False _ _ HQ); done.
Qed.

(** The first element with the property. *)
Lemma first_split l : (∀ x, x ∈ l → ¬ P x) ∨ ∃ l1 x l2, l = l1 ++ x :: l2 ∧ P x ∧ ∀ y, y ∈ l1 → ¬ P y.
Proof.
  induction l as [|x l IH]; [left; by intros ? ?%elem_of_nil|]. destruct (decide (P x)) as [HP|HP].
  - right. exists [], x, l. split_and!; [done|done|]. by intros ? ?%elem_of_nil.
  - destruct IH as [IH|(l1 & y & l2 & -> & Hy & Hl1)].
    + left. intros y [->|Hy]%elem_of_cons; [done|by apply IH].
    + right. exists (x :: l1), y, l2. split_and!; [done|done|]. intros z [->|Hz]%elem_of_cons; [done|by apply Hl1].
Qed.
End Filters.

(** * Items of a page *)

(** The items of the pages 1, 2, ... *)
Notation store := (list (list (list byte))).

Lemma item_offset_app items more j : (j ≤ length items)%nat → item_offset (items ++ more) j = item_offset items j.
Proof. intros Hj. unfold item_offset. by rewrite take_app_le by done. Qed.

Lemma item_offset_insert items k (old new : list byte) j :
  items !! k = Some old → zlen new = zlen old → item_offset (<[k := new]> items) j = item_offset items j.
Proof.
  intros Hk Hl. unfold item_offset. f_equal. destruct (decide (j ≤ k)%nat).
  - by rewrite take_insert_ge by lia.
  - rewrite take_insert_lt by lia. apply (zlen_join_insert _ _ old); [|done]. by rewrite lookup_take_lt by lia.
Qed.

Lemma item_offset_S items j (raw : list byte) : items !! j = Some raw → item_offset items (S j) = item_offset items j + zlen raw.
Proof.
  intros Hj. unfold item_offset. rewrite (take_S_r _ _ _ Hj), mjoin_snoc, zlen_app. lia.
Qed.

Lemma item_offset_mono items j k : (j ≤ k)%nat → item_offset items j ≤ item_offset items k.
Proof.
  intros Hjk. unfold item_offset. rewrite <- (take_drop j (take k items)), take_take, Nat.min_l by lia.
  rewrite mjoin_app, zlen_app. pose proof (zlen_nonneg (mjoin (drop j (take k items)))). lia.
Qed.

(** The items do not overlap and lie inside the page. *)
Lemma item_end items j (raw : list byte) : items !! j = Some raw → item_offset items j + zlen raw ≤ 2 + zlen (mjoin items).
Proof.
  intros Hj. rewrite <- (item_offset_S _ _ _ Hj). pose proof (lookup_lt_Some _ _ _ Hj).
  etransitivity; [apply (item_offset_mono items (S j) (length items)); lia|]. unfold item_offset. by rewrite take_ge by lia.
Qed.

Lemma item_offset_ge items j : 2 ≤ item_offset items j.
Proof. unfold item_offset. pose proof (zlen_nonneg (mjoin (take j items))). lia. Qed.

Lemma item_apart items j k (rj rk : list byte) :
  items !! j = Some rj → items !! k = Some rk → j ≠ k →
  item_offset items j + zlen rj ≤ item_offset items k ∨ item_offset items k + zlen rk ≤ item_offset items j.
Proof.
  intros Hj Hk Hne. rewrite <- (item_offset_S _ _ _ Hj), <- (item_offset_S _ _ _ Hk).
  destruct (decide (j < k)%nat); [left|right]; apply item_offset_mono; lia.
Qed.

Definition nonempty_items (items : list (list byte)) : Prop := Forall (λ raw, 0 < zlen raw) items.

Lemma item_offset_inj items j k rj rk :
  nonempty_items items → items !! j = Some rj → items !! k = Some rk → item_offset items j = item_offset items k → j = k.
Proof.
  intros Hne Hj Hk He. destruct (decide (j = k)) as [|Hjk]; [done|]. unfold nonempty_items in Hne. rewrite Forall_lookup in Hne.
  pose proof (Hne _ _ Hj). pose proof (Hne _ _ Hk). destruct (item_apart _ _ _ _ _ Hj Hk Hjk); lia.
Qed.

(** A page is what its FSO and its items say. *)
Lemma page_rep_intro items pg :
  zlen pg = PAGE_SIZE → pxRawFSO pg = Ret (2 + zlen (mjoin items)) → 2 + zlen (mjoin items) ≤ PAGE_SIZE →
  (∀ j raw, items !! j = Some raw → sub pg (item_offset items j) (zlen raw) = raw) → page_rep items pg.
Proof.
  intros Hl Hf Hb Hit. split; [done|]. exists (drop (Z.to_nat (2 + zlen (mjoin items))) pg).
  pose proof (zlen_nonneg (mjoin items)). rewrite PAGE_SIZE_value in *.
  assert (Hhead : take 2 pg = OffsetToRaw (2 + zlen (mjoin items))).
  { rewrite pxRawFSO_bytes in Hf by lia. injection Hf as Hf.
    assert (Ht : length (take 2 pg) = 2%nat) by (unfold zlen in *; rewrite length_take; lia).
    unfold OffsetToRaw, Uint16ToRaw. rewrite <- Hf. pose proof (be_value_range (take 2 pg)) as Hr.
    unfold zlen in Hr. rewrite Ht in Hr. change (2 ^ (8 * Z.of_nat 2)) with (2 ^ 16) in Hr.
    rewrite (u16_id (be_value (take 2 pg))), u16_id by done.
    rewrite <- (be_bytes_be_value (take 2 pg)) at 1. by rewrite Ht. }
  assert (Hbody : ∀ k, (k ≤ length items)%nat → sub pg 2 (zlen (mjoin (take k items))) = mjoin (take k items)).
  { induction k as [|k IH]; intros Hk; [done|].
    destruct (lookup_lt_is_Some_2 items k) as [raw Hraw]; [lia|].
    specialize (IH ltac:(lia)). pose proof (Hit _ _ Hraw) as Hs. unfold item_offset in Hs.
    rewrite (take_S_r _ _ _ Hraw), mjoin_snoc, zlen_app.
    set (a := mjoin (take k items)) in *. pose proof (zlen_nonneg a). pose proof (zlen_nonneg raw).
    rewrite <- IH at 2. rewrite <- Hs at 2. unfold sub. rewrite Z2Nat.inj_add by lia. rewrite <- take_take_drop.
    f_equal. f_equal. rewrite !drop_drop. f_equal. lia. }
  specialize (Hbody (length items) ltac:(lia)). rewrite take_ge in Hbody by lia.
  rewrite <- Hhead. rewrite <- Hbody at 1. unfold sub. rewrite <- (take_drop 2 pg) at 1. f_equal.
  rewrite <- (take_drop (Z.to_nat (zlen (mjoin items))) (drop 2 pg)) at 1. f_equal. rewrite drop_drop. f_equal. lia.
Qed.

(** * Histories *)

Inductive history (n : nat) : list wal_op → store → Prop :=
| history_new : history n [] (replicate n [])
| history_insert ops st xid i items raw :
    history n ops st → (1 ≤ i)%nat → st !! i = Some items → 0 < zlen raw → 2 + zlen (mjoin items) + zlen raw ≤ PAGE_SIZE →
    history n (ops ++ [Inserted xid (Z.of_nat i + 1) (item_offset items (length items)) raw]) (<[i := items ++ [raw]]> st)
| history_update ops st xid i items j old new :
    history n ops st → st !! i = Some items → items !! j = Some old → zlen new = zlen old →
    history n (ops ++ [Updated xid (Z.of_nat i + 1) (item_offset items j) old new]) (<[i := <[j := new]> items]> st).

(** The record is about the item at this place. *)
Definition at_place (i : nat) (o : Z) (op : wal_op) : Prop := wal_pgno op = Z.of_nat i + 1 ∧ wal_offset op = o.

#[export] Instance at_place_dec i o op : Decision (at_place i o op).
Proof. unfold at_place. apply _. Defined.

Definition new_raw (op : wal_op) : list byte := match op with Inserted _ _ _ raw => raw | Updated _ _ _ _ new => new end.

(** Each update starts from the value the record before it left. *)
Fixpoint chain (v : list byte) (ups : list wal_op) (w : list byte) : Prop :=
  match ups with
  | [] => v = w
  | Updated _ _ _ old new :: ups => old = v ∧ chain new ups w
  | _ => False
  end.

Lemma chain_snoc v ups w xid p o new : chain v ups w → chain v (ups ++ [Updated xid p o w new]) new.
Proof. revert v. induction ups as [|[] ups IH]; intros v; cbn; [by intros ->|done|]. intros [-> Hc]. split; [done|by apply IH]. Qed.

Lemma history_length n ops st : history n ops st → length st = n.
Proof. induction 1; [by rewrite length_replicate|by rewrite length_insert..]. Qed.

(** Every page's items are not empty and fit; the first page has none. *)
Lemma history_pages n ops st :
  history n ops st → ∀ i items, st !! i = Some items →
  nonempty_items items ∧ 2 + zlen (mjoin items) ≤ PAGE_SIZE ∧ (i = 0%nat → items = []).
Proof.
  induction 1 as [|ops st xid i items raw Hh IH Hi Hit Hr Hfit|ops st xid i items j old new Hh IH Hit Hj Hl]; intros k items' Hk.
  - apply lookup_replicate in Hk as [-> _]. split; [constructor|]. split; [|done].
    change (2 + zlen (mjoin [])) with 2. rewrite PAGE_SIZE_eq. lia.
  - apply list_lookup_insert_Some in Hk as [(<- & <- & _)|[_ Hk]]; [|by eapply IH].
    destruct (IH _ _ Hit) as (Hne & Hb & _). split; [apply Forall_app; split; [done|by constructor]|]. split; [|lia].
    rewrite mjoin_snoc, zlen_app. lia.
  - apply list_lookup_insert_Some in Hk as [(<- & <- & _)|[_ Hk]]; [|by eapply IH].
    destruct (IH _ _ Hit) as (Hne & Hb & H0). split; [|split].
    + apply Forall_insert; [done|]. rewrite Hl. unfold nonempty_items in Hne. rewrite Forall_lookup in Hne. by eapply Hne.
    + by rewrite (zlen_join_insert _ _ old).
    + intros ->. rewrite (H0 eq_refl) in Hj. done.
Qed.

(** Every record is about an item of the final store. *)
Definition op_item (st : store) (op : wal_op) : Prop :=
  ∃ i items j raw, wal_pgno op = Z.of_nat i + 1 ∧ (1 ≤ i)%nat ∧ st !! i = Some items ∧ items !! j = Some raw ∧
    wal_offset op = item_offset items j ∧ zlen (new_raw op) = zlen raw ∧
    match op with Updated _ _ _ old new => zlen old = zlen new | _ => True end.

Lemma history_ops n ops st : history n ops st → ∀ op, op ∈ ops → op_item st op.
Proof.
  induction 1 as [|ops st xid i items raw Hh IH Hi Hit Hr Hfit|ops st xid i items j old new Hh IH Hit Hj Hl]; intros op Hop.
  - by apply elem_of_nil in Hop.
  - pose proof (lookup_lt_Some _ _ _ Hit) as Hlt. apply elem_of_app in Hop as [Hop|Hop%list_elem_of_singleton].
    + destruct (IH _ Hop) as (i' & items' & j' & raw' & Hp & Hi' & Hit' & Hj' & Ho & Hrest).
      destruct (decide (i = i')) as [<-|Hne].
      * assert (items' = items) as -> by congruence. exists i, (items ++ [raw]), j', raw'.
        rewrite list_lookup_insert_eq by done. rewrite item_offset_app by (apply lookup_lt_Some in Hj'; lia).
        split_and!; try done; [by apply lookup_app_l_Some|apply Hrest..].
      * exists i', items', j', raw'. by rewrite list_lookup_insert_ne.
    + subst op. exists i, (items ++ [raw]), (length items), raw. rewrite list_lookup_insert_eq by done.
      split_and!; try done; [|by rewrite item_offset_app]. rewrite lookup_app_r, Nat.sub_diag; done.
  - pose proof (lookup_lt_Some _ _ _ Hit) as Hlt. apply elem_of_app in Hop as [Hop|Hop%list_elem_of_singleton].
    + destruct (IH _ Hop) as (i' & items' & j' & raw' & Hp & Hi' & Hit' & Hj' & Ho & Hz & Hrest).
      destruct (decide (i = i')) as [<-|Hne].
      * assert (items' = items) as -> by congruence. exists i, (<[j := new]> items), j', (if decide (j = j') then new else raw').
        rewrite list_lookup_insert_eq by done. pose proof (lookup_lt_Some _ _ _ Hj). split_and!; try done.
        -- case_decide; [subst; by apply list_lookup_insert_eq|by rewrite list_lookup_insert_ne].
        -- by rewrite (item_offset_insert _ _ old).
        -- case_decide; [|done]. subst. assert (raw' = old) as -> by congruence. congruence.
      * exists i', items', j', raw'. rewrite list_lookup_insert_ne by done. by split_and!.
    + subst op. exists i, (<[j := new]> items), j, new. rewrite list_lookup_insert_eq by done.
      split_and!; try done; [|by apply list_lookup_insert_eq; eapply lookup_lt_Some|by rewrite (item_offset_insert _ _ old)].
      destruct (history_pages _ _ _ Hh _ _ Hit) as (_ & _ & H0). destruct i; [|lia]. rewrite (H0 eq_refl) in Hj. done.
Qed.

(** The records of an item: its insertion, then its updates. *)
Lemma history_chain n ops st :
  history n ops st → ∀ i items j raw, st !! i = Some items → items !! j = Some raw →
  ∃ xid raw0 ups, filter (at_place i (item_offset items j)) ops =
    Inserted xid (Z.of_nat i + 1) (item_offset items j) raw0 :: ups ∧ chain raw0 ups raw.
Proof.
  induction 1 as [|ops st xid i items raw Hh IH Hi Hit Hr Hfit|ops st xid i items j old new Hh IH Hit Hj Hl]; intros i' items' j' raw' Hi' Hj'.
  - apply lookup_replicate in Hi' as [-> _]. done.
  - pose proof (lookup_lt_Some _ _ _ Hit) as Hlt. destruct (history_pages _ _ _ Hh _ _ Hit) as (Hne & Hb & _).
    rewrite filter_app, filter_cons, filter_nil.
    apply list_lookup_insert_Some in Hi' as [(<- & <- & _)|[Hne' Hi']].
    + apply lookup_app_Some in Hj' as [Hj'|[Hge Hj']].
      * pose proof (lookup_lt_Some _ _ _ Hj'). rewrite item_offset_app by lia.
        destruct (IH _ _ _ _ Hit Hj') as (x & raw0 & ups & Hf & Hc). exists x, raw0, ups. split; [|done].
        rewrite Hf, decide_False, app_nil_r; [done|]. intros [_ He]. cbn in He.
        pose proof (item_offset_S _ _ _ Hj') as HS. pose proof (item_offset_mono items (S j') (length items) ltac:(lia)).
        unfold nonempty_items in Hne. rewrite Forall_lookup in Hne. specialize (Hne _ _ Hj'). cbn in Hne. lia.
      * apply list_lookup_singleton_Some in Hj' as [Hj' <-]. assert (j' = length items) as -> by lia.
        rewrite item_offset_app by lia. exists xid, raw, []. split; [|done]. rewrite decide_True by done.
        rewrite filter_none; [done|]. intros op Hop [Hp Ho].
        destruct (history_ops _ _ _ Hh _ Hop) as (i' & items' & j' & raw' & Hp' & Hi' & Hit' & Hj'' & Ho' & _).
        assert (i' = i) as -> by lia. assert (items' = items) as -> by congruence.
        pose proof (lookup_lt_Some _ _ _ Hj''). pose proof (item_offset_S _ _ _ Hj'') as HS.
        pose proof (item_offset_mono items (S j') (length items) ltac:(lia)).
        unfold nonempty_items in Hne. rewrite Forall_lookup in Hne. specialize (Hne _ _ Hj''). cbn in Hne. lia.
    + destruct (IH _ _ _ _ Hi' Hj') as (x & raw0 & ups & Hf & Hc). exists x, raw0, ups. split; [|done].
      rewrite Hf, decide_False, app_nil_r; [done|]. intros [He _]. cbn in He. lia.
  - pose proof (lookup_lt_Some _ _ _ Hit) as Hlt. destruct (history_pages _ _ _ Hh _ _ Hit) as (Hne & Hb & _).
    rewrite filter_app, filter_cons, filter_nil.
    apply list_lookup_insert_Some in Hi' as [(<- & <- & _)|[Hne' Hi']].
    + rewrite (item_offset_insert _ _ old) by done. apply list_lookup_insert_Some in Hj' as [(<- & <- & _)|[Hne' Hj']].
      * destruct (IH _ _ _ _ Hit Hj) as (x & raw0 & ups & Hf & Hc). rewrite Hf, decide_True by done.
        exists x, raw0, (ups ++ [Updated xid (Z.of_nat i + 1) (item_offset items j) old new]). split; [done|by apply chain_snoc].
      * destruct (IH _ _ _ _ Hit Hj') as (x & raw0 & ups & Hf & Hc). exists x, raw0, ups. split; [|done].
        rewrite Hf, decide_False, app_nil_r; [done|]. intros [_ He]. cbn in He.
        apply Hne'. by eapply item_offset_inj.
    + destruct (IH _ _ _ _ Hi' Hj') as (x & raw0 & ups & Hf & Hc). exists x, raw0, ups. split; [|done].
      rewrite Hf, decide_False, app_nil_r; [done|]. intros [He _]. cbn in He. lia.
Qed.

(** * The items after a crash *)

(** No transaction writes to an item an unfinished one has written to (the row
    locks of the serializability manager): after the record of an unfinished
    transaction, an item only has records of that transaction. *)
Definition no_dirty_writes (active : XID → bool) (ops : list wal_op) : Prop :=
  ∀ i o a op b, filter (at_place i o) ops = a ++ op :: b → active (wal_xid op) = true →
    ∀ op', op' ∈ b → wal_xid op' = wal_xid op.

(** An update counts when its transaction is not active. *)
Definition finished_value (active : XID → bool) (v : list byte) (op : wal_op) : list byte :=
  match op with Updated xid _ _ _ new => if active xid then v else new | _ => v end.

(** The value of an item by its records. *)
Definition recovered_value (active : XID → bool) (ops : list wal_op) : list byte :=
  match ops with
  | Inserted xid _ _ raw :: ups =>
      if active xid then invalid raw
      else foldl (finished_value active) raw ups
  | _ => []
  end.

Definition recovered_items (active : XID → bool) (ops : list wal_op) (i : nat) (items : list (list byte)) : list (list byte) :=
  imap (λ j _, recovered_value active (filter (at_place i (item_offset items j)) ops)) items.

(** All writes of the recovery. *)
Definition recovery_writes (active : XID → bool) (order : list XID) (ops : list wal_op) : list (do_flag * wal_op) :=
  redo_writes active ops ++ undo_writes active order ops.

Lemma chain_finished active ups : ∀ v w,
  chain v ups w → (∀ op, op ∈ ups → active (wal_xid op) = false) →
  foldl (finished_value active) v ups = w.
Proof.
  induction ups as [|[|xid p o old new] ups IH]; intros v w; cbn; [done|done|]. intros [-> Hc] Hf.
  pose proof (Hf _ (list_elem_of_here _ _)) as Ha. cbn in Ha. rewrite Ha. apply IH; [done|]. intros op Hop. apply Hf. by right.
Qed.

Lemma chain_active active ups : ∀ v,
  (∀ op, op ∈ ups → active (wal_xid op) = true) →
  foldl (finished_value active) v ups = v.
Proof.
  induction ups as [|[|xid p o old new] ups IH]; intros v Hf; cbn; [done|apply IH; intros op Hop; apply Hf; by right|].
  pose proof (Hf _ (list_elem_of_here _ _)) as Ha. cbn in Ha. rewrite Ha. apply IH. intros op Hop. apply Hf. by right.
Qed.

Lemma chain_app v a b w : chain v (a ++ b) w ↔ ∃ u, chain v a u ∧ chain u b w.
Proof.
  revert v. induction a as [|[|xid p o old new] a IH]; intros v; cbn.
  - split; [by exists v|]. by intros (u & -> & ?).
  - split; [done|]. by intros (u & [] & _).
  - rewrite IH. naive_solver.
Qed.

Lemma chain_last v ups w op : chain v ups w → last ups = Some op → new_raw op = w.
Proof.
  revert v. induction ups as [|[|xid p o old new] ups IH]; intros v; cbn [chain]; [done|done|].
  intros [_ Hc]. destruct ups as [|op' ups]; [|intros Hl; by apply (IH _ Hc)].
  cbn in *. subst. by intros [= <-].
Qed.

(** The writes of the recovery at a place. *)
Lemma writes_at active order ops i o :
  filter (λ w, at_place i o w.2) (recovery_writes active order ops) =
    (pair _REDO <$> filter (λ op, active (wal_xid op) = false) (filter (at_place i o) ops)) ++
    (order ≫= λ xid, pair _UNDO <$> reverse (filter (λ op, wal_xid op = xid ∧ active xid = true) (filter (at_place i o) ops))).
Proof.
  unfold recovery_writes, redo_writes, undo_writes. rewrite filter_app, filter_fmap. cbn [snd]. rewrite filter_comm. f_equal.
  rewrite filter_bind. apply list_bind_ext; [|done]. intros xid. rewrite filter_fmap. cbn [snd].
  by rewrite filter_reverse, filter_comm.
Qed.

(** The last write at a place is what the item should be. *)
Lemma last_write active order ops i o x raw0 ups raw :
  no_dirty_writes active ops → NoDup order → (∀ op, op ∈ ops → active (wal_xid op) = true → wal_xid op ∈ order) →
  filter (at_place i o) ops = Inserted x (Z.of_nat i + 1) o raw0 :: ups → chain raw0 ups raw →
  ∃ w, last (filter (λ w, at_place i o w.2) (recovery_writes active order ops)) = Some w ∧
    w_raw w = recovered_value active (filter (at_place i o) ops).
Proof.
  intros Hnd Hdup Hord Hf Hc. rewrite writes_at. set (opsa := filter (at_place i o) ops) in *.
  assert (Hsub : ∀ op, op ∈ opsa → op ∈ ops) by (intros op [_ Hop]%list_elem_of_filter; done).
  destruct (first_split (λ op, active (wal_xid op) = true) opsa) as [Hall|(A & b & B & HAB & Hb & HA)].
  - (* every transaction finished: the last redo *)
    assert (Hfin : ∀ op, op ∈ opsa → active (wal_xid op) = false) by (intros op Hop%Hall; by apply not_true_is_false).
    rewrite (filter_all _ opsa) by done.
    assert (Hundo : (order ≫= λ xid, pair _UNDO <$> reverse (filter (λ op, wal_xid op = xid ∧ active xid = true) opsa)) = []).
    { clear Hdup Hord. induction order as [|xid order IH]; [done|]. cbn [mbind list_bind]. rewrite IH, app_nil_r.
      rewrite filter_none; [done|]. intros op Hop [<- Ha]. rewrite Hfin in Ha; done. }
    rewrite Hundo, app_nil_r, fmap_last, Hf. rewrite Hf in Hfin. cbn [recovered_value].
    pose proof (Hfin _ (list_elem_of_here _ _)) as Hax. cbn in Hax. rewrite Hax. rewrite (chain_finished active ups raw0 raw);
      [|done|intros op Hop; apply Hfin; by right].
    destruct (last ups) as [op|] eqn:El.
    + eexists. rewrite last_cons, El. split; [done|]. pose proof (chain_last _ _ _ _ Hc El) as Hl. by destruct op.
    + apply last_None in El as ->. eexists. split; [done|]. by cbn in *.
  - (* some transaction did not: the undo of its first record *)
    pose proof (Hnd i o A b B HAB Hb) as HB. remember (wal_xid b) as x' eqn:Ex'.
    assert (Hx' : x' ∈ order) by (rewrite Ex'; apply Hord; [apply Hsub; rewrite HAB; apply elem_of_app; right; by left|by rewrite <- Ex']).
    assert (Hundo : ∀ xid, filter (λ op, wal_xid op = xid ∧ active xid = true) opsa = if decide (xid = x') then b :: B else []).
    { intros xid. rewrite HAB, filter_app. rewrite (filter_none _ A) by (intros op Hop [<- Ha]; by apply (HA op)).
      cbn [app]. case_decide as Hxid.
      - subst xid. apply filter_all. intros op [->|Hop]%elem_of_cons; [by rewrite <- Ex'|]. by rewrite (HB _ Hop).
      - apply filter_none. intros op [->|Hop]%elem_of_cons [He _]; [apply Hxid; congruence|]. apply Hxid. rewrite <- He. by apply HB. }
    apply list_elem_of_split in Hx' as (o1 & o2 & ->). apply NoDup_app in Hdup as (_ & Hd1 & Hd2).
    apply NoDup_cons in Hd2 as [Hd2 _].
    assert (Hnone : ∀ l : list XID, x' ∉ l →
      (l ≫= λ xid, pair _UNDO <$> reverse (filter (λ op, wal_xid op = xid ∧ active xid = true) opsa)) = []).
    { induction l as [|xid l IH]; [done|]. intros Hl. cbn [mbind list_bind]. rewrite Hundo.
      rewrite decide_False by (intros ->; apply Hl; by left). cbn. apply IH. intros ?. apply Hl. by right. }
    rewrite bind_app. cbn [mbind list_bind]. rewrite (Hnone o1) by (intros Hin; apply (Hd1 _ Hin); by left).
    rewrite (Hnone o2) by done. rewrite Hundo, decide_True, app_nil_r by done. cbn [app].
    rewrite reverse_cons, fmap_app. cbn [fmap list_fmap]. rewrite app_assoc, last_snoc. eexists. split; [done|].
    rewrite Hf. destruct A as [|op0 A].
    + (* the item was inserted by it *)
      cbn [app] in HAB. rewrite Hf in HAB. injection HAB as <- <-. cbn in Ex'. subst x'. cbn [recovered_value w_raw]. by rewrite Hb.
    + cbn [app] in HAB. rewrite Hf in HAB. injection HAB as <- HAB. subst ups.
      pose proof (HA _ (list_elem_of_here _ _)) as Hx. cbn in Hx. apply not_true_is_false in Hx. cbn [recovered_value]. rewrite Hx.
      apply chain_app in Hc as (u & Hc1 & Hc2). destruct b as [|xb pb ob old new]; [done|]. cbn [chain] in Hc2. destruct Hc2 as [-> Hc2].
      cbn [w_raw]. rewrite foldl_app, (chain_finished active A raw0 u);
        [|done|intros op Hop; apply not_true_is_false, HA; by right].
      cbn [foldl finished_value]. cbn in Ex'. subst x'. rewrite Hb. rewrite chain_active; [done|]. intros op Hop. by rewrite (HB _ Hop).
Qed.

(** Updates keep the size of an item. *)
Definition same_sizes (ups : list wal_op) : Prop :=
  ∀ op, op ∈ ups → match op with Updated _ _ _ old new => zlen old = zlen new | _ => True end.

Lemma same_sizes_cons op ups : same_sizes (op :: ups) → 
  match op with Updated _ _ _ old new => zlen old = zlen new | _ => True end ∧ same_sizes ups.
Proof. intros H. split; [apply H; by left|]. intros op' Hop. apply H. by right. Qed.

Lemma chain_size active ups : ∀ v (u w : list byte),
  chain v ups w → same_sizes ups → zlen u = zlen v →
  zlen w = zlen v ∧
  zlen (foldl (finished_value active) u ups) = zlen v.
Proof.
  induction ups as [|[|xid p o old new] ups IH]; intros v u w; cbn [chain foldl finished_value]; [by intros <-|done|].
  intros [-> Hc] [Hs Hss]%same_sizes_cons Hu. rewrite Hs. apply IH; [done|done|]. destruct (active xid); congruence.
Qed.

Lemma recovered_size active ups raw0 raw x p o :
  chain raw0 ups raw → same_sizes ups → zlen (recovered_value active (Inserted x p o raw0 :: ups)) = zlen raw.
Proof.
  intros Hc Hz. destruct (chain_size active ups raw0 raw0 raw Hc Hz eq_refl) as [Hl Hf].
  cbn [recovered_value]. destruct (active x); rewrite ?zlen_invalid; congruence.
Qed.

(** * Running the writes *)

(** What is asked of the pages on the disk: their size, and an FSO that is not
    beyond the items. *)
Definition fso_ok (st : store) (pages : list (list byte)) : Prop :=
  ∀ i items pg, (1 ≤ i)%nat → st !! i = Some items → pages !! i = Some pg →
    ∃ f, pxRawFSO pg = Ret f ∧ 2 ≤ f ≤ 2 + zlen (mjoin items).

Definition insert_end (w : do_flag * wal_op) (f : Z) : Z :=
  match w.2 with Inserted _ _ offset raw => Z.max f (offset + zlen raw) | _ => f end.

Lemma zlen_w_raw w : match w.2 with Updated _ _ _ old new => zlen old = zlen new | _ => True end → zlen (w_raw w) = zlen (new_raw w.2).
Proof. destruct w as [[] []]; cbn; intros; rewrite ?zlen_invalid; done. Qed.

Lemma sub_drop (pg : list byte) o n : 2 ≤ o → sub pg o n = sub (drop 2 pg) (o - 2) n.
Proof. intros. unfold sub. rewrite drop_drop. do 2 f_equal. lia. Qed.

(** One write: the page afterwards. *)
Lemma w_page_run w i items j raw pg f :
  wal_offset w.2 = item_offset items j → items !! j = Some raw → zlen (w_raw w) = zlen raw → zlen (new_raw w.2) = zlen raw →
  2 + zlen (mjoin items) ≤ PAGE_SIZE → zlen pg = PAGE_SIZE → pxRawFSO pg = Ret f → 2 ≤ f ≤ PAGE_SIZE → wal_pgno w.2 = Z.of_nat i + 1 →
  ∃ pg', w_page w pg = Ret pg' ∧ zlen pg' = PAGE_SIZE ∧ pxRawFSO pg' = Ret (insert_end w f) ∧
    ∀ k rk, items !! k = Some rk → sub pg' (item_offset items k) (zlen rk) =
      if decide (k = j) then w_raw w else sub pg (item_offset items k) (zlen rk).
Proof.
  intros Ho Hj Hz Hz' Hb Hl Hf Hfr Hp. pose proof (item_end _ _ _ Hj) as Hend. pose proof (item_offset_ge items j) as Hge.
  pose proof (zlen_nonneg raw).
  assert (Hpage : ∃ pg', w_page w pg = Ret pg' ∧ zlen pg' = PAGE_SIZE ∧ pxRawFSO pg' = Ret (insert_end w f) ∧
    drop 2 pg' = drop 2 (copy_at pg (item_offset items j) (w_raw w))).
  { destruct w as [fl [x p o r|x p o old new]]; unfold w_page, insert_end; cbn [snd wal_offset new_raw] in *; subst o.
    - destruct (PXRecoverInsert_run pg (item_offset items j) (w_raw (fl, Inserted x p (item_offset items j) r)) f)
        as (pg' & Hrun & Hl' & Hf' & Hd'); [done|done|done|done|rewrite Hz; lia|].
      exists pg'. rewrite Hz, <- Hz' in Hf'. by split_and!.
    - rewrite PXRecoverUpdate_run by lia. eexists. split; [done|]. split; [rewrite zlen_copy_at; lia|].
      split; [by rewrite pxRawFSO_copy_at by lia|done]. }
  destruct Hpage as (pg' & Hrun & Hl' & Hf' & Hd'). exists pg'. split; [done|]. split; [done|]. split; [done|].
  intros k rk Hk. pose proof (item_offset_ge items k). pose proof (item_end _ _ _ Hk). pose proof (zlen_nonneg rk).
  rewrite sub_drop, Hd', <- sub_drop by done. case_decide as Hkj.
  - subst k. assert (rk = raw) as -> by congruence. rewrite <- Hz. apply sub_copy_at_same; rewrite ?Hz; lia.
  - apply sub_copy_at_other; rewrite ?Hz; [lia|lia| |lia].
    destruct (item_apart _ _ _ _ _ Hk Hj Hkj); lia.
Qed.

Section Writes.
Context (n : nat) (ops : list wal_op) (st : store) (Hist : history n ops st).

Definition wf_pages (pages : list (list byte)) : Prop := length pages = n ∧ pages_wf pages ∧ fso_ok st pages.

Lemma w_pages_run w pages :
  w.2 ∈ ops → wf_pages pages →
  ∃ pages', w_pages w pages = Ret pages' ∧ wf_pages pages' ∧ pages' !! 0%nat = pages !! 0%nat ∧
    ∀ i items pg pg', (1 ≤ i)%nat → st !! i = Some items → pages !! i = Some pg → pages' !! i = Some pg' →
      (∀ f, pxRawFSO pg = Ret f → pxRawFSO pg' = Ret (if decide (wal_pgno w.2 = Z.of_nat i + 1) then insert_end w f else f)) ∧
      ∀ j raw, items !! j = Some raw → sub pg' (item_offset items j) (zlen raw) =
        if decide (at_place i (item_offset items j) w.2) then w_raw w else sub pg (item_offset items j) (zlen raw).
Proof.
  intros Hop (Hlen & Hwf & Hfso). destruct (history_ops _ _ _ Hist _ Hop) as (i & items & j & raw & Hp & Hi & Hit & Hj & Ho & Hz & Hu).
  destruct (history_pages _ _ _ Hist _ _ Hit) as (Hne & Hb & _).
  destruct (lookup_lt_is_Some_2 pages i) as [pg Hpg]; [rewrite Hlen, <- (history_length _ _ _ Hist); by eapply lookup_lt_Some|].
  destruct (Hfso _ _ _ Hi Hit Hpg) as (f & Hf & Hfr). unfold pages_wf in Hwf. rewrite Forall_lookup in Hwf.
  assert (Hzw : zlen (w_raw w) = zlen raw) by (rewrite zlen_w_raw; done).
  destruct (w_page_run w i items j raw pg f) as (pg' & Hrun & Hl' & Hf' & Hc'); [done..|by eapply Hwf|done|lia|done|].
  assert (Hix : wal_index w.2 = i) by (unfold wal_index; lia).
  exists (<[i := pg']> pages). split; [unfold w_pages; by rewrite Hix, Hpg, Hrun|]. pose proof (lookup_lt_Some _ _ _ Hpg) as Hlt.
  pose proof (item_end _ _ _ Hj). split; [split_and!|split].
  - by rewrite length_insert.
  - apply Forall_insert; [by apply Forall_lookup|done].
  - intros k items' pgk Hk Hitk Hpgk. apply list_lookup_insert_Some in Hpgk as [(<- & <- & _)|[_ Hpgk]]; [|by eapply Hfso].
    assert (items' = items) as -> by congruence. eexists. split; [exact Hf'|]. unfold insert_end.
    destruct w as [fl []]; cbn in *; lia.
  - by rewrite list_lookup_insert_ne by lia.
  - intros k items' pgk pgk' Hk Hitk Hpgk Hpgk'. destruct (decide (i = k)) as [<-|Hne'].
    + rewrite list_lookup_insert_eq in Hpgk' by done. assert (items' = items) as -> by congruence.
      assert (pgk = pg) as -> by congruence. injection Hpgk' as <-. split.
      * intros f' Hf''. rewrite decide_True by done. assert (f' = f) as -> by congruence. done.
      * intros j' raw' Hj'. rewrite (Hc' _ _ Hj'). destruct (decide (j' = j)) as [->|Hjj].
        -- by rewrite decide_True by (split; congruence).
        -- rewrite decide_False; [done|]. intros [_ He]. rewrite Ho in He. apply Hjj. symmetry. by eapply item_offset_inj.
    + rewrite list_lookup_insert_ne in Hpgk' by done. assert (pgk' = pgk) as -> by congruence. split.
      * intros f' ->. rewrite decide_False; [done|lia].
      * intros j' raw' Hj'. rewrite decide_False; [done|]. intros [He _]. lia.
Qed.

(** A run of writes: every item holds its last write. *)
Lemma ws_pages_run ws : ∀ pages,
  (∀ w, w ∈ ws → w.2 ∈ ops) → wf_pages pages →
  ∃ pages', ws_pages ws pages = Ret pages' ∧ wf_pages pages' ∧ pages' !! 0%nat = pages !! 0%nat ∧
    ∀ i items pg pg', (1 ≤ i)%nat → st !! i = Some items → pages !! i = Some pg → pages' !! i = Some pg' →
      (∀ f, pxRawFSO pg = Ret f → ∃ f', pxRawFSO pg' = Ret f' ∧ f ≤ f' ∧
         ∀ w, w ∈ ws → wal_pgno w.2 = Z.of_nat i + 1 → insert_end w 0 ≤ f') ∧
      ∀ j raw, items !! j = Some raw → sub pg' (item_offset items j) (zlen raw) =
        match last (filter (λ w, at_place i (item_offset items j) w.2) ws) with
        | Some w => w_raw w
        | None => sub pg (item_offset items j) (zlen raw)
        end.
Proof.
  induction ws as [|w ws IH]; intros pages Hin Hwf.
  - exists pages. split; [done|]. split; [done|]. split; [done|]. intros i items pg pg' Hi Hit Hpg Hpg'.
    assert (pg' = pg) as -> by congruence. split; [|done]. intros f Hf. exists f. split; [done|]. split; [done|].
    by intros w ?%elem_of_nil.
  - destruct (w_pages_run w pages) as (pages1 & Hrun1 & Hwf1 & H01 & Hst1); [apply Hin; by left|done|].
    destruct (IH pages1) as (pages' & Hrun & Hwf' & H0' & Hst'); [intros w' Hw'; apply Hin; by right|done|].
    exists pages'. split; [cbn; by rewrite Hrun1|]. split; [done|]. split; [congruence|].
    intros i items pg pg' Hi Hit Hpg Hpg'.
    destruct (lookup_lt_is_Some_2 pages1 i) as [pg1 Hpg1]; [rewrite (proj1 Hwf1), <- (proj1 Hwf); by eapply lookup_lt_Some|].
    destruct (Hst1 _ _ _ _ Hi Hit Hpg Hpg1) as [Hf1 Hc1]. destruct (Hst' _ _ _ _ Hi Hit Hpg1 Hpg') as [Hf' Hc']. split.
    + intros f Hf. specialize (Hf1 _ Hf). destruct (Hf' _ Hf1) as (f' & Hf'' & Hle & Hall). exists f'. split; [done|].
      split; [unfold insert_end in Hle; destruct (decide (wal_pgno w.2 = Z.of_nat i + 1)); [|done]; destruct w as [fl []]; cbn [snd] in Hle; lia|].
      intros w' [->|Hw']%elem_of_cons Hp; [|by apply Hall]. rewrite decide_True in Hle by done.
      destruct (proj2 (proj2 Hwf) _ _ _ Hi Hit Hpg) as (f0 & Hf0 & ?). assert (f0 = f) as -> by congruence.
      unfold insert_end in *. destruct w as [fl []]; cbn [snd] in *; lia.
    + intros j raw Hj. rewrite (Hc' _ _ Hj), (Hc1 _ _ Hj), filter_cons.
      destruct (decide (at_place i (item_offset items j) w.2)); [|done].
      rewrite last_cons. destruct (last _); done.
Qed.

Lemma history_item i items j raw active :
  (1 ≤ i)%nat → st !! i = Some items → items !! j = Some raw →
  ∃ x raw0 ups, filter (at_place i (item_offset items j)) ops = Inserted x (Z.of_nat i + 1) (item_offset items j) raw0 :: ups ∧
    chain raw0 ups raw ∧ zlen raw0 = zlen raw ∧ Inserted x (Z.of_nat i + 1) (item_offset items j) raw0 ∈ ops ∧
    zlen (recovered_value active (filter (at_place i (item_offset items j)) ops)) = zlen raw.
Proof.
  intros Hi Hit Hj. destruct (history_chain _ _ _ Hist _ _ _ _ Hit Hj) as (x & raw0 & ups & Hf & Hc).
  assert (Hin : ∀ op, op ∈ Inserted x (Z.of_nat i + 1) (item_offset items j) raw0 :: ups → op ∈ ops)
    by (rewrite <- Hf; by intros op [_ ?]%list_elem_of_filter).
  assert (Hss : same_sizes ups).
  { intros op Hop. destruct (history_ops _ _ _ Hist op) as (? & ? & ? & ? & _ & _ & _ & _ & _ & _ & Hs); [apply Hin; by right|done]. }
  exists x, raw0, ups. split; [done|]. split; [done|]. split; [symmetry; by apply (chain_size active ups raw0 raw0 raw)|].
  split; [apply Hin; by left|]. rewrite Hf. by apply recovered_size.
Qed.

(** Items of the same sizes lie at the same places. *)
Lemma sizes_join (a b : list (list byte)) : Forall2 (λ x y, zlen x = zlen y) a b → zlen (mjoin a) = zlen (mjoin b).
Proof.
  induction 1 as [|x y a b Hxy _ IH]; [done|]. change (mjoin (x :: a)) with (x ++ mjoin a). change (mjoin (y :: b)) with (y ++ mjoin b).
  rewrite !zlen_app. lia.
Qed.

Lemma recovered_sizes i items active :
  (1 ≤ i)%nat → st !! i = Some items → Forall2 (λ x y, zlen x = zlen y) (recovered_items active ops i items) items.
Proof.
  intros Hi Hit. apply Forall2_same_length_lookup. split; [unfold recovered_items; by rewrite length_imap|].
  intros j v raw Hv Hj. unfold recovered_items in Hv. rewrite list_lookup_imap, Hj in Hv. injection Hv as <-.
  destruct (history_item i items j raw active Hi Hit Hj) as (? & ? & ? & _ & _ & _ & _ & ?). done.
Qed.

Lemma writes_in active order ws : ws = recovery_writes active order ops → ∀ w, w ∈ ws → w.2 ∈ ops.
Proof.
  intros -> [fl op]. unfold recovery_writes, redo_writes, undo_writes. intros [Hw|Hw]%elem_of_app.
  - apply list_elem_of_fmap in Hw as (op' & [= -> ->] & [_ Hop]%list_elem_of_filter). done.
  - apply list_elem_of_bind in Hw as (x & Hw & _). apply list_elem_of_fmap in Hw as (op' & [= -> ->] & Hop).
    rewrite elem_of_reverse in Hop. by apply list_elem_of_filter in Hop as [_ Hop].
Qed.

Lemma writes_of active order op :
  op ∈ ops → (active (wal_xid op) = true → wal_xid op ∈ order) → ∃ fl, (fl, op) ∈ recovery_writes active order ops.
Proof.
  intros Hop Hord. unfold recovery_writes, redo_writes, undo_writes. setoid_rewrite elem_of_app.
  destruct (active (wal_xid op)) eqn:Ea; [exists _UNDO; right|exists _REDO; left].
  - apply list_elem_of_bind. exists (wal_xid op). split; [|by apply Hord]. apply list_elem_of_fmap. exists op. split; [done|].
    apply elem_of_reverse, list_elem_of_filter. done.
  - apply list_elem_of_fmap. exists op. split; [done|]. by apply list_elem_of_filter.
Qed.

(** The FSO reaches the end of the last item. *)
Lemma writes_fso active order i items f :
  (∀ op, op ∈ ops → active (wal_xid op) = true → wal_xid op ∈ order) → (1 ≤ i)%nat → st !! i = Some items → 2 ≤ f →
  (∀ w, w ∈ recovery_writes active order ops → wal_pgno w.2 = Z.of_nat i + 1 → insert_end w 0 ≤ f) → 2 + zlen (mjoin items) ≤ f.
Proof.
  intros Hord Hi Hit Hf Hall. destruct (decide (items = [])) as [->|Hne]; [done|].
  destruct (lookup_lt_is_Some_2 items (length items - 1)) as [raw Hraw]; [destruct items; cbn; [done|lia]|].
  destruct (history_item i items _ raw active Hi Hit Hraw) as (x & raw0 & ups & _ & _ & Hz & Hin & _).
  destruct (writes_of active order _ Hin) as [fl Hw]; [by apply Hord|].
  specialize (Hall _ Hw eq_refl). unfold insert_end in Hall. cbn [snd] in Hall. rewrite Hz, <- (item_offset_S _ _ _ Hraw) in Hall.
  assert (Hlen : S (length items - 1) = length items) by (destruct items; cbn; [done|lia]). rewrite Hlen in Hall.
  unfold item_offset in Hall. rewrite take_ge in Hall by lia. lia.
Qed.

(** The items the recovery leaves. *)
Lemma recovery_pages active order pages :
  no_dirty_writes active ops → NoDup order → (∀ op, op ∈ ops → active (wal_xid op) = true → wal_xid op ∈ order) → wf_pages pages →
  ∃ pages', ws_pages (recovery_writes active order ops) pages = Ret pages' ∧ pages_wf pages' ∧ length pages' = n ∧ pages' !! 0%nat = pages !! 0%nat ∧
    ∀ i items, (1 ≤ i)%nat → st !! i = Some items → ∃ pg', pages' !! i = Some pg' ∧ page_rep (recovered_items active ops i items) pg'.
Proof.
  intros Hnd Hdup Hord Hwf.
  destruct (ws_pages_run _ _ (writes_in active order _ eq_refl) Hwf) as (pages' & Hrun & Hwf' & H0 & Hst). exists pages'.
  split; [done|]. split; [apply Hwf'|]. split; [apply Hwf'|]. split; [done|]. intros i items Hi Hit.
  assert (Hlt : (i < n)%nat) by (rewrite <- (history_length _ _ _ Hist); by eapply lookup_lt_Some).
  destruct (lookup_lt_is_Some_2 pages i) as [pg Hpg]; [by rewrite (proj1 Hwf)|].
  destruct (lookup_lt_is_Some_2 pages' i) as [pg' Hpg']; [by rewrite (proj1 Hwf')|].
  destruct (Hst _ _ _ _ Hi Hit Hpg Hpg') as [Hf Hc]. destruct (history_pages _ _ _ Hist _ _ Hit) as (Hne & Hb & _).
  pose proof (recovered_sizes i items active Hi Hit) as Hsz. pose proof (sizes_join _ _ Hsz) as Hjoin.
  exists pg'. split; [done|]. apply page_rep_intro.
  - destruct Hwf' as (_ & Hw & _). unfold pages_wf in Hw. rewrite Forall_lookup in Hw. by eapply Hw.
  - destruct (proj2 (proj2 Hwf) _ _ _ Hi Hit Hpg) as (f & Hf0 & ?). destruct (Hf _ Hf0) as (f' & Hf' & Hle & Hall).
    destruct (proj2 (proj2 Hwf') _ _ _ Hi Hit Hpg') as (f2 & Hf2 & ?). assert (f2 = f') as -> by congruence.
    rewrite Hf', Hjoin. f_equal. pose proof (writes_fso active order i items f' Hord Hi Hit ltac:(lia) Hall). lia.
  - by rewrite Hjoin.
  - intros j v Hv. pose proof Hv as Hv'. unfold recovered_items in Hv'. rewrite list_lookup_imap in Hv'.
    destruct (items !! j) as [raw|] eqn:Hj; [|done]. injection Hv' as Hv'.
    destruct (history_item i items j raw active Hi Hit Hj) as (x & raw0 & ups & Hfil & Hch & _ & _ & Hz).
    assert (Hoff : item_offset (recovered_items active ops i items) j = item_offset items j)
      by (unfold item_offset; f_equal; by apply sizes_join, Forall2_take).
    rewrite Hoff, <- Hv', Hz, (Hc _ _ Hj). destruct (last_write active order ops i _ x raw0 ups raw Hnd Hdup Hord Hfil Hch) as (w & Hl & Hw).
    by rewrite Hl.
Qed.
End Writes.

(** * The recovery *)

Lemma history_take n m ops st :
  history n ops st → (m ≤ n)%nat → (∀ op, op ∈ ops → wal_pgno op ≤ Z.of_nat m) → history m ops (take m st).
Proof.
  intros Hh Hm. induction Hh as [|ops st xid i items raw Hh IH Hi Hit Hr Hfit|ops st xid i items j old new Hh IH Hit Hj Hl]; intros Hall.
  - rewrite take_replicate, Nat.min_l by done. constructor.
  - assert (Hlt : (i < m)%nat) by (specialize (Hall (Inserted xid (Z.of_nat i + 1) (item_offset items (length items)) raw) ltac:(apply elem_of_app; right; by left)); cbn in Hall; lia).
    rewrite take_insert_lt by done. apply history_insert; [apply IH; intros op Hop; apply Hall, elem_of_app; by left|done| |done|done].
    by rewrite lookup_take_lt.
  - assert (Hlt : (i < m)%nat) by (specialize (Hall (Updated xid (Z.of_nat i + 1) (item_offset items j) old new) ltac:(apply elem_of_app; right; by left)); cbn in Hall; lia).
    rewrite take_insert_lt by done. apply history_update; [apply IH; intros op Hop; apply Hall, elem_of_app; by left| |done|done].
    by rewrite lookup_take_lt.
Qed.

Lemma max_pgno_spec ops : ∀ m, m ≤ max_pgno m ops ∧ (∀ op, op ∈ ops → wal_pgno op ≤ max_pgno m ops) ∧
  (max_pgno m ops = m ∨ ∃ op, op ∈ ops ∧ max_pgno m ops = wal_pgno op).
Proof.
  induction ops as [|op ops IH]; intros m; [split; [done|]; split; [by intros ? ?%elem_of_nil|by left]|].
  unfold max_pgno. cbn [foldl]. fold (max_pgno (if decide (m < wal_pgno op) then wal_pgno op else m) ops).
  destruct (IH (if decide (m < wal_pgno op) then wal_pgno op else m)) as (H1 & H2 & H3). split; [case_decide; lia|]. split.
  - intros op' [->|Hop]%elem_of_cons; [case_decide; lia|by apply H2].
  - destruct H3 as [->|(op' & Hop & ->)]; [|right; exists op'; split; [by right|done]].
    case_decide; [right; exists op; split; [by left|done]|by left].
Qed.

Lemma history_item_op n ops st :
  history n ops st → Z.of_nat n < 2 ^ 32 → (∀ op, op ∈ ops → 0 ≤ wal_xid op < 2 ^ 64) → Forall item_op ops.
Proof.
  intros Hh Hn Hx. apply Forall_forall. intros op Hop.
  destruct (history_ops _ _ _ Hh _ Hop) as (i & items & j & raw & Hp & Hi & Hit & Hj & Ho & Hz & Hs).
  destruct (history_pages _ _ _ Hh _ _ Hit) as (Hne & Hb & _). pose proof (item_end _ _ _ Hj). pose proof (item_offset_ge items j).
  pose proof (lookup_lt_Some _ _ _ Hit) as Hlt. rewrite (history_length _ _ _ Hh) in Hlt. rewrite PAGE_SIZE_eq in *.
  unfold nonempty_items in Hne. rewrite Forall_lookup in Hne. specialize (Hne _ _ Hj). cbn in Hne. pose proof (zlen_nonneg raw).
  split; [split; [by apply Hx|split; [split; cbn; lia|by destruct op]]|]. split; [lia|]. split; [unfold _PX_OF_DATA; lia|].
  destruct op; cbn in *; rewrite PAGE_SIZE_eq; lia.
Qed.

Section RecoveryTheorem.
Context {T : Type} `{!TransactionManager T} `{!TransactionManagerOk T} {L : Type} `{!LoggerI L} `{!LoggerOk L}.

(** The keys of the collected records, as the map is visited. *)
Lemma collected_order active ops (order : gmap XID (list (list byte)) → list XID) :
  (∀ m, order m ≡ₚ (map_to_list m).*1) →
  NoDup (order (collect active ∅ ops)) ∧
  ∀ xid, xid ∈ order (collect active ∅ ops) ↔ active xid = true ∧ ∃ op, op ∈ ops ∧ wal_xid op = xid.
Proof.
  intros Hord. split; [rewrite Hord; apply NoDup_fst_map_to_list|]. intros xid. rewrite Hord.
  assert (Hk : xid ∈ (map_to_list (collect active ∅ ops)).*1 ↔ is_Some (collect active ∅ ops !! xid)).
  { rewrite list_elem_of_fmap. split.
    - intros ([k v] & -> & Hin%elem_of_map_to_list). by exists v.
    - intros [v Hv]. exists (xid, v). split; [done|]. by apply elem_of_map_to_list. }
  rewrite Hk, collect_dom, lookup_empty. split.
  - intros [[? ?]|(op & ? & ? & ?)]; [done|eauto].
  - intros (? & op & ? & ?). right. eauto.
Qed.

(** The second and third reading of the log: redo, then undo. *)
Lemma redo_undo_run (t : T) (l : L) p sts ops rest pages pages' pins order fuel :
  lg_at l (wal_bytes <$> ops) rest → tm_rep t sts → (∀ op, op ∈ ops → 0 ≤ wal_xid op ≤ zlen sts) →
  Forall item_op ops → ready pages pins p → (∀ m, order m ≡ₚ (map_to_list m).*1) → (length ops < fuel)%nat →
  let xids := order (collect (tm_IsActive t) ∅ ops) in
  ws_pages (recovery_writes (tm_IsActive t) xids ops) pages = Ret pages' →
  ∃ t' l' p', (_ ← redoTransactions fuel; undoTransactions fuel order) (mkSys t l p) = (mkSys t' l' p', Ret tt) ∧
    ready pages' pins p' ∧ tm_rep t' (abort_all xids sts) ∧ lg_rep l' (wal_bytes <$> ops).
Proof.
  intros Hat Ht Hx Hok Hr Hord Hfuel xids Hw. unfold recovery_writes in Hw. rewrite ws_pages_app in Hw.
  apply outcome_bind_Ret in Hw as (pages1 & Hw1 & Hw2).
  destruct (Rewind_sys t l p _ _ Hat) as (l1 & Hrun1 & Hat1).
  destruct (redoLoop_run ops fuel t l1 p _ pages pins pages1 Hat1 Hok Hfuel Hr Hw1) as (l2 & p2 & Hrun2 & Hat2 & Hr2).
  destruct (Rewind_sys t l2 p2 _ _ Hat2) as (l3 & Hrun3 & Hat3).
  assert (Hwok : Forall wal_ok ops) by (eapply Forall_impl; [exact Hok|by intros ? []]).
  destruct (collectLoop_run ops fuel ∅ t l3 p2 _ Hat3 Hwok Hfuel) as (l4 & Hrun4 & Hat4).
  assert (Hxids : Forall (λ xid, 1 ≤ xid ≤ zlen sts) xids).
  { apply Forall_forall. intros xid Hin. apply (collected_order _ _ _ Hord) in Hin as (Ha & op & Hop & <-). specialize (Hx _ Hop).
    destruct (decide (wal_xid op = 0)) as [E|]; [|lia]. rewrite E, (tm_IsActive_super t) in Ha. done. }
  destruct (undoLoop_run ops xids t sts l4 p2 pages1 pins pages' _ Ht Hxids Hok Hr2 Hw2) as (t' & p' & Hrun5 & Hr' & Ht').
  exists t', l4, p'. split; [|split; [done|split; [done|by eapply lg_at_rep]]]. unfold redoTransactions, undoTransactions. rewrite M_bind_assoc.
  rewrite (M_bind_run _ _ _ _ _ Hrun1), (M_bind_run _ _ _ _ _ Hrun2), (M_bind_run _ _ _ _ _ Hrun3), (M_bind_run _ _ _ _ _ Hrun4).
  exact Hrun5.
Qed.

(** Every page on the disk may have any content (old, new or a mix, as a crash
    leaves it) with an FSO not beyond the page's items; the recovery leaves
    exactly the recovered items. *)
Lemma Recovery_run (t : T) (l : L) p sts ops rest n st disk pins order fuel :
  lg_at l (wal_bytes <$> ops) rest → tm_rep t sts → (∀ op, op ∈ ops → 0 ≤ wal_xid op ≤ zlen sts) → zlen sts < 2 ^ 64 →
  history n ops st → no_dirty_writes (tm_IsActive t) ops →
  ready disk pins p → length disk = n → (1 ≤ n)%nat → Z.of_nat n < 2 ^ 32 - 1 → fso_ok st disk →
  (∀ m, order m ≡ₚ (map_to_list m).*1) → (length ops < fuel)%nat →
  ∃ t' l' p' pages' m,
    Recovery fuel order (mkSys t l p) = (mkSys t' l' p', Ret tt) ∧
    ready pages' pins p' ∧ length pages' = m ∧ (1 ≤ m ≤ n)%nat ∧ (∀ op, op ∈ ops → wal_pgno op ≤ Z.of_nat m) ∧ pages' !! 0%nat = disk !! 0%nat ∧
    (∀ i items, (1 ≤ i < m)%nat → st !! i = Some items →
       ∃ pg, pages' !! i = Some pg ∧ page_rep (recovered_items (tm_IsActive t) ops i items) pg) ∧
    lg_rep l' (wal_bytes <$> ops) ∧
    (∃ xids, tm_rep t' (abort_all xids sts) ∧ ∀ xid, xid ∈ xids ↔ tm_IsActive t xid = true ∧ ∃ op, op ∈ ops ∧ wal_xid op = xid).
Proof.
  intros Hat Ht Hx Hsts Hh Hnd Hr Hlen Hn1 Hn Hfso Hord Hfuel.
  assert (Hok : Forall item_op ops) by (eapply history_item_op; [done|lia|]; intros op Hop; specialize (Hx _ Hop); lia).
  assert (Hwok : Forall wal_ok ops) by (eapply Forall_impl; [exact Hok|by intros ? []]).
  destruct (Rewind_sys t l p _ _ Hat) as (l1 & Hrun1 & Hat1).
  destruct (maxPgnoLoop_run ops fuel 0 t l1 p _ Hat1 Hwok Hfuel) as (l2 & Hrun2 & Hat2).
  destruct (max_pgno_spec ops 0) as (Hm0 & Hmall & Hmcase). set (m0 := max_pgno 0 ops) in *.
  set (mz := if decide (m0 = 0) then 1 else m0).
  assert (Hmz : 1 ≤ mz ≤ Z.of_nat n).
  { unfold mz. case_decide; [lia|]. destruct Hmcase as [?|(op & Hop & ->)]; [done|].
    destruct (history_ops _ _ _ Hh _ Hop) as (i & items & _ & _ & -> & _ & Hit%lookup_lt_Some & _). rewrite (history_length _ _ _ Hh) in Hit. lia. }
  assert (Hmop : ∀ op, op ∈ ops → wal_pgno op ≤ mz) by (intros op Hop; specialize (Hmall _ Hop); unfold mz; case_decide; lia).
  pose proof Hr as (Hrep & _ & _ & Hpins).
  destruct (TruncateByPgno_run disk pins p mz) as (p1 & Hrun3 & Hrep1 & Hmax1); [done|unfold zlen; lia|lia| |].
  { intros k la na Hk. destruct (decide (2 ≤ k)); [|lia]. by rewrite (Hpins k) in Hk. }
  pose proof (ready_keeps _ _ _ _ _ Hr Hrep1 Hmax1) as Hr1.
  set (m := Z.to_nat mz) in *. assert (Hmn : (m ≤ n)%nat) by lia.
  pose proof (history_take n m ops st Hh Hmn ltac:(intros op Hop; specialize (Hmop _ Hop); lia)) as Hhm.
  assert (Hwf : wf_pages m (take m st) (take m disk)).
  { split; [rewrite length_take; lia|]. split.
    - apply Forall_lookup. intros i d Hi. by apply (rep_pages _ _ _ (proj1 Hrep1)) in Hi as [? _].
    - intros i items pg Hi Hit Hpg. apply lookup_take_Some in Hit as [Hit _]. apply lookup_take_Some in Hpg as [Hpg _]. by eapply Hfso. }
  destruct (collected_order (tm_IsActive t) ops order Hord) as [Hdup Hxids]. set (xids := order (collect (tm_IsActive t) ∅ ops)) in *.
  destruct (recovery_pages m ops (take m st) Hhm (tm_IsActive t) xids (take m disk)) as (pages' & Hw & Hwf' & Hlen' & H0' & Hst'); [done|done| |done|].
  { intros op Hop Ha. apply Hxids. eauto. }
  destruct (redo_undo_run t l2 p1 sts ops [] (take m disk) pages' pins order fuel) as (t' & l' & p' & Hrun4 & Hr' & Ht' & Hl'); [done..|].
  exists t', l', p', pages', m. split; [|split; [done|split; [done|split; [lia|split; [|split; [|split; [|split; [exact Hl'|]]]]]]]].
  - unfold Recovery. rewrite (M_bind_run _ _ _ _ _ Hrun1), (M_bind_run _ _ _ _ _ Hrun2). fold mz.
    erewrite M_bind_run; [|unfold or_panic, catch, on_pc, zoom; cbn [sys_pc]; by rewrite Hrun3]. exact Hrun4.
  - intros op Hop. specialize (Hmop _ Hop). lia.
  - rewrite H0', lookup_take_lt; [done|lia].
  - intros i items Hi Hit. apply Hst'; [lia|]. by rewrite lookup_take_lt by lia.
  - exists xids. split; [done|]. exact Hxids.
Qed.
End RecoveryTheorem.

(** A crash with a finished and an unfinished transaction. *)
Section Sample.
Definition crash_sts : list status := [Committed; Active].
Definition crash_ops : list wal_op :=
  [Inserted 1 2 2 [Byte.x00; Byte.xaa]; Inserted 2 2 4 [Byte.x00; Byte.xbb]; Updated 1 2 2 [Byte.x00; Byte.xaa] [Byte.x00; Byte.xcc]].
Definition crash_store : store := [[]; [[Byte.x00; Byte.xcc]; [Byte.x00; Byte.xbb]]].
Definition crash_disk : list (list byte) := [copy_at PXInitRaw 100 [Byte.x61]; PXInitRaw].
Definition crash_tm : transactionManager := mkTM (file_of (xid_image crash_sts)) 2.
Definition crash_log : logger :=
  let img := log_image (wal_bytes <$> crash_ops) in
  mkLog (set_pos (zlen img) (file_of img)) 4 (zlen img) (running (wal_bytes <$> crash_ops)).

Lemma crash_history : history 2 crash_ops crash_store.
Proof.
  pose proof (history_new 2) as H0.
  pose proof (history_insert 2 _ _ 1 1 [] [Byte.x00; Byte.xaa] H0 ltac:(lia) eq_refl) as H1.
  specialize (H1 ltac:(by vm_compute) ltac:(by vm_compute)).
  pose proof (history_insert 2 _ _ 2 1 _ [Byte.x00; Byte.xbb] H1 ltac:(lia) eq_refl) as H2.
  specialize (H2 ltac:(by vm_compute) ltac:(by vm_compute)).
  exact (history_update 2 _ _ 1 1 _ 0 _ [Byte.x00; Byte.xcc] H2 eq_refl eq_refl eq_refl).
Qed.

Lemma crash_scanning : scanning crash_log (wal_bytes <$> crash_ops) (wal_bytes <$> crash_ops).
Proof.
  split; [|split; [|split; [done|]]].
  - by repeat split.
  - repeat (apply Forall_cons; split; [by vm_compute|]). by apply Forall_nil.
  - exists []. split; [done|by vm_compute].
Qed.

Lemma crash_no_dirty : no_dirty_writes (tm_IsActive crash_tm) crash_ops.
Proof.
  intros i o a op b Heq Hact op' Hop'.
  assert (Hin : op ∈ crash_ops ∧ op' ∈ crash_ops ∧ at_place i o op ∧ at_place i o op').
  { assert (Ha : op ∈ filter (at_place i o) crash_ops) by (rewrite Heq; set_solver).
    assert (Hb : op' ∈ filter (at_place i o) crash_ops) by (rewrite Heq; set_solver).
    apply list_elem_of_filter in Ha as [], Hb as []. done. }
  destruct Hin as (Hin & Hin' & [_ Hp] & [_ Hp']).
  unfold crash_ops in Hin, Hin'. rewrite !elem_of_cons, elem_of_nil in Hin, Hin'.
  destruct Hin as [->|[->|[->|[]]]]; [by vm_compute in Hact| |by vm_compute in Hact].
  destruct Hin' as [->|[->|[->|[]]]]; cbn in *; congruence.
Qed.

(** The data page is as it was when the file was extended. *)
Lemma crash_fso : fso_ok crash_store crash_disk.
Proof.
  intros i items pg Hi Hst Hpg. exists 2.
  destruct i as [|[|i]]; [lia| |by destruct i]. cbn in Hpg, Hst. injection Hpg as <-. injection Hst as <-.
  split; [by vm_compute|]. by vm_compute.
Qed.

Lemma crash_recovered : recovered_items (tm_IsActive crash_tm) crash_ops 1 [[Byte.x00; Byte.xcc]; [Byte.x00; Byte.xbb]] =
  [[Byte.x00; Byte.xcc]; [Byte.x01; Byte.xbb]].
Proof. by vm_compute. Qed.
End Sample.
