(* ===== verification/DataMgr.v ===== *)
(** Package [dm]: the data items ([data_item.go]) and the data manager
    ([data_manager.go]) over the page cache, the log and the free-space index.

    Data items are shared like pages: [Read] hands all holders the same object,
    so they live in a heap.  A [Before]/[After] pair holds the item's lock, and
    so runs as one piece. *)
From S2P Require Import Prelude.
From S2P Require Import Codec.
From S2P Require Import GoFile.
From S2P Require Import Tm.
From S2P Require Import DmI.
From S2P Require Import Logger.
From S2P Require Import Cacher.
From S2P Require Import Page.
From S2P Require Import Pcacher.
From S2P Require Import WalLog.
From S2P Require Import Recovery.
Local Open Scope Z_scope.

(** [raw] is the slice of [di_len] bytes of the page at [di_off]. *)
Record dataitem := mkDI {
  di_pg : page_ptr;
  di_off : Z;
  di_len : Z;
  oldraw : list byte;
  di_uid : UUID
}.

Notation item_ptr := nat (only parsing).

(** [ParseDataitem(pg, offset, dm)]; the bytes of [pg] are [data]. *)
Definition ParseDataitem (pg : page_ptr) (pgno : Pgno) (data : list byte) (offset : Offset) : outcome dataitem :=
  raw ← slice_from data offset;
  buf ← slice_from raw WalLog._OF_DATA_SIZE;
  size ← GetUint16 buf;
  let length := WalLog._OF_DATA + size in
  let length := if decide (zlen raw < length) then zlen raw else length in
  let uid := Address2UUID pgno offset in
  Ret (mkDI pg offset length (make_bytes length) uid).

Section DataManager.
Context {L : Type} `{!LoggerI L}.

(** [dm.tm] is the manager everyone else has; only [Recovery] uses it, which
    takes it as an argument. *)
Record dataManager := mkDM {
  dm_pc : pcacher;
  dm_lg : L;
  pidx : pindex;
  dic : cacher item_ptr;
  dm_items : list dataitem;
  page1 : option page_ptr
}.

Definition in_pc {A} : M pcacher A → M dataManager A :=
  zoom dm_pc (λ p d, mkDM p (dm_lg d) (pidx d) (dic d) (dm_items d) (page1 d)).
Definition in_lg {A} : M L A → M dataManager A :=
  zoom dm_lg (λ l d, mkDM (dm_pc d) l (pidx d) (dic d) (dm_items d) (page1 d)).
Definition in_pidx {A} : M pindex A → M dataManager A :=
  zoom pidx (λ x d, mkDM (dm_pc d) (dm_lg d) x (dic d) (dm_items d) (page1 d)).
Definition set_dic (c : cacher item_ptr) (d : dataManager) := mkDM (dm_pc d) (dm_lg d) (pidx d) c (dm_items d) (page1 d).
Definition set_items (h : list dataitem) (d : dataManager) := mkDM (dm_pc d) (dm_lg d) (pidx d) (dic d) h (page1 d).
Definition set_page1 (l : page_ptr) (d : dataManager) := mkDM (dm_pc d) (dm_lg d) (pidx d) (dic d) (dm_items d) (Some l).

Definition NewDataManager (pc : pcacher) (lg : L) : dataManager := mkDM pc lg NewPindex (NewCacher 0) [] None.

(** A data item behind a pointer, and its bytes. *)
Definition deref_item (x : item_ptr) : M dataManager dataitem :=
  d ← get; lift (match dm_items d !! x with Some di => Ret di | None => Panic end).

Definition item_raw (di : dataitem) : M dataManager (list byte) :=
  pg ← in_pc (deref (di_pg di)); lift (slice (p_data pg) (di_off di) (di_off di + di_len di)).

(** * data_item.go *)

Definition IsValid (di : dataitem) : M dataManager bool :=
  raw ← item_raw di; b ← lift (idx raw WalLog._OF_VALID_FLAG); mret (bool_decide (b = Byte.x00)).

Definition Data (x : item_ptr) : M dataManager (list byte) :=
  di ← deref_item x; raw ← item_raw di; lift (slice_from raw WalLog._OF_DATA).

(** [copy(dst, src)] for the bytes of the item. *)
Definition set_item_raw (di : dataitem) (raw : list byte) : M dataManager unit :=
  pg ← in_pc (deref (di_pg di));
  in_pc (set_Data (di_pg di) (copy_at (p_data pg) (di_off di) (take (Z.to_nat (di_len di)) raw))).

Definition Before (x : item_ptr) : M dataManager unit :=
  di ← deref_item x;
  _ ← in_pc (Dirty (di_pg di));
  raw ← item_raw di;
  modify (λ d, set_items (alter (λ di, mkDI (di_pg di) (di_off di) (di_len di) (copy_at (oldraw di) 0 raw) (di_uid di)) x (dm_items d)) d).

Definition UnBefore (x : item_ptr) : M dataManager unit := di ← deref_item x; set_item_raw di (oldraw di).

Definition logDataitem (xid : XID) (x : item_ptr) : M dataManager unit :=
  di ← deref_item x;
  raw ← item_raw di;
  log ← lift (UpdateLog xid (di_uid di) (oldraw di) raw);
  in_lg (lg_Log log).

(** The error of the log is dropped. *)
Definition After (xid : XID) (x : item_ptr) : M dataManager unit := catch (logDataitem xid x) mret (λ _, mret tt).

(** * data_manager.go *)

Definition getForCacher (uid : UUID) : M dataManager item_ptr :=
  let '(pgno, offset) := UUID2Address uid in
  pg ← in_pc (GetPage pgno);
  p ← in_pc (deref pg);
  di ← lift (ParseDataitem pg (p_pgno p) (p_data p) offset);
  d ← get;
  _ ← modify (set_items (dm_items d ++ [di]));
  mret (length (dm_items d)).

Definition releaseForCacher (x : item_ptr) : M dataManager unit :=
  di ← deref_item x; in_pc (Pcacher.release (di_pg di)).

Definition ReleaseDataitem (x : item_ptr) : M dataManager unit :=
  di ← deref_item x; Cacher.Release dic set_dic releaseForCacher (di_uid di).

(** [None] for [nil, false, nil]. *)
Definition Read (uid : UUID) : M dataManager (option item_ptr) :=
  h ← Cacher.Get dic set_dic getForCacher uid;
  di ← deref_item h;
  ok ← IsValid di;
  if (ok : bool) then mret (Some h) else _ ← ReleaseDataitem h; mret None.

(** The page [Insert] will use: at most five tries, each adding a page when
    the index has none. *)
Fixpoint selectLoop (tries : nat) (size : Z) : M dataManager (option (Pgno * Z)) :=
  match tries with
  | O => mret None
  | S tries =>
      r ← in_pidx (Select size);
      match r with
      | Some pr => mret (Some pr)
      | None =>
          newPgno ← in_pc (NewPage PXInitRaw);
          _ ← in_pidx (Add newPgno PXMaxFreeSpace);
          selectLoop tries size
      end
  end.

(** The deferred function: the page goes back to the index. *)
Definition putBack (pgno : Pgno) (freeSpace : Z) (pg : option page_ptr) : M dataManager unit :=
  match pg with
  | Some pg => p ← in_pc (deref pg); fs ← lift (PXFreeSpace (p_data p)); in_pidx (Add pgno fs)
  | None => in_pidx (Add pgno freeSpace)
  end.

(** Run [m], then the deferred function; an error of [m] is returned after it. *)
Definition deferred {A} (m : M dataManager A) (k : M dataManager unit) : M dataManager A :=
  catch m (λ a, _ ← k; mret a) (λ e, _ ← k; fail e).

Definition Insert (xid : XID) (data : list byte) : M dataManager UUID :=
  let raw := WrapDataitemRaw data in
  if decide (PXMaxFreeSpace < zlen raw) then fail ErrDataTooLarge
  else
    r ← selectLoop 5 (zlen raw);
    match r with
    | None => fail ErrBusy
    | Some (pgno, freeSpace) =>
        catch (in_pc (GetPage pgno))
          (λ pg,
             deferred
               (p ← in_pc (deref pg);
                log ← lift (InsertLog xid (p_pgno p) (p_data p) raw);
                _ ← in_lg (lg_Log log);
                offset ← in_pc (write_page pg (λ bytes, PXInsert bytes raw));
                _ ← in_pc (Pcacher.release pg);
                mret (Address2UUID pgno offset))
               (putBack pgno freeSpace (Some pg)))
          (λ e, _ ← putBack pgno freeSpace None; fail e)
    end.

(** ** Opening and closing *)

Fixpoint fillPindex_loop (pgnos : list Pgno) : M dataManager unit :=
  match pgnos with
  | [] => mret tt
  | pgno :: pgnos =>
      pg ← in_pc (GetPage pgno);
      p ← in_pc (deref pg);
      fs ← lift (PXFreeSpace (p_data p));
      _ ← in_pidx (Add (p_pgno p) fs);
      _ ← in_pc (Pcacher.release pg);
      fillPindex_loop pgnos
  end.

(** [for i := 2; i <= noPages; i++] *)
Definition fillPindex : M dataManager unit :=
  d ← get;
  fillPindex_loop ((λ k, Z.of_nat k + 2) <$> seq 0 (Z.to_nat (NoPages (dm_pc d) - 1))).

Definition loadAndCheckPage1 : M dataManager bool :=
  pg ← in_pc (GetPage 1);
  _ ← modify (set_page1 pg);
  p ← in_pc (deref pg);
  lift (P1CheckVC (p_data p)).

Definition initPage1 (rnd : nat → Z) : M dataManager unit :=
  raw ← lift (P1InitRaw rnd);
  pgno ← in_pc (NewPage raw);
  if decide (pgno = 1) then
    pg ← in_pc (GetPage pgno);
    _ ← modify (set_page1 pg);
    in_pc (FlushPage pg)
  else crash.

(** A call through the field [dm.page1]; a method call on nil panics. *)
Definition with_page1 {A} (k : page_ptr → M dataManager A) : M dataManager A :=
  d ← get; match page1 d with Some pg => k pg | None => crash end.

(** From the check of the first page on; the result of the last [FlushPage] is
    dropped. *)
Definition open_checked {T} `{!TransactionManager T} (fuel : nat) order (rnd : nat → Z) (ok : bool) : M (T * dataManager) unit :=
  _ ← (if ok then mret tt
       else λ '(t, d), let '(s, o) := Recovery fuel order (mkSys t (dm_lg d) (dm_pc d)) in
              ((sys_tm s, mkDM (sys_pc s) (sys_lg s) (pidx d) (dic d) (dm_items d) (page1 d)), o));
  zoom snd (λ d td, (fst td, d))
    (_ ← fillPindex;
     with_page1 (λ pg,
       _ ← in_pc (write_page pg (λ data, no_result (P1SetVCOpen rnd data)));
       catch (in_pc (FlushPage pg)) mret (λ _, mret tt))).

(** [pc] and [lg]: what opening the two files returned. *)
Definition Open {T} `{!TransactionManager T} (fuel : nat) order (rnd : nat → Z) (pc : outcome pcacher) (lg : outcome L) (t : T) :
    outcome (T * dataManager) :=
  pc ← pc;
  lg ← lg;
  match (ok ← zoom snd (λ d td, (fst td, d)) loadAndCheckPage1; open_checked fuel order rnd ok) (t, NewDataManager pc lg) with
  | (td, Ret _) => Ret td
  | (_, Err e) => Err e
  | (_, Panic) => Panic
  | (_, OutOfFuel) => OutOfFuel
  end.

Definition Create (rnd : nat → Z) (pc : outcome pcacher) (lg : outcome L) : outcome dataManager :=
  pc ← pc;
  lg ← lg;
  match initPage1 rnd (NewDataManager pc lg) with
  | (d, Ret _) => Ret d
  | (_, Err e) => Err e
  | (_, Panic) => Panic
  | (_, OutOfFuel) => OutOfFuel
  end.
(** [lg_Close] and [order] are arguments as they are of the parts. *)
Definition Close (lg_Close : M L unit) (order : list UUID) : M dataManager unit :=
  d ← get;
  _ ← match page1 d with
      | Some pg =>
          _ ← in_pc (write_page pg (λ data, no_result (P1SetVCClose data)));
          in_pc (Pcacher.release pg)
      | None => mret tt
      end;
  _ ← in_lg lg_Close;
  in_pc (Pcacher.Close order).

(** ** The interface *)

(** A client reads an item between [Read] and [Release]. *)
Definition read_item (uid : UUID) : M dataManager (option (list byte)) :=
  x ← Read uid;
  match x with
  | None => mret None
  | Some x => data ← Data x; _ ← ReleaseDataitem x; mret (Some data)
  end.

(** A client updates an item: [Read]; [Before]; [copy(Data(), data)];
    [After]; [Release]. *)
Definition write_Data (x : item_ptr) (data : list byte) : M dataManager unit :=
  di ← deref_item x;
  raw ← item_raw di;
  set_item_raw di (copy_at raw WalLog._OF_DATA data).
Definition write_item (xid : XID) (uid : UUID) (data : list byte) : M dataManager unit :=
  x ← Read uid;
  match x with
  | None => mret tt
  | Some x => _ ← Before x; _ ← write_Data x data; _ ← After xid x; ReleaseDataitem x
  end.
End DataManager.
Arguments dataManager L : clear implicits.

(** Readers put everything back: the interface drops the state they leave. *)
#[export] Instance dataManager_impl {L} `{!LoggerI L} : DataManager (dataManager L) := {|
  dm_Read d uid := snd (read_item uid d);
  dm_Insert := Insert;
  dm_Write := write_item
|}.
