(* ===== verification/DataRep.v ===== *)
(** Package [dm]: what the data manager promises.

    [idle st ds pages d] relates a data manager between two operations to the
    items [st] of its pages and to its log [ds]; [held] describes it while a
    client holds one item.  The lemmas run the operations on these states; they
    discharge the interface [DataManagerOk] the serializability manager is
    verified against. *)
From S2P Require Import Prelude.
From S2P Require Import Codec.
From S2P Require Import GoFile.
From S2P Require Import Tm.
From S2P Require Import DmI.
From S2P Require Import Logger.
From S2P Require Import Cacher.
From S2P Require Import Page.
From S2P Require Import Pcacher.
From S2P Require Import WalLog.
From S2P Require Import Recovery.
From S2P Require Import Restore.
From S2P Require Import DataMgr.
Local Open Scope Z_scope.

(** The bytes of an item with a given flag. *)
Definition flagged (flag : byte) (data : list byte) : list byte := flag :: Uint16ToRaw (zlen data) ++ data.

Lemma zlen_flagged flag data : zlen (flagged flag data) = 3 + zlen data.
Proof. unfold flagged, Uint16ToRaw. rewrite zlen_cons, zlen_app, zlen_be_bytes. lia. Qed.

Definition uid_at (i : nat) (items : list (list byte)) (j : nat) : UUID := Address2UUID (Z.of_nat i + 1) (item_offset items j).

(** The store has a valid item [data] at [uid]. *)
Definition stored (st : store) (uid : UUID) (data : list byte) : Prop :=
  ∃ i items j, (1 ≤ i)%nat ∧ st !! i = Some items ∧ items !! j = Some (flagged Byte.x00 data) ∧ uid = uid_at i items j.

(** The index has pages of the store, each at most once, with their space. *)
Definition index_ok (st : store) (pi : pindex) : Prop :=
  pindex_ok pi ∧ NoDup (entries pi).*1 ∧
  ∀ pgno fs, (pgno, fs) ∈ entries pi →
    ∃ i items, pgno = Z.of_nat i + 1 ∧ (1 ≤ i)%nat ∧ st !! i = Some items ∧ fs = PAGE_SIZE - (2 + zlen (mjoin items)).

Definition store_ok (st : store) (pages : list (list byte)) : Prop :=
  length pages = length st ∧
  ∀ i items, (1 ≤ i)%nat → st !! i = Some items → nonempty_items items ∧ ∃ pg, pages !! i = Some pg ∧ page_rep items pg.

Section Repr.
Context {L : Type} `{!LoggerI L} `{!LoggerOk L}.
Implicit Types (d : dataManager L) (st : store) (uid : UUID) (data raw : list byte).

Definition set_pc (p : pcacher) d : dataManager L := mkDM p (dm_lg d) (pidx d) (dic d) (dm_items d) (page1 d).
Definition set_lg (l : L) d : dataManager L := mkDM (dm_pc d) l (pidx d) (dic d) (dm_items d) (page1 d).
Definition set_pidx (x : pindex) d : dataManager L := mkDM (dm_pc d) (dm_lg d) x (dic d) (dm_items d) (page1 d).

(** Room for the first page and one more. *)
Definition roomy (m : Z) : Prop := m = 0 ∨ 1 < m.

Record dm_repr st (ds : list (list byte)) (pages : list (list byte)) pins (ipins : gmap UUID (item_ptr * Z)) d : Prop := {
  r_pc : pc_rep pages pins (dm_pc d);
  r_room : roomy (MaxHandles (pc_c (dm_pc d)));
  r_lg : lg_rep (dm_lg d) ds;
  r_dic : cacher_rep ipins (dic d);
  r_dic_max : MaxHandles (dic d) = 0;
  r_idx : index_ok st (pidx d);
  r_store : store_ok st pages
}.

(** Nobody holds an item; the first page is held by the manager. *)
Definition pin1 (l1 : page_ptr) : gmap UUID (page_ptr * Z) := {[1 := (l1, 1)]}.
Definition idle st ds pages d : Prop := ∃ l1, page1 d = Some l1 ∧ dm_repr st ds pages (pin1 l1) ∅ d.

(** One item, the object [h], is held. *)
Record held st ds pages l1 (i : nat) items (j : nat) raw (h : item_ptr) (di : dataitem) d : Prop := {
  h_rep : dm_repr st ds pages (<[Z.of_nat i + 1 := (di_pg di, 1)]> (pin1 l1)) {[di_uid di := (h, 1)]} d;
  h_page1 : page1 d = Some l1;
  h_pos : (1 ≤ i)%nat;
  h_items : st !! i = Some items;
  h_raw : items !! j = Some raw;
  h_obj : dm_items d !! h = Some di;
  h_off : di_off di = item_offset items j;
  h_len : di_len di = zlen raw;
  h_uid : di_uid di = uid_at i items j;
  h_old : zlen (oldraw di) = zlen raw
}.

(** ** Parts *)

Lemma in_pc_run {A} (m : M pcacher A) d p' o : m (dm_pc d) = (p', o) → in_pc m d = (set_pc p' d, o).
Proof. intros E. unfold in_pc, zoom. by rewrite E. Qed.
Lemma in_pc_same {A} (m : M pcacher A) d o : m (dm_pc d) = (dm_pc d, o) → in_pc m d = (d, o).
Proof. intros E. rewrite (in_pc_run _ _ _ _ E). by destruct d. Qed.
Lemma in_lg_run {A} (m : M L A) d l' o : m (dm_lg d) = (l', o) → in_lg m d = (set_lg l' d, o).
Proof. intros E. unfold in_lg, zoom. by rewrite E. Qed.
Lemma in_pidx_run {A} (m : M pindex A) d x' o : m (pidx d) = (x', o) → in_pidx m d = (set_pidx x' d, o).
Proof. intros E. unfold in_pidx, zoom. by rewrite E. Qed.

Lemma pin1_other l1 (i : nat) : (1 ≤ i)%nat → pin1 l1 !! (Z.of_nat i + 1) = None.
Proof. intros. unfold pin1. apply lookup_singleton_ne. lia. Qed.

Lemma size_pin1 l1 : size (pin1 l1) = 1%nat.
Proof. apply map_size_singleton. Qed.

Lemma pin1_room pages l1 p : pc_rep pages (pin1 l1) p → roomy (MaxHandles (pc_c p)) → has_room (pc_c p).
Proof. intros [_ Hc] [Hm|Hm]; [by left|right]. rewrite (rep_count _ _ Hc), size_pin1. lia. Qed.

Lemma unpin_pin1 l1 (i : nat) l : (1 ≤ i)%nat → unpin (Z.of_nat i + 1) (<[Z.of_nat i + 1 := (l, 1)]> (pin1 l1)) = pin1 l1.
Proof. intros Hi. apply unpin_pin; [|done]. intros h m. by rewrite pin1_other. Qed.

(** Where an item lies. *)
Lemma item_bounds st pages pins p i items j raw :
  store_ok st pages → pc_rep pages pins p → (1 ≤ i)%nat → st !! i = Some items → items !! j = Some raw →
  ∃ pg, pages !! i = Some pg ∧ page_rep items pg ∧ item_offset items j + zlen raw ≤ PAGE_SIZE ∧ Z.of_nat i < 2 ^ 32 - 1 ∧
    address_ok (Z.of_nat i + 1, item_offset items j).
Proof.
  intros [_ Hst] [Hr _] Hi Hit Hj. destruct (Hst _ _ Hi Hit) as (_ & pg & Hpg & Hrep). exists pg.
  pose proof (page_rep_bound _ _ Hrep). pose proof (item_end _ _ _ Hj). pose proof (zlen_nonneg raw).
  pose proof (pages_rep_index _ _ _ _ _ Hr Hpg). pose proof (item_offset_ge items j). rewrite PAGE_SIZE_eq in *.
  split; [done|]. split; [done|]. split; [lia|]. split; [lia|]. split; cbn [fst snd]; lia.
Qed.

(** The bytes of an item in its page. *)
Lemma page_item items pg j raw : page_rep items pg → items !! j = Some raw →
  ∃ rest, drop (Z.to_nat (item_offset items j)) pg = raw ++ rest ∧ slice pg (item_offset items j) (item_offset items j + zlen raw) = Ret raw.
Proof.
  intros Hrep Hj. destruct (page_rep_item _ _ _ _ Hrep Hj) as (free & Hpg & Hlen).
  exists (mjoin (drop (S j) items) ++ free). split; [|by eapply slice_at].
  rewrite Hpg. rewrite drop_app_length'; [done|]. rewrite <- Hlen. apply Nat2Z.id.
Qed.

(** ** Getting an item *)

Lemma ParseDataitem_run pg i items j flag data bytes :
  page_rep items bytes → items !! j = Some (flagged flag data) → item_offset items j + zlen (flagged flag data) ≤ PAGE_SIZE →
  ParseDataitem pg (Z.of_nat i + 1) bytes (item_offset items j) =
    Ret (mkDI pg (item_offset items j) (zlen (flagged flag data)) (make_bytes (zlen (flagged flag data))) (uid_at i items j)).
Proof.
  intros Hrep Hj Hb. destruct (page_item _ _ _ _ Hrep Hj) as (rest & Hdrop & _). pose proof (item_offset_ge items j).
  pose proof (zlen_nonneg (flagged flag data)). pose proof (zlen_nonneg data). rewrite zlen_flagged in *. destruct Hrep as [Hlen _].
  rewrite PAGE_SIZE_eq in *. unfold ParseDataitem. rewrite slice_from_Ret, Hdrop by lia. cbn [mbind outcome_bind].
  unfold WalLog._OF_DATA_SIZE, WalLog._OF_DATA. rewrite (slice_from_at _ [flag] (Uint16ToRaw (zlen data) ++ data ++ rest) 1);
    [|unfold flagged; cbn [app]; by rewrite <- app_assoc|done]. cbn [mbind outcome_bind].
  unfold GetUint16, Uint16ToRaw. rewrite get_be_app by lia. cbn [mbind outcome_bind].
  rewrite zlen_app, zlen_flagged. pose proof (zlen_nonneg rest). by rewrite decide_False by lia.
Qed.

Lemma UUID2Address_uid i items j :
  address_ok (Z.of_nat i + 1, item_offset items j) → UUID2Address (uid_at i items j) = (Z.of_nat i + 1, item_offset items j).
Proof. intros Ha. exact (UUID2Address_Address2UUID (Z.of_nat i + 1, item_offset items j) Ha). Qed.

Lemma getForCacher_item st ds pages l1 i items j flag data d :
  idle st ds pages d → page1 d = Some l1 → (1 ≤ i)%nat → st !! i = Some items → items !! j = Some (flagged flag data) →
  ∃ pg p' di d', di = mkDI pg (item_offset items j) (zlen (flagged flag data)) (make_bytes (zlen (flagged flag data))) (uid_at i items j) ∧
    d' = set_items (dm_items d ++ [di]) (set_pc p' d) ∧
    (∀ c, DataMgr.getForCacher (uid_at i items j) (set_dic c d) = (set_dic c d', Ret (length (dm_items d)))) ∧
    pc_rep pages (<[Z.of_nat i + 1 := (pg, 1)]> (pin1 l1)) p' ∧ MaxHandles (pc_c p') = MaxHandles (pc_c (dm_pc d)).
Proof.
  intros (l1' & Hp1 & []) Hp1' Hi Hit Hj. assert (l1' = l1) as -> by congruence.
  destruct (item_bounds _ _ _ _ _ _ _ _ r_store0 r_pc0 Hi Hit Hj) as (bytes & Hpg & Hrep & Hb & Hix & Ha).
  destruct (GetPage_load pages (pin1 l1) (dm_pc d) i bytes) as (p' & Hget & Hr' & Hm); [done|done|by apply pin1_other|by eapply pin1_room|by rewrite size_pin1|].
  destruct (deref_run _ _ _ _ _ _ _ (proj1 Hr') Hpg (lookup_insert_eq _ _ _)) as (dirty & Hde & _ & _).
  eexists _, p', _, _. split; [done|]. split; [done|]. split; [|split; [exact Hr'|exact Hm]].
  intros c. unfold DataMgr.getForCacher. rewrite (UUID2Address_uid _ _ _ Ha).
  erewrite M_bind_run by (apply in_pc_run; exact Hget). erewrite M_bind_run by (apply in_pc_run; exact Hde).
  cbn [p_pgno p_data]. erewrite (ParseDataitem_run _ _ _ _ _ _ _ Hrep Hj Hb). done.
Qed.

(** [Read] gets the item from the page cache. *)
Lemma get_item st ds pages i items j flag data d :
  idle st ds pages d → (1 ≤ i)%nat → st !! i = Some items → items !! j = Some (flagged flag data) →
  ∃ d' l1 h di, Cacher.Get dic set_dic DataMgr.getForCacher (uid_at i items j) d = (d', Ret h) ∧
    held st ds pages l1 i items j (flagged flag data) h di d'.
Proof.
  intros Hidle Hi Hit Hj. pose proof Hidle as (l1 & Hp1 & []).
  destruct (getForCacher_item _ _ _ _ _ _ _ _ _ _ Hidle Hp1 Hi Hit Hj) as (pg & p' & di & d' & -> & -> & Hget & Hpc & Hm).
  destruct (Get_enter_load ∅ (dic d) (uid_at i items j)) as (c1 & ch & Henter & Hm1 & Hok & _); [done|done|by left|done|].
  destruct (Hok (length (dm_items d))) as (c2 & Hfin & Hrep2 & Hm2).
  eexists _, l1, (length (dm_items d)), (mkDI pg _ _ (make_bytes (zlen (flagged flag data))) _). split; [eapply Get_load; [exact Henter|exact (Hget c1)|exact Hfin]|].
  split; cbn [set_dic set_items set_pc dm_items page1 dic dm_pc dm_lg pidx di_pg di_off di_len di_uid oldraw]; try done.
  - split; cbn [set_dic set_items set_pc dic dm_pc dm_lg pidx]; [exact Hpc|by rewrite Hm|done|exact Hrep2|congruence|done|done].
  - rewrite lookup_app_r by lia. by rewrite Nat.sub_diag.
  - apply zlen_make_bytes, zlen_nonneg.
Qed.

(** ** Using an item *)

Section Held.
Context {st : store} {ds pages : list (list byte)} {l1 : page_ptr} {i : nat} {items : list (list byte)} {j : nat} {raw : list byte}
  {h : item_ptr} {di : dataitem} {d : dataManager L} (Hh : held st ds pages l1 i items j raw h di d).

Lemma held_page : ∃ bytes, pages !! i = Some bytes ∧ page_rep items bytes ∧ item_offset items j + zlen raw ≤ PAGE_SIZE ∧
  Z.of_nat i < 2 ^ 32 - 1 ∧ address_ok (Z.of_nat i + 1, item_offset items j).
Proof. destruct Hh as [[] ? ? ? ? ? ? ? ? ?]. by eapply item_bounds. Qed.

Lemma deref_item_run : deref_item h d = (d, Ret di).
Proof. unfold deref_item. rewrite M_get_bind. by rewrite (h_obj _ _ _ _ _ _ _ _ _ _ _ Hh). Qed.

Lemma held_pin : (<[Z.of_nat i + 1 := (di_pg di, 1)]> (pin1 l1)) !! (Z.of_nat i + 1) = Some (di_pg di, 1).
Proof. apply lookup_insert_eq. Qed.

Lemma item_raw_run : item_raw di d = (d, Ret raw).
Proof.
  destruct held_page as (bytes & Hpg & Hrep & _). destruct Hh as [[] ? ? ? Hraw ? Hoff Hlen ? ?].
  destruct (deref_run _ _ _ _ _ _ _ (proj1 r_pc0) Hpg held_pin) as (dirty & Hde & _ & _).
  unfold item_raw. erewrite M_bind_run by (apply in_pc_same; exact Hde). cbn [p_data].
  destruct (page_item _ _ _ _ Hrep Hraw) as (_ & _ & Hs). by rewrite Hoff, Hlen, Hs.
Qed.

Lemma IsValid_run b rest : raw = b :: rest → IsValid di d = (d, Ret (bool_decide (b = Byte.x00))).
Proof. intros Hraw. unfold IsValid. rewrite (M_bind_run _ _ _ _ _ item_raw_run), Hraw. done. Qed.

Lemma Data_run flag data : raw = flagged flag data → Data h d = (d, Ret data).
Proof.
  intros Hraw. unfold Data. rewrite (M_bind_run _ _ _ _ _ deref_item_run), (M_bind_run _ _ _ _ _ item_raw_run), Hraw.
  unfold lift, WalLog._OF_DATA. rewrite (slice_from_at _ (flag :: Uint16ToRaw (zlen data)) data 3); [done|done|].
  unfold Uint16ToRaw. rewrite zlen_cons, zlen_be_bytes. lia.
Qed.

Lemma ReleaseDataitem_run : ∃ d', ReleaseDataitem h d = (d', Ret tt) ∧ idle st ds pages d'.
Proof.
  destruct held_page as (bytes & Hpg & _). destruct Hh as [[] Hp1 Hi ? ? Hobj ? ? ? ?].
  unfold ReleaseDataitem. rewrite (M_bind_run _ _ _ _ _ deref_item_run).
  destruct (Release_enter_run _ (dic d) (di_uid di) h 1 r_dic0 (lookup_singleton_eq _ _)) as (c1 & Hm1 & Hcase); [done| |].
  { by rewrite map_size_singleton. }
  rewrite decide_True in Hcase by done. destruct Hcase as [Henter (c2 & Hfin & Hrep2 & Hm2)].
  destruct (release_run _ _ _ _ _ _ _ r_pc0 Hpg held_pin) as (p' & Hrel & Hpc' & Hm'); [done| |].
  { rewrite map_size_insert_None, size_pin1 by (by apply pin1_other). done. }
  rewrite unpin_pin1 in Hpc' by done.
  assert (Hrel' : DataMgr.releaseForCacher h (set_dic c1 d) = (set_dic c1 (set_pc p' d), Ret tt)).
  { unfold DataMgr.releaseForCacher, deref_item. rewrite M_bind_assoc, M_get_bind. cbn [set_dic dm_items]. rewrite Hobj, M_lift_bind.
    erewrite in_pc_run by exact Hrel. done. }
  eexists. split; [eapply Release_last; [exact Henter|exact Hrel'|exact Hfin]|]. exists l1. split; [done|].
  split; cbn [set_dic set_items set_pc dic dm_pc dm_lg pidx]; [exact Hpc'|by rewrite Hm'|done| |congruence|done|done].
  unfold unpin in Hrep2. rewrite lookup_singleton_eq, decide_True, delete_singleton_eq in Hrep2 by done. exact Hrep2.
Qed.

(** [Before] marks the page and keeps the old bytes. *)
Lemma Before_run : ∃ d' di', Before h d = (d', Ret tt) ∧ held st ds pages l1 i items j raw h di' d' ∧ oldraw di' = raw ∧
  is_dirty (di_pg di') (dm_pc d').
Proof.
  destruct held_page as (bytes & Hpg & Hrep & _). pose proof Hh as [[] Hp1 Hi Hit Hraw Hobj Hoff Hlen Huid Hold].
  destruct (Dirty_run _ _ _ _ _ _ _ (proj1 r_pc0) Hpg held_pin) as (p1 & Hdirty & Hr1 & Hc1 & Hd1).
  assert (Hpc1 : pc_rep pages (<[Z.of_nat i + 1 := (di_pg di, 1)]> (pin1 l1)) p1) by (split; [exact Hr1|rewrite Hc1; apply r_pc0]).
  destruct (deref_run _ _ _ _ _ _ _ Hr1 Hpg held_pin) as (dirty & Hde & _ & _).
  destruct (page_item _ _ _ _ Hrep Hraw) as (_ & _ & Hs).
  assert (Hitem : item_raw di (set_pc p1 d) = (set_pc p1 d, Ret raw)).
  { unfold item_raw. erewrite M_bind_run by (apply in_pc_run; exact Hde). cbn [p_data]. by rewrite Hoff, Hlen, Hs. }
  assert (Hcopy : copy_at (oldraw di) 0 raw = raw).
  { rewrite (copy_at_piece (oldraw di) [] (oldraw di) [] 0 raw); rewrite ?app_nil_r; [done|done|done|by rewrite Hold]. }
  eexists _, (mkDI (di_pg di) (di_off di) (di_len di) raw (di_uid di)). split; [|split; [|split]].
  - unfold Before. rewrite (M_bind_run _ _ _ _ _ deref_item_run). erewrite M_bind_run by (apply in_pc_run; exact Hdirty).
    rewrite (M_bind_run _ _ _ _ _ Hitem). reflexivity.
  - split; cbn [set_items set_pc dm_items page1 di_pg di_off di_len di_uid oldraw]; try done.
    + split; cbn [set_items set_pc dic dm_pc dm_lg pidx]; [exact Hpc1|by rewrite Hc1|done..].
    + rewrite list_lookup_alter_eq, Hobj. cbn. by rewrite Hcopy.
  - done.
  - exact Hd1.
Qed.

(** Writing other bytes of the same length through [Data()]. *)
Lemma write_Data_run flag (data data' : list byte) :
  raw = flagged flag data → zlen data' = zlen data → is_dirty (di_pg di) (dm_pc d) →
  ∃ d' pages', write_Data h data' d = (d', Ret tt) ∧
    held (<[i := <[j := flagged flag data']> items]> st) ds pages' l1 i (<[j := flagged flag data']> items) j (flagged flag data') h di d'.
Proof.
  intros Hflag Hl Hdirty. destruct held_page as (bytes & Hpg & Hrep & _). pose proof Hh as [[] Hp1 Hi Hit Hraw Hobj Hoff Hlen Huid Hold].
  destruct (deref_run _ _ _ _ _ _ _ (proj1 r_pc0) Hpg held_pin) as (dirty & Hde & _ & _).
  assert (Hsame : zlen (flagged flag data') = zlen raw) by (rewrite Hflag, !zlen_flagged; lia).
  assert (Hcopy : copy_at raw WalLog._OF_DATA data' = flagged flag data').
  { rewrite Hflag. unfold flagged, Uint16ToRaw.
    rewrite (copy_at_piece _ (flag :: be_bytes 2 (zlen data)) data [] 3 data'); [|by rewrite app_nil_r| |done].
    - by rewrite app_nil_r, Hl.
    - rewrite zlen_cons, zlen_be_bytes. lia. }
  pose proof (page_rep_write _ _ _ _ _ Hrep Hraw Hsame) as Hrep'. set (bytes' := copy_at bytes (item_offset items j) (flagged flag data')) in *.
  destruct (set_Data_run _ _ _ _ _ _ _ bytes' (proj1 r_pc0) Hpg held_pin (proj1 Hrep') Hdirty) as (p' & Hset & Hr' & Hc' & _).
  pose proof (lookup_lt_Some _ _ _ Hit) as Hlt. pose proof (lookup_lt_Some _ _ _ Hpg) as Hltp.
  exists (set_pc p' d), (<[i := bytes']> pages). split.
  - unfold write_Data. rewrite (M_bind_run _ _ _ _ _ deref_item_run), (M_bind_run _ _ _ _ _ item_raw_run).
    rewrite Hcopy. unfold set_item_raw. erewrite M_bind_run by (apply in_pc_same; exact Hde). cbn [p_data].
    rewrite Hoff, Hlen, <- Hsame. unfold zlen at 1. rewrite Nat2Z.id, take_ge by done. apply in_pc_run. exact Hset.
  - split; cbn [set_pc dm_items page1]; try done.
    + split; cbn [set_pc dic dm_pc dm_lg pidx]; [split; [exact Hr'|rewrite Hc'; apply r_pc0]|by rewrite Hc'|done..| |].
      * destruct r_idx0 as (Hok & Hdup & Hin). split; [exact Hok|]. split; [exact Hdup|].
        intros pgno fs (i' & items' & -> & Hi' & Hit' & ->)%Hin. destruct (decide (i' = i)) as [->|Hne].
        -- exists i, (<[j := flagged flag data']> items). rewrite list_lookup_insert_eq by done. split_and!; try done.
           assert (items' = items) as -> by congruence. by rewrite (zlen_join_insert items j raw).
        -- exists i', items'. by rewrite list_lookup_insert_ne.
      * destruct r_store0 as [Hlen' Hst]. split; [by rewrite !length_insert|].
        intros i' items' Hi' Hit'. destruct (decide (i' = i)) as [->|Hne].
        -- rewrite list_lookup_insert_eq in Hit' by done. injection Hit' as <-. rewrite list_lookup_insert_eq by done. split; [|by exists bytes'].
           apply Forall_insert; [by apply (Hst i)|rewrite zlen_flagged; pose proof (zlen_nonneg data'); lia].
        -- rewrite list_lookup_insert_ne in Hit' by done. rewrite list_lookup_insert_ne by done. by apply Hst.
    + by apply list_lookup_insert_eq.
    + apply list_lookup_insert_eq. by eapply lookup_lt_Some.
    + rewrite (item_offset_insert items j raw); done.
    + by rewrite Hlen.
    + unfold uid_at. rewrite (item_offset_insert items j raw); done.
    + by rewrite Hold.
Qed.

(** [After] logs the old and the new bytes. *)
Lemma After_run xid old : oldraw di = old →
  let op := Updated xid (Z.of_nat i + 1) (item_offset items j) old raw in
  ∃ d', After xid h d = (d', Ret tt) ∧ held st (ds ++ [wal_bytes op]) pages l1 i items j raw h di d'.
Proof.
  intros Hold' op. destruct held_page as (bytes & Hpg & Hrep & Hb & _). pose proof Hh as [[] Hp1 Hi Hit Hraw Hobj Hoff Hlen Huid Hold].
  assert (Hlog : UpdateLog xid (di_uid di) (oldraw di) raw = Ret (wal_bytes op)) by (rewrite Huid, Hold'; apply UpdateLog_eq; congruence).
  destruct (lg_Log_ok (dm_lg d) ds (wal_bytes op) r_lg0) as (l' & Hrun & Hrep').
  { unfold loggable, op, wal_bytes, LEN_UUID. rewrite zlen_cons, !zlen_app, zlen_XIDToRaw, zlen_UUIDToRaw.
    pose proof (item_offset_ge items j). pose proof (zlen_nonneg raw). rewrite <- Hold', Hold, PAGE_SIZE_eq in *. lia. }
  exists (set_lg l' d). split.
  - unfold After, logDataitem, catch. rewrite (M_bind_run _ _ _ _ _ deref_item_run), (M_bind_run _ _ _ _ _ item_raw_run), Hlog, M_lift_bind.
    by rewrite (in_lg_run _ _ _ _ Hrun).
  - split; cbn [set_lg dm_items page1]; done.
Qed.
End Held.

(** ** The operations on items *)

Lemma Read_run st ds pages i items j flag data d :
  idle st ds pages d → (1 ≤ i)%nat → st !! i = Some items → items !! j = Some (flagged flag data) →
  ∃ d', if decide (flag = Byte.x00) then
    ∃ l1 h di, Read (uid_at i items j) d = (d', Ret (Some h)) ∧ held st ds pages l1 i items j (flagged flag data) h di d'
  else Read (uid_at i items j) d = (d', Ret None) ∧ idle st ds pages d'.
Proof.
  intros Hidle Hi Hit Hj. destruct (get_item _ _ _ _ _ _ _ _ _ Hidle Hi Hit Hj) as (d1 & l1 & h & di & Hget & Hheld).
  assert (Hread : Read (uid_at i items j) d = (if decide (flag = Byte.x00) then mret (Some h) else _ ← ReleaseDataitem h; mret None) d1).
  { unfold Read. rewrite (M_bind_run _ _ _ _ _ Hget), (M_bind_run _ _ _ _ _ (deref_item_run Hheld)).
    rewrite (M_bind_run _ _ _ _ _ (IsValid_run Hheld flag _ eq_refl)). by destruct (decide (flag = Byte.x00)) as [->|Hne];
      [rewrite bool_decide_eq_true_2|rewrite bool_decide_eq_false_2]. }
  rewrite Hread. destruct (decide (flag = Byte.x00)).
  - exists d1, l1, h, di. done.
  - destruct (ReleaseDataitem_run Hheld) as (d2 & Hrel & Hidle2). exists d2. split; [|exact Hidle2]. by rewrite (M_bind_run _ _ _ _ _ Hrel).
Qed.

Lemma read_item_run st ds pages i items j flag data d :
  idle st ds pages d → (1 ≤ i)%nat → st !! i = Some items → items !! j = Some (flagged flag data) →
  ∃ d', read_item (uid_at i items j) d = (d', Ret (if decide (flag = Byte.x00) then Some data else None)) ∧ idle st ds pages d'.
Proof.
  intros Hidle Hi Hit Hj. destruct (Read_run _ _ _ _ _ _ _ _ _ Hidle Hi Hit Hj) as (d1 & Hcase). unfold read_item.
  destruct (decide (flag = Byte.x00)).
  - destruct Hcase as (l1 & h & di & Hrun & Hheld). destruct (ReleaseDataitem_run Hheld) as (d2 & Hrel & Hidle2).
    exists d2. split; [|exact Hidle2]. rewrite (M_bind_run _ _ _ _ _ Hrun), (M_bind_run _ _ _ _ _ (Data_run Hheld flag data eq_refl)).
    by rewrite (M_bind_run _ _ _ _ _ Hrel).
  - destruct Hcase as [Hrun Hidle1]. exists d1. split; [|exact Hidle1]. by rewrite (M_bind_run _ _ _ _ _ Hrun).
Qed.

Lemma write_item_run st ds pages i items j data data' xid d :
  idle st ds pages d → (1 ≤ i)%nat → st !! i = Some items → items !! j = Some (flagged Byte.x00 data) → zlen data' = zlen data →
  let old := flagged Byte.x00 data in let new := flagged Byte.x00 data' in
  let op := Updated xid (Z.of_nat i + 1) (item_offset items j) old new in
  ∃ d' pages', write_item xid (uid_at i items j) data' d = (d', Ret tt) ∧
    idle (<[i := <[j := new]> items]> st) (ds ++ [wal_bytes op]) pages' d'.
Proof.
  intros Hidle Hi Hit Hj Hl old new op. destruct (Read_run _ _ _ _ _ _ _ _ _ Hidle Hi Hit Hj) as (d1 & Hcase).
  rewrite decide_True in Hcase by done. destruct Hcase as (l1 & h & di & Hrun & Hheld).
  destruct (Before_run Hheld) as (d2 & di2 & Hrun2 & Hheld2 & Hold & Hdirty).
  destruct (write_Data_run Hheld2 Byte.x00 data data' eq_refl Hl Hdirty) as (d3 & pages' & Hrun3 & Hheld3).
  destruct (After_run Hheld3 xid _ Hold) as (d4 & Hrun4 & Hheld4).
  destruct (ReleaseDataitem_run Hheld4) as (d5 & Hrun5 & Hidle5).
  exists d5, pages'. split.
  - unfold write_item. rewrite (M_bind_run _ _ _ _ _ Hrun), (M_bind_run _ _ _ _ _ Hrun2), (M_bind_run _ _ _ _ _ Hrun3), (M_bind_run _ _ _ _ _ Hrun4).
    exact Hrun5.
  - unfold op. rewrite (item_offset_insert items j old new) in Hidle5; [exact Hidle5|done|]. unfold old, new. rewrite !zlen_flagged. lia.
Qed.

(** ** Inserting *)

Lemma entries_head pi pi' (pgno : Pgno) fs : entries pi ≡ₚ (pgno, fs) :: entries pi' → NoDup (entries pi).*1 →
  NoDup (entries pi').*1 ∧ (pgno ∉ (entries pi').*1) ∧ ∀ e, e ∈ entries pi ↔ e = (pgno, fs) ∨ e ∈ entries pi'.
Proof.
  intros Hp Hdup. assert (Hdup' : NoDup (pgno :: (entries pi').*1)) by (rewrite <- (fmap_cons fst (pgno, fs)), <- Hp; exact Hdup).
  apply NoDup_cons in Hdup' as [? ?]. split; [done|]. split; [done|]. intros e. rewrite Hp. apply elem_of_cons.
Qed.

Lemma index_ok_taken st pi pi' (pgno : Pgno) fs :
  index_ok st pi → pindex_ok pi' → entries pi ≡ₚ (pgno, fs) :: entries pi' →
  index_ok st pi' ∧ (pgno ∉ (entries pi').*1) ∧
  ∃ i items, pgno = Z.of_nat i + 1 ∧ (1 ≤ i)%nat ∧ st !! i = Some items ∧ fs = PAGE_SIZE - (2 + zlen (mjoin items)).
Proof.
  intros (Hok & Hdup & Hin) Hok' Hp. destruct (entries_head _ _ _ _ Hp Hdup) as (Hdup' & Hnin & Hel).
  split; [|split; [done|apply Hin, Hel; by left]]. split; [done|]. split; [done|]. intros pgno' fs' He. apply Hin, Hel. by right.
Qed.

(** Giving a page back with the space its items leave. *)
Lemma index_ok_add st pi i items :
  index_ok st pi → (Z.of_nat i + 1) ∉ (entries pi).*1 → (1 ≤ i < length st)%nat → 2 + zlen (mjoin items) ≤ PAGE_SIZE →
  ∃ pi', Add (Z.of_nat i + 1) (PAGE_SIZE - (2 + zlen (mjoin items))) pi = (pi', Ret tt) ∧ index_ok (<[i := items]> st) pi' ∧
    (entries pi').*1 ≡ₚ (Z.of_nat i + 1) :: (entries pi).*1.
Proof.
  intros (Hok & Hdup & Hin) Hnin Hi Hb. pose proof (zlen_nonneg (mjoin items)).
  destruct (Add_run pi (Z.of_nat i + 1) (PAGE_SIZE - (2 + zlen (mjoin items))) Hok) as (pi' & Hrun & Hok' & Hp); [lia|].
  exists pi'. split; [exact Hrun|]. split; [|by rewrite Hp]. split; [exact Hok'|]. split.
  - rewrite Hp, fmap_cons. by constructor.
  - intros pgno fs. rewrite Hp. intros [[= -> ->]|Hold]%elem_of_cons.
    + exists i, items. rewrite list_lookup_insert_eq by lia. split_and!; [done|lia|done|done].
    + destruct (Hin _ _ Hold) as (i' & items' & -> & Hi' & Hit' & ->). exists i', items'.
      rewrite list_lookup_insert_ne; [done|]. intros ->. apply Hnin. apply list_elem_of_fmap. by exists (Z.of_nat i' + 1, PAGE_SIZE - (2 + zlen (mjoin items'))).
Qed.

Lemma index_ok_grow st pi more : index_ok st pi → index_ok (st ++ more) pi.
Proof.
  intros (Hok & Hdup & Hin). split; [done|]. split; [done|]. intros pgno fs (i & items & ? & ? & Hit & ?)%Hin.
  exists i, items. split_and!; try done. by apply lookup_app_l_Some.
Qed.

Lemma store_ok_grow st pages : store_ok st pages → store_ok (st ++ [[]]) (pages ++ [PXInitRaw]).
Proof.
  intros [Hl Hst]. split; [rewrite !length_app, Hl; done|]. intros i items Hi [Hit|[Hge Hit]]%lookup_app_Some.
  - destruct (Hst _ _ Hi Hit) as (Hne & pg & Hpg & Hrep). split; [done|]. exists pg. split; [by apply lookup_app_l_Some|done].
  - apply list_lookup_singleton_Some in Hit as [Hit <-]. split; [by apply Forall_nil|]. exists PXInitRaw. split; [|exact PXInitRaw_rep].
    rewrite lookup_app_r by lia. rewrite Hl, Hit. done.
Qed.

Definition same_or_grown (st st' : store) : Prop := st' = st ∨ st' = st ++ [[]].

(** An idle manager that has taken the page [i + 1] out of the index. *)
Definition selected st ds pages i items d : Prop :=
  idle st ds pages d ∧ (Z.of_nat i + 1 ∉ (entries (pidx d)).*1) ∧ (1 ≤ i)%nat ∧ st !! i = Some items.

Lemma Select_some st ds pages size d pi' pgno fs :
  idle st ds pages d → Select size (pidx d) = (pi', Ret (Some (pgno, fs))) → pindex_ok pi' → entries (pidx d) ≡ₚ (pgno, fs) :: entries pi' →
  in_pidx (Select size) d = (set_pidx pi' d, Ret (Some (pgno, fs))) ∧
  ∃ i items, pgno = Z.of_nat i + 1 ∧ fs = PAGE_SIZE - (2 + zlen (mjoin items)) ∧ selected st ds pages i items (set_pidx pi' d).
Proof.
  intros (l1 & Hp1 & []) Hrun Hok Hent. split; [by apply in_pidx_run|].
  destruct (index_ok_taken _ _ _ _ _ r_idx0 Hok Hent) as (Hidx & Hnin & i & items & -> & Hi & Hit & ->).
  exists i, items. split; [done|]. split; [done|]. split; [|split; [exact Hnin|done]]. exists l1. split; [done|]. by split.
Qed.

(** Two tries are enough: a new page is found by the next [Select]. *)
Lemma selectLoop_finds st ds pages size d :
  idle st ds pages d → 0 ≤ size < 8160 → zlen pages + 1 < 2 ^ 32 →
  ∃ d' st' pages' i items, selectLoop 5 size d = (d', Ret (Some (Z.of_nat i + 1, PAGE_SIZE - (2 + zlen (mjoin items))))) ∧
    same_or_grown st st' ∧ selected st' ds pages' i items d' ∧ size < PAGE_SIZE - (2 + zlen (mjoin items)).
Proof.
  intros Hidle Hsz Hlim. pose proof Hidle as (l1 & Hp1 & []). assert (Hmax : PXMaxFreeSpace = 8190) by (unfold PXMaxFreeSpace; rewrite PAGE_SIZE_eq; done).
  cbn [selectLoop]. destruct (Select_run (pidx d) size) as (pi' & r & Hrun & Hcase); [apply r_idx0|lia|].
  destruct r as [[pgno fs]|].
  { destruct Hcase as (Hok & Hent & Hfs). destruct (Select_some _ _ _ _ _ _ _ _ Hidle Hrun Hok Hent) as (Hrun' & i & items & -> & -> & Hsel).
    exists (set_pidx pi' d), st, pages, i, items. split; [by rewrite (M_bind_run _ _ _ _ _ Hrun')|]. split; [by left|]. split; [done|lia]. }
  destruct Hcase as [-> H40]. rewrite (M_bind_run _ _ _ _ _ (in_pidx_run _ _ _ _ Hrun)).
  destruct (NewPage_run pages (pin1 l1) (dm_pc d) PXInitRaw r_pc0 (proj1 PXInitRaw_rep) Hlim) as (p' & Hnew & Hpc' & Hm').
  erewrite M_bind_run by (apply in_pc_run; exact Hnew).
  destruct r_store0 as [Hlen Hst]. assert (Hpg : zlen pages = Z.of_nat (length st)) by (unfold zlen; by rewrite Hlen).
  assert (Hst1 : (1 ≤ length st)%nat).
  { pose proof (rep_pins _ _ _ (proj1 r_pc0) 1 l1 1 (lookup_singleton_eq _ _)). lia. }
  assert (Hst2 : (1 ≤ length st < length (st ++ [[]]))%nat) by (rewrite length_app; cbn; lia).
  assert (Hnin : (Z.of_nat (length st) + 1) ∉ (entries (pidx d)).*1).
  { intros ([pgno fs] & Heq & Hin)%list_elem_of_fmap. cbn in Heq. subst pgno. destruct r_idx0 as (_ & _ & Hall).
    destruct (Hall _ _ Hin) as (i & items & Heq & _ & Hit%lookup_lt_Some & _). lia. }
  destruct (index_ok_add (st ++ [[]]) (pidx d) (length st) []) as (pi2 & Hadd & Hidx2 & _); [by apply index_ok_grow|exact Hnin|exact Hst2|by rewrite PAGE_SIZE_eq|].
  replace (PAGE_SIZE - (2 + zlen (mjoin []))) with PXMaxFreeSpace in Hadd by (unfold PXMaxFreeSpace; done).
  rewrite <- Hpg in Hadd. erewrite M_bind_run by (apply in_pidx_run; cbn [set_pc set_pidx pidx]; exact Hadd).
  rewrite list_insert_id in Hidx2 by (rewrite lookup_app_r, Nat.sub_diag; done).
  set (d2 := set_pidx pi2 _).
  assert (Hidle2 : idle (st ++ [[]]) ds (pages ++ [PXInitRaw]) d2).
  { exists l1. split; [done|]. split; cbn [d2 set_pidx set_pc dm_pc dm_lg dic pidx]; [exact Hpc'|by rewrite Hm'|done..|].
    by apply store_ok_grow. }
  destruct (Select_run pi2 size) as (pi3 & r & Hrun3 & Hcase3); [apply Hidx2|lia|].
  destruct r as [[pgno fs]|].
  - destruct Hcase3 as (Hok & Hent & Hfs). destruct (Select_some _ _ _ _ _ _ _ _ Hidle2 Hrun3 Hok Hent) as (Hrun' & i & items & -> & -> & Hsel).
    exists (set_pidx pi3 d2), (st ++ [[]]), (pages ++ [PXInitRaw]), i, items. split; [by rewrite (M_bind_run _ _ _ _ _ Hrun')|].
    split; [by right|]. split; [done|lia].
  - exfalso. destruct Hcase3 as [_ H40'].
    assert (Hx : ∃ l, pi2 !! 40%nat = Some (l ++ [(zlen pages + 1, PXMaxFreeSpace)])).
    { revert Hadd. unfold Add. rewrite Hmax, M_get_bind. unfold _THRESHOLD, _NO_INTERVAL. rewrite PAGE_SIZE_eq. change (8190 ÷ (8192 ÷ 40)) with 40.
      rewrite (idx_Ret _ 40 [] ltac:(lia) H40), M_lift_bind. intros [= <-]. exists []. rewrite list_lookup_insert_eq; [done|].
      by eapply lookup_lt_Some. }
    destruct Hx as (l & Hx). rewrite H40' in Hx. by destruct l.
Qed.

Lemma WrapDataitemRaw_flagged data : zlen data < 2 ^ 16 → WrapDataitemRaw data = flagged Byte.x00 data.
Proof. apply WrapDataitemRaw_eq. Qed.

(** The page session of [Insert]: log, write, release. *)
Definition insert_session (xid : XID) (pg : page_ptr) (pgno : Pgno) raw : M (dataManager L) UUID :=
  p ← in_pc (deref pg);
  log ← lift (InsertLog xid (p_pgno p) (p_data p) raw);
  _ ← in_lg (lg_Log log);
  offset ← in_pc (write_page pg (λ bytes, PXInsert bytes raw));
  _ ← in_pc (Pcacher.release pg);
  mret (Address2UUID pgno offset).

Definition inserted_op (xid : XID) (i : nat) (items : list (list byte)) raw : wal_op :=
  Inserted xid (Z.of_nat i + 1) (item_offset items (length items)) raw.

Lemma store_ok_insert st pages i items raw bytes :
  store_ok st pages → (1 ≤ i)%nat → st !! i = Some items → 0 < zlen raw → page_rep (items ++ [raw]) bytes →
  store_ok (<[i := items ++ [raw]]> st) (<[i := bytes]> pages).
Proof.
  intros [Hlen Hst] Hi Hit Hraw Hrep. pose proof (lookup_lt_Some _ _ _ Hit) as Hlt. split; [by rewrite !length_insert|].
  intros i' items' Hi' Hit'. destruct (decide (i' = i)) as [->|Hne].
  - rewrite list_lookup_insert_eq in Hit' by done. injection Hit' as <-. rewrite list_lookup_insert_eq by lia. split; [|by exists bytes].
    apply Forall_app. split; [by apply (Hst i)|]. by apply Forall_singleton.
  - rewrite list_lookup_insert_ne in Hit' by done. rewrite list_lookup_insert_ne by done. by apply Hst.
Qed.

Lemma insert_session_run st ds pages i items raw xid d :
  selected st ds pages i items d → 0 < zlen raw < 8192 → 2 + zlen (mjoin items) + zlen raw ≤ PAGE_SIZE →
  ∃ d1 pg d2 pages' bytes dirty l1,
    in_pc (GetPage (Z.of_nat i + 1)) d = (d1, Ret pg) ∧
    insert_session xid pg (Z.of_nat i + 1) raw d1 = (d2, Ret (uid_at i items (length items))) ∧
    page1 d2 = Some l1 ∧ pc_rep pages' (pin1 l1) (dm_pc d2) ∧ roomy (MaxHandles (pc_c (dm_pc d2))) ∧
    lg_rep (dm_lg d2) (ds ++ [wal_bytes (inserted_op xid i items raw)]) ∧ dic d2 = dic d ∧ pidx d2 = pidx d ∧
    store_ok (<[i := items ++ [raw]]> st) pages' ∧ page_rep (items ++ [raw]) bytes ∧
    pc_heap (dm_pc d2) !! pg = Some (mkPage (Z.of_nat i + 1) bytes dirty).
Proof.
  intros ((l1 & Hp1 & []) & Hnin & Hi & Hit) Hsz Hb. pose proof r_store0 as [_ Hst]. destruct (Hst _ _ Hi Hit) as (_ & bytes & Hpg & Hrep).
  destruct (GetPage_load pages (pin1 l1) (dm_pc d) i bytes) as (p1 & Hget & [Hr1 Hc1] & Hm1);
    [done|done|by apply pin1_other|by eapply pin1_room|by rewrite size_pin1|].
  set (l := length (pc_heap (dm_pc d))) in *. set (pins1 := <[_ := _]> (pin1 l1)) in *.
  assert (Hpin1 : pins1 !! (Z.of_nat i + 1) = Some (l, 1)) by apply lookup_insert_eq.
  destruct (deref_run _ _ _ _ _ _ _ Hr1 Hpg Hpin1) as (dirty0 & Hde & _ & _).
  destruct (PXInsert_rep _ _ _ Hrep Hb) as (bytes' & Hins & Hrep').
  assert (Hlen' : zlen bytes' = PAGE_SIZE) by apply Hrep'.
  destruct (write_page_run _ _ _ _ _ _ _ (λ bytes, PXInsert bytes raw) bytes' _ Hr1 Hpg Hpin1 Hins Hlen') as (p2 & Hwrite & Hr2 & Hc2).
  assert (Hpg2 : <[i := bytes']> pages !! i = Some bytes') by (apply list_lookup_insert_eq; by eapply lookup_lt_Some).
  destruct (deref_run _ _ _ _ _ _ _ Hr2 Hpg2 Hpin1) as (dirty2 & _ & _ & Hobj2).
  assert (Hszp : size pins1 = 2%nat) by (unfold pins1; rewrite map_size_insert_None, size_pin1; [done|by apply pin1_other]).
  destruct (release_run (<[i := bytes']> pages) pins1 p2 i bytes' l 1) as (p3 & Hrel & Hpc3 & Hm3); [|done|done|done|by rewrite Hszp|].
  { split; [exact Hr2|by rewrite Hc2]. }
  destruct (release_keeps _ _ _ _ Hrel _ _ Hobj2) as (dirty3 & Hobj3).
  destruct (lg_Log_ok (dm_lg d) ds (wal_bytes (inserted_op xid i items raw)) r_lg0) as (l' & Hlog & Hlg').
  { unfold loggable, inserted_op, wal_bytes, Uint32ToRaw. rewrite zlen_cons, !zlen_app, zlen_XIDToRaw, zlen_be_bytes, zlen_OffsetToRaw. lia. }
  unfold pins1 in Hpc3. rewrite unpin_pin1 in Hpc3 by done.
  exists (set_pc p1 d), l, (set_pc p3 (set_lg l' d)), (<[i := bytes']> pages), bytes', dirty3, l1.
  assert (Hlog2 : InsertLog xid (Z.of_nat i + 1) bytes raw = Ret (wal_bytes (inserted_op xid i items raw))).
  { apply InsertLog_eq. unfold PxFSO. rewrite (pxRawFSO_rep _ _ Hrep). unfold item_offset. by rewrite take_ge. }
  split; [by apply in_pc_run|]. split; [|split_and!; try done].
  - unfold insert_session. erewrite M_bind_run by (apply in_pc_same; exact Hde). cbn [p_pgno p_data]. rewrite Hlog2, M_lift_bind.
    erewrite M_bind_run by (apply in_lg_run; exact Hlog). erewrite M_bind_run by (apply in_pc_run; exact Hwrite).
    erewrite M_bind_run by (apply in_pc_run; exact Hrel). reflexivity.
  - cbn [set_pc set_lg dm_pc]. congruence.
  - apply store_ok_insert; [done|done|done|lia|done].
Qed.

Lemma Insert_run st ds pages xid data d :
  idle st ds pages d → zlen data ≤ 8156 → zlen pages + 1 < 2 ^ 32 →
  ∃ d' st1 pages' i items, let raw := flagged Byte.x00 data in
    Insert xid data d = (d', Ret (uid_at i items (length items))) ∧
    same_or_grown st st1 ∧ (1 ≤ i)%nat ∧ st1 !! i = Some items ∧ 2 + zlen (mjoin items) + zlen raw ≤ PAGE_SIZE ∧
    idle (<[i := items ++ [raw]]> st1) (ds ++ [wal_bytes (inserted_op xid i items raw)]) pages' d'.
Proof.
  intros Hidle Hdata Hlim. pose proof (zlen_nonneg data). assert (Hmax : PXMaxFreeSpace = 8190) by (unfold PXMaxFreeSpace; rewrite PAGE_SIZE_eq; done).
  pose proof (zlen_flagged Byte.x00 data) as Hraw. set (raw := flagged Byte.x00 data) in *.
  destruct (selectLoop_finds _ _ _ (zlen raw) _ Hidle) as (d1 & st1 & pages1 & i & items & Hsel & Hgrow & Hs & Hroom); [lia|done|].
  assert (Hb : 2 + zlen (mjoin items) + zlen raw ≤ PAGE_SIZE) by (rewrite PAGE_SIZE_eq in *; lia).
  destruct (insert_session_run _ _ _ _ _ raw xid _ Hs) as (d2 & pg & d3 & pages' & bytes & dirty & l1 & Hget & Hrun & Hp1 & Hpc & Hm & Hlg & Hdic & Hpidx & Hst & Hrep & Hobj);
    [lia|exact Hb|].
  pose proof Hs as ((l1' & _ & Hr1) & Hnin & Hi & Hit). pose proof (lookup_lt_Some _ _ _ Hit) as Hlt.
  destruct (index_ok_add st1 (pidx d1) i (items ++ [raw]) (r_idx _ _ _ _ _ _ Hr1) Hnin) as (pi' & Hadd & Hidx' & _); [lia|by apply page_rep_bound in Hrep|].
  exists (set_pidx pi' d3), st1, pages', i, items. cbv zeta. split; [|split; [done|split; [done|split; [done|split; [done|]]]]].
  - unfold Insert. rewrite WrapDataitemRaw_flagged by lia. fold raw. rewrite decide_False by lia.
    rewrite (M_bind_run _ _ _ _ _ Hsel). unfold catch at 1. rewrite Hget. unfold deferred. fold (insert_session xid pg (Z.of_nat i + 1) raw).
    assert (Hdef : putBack (Z.of_nat i + 1) (PAGE_SIZE - (2 + zlen (mjoin items))) (Some pg) d3 = (set_pidx pi' d3, Ret tt)).
    { unfold putBack. erewrite M_bind_run by (apply in_pc_same; unfold deref; rewrite M_get_bind, Hobj; reflexivity). cbn [p_data].
      rewrite (PXFreeSpace_rep _ _ Hrep), M_lift_bind. apply in_pidx_run. by rewrite Hpidx. }
    unfold catch. match goal with |- context [?m d2] => change (m d2) with (insert_session xid pg (Z.of_nat i + 1) raw d2) end.
    rewrite Hrun. by rewrite (M_bind_run _ _ _ _ _ Hdef).
  - exists l1. split; [done|]. split; cbn [set_pidx dm_pc dm_lg dic pidx]; [exact Hpc|exact Hm|exact Hlg|rewrite Hdic; apply Hr1|rewrite Hdic; apply Hr1|exact Hidx'|exact Hst].
Qed.
End Repr.

(** * The items of a store *)

Lemma flagged_inj flag flag' data data' : flagged flag data = flagged flag' data' → flag = flag' ∧ data = data'.
Proof.
  intros Heq. split; [by apply (f_equal head) in Heq; injection Heq|]. apply (f_equal (drop 3)) in Heq. exact Heq.
Qed.

(** Every item has an address of its own. *)
Definition bounded (st : store) : Prop :=
  ∀ i items, (1 ≤ i)%nat → st !! i = Some items → nonempty_items items ∧ 2 + zlen (mjoin items) ≤ PAGE_SIZE ∧ Z.of_nat i < 2 ^ 32 - 1.

Lemma bounded_address st i items j : bounded st → (1 ≤ i)%nat → st !! i = Some items → address_ok (Z.of_nat i + 1, item_offset items j).
Proof.
  intros Hb Hi Hit. destruct (Hb _ _ Hi Hit) as (_ & Hs & Hix). pose proof (item_offset_ge items j).
  assert (item_offset items j ≤ 2 + zlen (mjoin items)).
  { unfold item_offset. rewrite <- (take_drop j items) at 2. rewrite mjoin_app, zlen_app. pose proof (zlen_nonneg (mjoin (drop j items))). lia. }
  rewrite PAGE_SIZE_eq in *. split; cbn [fst snd]; lia.
Qed.

Lemma uid_at_inj st i items j i' items' j' :
  bounded st → (1 ≤ i)%nat → (1 ≤ i')%nat → st !! i = Some items → st !! i' = Some items' → uid_at i items j = uid_at i' items' j' →
  i = i' ∧ items = items' ∧ item_offset items j = item_offset items' j'.
Proof.
  intros Hb Hi Hi' Hit Hit' Heq. apply (f_equal UUID2Address) in Heq.
  rewrite !UUID2Address_uid in Heq by (by eapply bounded_address). injection Heq as Heq1 Heq2. assert (i = i') as <- by lia.
  split; [done|]. split; [congruence|done].
Qed.

Lemma uid_at_range st i items j : bounded st → (1 ≤ i)%nat → st !! i = Some items → 0 < uid_at i items j < INF.
Proof.
  intros Hb Hi Hit. pose proof (bounded_address _ _ _ j Hb Hi Hit) as Ha. unfold uid_at. rewrite Address2UUID_value by done.
  destruct Ha as [Ha1 Ha2]. cbn [fst snd] in *. unfold INF. lia.
Qed.

(** Where the end of a page is, there is no item yet. *)
Lemma stored_fresh st i items data :
  bounded st → (1 ≤ i)%nat → st !! i = Some items → ¬ stored st (uid_at i items (length items)) data.
Proof.
  intros Hb Hi Hit (i' & items' & j' & Hi' & Hit' & Hj' & Heq).
  destruct (uid_at_inj _ _ _ _ _ _ _ Hb Hi Hi' Hit Hit' Heq) as (<- & <- & Hoff).
  pose proof (item_end _ _ _ Hj') as He. rewrite zlen_flagged in He. pose proof (zlen_nonneg data).
  unfold item_offset at 1 in Hoff. rewrite take_ge in Hoff by done. lia.
Qed.

Lemma stored_grow st uid data : stored (st ++ [[]]) uid data ↔ stored st uid data.
Proof.
  split; intros (i & items & j & Hi & Hit & Hj & ->); exists i, items, j; split_and!; try done.
  - apply lookup_app_Some in Hit as [?|[_ Hit]]; [done|]. apply list_lookup_singleton_Some in Hit as [_ <-]. done.
  - by apply lookup_app_l_Some.
Qed.

Lemma stored_insert st i items data uid data' :
  (1 ≤ i)%nat → st !! i = Some items →
  stored (<[i := items ++ [flagged Byte.x00 data]]> st) uid data' ↔
    stored st uid data' ∨ uid = uid_at i items (length items) ∧ data' = data.
Proof.
  intros Hi Hit. pose proof (lookup_lt_Some _ _ _ Hit) as Hlt. split.
  - intros (i' & items' & j & Hi' & Hit' & Hj & ->). destruct (decide (i' = i)) as [->|Hne].
    + rewrite list_lookup_insert_eq in Hit' by done. injection Hit' as <-. apply lookup_app_Some in Hj as [Hj|[Hge Hj]].
      * left. exists i, items, j. split_and!; try done. unfold uid_at. rewrite item_offset_app; [done|]. by apply lookup_lt_Some in Hj; lia.
      * right. apply list_lookup_singleton_Some in Hj as [Hj [_ <-]%flagged_inj]. split; [|done]. assert (j = length items) as -> by lia.
        unfold uid_at. by rewrite item_offset_app.
    + rewrite list_lookup_insert_ne in Hit' by done. left. by exists i', items', j.
  - intros [(i' & items' & j & Hi' & Hit' & Hj & ->)|[-> ->]].
    + destruct (decide (i' = i)) as [->|Hne].
      * assert (items' = items) as -> by congruence. exists i, (items ++ [flagged Byte.x00 data]), j. rewrite list_lookup_insert_eq by done.
        split_and!; try done; [by apply lookup_app_l_Some|]. unfold uid_at. rewrite item_offset_app; [done|]. by apply lookup_lt_Some in Hj; lia.
      * exists i', items', j. by rewrite list_lookup_insert_ne.
    + exists i, (items ++ [flagged Byte.x00 data]), (length items). rewrite list_lookup_insert_eq by done.
      split_and!; try done; [by rewrite lookup_app_r, Nat.sub_diag by done|]. unfold uid_at. by rewrite item_offset_app.
Qed.

Lemma stored_update st i items j data data' uid d :
  bounded st → (1 ≤ i)%nat → st !! i = Some items → items !! j = Some (flagged Byte.x00 data) → zlen data' = zlen data →
  stored (<[i := <[j := flagged Byte.x00 data']> items]> st) uid d ↔
    uid = uid_at i items j ∧ d = data' ∨ uid ≠ uid_at i items j ∧ stored st uid d.
Proof.
  intros Hb Hi Hit Hj Hl. pose proof (lookup_lt_Some _ _ _ Hit) as Hlt. pose proof (lookup_lt_Some _ _ _ Hj) as Hltj.
  assert (Hoff : ∀ k, item_offset (<[j := flagged Byte.x00 data']> items) k = item_offset items k)
    by (intros k; apply (item_offset_insert _ _ (flagged Byte.x00 data)); [done|rewrite !zlen_flagged; lia]).
  assert (Huid : ∀ k, uid_at i (<[j := flagged Byte.x00 data']> items) k = uid_at i items k) by (intros k; unfold uid_at; by rewrite Hoff).
  assert (Hother : ∀ i' items' k r, (1 ≤ i')%nat → st !! i' = Some items' → items' !! k = Some r → ¬ (i' = i ∧ k = j) → uid_at i' items' k ≠ uid_at i items j).
  { intros i' items' k r Hi' Hit' Hk Hne Heq. destruct (uid_at_inj _ _ _ _ _ _ _ Hb Hi' Hi Hit' Hit Heq) as (-> & -> & Ho).
    apply Hne. split; [done|]. destruct (Hb _ _ Hi Hit) as [Hnon _]. by eapply item_offset_inj. }
  split.
  - intros (i' & items' & k & Hi' & Hit' & Hk & ->). destruct (decide (i' = i)) as [->|Hne].
    + rewrite list_lookup_insert_eq in Hit' by done. injection Hit' as <-. rewrite Huid. destruct (decide (k = j)) as [->|Hnk].
      * rewrite list_lookup_insert_eq in Hk by done. apply (inj Some), flagged_inj in Hk as [_ <-]. by left.
      * rewrite list_lookup_insert_ne in Hk by done. right. split; [|by exists i, items, k]. eapply Hother; [done..|]. by intros [].
    + rewrite list_lookup_insert_ne in Hit' by done. right. split; [|by exists i', items', k]. eapply Hother; [done..|]. by intros [].
  - intros [[-> ->]|[Hne (i' & items' & k & Hi' & Hit' & Hk & ->)]].
    + exists i, (<[j := flagged Byte.x00 data']> items), j. rewrite !list_lookup_insert_eq by done. by rewrite Huid.
    + destruct (decide (i' = i)) as [->|Hni].
      * assert (items' = items) as -> by congruence. exists i, (<[j := flagged Byte.x00 data']> items), k. rewrite list_lookup_insert_eq by done.
        rewrite list_lookup_insert_ne by (by intros ->). by rewrite Huid.
      * exists i', items', k. by rewrite list_lookup_insert_ne.
Qed.

(** * The contract *)

Section Contract.
Context {L : Type} `{!LoggerI L} `{!LoggerOk L}.
Implicit Types (d : dataManager L) (items : gmap UUID (list byte)).

(** The log has a record for every change since the file was created. *)
Definition logged d (ops : list wal_op) (st : store) : Prop :=
  ∃ pages, idle st (wal_bytes <$> ops) pages d ∧ history (length st) ops st.

(** An idle manager whose valid items are [items], by the records [ops]. *)
Definition explained d (ops : list wal_op) items : Prop :=
  ∃ st, logged d ops st ∧ ∀ uid data, items !! uid = Some data ↔ stored st uid data.

(** All records are of transactions in [W]. *)
Definition represents_by (W : XID → Prop) d items : Prop := ∃ ops, explained d ops items ∧ ∀ op, op ∈ ops → W (wal_xid op).
Definition represents := represents_by (λ _, True).

(** An insertion adds at most one page. *)
Definition room d (n : nat) : Prop := noPages (dm_pc d) + Z.of_nat n < 2 ^ 32.

Lemma idle_bounded st ds pages d : idle st ds pages d → bounded st.
Proof.
  intros (l1 & _ & []) i items Hi Hit. destruct r_store0 as [_ Hst]. destruct (Hst _ _ Hi Hit) as (Hne & pg & Hpg & Hrep).
  split; [done|]. split; [by eapply page_rep_bound|]. by eapply (pages_rep_index _ _ _ _ _ (proj1 r_pc0)).
Qed.

Lemma idle_noPages st ds pages d : idle st ds pages d → noPages (dm_pc d) = zlen pages.
Proof. intros (l1 & _ & []). apply (rep_no _ _ _ (proj1 r_pc0)). Qed.

Lemma idle_pages st ds pages d : idle st ds pages d → noPages (dm_pc d) = zlen st.
Proof. intros Hi. rewrite (idle_noPages _ _ _ _ Hi). destruct Hi as (l1 & _ & []). destruct r_store0 as [Hl _]. unfold zlen. lia. Qed.

Lemma same_or_grown_stored st st' uid data : same_or_grown st st' → stored st' uid data ↔ stored st uid data.
Proof. intros [->| ->]; [done|apply stored_grow]. Qed.

Lemma bounded_insert st (i : nat) (its : list (list byte)) raw : bounded (<[i := its ++ [raw]]> st) → (1 ≤ i)%nat → st !! i = Some its → bounded st.
Proof.
  intros Hb Hi Hit i' its' Hi' Hit'. pose proof (lookup_lt_Some _ _ _ Hit). destruct (decide (i' = i)) as [->|Hne].
  - assert (its' = its) as -> by congruence. destruct (Hb i (its ++ [raw]) Hi) as (Hne & Hs & Hix); [by apply list_lookup_insert_eq|].
    rewrite mjoin_snoc, zlen_app in Hs. pose proof (zlen_nonneg raw). apply Forall_app in Hne as [Hne _]. split; [done|]. split; [lia|done].
  - apply (Hb i' its' Hi'). by rewrite list_lookup_insert_ne.
Qed.

Lemma history_grow n ops st : history n ops st → history (S n) ops (st ++ [[]]).
Proof.
  induction 1 as [|ops st xid i items raw Hh IH Hi Hit Hraw Hroom|ops st xid i items j old new Hh IH Hit Hj Hl].
  - rewrite <- replicate_S_end. apply history_new.
  - rewrite <- insert_app_l by (by eapply lookup_lt_Some). eapply history_insert; [exact IH|done|by apply lookup_app_l_Some|done|done].
  - rewrite <- insert_app_l by (by eapply lookup_lt_Some). eapply history_update; [exact IH|by apply lookup_app_l_Some|done|done].
Qed.

Lemma history_loggable n ops st : history n ops st → Forall loggable (wal_bytes <$> ops).
Proof.
  intros Hh. apply Forall_fmap, Forall_forall. intros op Hop. unfold compose. destruct (history_ops _ _ _ Hh _ Hop) as (i & items & j & raw & _ & _ & Hit & Hj & _ & Hz & Hs).
  destruct (history_pages _ _ _ Hh _ _ Hit) as (_ & Hb & _). pose proof (item_end _ _ _ Hj). pose proof (item_offset_ge items j). pose proof (zlen_nonneg raw). rewrite PAGE_SIZE_eq in *.
  destruct op as [xid p o r|xid p o old new]; cbn in Hz, Hs; unfold loggable, wal_bytes, Uint32ToRaw.
  - rewrite zlen_cons, !zlen_app, zlen_XIDToRaw, zlen_be_bytes, zlen_OffsetToRaw. lia.
  - rewrite zlen_cons, !zlen_app, zlen_XIDToRaw, zlen_UUIDToRaw. lia.
Qed.

(** An insertion and an update add the record that explains them. *)
Lemma logged_Insert d ops st xid data : logged d ops st → zlen data ≤ ITEM_LIMIT → noPages (dm_pc d) + 1 < 2 ^ 32 →
  ∃ d' st1 i its, Insert xid data d = (d', Ret (uid_at i its (length its))) ∧ same_or_grown st st1 ∧ (1 ≤ i)%nat ∧ st1 !! i = Some its ∧
    logged d' (ops ++ [Inserted xid (Z.of_nat i + 1) (item_offset its (length its)) (WrapDataitemRaw data)]) (<[i := its ++ [flagged Byte.x00 data]]> st1).
Proof.
  intros (pages & Hidle & Hh) Hd Hp. rewrite (idle_noPages _ _ _ _ Hidle) in Hp. unfold ITEM_LIMIT in Hd.
  destruct (Insert_run _ _ _ xid data _ Hidle Hd Hp) as (d' & st1 & pages' & i & its & Hrun & Hgrow & Hi & Hit & Hroom & Hidle').
  exists d', st1, i, its. split_and!; [exact Hrun|exact Hgrow|exact Hi|exact Hit|]. rewrite WrapDataitemRaw_flagged by lia.
  exists pages'. split; [by rewrite fmap_app|]. rewrite length_insert.
  eapply history_insert; [|done|done|rewrite zlen_flagged; pose proof (zlen_nonneg data); lia|done].
  destruct Hgrow as [->| ->]; [exact Hh|]. rewrite length_app, Nat.add_comm. by apply history_grow.
Qed.

Lemma logged_Write d ops st xid i its j old data : logged d ops st → (1 ≤ i)%nat → st !! i = Some its → its !! j = Some (flagged Byte.x00 old) → zlen data = zlen old →
  ∃ d', write_item xid (uid_at i its j) data d = (d', Ret tt) ∧
    logged d' (ops ++ [Updated xid (Z.of_nat i + 1) (item_offset its j) (WrapDataitemRaw old) (WrapDataitemRaw data)])
      (<[i := <[j := flagged Byte.x00 data]> its]> st).
Proof.
  intros (pages & Hidle & Hh) Hi Hit Hj Hl. assert (Hsz : zlen old < 2 ^ 16).
  { destruct (idle_bounded _ _ _ _ Hidle _ _ Hi Hit) as (_ & Hb & _). pose proof (item_end _ _ _ Hj) as He. pose proof (item_offset_ge its j).
    rewrite zlen_flagged in He. rewrite PAGE_SIZE_eq in Hb. lia. }
  destruct (write_item_run _ _ _ _ _ _ _ data xid _ Hidle Hi Hit Hj Hl) as (d' & pages' & Hrun & Hidle').
  exists d'. split; [exact Hrun|]. rewrite !WrapDataitemRaw_flagged by lia.
  exists pages'. split; [rewrite fmap_app; exact Hidle'|]. rewrite length_insert. eapply history_update; [done|done|done|rewrite !zlen_flagged; lia].
Qed.

Lemma logged_pages d ops st : logged d ops st → noPages (dm_pc d) = zlen st ∧ bounded st.
Proof. intros (pages & Hidle & _). split; [by eapply idle_pages|by eapply idle_bounded]. Qed.

Lemma explained_Read d ops items uid data : explained d ops items → items !! uid = Some data →
  ∃ d', read_item uid d = (d', Ret (Some data)) ∧ explained d' ops items.
Proof.
  intros (st & (pages & Hidle & Hh) & Hitems) Hu. pose proof Hu as (i & its & j & Hi & Hit & Hj & ->)%Hitems.
  destruct (read_item_run _ _ _ _ _ _ _ _ _ Hidle Hi Hit Hj) as (d' & Hrun & Hidle'). exists d'. split; [exact Hrun|]. exists st. split; [by exists pages|done].
Qed.

Lemma explained_Insert d ops items xid data n : explained d ops items → zlen data ≤ ITEM_LIMIT → room d (S n) →
  ∃ d' uid op, Insert xid data d = (d', Ret uid) ∧ items !! uid = None ∧ 0 < uid < INF ∧ wal_xid op = xid ∧
    explained d' (ops ++ [op]) (<[uid := data]> items) ∧ room d' n.
Proof.
  unfold room. intros (st & Hlog & Hitems) Hd Hp. destruct (logged_pages _ _ _ Hlog) as [Hn0 _].
  destruct (logged_Insert d ops st xid data Hlog Hd ltac:(lia)) as (d' & st1 & i & its & Hrun & Hgrow & Hi & Hit & Hlog').
  destruct (logged_pages _ _ _ Hlog') as [Hn' Hb']. pose proof (bounded_insert _ _ _ _ Hb' Hi Hit) as Hb.
  assert (Hfresh : items !! uid_at i its (length its) = None).
  { destruct (items !! _) as [data'|] eqn:E; [|done]. apply Hitems in E. rewrite <- (same_or_grown_stored _ _ _ _ Hgrow) in E.
    by apply stored_fresh in E. }
  eexists d', _, _. split; [exact Hrun|]. split; [exact Hfresh|]. split; [by eapply uid_at_range|]. split; [|split].
  2: { eexists. split; [exact Hlog'|]. intros uid data'. rewrite stored_insert, (same_or_grown_stored _ _ _ _ Hgrow), <- Hitems by done.
    rewrite lookup_insert_Some. split; [intros [[<- <-]|[_ ?]]; auto|]. intros [E|[-> ->]]; [|by left]. right. split; [|done]. intros <-. congruence. }
  - done.
  - rewrite Hn'. unfold zlen in *. rewrite length_insert. destruct Hgrow as [->| ->]; [lia|]. rewrite length_app. cbn. lia.
Qed.

Lemma explained_Write d ops items xid uid old data : explained d ops items → items !! uid = Some old → zlen data = zlen old →
  ∃ d' op, write_item xid uid data d = (d', Ret tt) ∧ wal_xid op = xid ∧ explained d' (ops ++ [op]) (<[uid := data]> items) ∧ (∀ n, room d n → room d' n).
Proof.
  intros (st & Hlog & Hitems) Hu Hl. pose proof Hu as (i & its & j & Hi & Hit & Hj & ->)%Hitems. destruct (logged_pages _ _ _ Hlog) as [Hn Hb].
  destruct (logged_Write _ _ _ xid _ _ _ _ data Hlog Hi Hit Hj Hl) as (d' & Hrun & Hlog'). destruct (logged_pages _ _ _ Hlog') as [Hn' _].
  eexists d', _. split; [exact Hrun|]. split; [|split].
  2: { eexists. split; [exact Hlog'|]. intros uid data'. rewrite (stored_update _ _ _ _ old) by done. rewrite <- Hitems, lookup_insert_Some. naive_solver. }
  - done.
  - intros n. unfold room. rewrite Hn, Hn'. unfold zlen. by rewrite length_insert.
Qed.

Section Writers.
Context (W : XID → Prop) (W_super : W SUPER_XID).

Lemma represents_Read d items uid data : represents_by W d items → items !! uid = Some data →
  ∃ d', read_item uid d = (d', Ret (Some data)) ∧ represents_by W d' items.
Proof. intros (ops & He & Hw) Hu. destruct (explained_Read _ _ _ _ _ He Hu) as (d' & Hrun & He'). exists d'. split; [exact Hrun|]. by exists ops. Qed.

Lemma writers_snoc ops op : (∀ o, o ∈ ops → W (wal_xid o)) → W (wal_xid op) → ∀ o, o ∈ ops ++ [op] → W (wal_xid o).
Proof. intros Hall Hop o [Ho| ->%list_elem_of_singleton]%elem_of_app; auto. Qed.

Lemma represents_Insert d items xid data n : represents_by W d items → W xid → zlen data ≤ ITEM_LIMIT → room d (S n) →
  ∃ d' uid, Insert xid data d = (d', Ret uid) ∧ items !! uid = None ∧ 0 < uid < INF ∧ represents_by W d' (<[uid := data]> items) ∧ room d' n.
Proof.
  intros (ops & He & Hw) Hx Hd Hr. destruct (explained_Insert _ _ _ xid data n He Hd Hr) as (d' & uid & op & Hrun & Hf & Hu & Hop & He' & Hr').
  exists d', uid. split_and!; try done; try apply Hu. eexists. split; [exact He'|]. apply writers_snoc; [done|by rewrite Hop].
Qed.

Lemma represents_Write d items xid uid old data : represents_by W d items → W xid → items !! uid = Some old → zlen data = zlen old →
  ∃ d', write_item xid uid data d = (d', Ret tt) ∧ represents_by W d' (<[uid := data]> items) ∧ (∀ n, room d n → room d' n).
Proof.
  intros (ops & He & Hw) Hx Hu Hl. destruct (explained_Write _ _ _ xid _ _ data He Hu Hl) as (d' & op & Hrun & Hop & He' & Hr').
  exists d'. split; [exact Hrun|]. split; [|exact Hr']. eexists. split; [exact He'|]. apply writers_snoc; [done|by rewrite Hop].
Qed.

Program Definition dataManager_by : DataManagerOk (dataManager L) := {| dm_rep := represents_by W; dm_room := room; dm_writer := W |}.
Next Obligation. exact W_super. Qed.
Next Obligation. intros d items uid data Hr Hu. cbn. by destruct (represents_Read _ _ _ _ Hr Hu) as (d' & -> & _). Qed.
Next Obligation. intros d items xid data n. apply represents_Insert. Qed.
Next Obligation. intros d items xid uid old data. apply represents_Write. Qed.
End Writers.

#[export] Instance dataManager_ok : DataManagerOk (dataManager L) := dataManager_by (λ _, True) I.

(** C4: The data manager is a map from addresses to items.  Whenever the page
    cache, the log, the item cache and the free-space index together represent
    a map: reading an address gives its item; inserting an item of at most
    8156 bytes never fails (as long as page numbers last), takes an address that
    was free, even after a page had to be added, and changes nothing else;
    overwriting an item between [Before] and [After] changes exactly that item;
    and data too large for a page are refused without a change.  After each
    operation everything that was pinned is let go again. *)
Theorem data_manager_refines_map d items xid :
  represents d items →
  (∀ uid data, items !! uid = Some data → ∃ d', read_item uid d = (d', Ret (Some data)) ∧ represents d' items) ∧
  (∀ data, zlen data ≤ 8156 → noPages (dm_pc d) + 1 < 2 ^ 32 →
     ∃ d' uid, Insert xid data d = (d', Ret uid) ∧ items !! uid = None ∧ 0 < uid < 2 ^ 64 ∧ represents d' (<[uid := data]> items)) ∧
  (∀ uid old data, items !! uid = Some old → zlen data = zlen old →
     ∃ d', write_item xid uid data d = (d', Ret tt) ∧ represents d' (<[uid := data]> items)) ∧
  (∀ data, 8187 < zlen data → Insert xid data d = (d, Err ErrDataTooLarge)).
Proof.
  intros Hr. split; [by intros; apply represents_Read|]. split; [|split].
  - intros data Hd Hp. destruct (represents_Insert _ d items xid data 0 Hr I Hd Hp) as (d' & uid & ? & ? & Hu & ? & _).
    exists d', uid. split_and!; try done; unfold INF in Hu; lia.
  - intros uid old data Hu Hl. destruct (represents_Write _ d items xid uid old data Hr I Hu Hl) as (d' & ? & ? & _). by exists d'.
  - intros data Hd. unfold Insert. rewrite zlen_WrapDataitemRaw, decide_True; [done|]. unfold PXMaxFreeSpace, _PX_OF_DATA. rewrite PAGE_SIZE_eq. lia.
Qed.

(** C5: Write-ahead logging is complete.  If the log of an idle manager explains
    the items of its pages, then after an insertion or an update it still does,
    with one more record, which bears the transaction's identifier, the address
    and, for an update, the bytes before and after.  (Hence
    [DmOpen.Open_after_crash] applies to every log the manager writes.) *)
Theorem operations_are_logged d ops st xid :
  logged d ops st →
  (∀ data, zlen data ≤ 8156 → noPages (dm_pc d) + 1 < 2 ^ 32 →
     ∃ d' pgno offset st', Insert xid data d = (d', Ret (Address2UUID pgno offset)) ∧
       logged d' (ops ++ [Inserted xid pgno offset (WrapDataitemRaw data)]) st') ∧
  (∀ uid old data, stored st uid old → zlen data = zlen old →
     ∃ d' pgno offset st', uid = Address2UUID pgno offset ∧ write_item xid uid data d = (d', Ret tt) ∧
       logged d' (ops ++ [Updated xid pgno offset (WrapDataitemRaw old) (WrapDataitemRaw data)]) st').
Proof.
  intros Hlog. split.
  - intros data Hd Hp. destruct (logged_Insert _ _ _ xid data Hlog Hd Hp) as (d' & st1 & i & its & Hrun & _ & _ & _ & Hlog').
    eexists d', _, _, _. split; [exact Hrun|exact Hlog'].
  - intros uid old data (i & its & j & Hi & Hit & Hj & ->) Hl.
    destruct (logged_Write _ _ _ xid _ _ _ _ data Hlog Hi Hit Hj Hl) as (d' & Hrun & Hlog'). eexists d', _, _, _. split; [done|]. split; [exact Hrun|exact Hlog'].
Qed.
End Contract.
