(* ===== verification/DmOpen.v ===== *)
(** Package [dm]: creating, closing and opening a data base
    ([data_manager.go], [page1.go]): an idle manager is closed and opened again
    with the same items, and after a crash with the recovered ones. *)
From S2P Require Import Prelude.
From S2P Require Import Codec.
From S2P Require Import GoFile.
From S2P Require Import Tm.
From S2P Require Import DmI.
From S2P Require Import Logger.
From S2P Require Import Cacher.
From S2P Require Import Page.
From S2P Require Import Pcacher.
From S2P Require Import WalLog.
From S2P Require Import Recovery.
From S2P Require Import Restore.
From S2P Require Import DataMgr.
From S2P Require Import DataRep.
Local Open Scope Z_scope.

(** * The first page *)

Lemma copy_into_run raw a b src :
  0 ≤ a ≤ b → b ≤ zlen raw → b - a ≤ zlen src → copy_into raw a b src = Ret (copy_at raw a (take (Z.to_nat (b - a)) src)).
Proof.
  intros Hab Hb Hs. unfold copy_into. rewrite slice_Ret by done. cbn [mbind outcome_bind]. do 2 f_equal.
  pose proof (zlen_sub raw a (b - a) ltac:(lia) ltac:(lia) ltac:(lia)) as Hl. unfold zlen in Hl. f_equal. lia.
Qed.

Lemma zlen_RandBytes n rnd : 0 ≤ n → zlen (RandBytes n rnd) = n.
Proof. intros. unfold RandBytes, zlen. rewrite length_fmap, length_seq. lia. Qed.

Lemma p1RawSetVCOpen_run rnd raw : zlen raw = PAGE_SIZE →
  p1RawSetVCOpen rnd raw = Ret (copy_at raw _P1_OF_VC (RandBytes _P1_LEN_VC rnd)) ∧ zlen (copy_at raw _P1_OF_VC (RandBytes _P1_LEN_VC rnd)) = PAGE_SIZE.
Proof.
  intros Hl. pose proof (zlen_RandBytes _P1_LEN_VC rnd ltac:(done)) as Hr. rewrite PAGE_SIZE_eq in *. split.
  - unfold p1RawSetVCOpen. rewrite copy_into_run; [|done|rewrite Hl; done|rewrite Hr; done]. reflexivity.
  - rewrite zlen_copy_at; [done|]. rewrite Hl. done.
Qed.

(** Closing makes the check succeed, whatever was there. *)
Lemma p1RawSetVCClose_run raw : zlen raw = PAGE_SIZE →
  ∃ raw', p1RawSetVCClose raw = Ret raw' ∧ zlen raw' = PAGE_SIZE ∧ P1CheckVC raw' = Ret true.
Proof.
  intros Hl. rewrite PAGE_SIZE_eq in *. assert (H1 : slice raw 100 108 = Ret (sub raw 100 8)) by (rewrite slice_Ret by lia; done).
  pose proof (zlen_sub raw 100 8 ltac:(lia) ltac:(lia) ltac:(lia)) as Hs.
  exists (copy_at raw 108 (sub raw 100 8)). split; [|split; [rewrite zlen_copy_at; lia|]].
  - unfold p1RawSetVCClose, _P1_OF_VC, _P1_LEN_VC. change (100 + 8) with 108. rewrite H1. cbn [mbind outcome_bind].
    rewrite copy_into_run by (lia || (rewrite Hs; lia)). do 2 f_equal. apply take_ge. unfold zlen in Hs. lia.
  - unfold P1CheckVC, p1RawCheckVC, _P1_OF_VC, _P1_LEN_VC. change (100 + 8) with 108. change (100 + 8 * 2) with 116.
    rewrite !slice_Ret by (lia || (rewrite zlen_copy_at; lia)). cbn [mbind outcome_bind]. change (108 - 100) with 8. change (116 - 108) with 8.
    rewrite sub_copy_at_other by lia.
    pose proof (sub_copy_at_same raw 108 (sub raw 100 8) ltac:(lia) ltac:(lia)) as E. rewrite Hs in E. rewrite E. by rewrite bool_decide_eq_true_2.
Qed.

(** * The file of a page cache nobody uses *)

Lemma whole_pages pages : ∀ bytes : list byte,
  zlen bytes = zlen pages * PAGE_SIZE → (∀ i p, pages !! i = Some p → sub bytes (Z.of_nat i * PAGE_SIZE) PAGE_SIZE = p) → bytes = mjoin pages.
Proof.
  induction pages as [|p pages IH]; intros bytes Hl Hp; rewrite PAGE_SIZE_eq in *.
  - destruct bytes; [done|]. rewrite zlen_cons in Hl. pose proof (zlen_nonneg bytes). change (zlen []) with 0 in Hl. lia.
  - change (mjoin (p :: pages)) with (p ++ mjoin pages). rewrite <- (take_drop (Z.to_nat 8192) bytes). f_equal.
    + specialize (Hp 0%nat p eq_refl). unfold sub in Hp. rewrite <- Hp. done.
    + rewrite zlen_cons in Hl. pose proof (zlen_nonneg pages). apply IH.
      * unfold zlen in *. rewrite length_drop. lia.
      * intros i q Hq. specialize (Hp (S i) q Hq). rewrite <- Hp. unfold sub. rewrite drop_drop. do 2 f_equal. lia.
Qed.

Lemma unused_file pages p : pages_rep pages ∅ p → f_data (pc_file p) = mjoin pages.
Proof.
  intros []. apply whole_pages; [done|]. intros i q Hq. destruct (rep_pages _ _ Hq) as [_ Hd]. by rewrite lookup_empty in Hd.
Qed.

(** Looking at a page. *)
Lemma page_visit_run pages l1 p (i : nat) data :
  pc_rep pages (pin1 l1) p → roomy (MaxHandles (pc_c p)) → (1 ≤ i)%nat → pages !! i = Some data →
  ∃ p1 l dirty p2, GetPage (Z.of_nat i + 1) p = (p1, Ret l) ∧ deref l p1 = (p1, Ret (mkPage (Z.of_nat i + 1) data dirty)) ∧
    release l p1 = (p2, Ret tt) ∧ pc_rep pages (pin1 l1) p2 ∧ MaxHandles (pc_c p2) = MaxHandles (pc_c p).
Proof.
  intros Hpc Hm Hi Hpg.
  destruct (GetPage_load pages (pin1 l1) p i data) as (p1 & Hget & Hpc1 & Hm1); [done|done|by apply pin1_other|by eapply pin1_room|by rewrite size_pin1|].
  destruct (deref_run _ _ _ _ _ _ _ (proj1 Hpc1) Hpg (lookup_insert_eq _ _ _)) as (dirty & Hde & _ & _).
  destruct (release_run _ _ _ _ _ _ _ Hpc1 Hpg (lookup_insert_eq _ _ _)) as (p2 & Hrel & Hpc2 & Hm2); [done| |].
  { rewrite map_size_insert_None, size_pin1 by (by apply pin1_other). done. }
  rewrite unpin_pin1 in Hpc2 by done. eexists p1, _, dirty, p2. split; [exact Hget|]. split; [exact Hde|]. split; [exact Hrel|]. split; [exact Hpc2|congruence].
Qed.

Section Open.
Context {L : Type} `{!LoggerI L} `{!LoggerOk L}.
Implicit Types (d : dataManager L).

(** The index of a file is built page by page. *)
Lemma fillPindex_loop_run st ds pages ks : ∀ d,
  idle st ds pages d → NoDup ks → (∀ i, i ∈ ks → (1 ≤ i < length st)%nat ∧ (Z.of_nat i + 1 ∉ (entries (pidx d)).*1)) →
  ∃ d', fillPindex_loop ((λ i, Z.of_nat i + 1) <$> ks) d = (d', Ret tt) ∧ idle st ds pages d' ∧ page1 d' = page1 d ∧
    (entries (pidx d')).*1 ≡ₚ ((λ i, Z.of_nat i + 1) <$> ks) ++ (entries (pidx d)).*1.
Proof.
  induction ks as [|i ks IH]; intros d Hidle Hdup His; [by exists d|].
  apply NoDup_cons in Hdup as [Hni Hdup]. destruct (His i ltac:(by left)) as [[Hi1 Hi2] Hnin]. pose proof Hidle as (l1 & Hp1 & []).
  destruct (lookup_lt_is_Some_2 st i Hi2) as [items Hit]. destruct r_store as [Hlen Hst]. destruct (Hst _ _ Hi1 Hit) as (_ & data & Hpg & Hrep).
  destruct (page_visit_run _ _ _ _ _ r_pc r_room Hi1 Hpg) as (p1 & l & dirty & p2 & Hget & Hde & Hrel & Hpc2 & Hm2).
  destruct (index_ok_add st (pidx d) i items r_idx Hnin (conj Hi1 Hi2) (page_rep_bound _ _ Hrep)) as (pi' & Hadd & Hidx' & Hent).
  rewrite list_insert_id in Hidx' by done.
  set (d2 := set_pc p2 (set_pidx pi' d)).
  destruct (IH d2) as (d' & Hrun & Hidle' & Hp1' & Hent').
  - exists l1. split; [done|]. split; cbn [d2 set_pc set_pidx dm_pc dm_lg dic pidx]; [exact Hpc2|by rewrite Hm2|done..].
  - done.
  - intros i' Hi'. destruct (His i' ltac:(by right)) as [? Hnin']. split; [done|]. cbn [d2 set_pc set_pidx pidx].
    rewrite Hent. intros [Heq|Hin]%elem_of_cons; [|done]. assert (i' = i) as -> by lia. done.
  - exists d'. split; [|split; [exact Hidle'|split; [exact Hp1'|]]].
    + cbn [fillPindex_loop fmap list_fmap]. erewrite M_bind_run by (apply in_pc_run; exact Hget). erewrite M_bind_run by (apply in_pc_same; exact Hde).
      cbn [p_pgno p_data]. rewrite (PXFreeSpace_rep _ _ Hrep), M_lift_bind. erewrite M_bind_run by (apply in_pidx_run; cbn [set_pc pidx]; exact Hadd).
      erewrite M_bind_run by (apply in_pc_run; exact Hrel). exact Hrun.
    + rewrite Hent'. cbn [d2 set_pc set_pidx pidx]. rewrite Hent. rewrite fmap_cons. symmetry. apply Permutation_middle.
Qed.

(** The index knows every page but the first. *)
Definition index_full (st : store) d : Prop := ∀ i : nat, (1 ≤ i < length st)%nat → Z.of_nat i + 1 ∈ (entries (pidx d)).*1.

Lemma fillPindex_run st ds pages d :
  idle st ds pages d → entries (pidx d) = [] →
  ∃ d', fillPindex d = (d', Ret tt) ∧ idle st ds pages d' ∧ page1 d' = page1 d ∧ index_full st d'.
Proof.
  intros Hidle Hempty. pose proof (idle_noPages _ _ _ _ Hidle) as Hno. pose proof Hidle as (l1 & _ & []). destruct r_store as [Hlen _].
  assert (Hst1 : (1 ≤ length st)%nat).
  { pose proof (rep_pins _ _ _ (proj1 r_pc) 1 l1 1 (lookup_singleton_eq _ _)) as Hp. unfold zlen in Hp. lia. }
  destruct (fillPindex_loop_run st ds pages (seq 1 (length st - 1)) d Hidle (NoDup_seq _ _)) as (d' & Hrun & Hidle' & Hp & Hent).
  - intros i Hi%elem_of_seq. split; [lia|]. rewrite Hempty. apply not_elem_of_nil.
  - exists d'. split; [|split; [exact Hidle'|split; [exact Hp|]]].
    + unfold fillPindex, NoPages. rewrite M_get_bind, Hno.
      replace (Z.to_nat (zlen pages - 1)) with (length st - 1)%nat by (unfold zlen; lia).
      assert (E : (λ k : nat, Z.of_nat k + 2) <$> seq 0 (length st - 1) = (λ i : nat, Z.of_nat i + 1) <$> seq 1 (length st - 1)).
      { rewrite <- fmap_S_seq, <- list_fmap_compose. apply list_fmap_ext. intros k x _. cbn. lia. }
      by rewrite E.
    + intros i Hi. rewrite Hent. apply elem_of_app. left. apply list_elem_of_fmap. exists i. split; [done|]. apply elem_of_seq. lia.
Qed.

Lemma idle_page1 st ds pages d : idle st ds pages d → ∃ data, pages !! 0%nat = Some data ∧ zlen data = PAGE_SIZE.
Proof.
  intros (l1 & _ & []). pose proof (rep_pins _ _ _ (proj1 r_pc) 1 l1 1 (lookup_singleton_eq _ _)) as Hp.
  destruct (lookup_lt_is_Some_2 pages 0) as [data Hd]; [unfold zlen in Hp; lia|]. exists data. split; [done|]. by apply (rep_pages _ _ _ (proj1 r_pc) 0).
Qed.

(** ** The steps of [Open] *)

(** A manager just made, holding the first page. *)
Record fresh pages l1 (l : L) d : Prop := {
  fr_page1 : page1 d = Some l1;
  fr_pc : pc_rep pages (pin1 l1) (dm_pc d);
  fr_room : roomy (MaxHandles (pc_c (dm_pc d)));
  fr_lg : dm_lg d = l;
  fr_idx : pidx d = NewPindex;
  fr_dic : dic d = NewCacher 0
}.

Lemma index_ok_New st : index_ok st NewPindex.
Proof. split; [apply pindex_ok_New|]. split; [by apply NoDup_nil|]. by intros pgno fs ?%elem_of_nil. Qed.

Lemma fresh_idle st ds pages l1 l d : fresh pages l1 l d → lg_rep l ds → store_ok st pages → idle st ds pages d.
Proof.
  intros [] Hl Hst. exists l1. split; [done|]. split; [done|done|congruence| | | |done].
  - rewrite fr_dic0. apply cacher_rep_New.
  - by rewrite fr_dic0.
  - rewrite fr_idx0. apply index_ok_New.
Qed.

Lemma get_page1 pages (p : pcacher) (l : L) x y data :
  pc_rep pages ∅ p → roomy (MaxHandles (pc_c p)) → pages !! 0%nat = Some data →
  ∃ p' l1 dirty, in_pc (GetPage 1) (mkDM p l x y [] None) = (mkDM p' l x y [] None, Ret l1) ∧ pc_rep pages (pin1 l1) p' ∧
    roomy (MaxHandles (pc_c p')) ∧ deref l1 p' = (p', Ret (mkPage 1 data dirty)).
Proof.
  intros Hpc Hm Hd.
  destruct (GetPage_load pages ∅ p 0 data) as (p' & Hget & Hpc' & Hm'); [done|done|done| |done|].
  { destruct Hm as [Hm|Hm]; [by left|right]. destruct Hpc as [_ Hc]. rewrite (rep_count _ _ Hc). rewrite map_size_empty. lia. }
  destruct (deref_run _ _ _ _ _ _ _ (proj1 Hpc') Hd (lookup_insert_eq _ _ _)) as (dirty & Hde & _ & _).
  exists p', (length (pc_heap p)), dirty. split; [exact (in_pc_run _ (mkDM p l x y [] None) _ _ Hget)|]. rewrite insert_empty in Hpc'. split; [exact Hpc'|]. split; [by rewrite Hm'|exact Hde].
Qed.

Lemma loadAndCheckPage1_run pages p (l : L) data b :
  pc_rep pages ∅ p → roomy (MaxHandles (pc_c p)) → pages !! 0%nat = Some data → P1CheckVC data = Ret b →
  ∃ d l1, loadAndCheckPage1 (NewDataManager p l) = (d, Ret b) ∧ fresh pages l1 l d.
Proof.
  intros Hpc Hm Hd Hvc. destruct (get_page1 pages p l NewPindex (NewCacher 0) data) as (p' & l1 & dirty & Hget & Hpc' & Hm' & Hde); [done..|].
  eexists _, l1. split.
  - unfold loadAndCheckPage1, NewDataManager. rewrite (M_bind_run _ _ _ _ _ Hget). erewrite M_bind_run by done.
    erewrite M_bind_run by (apply in_pc_same; exact Hde). cbn [p_data]. rewrite Hvc. done.
  - split; try done.
Qed.

(** From [fillPindex] on. *)
Lemma open_rest_run st ds pages rnd d :
  idle st ds pages d → pidx d = NewPindex →
  ∃ d' data, (_ ← fillPindex; with_page1 (λ pg,
      _ ← in_pc (write_page pg (λ data, no_result (P1SetVCOpen rnd data))); catch (in_pc (FlushPage pg)) mret (λ _, mret tt))) d = (d', Ret tt) ∧
    idle st ds (<[0%nat := data]> pages) d' ∧ index_full st d'.
Proof.
  intros Hidle Hidx. destruct (fillPindex_run _ _ _ _ Hidle) as (d1 & Hfill & Hidle1 & Hp1 & Hfull); [by rewrite Hidx|].
  destruct (idle_page1 _ _ _ _ Hidle1) as (data & Hd & Hlen). pose proof Hidle1 as (l1 & Hl1 & []).
  destruct (p1RawSetVCOpen_run rnd data Hlen) as [Hset Hlen']. set (data' := copy_at data _ _) in *.
  assert (Hpin : pin1 l1 !! (Z.of_nat 0 + 1) = Some (l1, 1)) by apply lookup_singleton_eq.
  destruct (write_page_run pages (pin1 l1) (dm_pc d1) 0 data l1 1 (λ data, no_result (P1SetVCOpen rnd data)) data' tt) as (p2 & Hw & Hr2 & Hc2);
    [apply r_pc|done|done|unfold P1SetVCOpen; by rewrite Hset|done|].
  assert (Hd2 : <[0%nat := data']> pages !! 0%nat = Some data') by (apply list_lookup_insert_eq; by eapply lookup_lt_Some).
  assert (Hpc2 : pc_rep (<[0%nat := data']> pages) (pin1 l1) p2) by (split; [exact Hr2|rewrite Hc2; apply r_pc]).
  destruct (FlushPage_run _ _ _ _ _ _ _ Hpc2 Hd2 Hpin) as (p3 & Hflush & Hpc3 & Hc3 & _).
  exists (set_pc p3 d1), data'. split; [|split].
  - rewrite (M_bind_run _ _ _ _ _ Hfill). unfold with_page1. rewrite M_get_bind, Hl1.
    erewrite M_bind_run by (apply in_pc_run; exact Hw). unfold catch. erewrite in_pc_run by exact Hflush. done.
  - exists l1. split; [done|]. split; cbn [set_pc dm_pc dm_lg dic pidx]; [exact Hpc3|congruence|done..|].
    destruct r_store as [Hl Hst]. split; [by rewrite length_insert|]. intros i items Hi Hit. destruct (Hst _ _ Hi Hit) as (Hne & pg & Hpg & Hrep).
    split; [done|]. exists pg. by rewrite list_lookup_insert_ne by lia.
  - exact Hfull.
Qed.

(** ** Create *)

Lemma Create_dm rnd (p : pcacher) (l : L) :
  pc_rep [] ∅ p → roomy (MaxHandles (pc_c p)) → lg_rep l [] →
  ∃ d, Create rnd (Ret p) (Ret l) = Ret d ∧ noPages (dm_pc d) = 1 ∧ logged d [] [[]].
Proof.
  intros Hpc Hm Hl. assert (Hz : zlen (make_bytes PAGE_SIZE) = PAGE_SIZE) by (apply zlen_make_bytes; by rewrite PAGE_SIZE_eq).
  destruct (p1RawSetVCOpen_run rnd _ Hz) as [Hset Hlen]. set (data := copy_at _ _ _) in *.
  destruct (NewPage_run [] ∅ p data Hpc Hlen) as (p1 & Hnew & Hpc1 & Hm1); [done|]. cbn [app] in Hpc1.
  destruct (get_page1 [data] p1 l NewPindex (NewCacher 0) data) as (p2 & l1 & dirty & Hget & Hpc2 & Hm2 & Hde); [done|by rewrite Hm1|done|].
  assert (Hpin : pin1 l1 !! (Z.of_nat 0 + 1) = Some (l1, 1)) by apply lookup_singleton_eq.
  assert (Hd : [data] !! 0%nat = Some data) by done.
  destruct (FlushPage_run _ _ _ _ _ _ _ Hpc2 Hd Hpin) as (p3 & Hflush & Hpc3 & Hc3 & _).
  eexists. split; [|split].
  - unfold Create, initPage1, NewDataManager, P1InitRaw. cbn [mbind outcome_bind]. rewrite Hset, M_lift_bind.
    erewrite M_bind_run by (apply in_pc_run; exact Hnew). change (zlen [] + 1) with 1. rewrite decide_True by done.
    unfold set_pc at 1. cbn [dm_lg pidx dic dm_items page1]. rewrite (M_bind_run _ _ _ _ _ Hget). erewrite M_bind_run by done.
    erewrite in_pc_run by exact Hflush. reflexivity.
  - apply (rep_no _ _ _ (proj1 Hpc3)).
  - exists [data]. split; [|apply (history_new 1)]. exists l1. split; [done|]. cbn [set_pc set_page1 dm_pc dm_lg pidx dic dm_items page1].
    split; cbn [set_pc set_page1 dm_pc dm_lg pidx dic dm_items page1]; [exact Hpc3|rewrite Hc3; exact Hm2|exact Hl|apply cacher_rep_New|done|apply index_ok_New|].
    split; [done|]. intros i items Hi Hit. by destruct i as [|[|]]; [lia|..].
Qed.

(** ** Close *)

Lemma Close_loop_unused {H W} (sel : W → cacher H) upd rel order (w : W) :
  cache (sel w) = ∅ → Close_loop sel upd rel order w = (w, Ret tt).
Proof.
  intros Hc. induction order as [|uid order IH]; [done|]. cbn [Close_loop]. rewrite M_get_bind, Hc, lookup_empty, M_ret_bind. exact IH.
Qed.

Lemma Close_run st ds pages d (lg_Close : M L unit) l' order :
  idle st ds pages d → lg_Close (dm_lg d) = (l', Ret tt) →
  ∃ d' data, Close lg_Close order d = (d', Ret tt) ∧ P1CheckVC data = Ret true ∧
    f_data (pc_file (dm_pc d')) = mjoin (<[0%nat := data]> pages) ∧ zlen data = PAGE_SIZE ∧ dm_lg d' = l'.
Proof.
  intros Hidle Hlc. destruct (idle_page1 _ _ _ _ Hidle) as (data & Hd & Hlen). destruct Hidle as (l1 & Hl1 & []).
  destruct (p1RawSetVCClose_run data Hlen) as (data' & Hset & Hlen' & Hvc).
  assert (Hpin : pin1 l1 !! (Z.of_nat 0 + 1) = Some (l1, 1)) by apply lookup_singleton_eq.
  destruct (write_page_run pages (pin1 l1) (dm_pc d) 0 data l1 1 (λ data, no_result (P1SetVCClose data)) data' tt) as (p2 & Hw & Hr2 & Hc2);
    [apply r_pc|done|done|unfold P1SetVCClose; by rewrite Hset|done|].
  assert (Hd2 : <[0%nat := data']> pages !! 0%nat = Some data') by (apply list_lookup_insert_eq; by eapply lookup_lt_Some).
  assert (Hpc2 : pc_rep (<[0%nat := data']> pages) (pin1 l1) p2) by (split; [exact Hr2|rewrite Hc2; apply r_pc]).
  destruct (release_run _ _ _ _ _ _ _ Hpc2 Hd2 Hpin) as (p3 & Hrel & Hpc3 & Hm3); [done|by rewrite size_pin1|].
  assert (Hun : unpin (Z.of_nat 0 + 1) (pin1 l1) = ∅).
  { unfold unpin. rewrite Hpin, decide_True by done. unfold pin1. apply delete_singleton_eq. }
  rewrite Hun in Hpc3. destruct Hpc3 as [Hr3 Hc3].
  assert (Hcl : Pcacher.Close order p3 = (mkPC (mkFile (f_data (pc_file p3)) (f_pos (pc_file p3)) false (f_faults (pc_file p3))) (noPages p3) (pc_c p3) (pc_heap p3), Ret tt)).
  { unfold Pcacher.Close, Cacher.Close. assert (Hce : cache (pc_c p3) = ∅) by (rewrite (rep_cache _ _ Hc3); apply fmap_empty).
    erewrite M_bind_run by (apply Close_loop_unused; exact Hce).
    unfold on_pfile, zoom, file_Close. by rewrite (proj1 (rep_healthy _ _ _ Hr3)). }
  eexists _, data'. split; [|split; [exact Hvc|split; [|split; [exact Hlen'|]]]].
  - unfold Close. rewrite M_get_bind, Hl1. rewrite M_bind_assoc. erewrite M_bind_run by (apply in_pc_run; exact Hw).
    erewrite M_bind_run by (apply in_pc_run; exact Hrel). erewrite M_bind_run by (apply in_lg_run; exact Hlc). apply in_pc_run. exact Hcl.
  - cbn [set_pc dm_pc pc_file f_data]. by apply unused_file.
  - done.
Qed.

Lemma store_ok_page1 st pages data : store_ok st pages → store_ok st (<[0%nat := data]> pages).
Proof.
  intros [Hl Hst]. split; [by rewrite length_insert|]. intros i items Hi Hit. rewrite list_lookup_insert_ne by lia. by apply Hst.
Qed.

Lemma insert_zlen {A} (pages : list A) i x : zlen (<[i := x]> pages) = zlen pages.
Proof. unfold zlen. by rewrite length_insert. Qed.

Lemma idle_sizes st ds pages d data :
  idle st ds pages d → zlen data = PAGE_SIZE → Forall (λ pg, zlen pg = PAGE_SIZE) (<[0%nat := data]> pages).
Proof.
  intros (l1 & _ & []) Hd. apply Forall_insert; [|done]. apply Forall_lookup. intros i pg Hi. by apply (rep_pages _ _ _ (proj1 r_pc) i).
Qed.

(** Opening the file of the pages with a first page that was marked. *)
Lemma Open_closed {T} `{!TransactionManager T} (t : T) st ds pages d data l2 fuel order rnd mem :
  idle st ds pages d → P1CheckVC data = Ret true → zlen data = PAGE_SIZE → lg_rep l2 ds → 10 * PAGE_SIZE ≤ mem < 2 ^ 32 * PAGE_SIZE →
  ∃ d2 pages', Open fuel order rnd (Pcacher.Open (Ret (file_of (mjoin (<[0%nat := data]> pages)))) mem) (Ret l2) t = Ret (t, d2) ∧
    idle st ds pages' d2 ∧ index_full st d2.
Proof.
  intros Hidle Hvc Hlen Hl2 Hmem.
  pose proof (idle_sizes _ _ _ _ _ Hidle Hlen) as Hall. destruct (idle_page1 _ _ _ _ Hidle) as (data0 & Hd0 & _). destruct Hidle as (l1 & _ & []).
  destruct (newPcacher_run (file_of (mjoin (<[0%nat := data]> pages))) mem (<[0%nat := data]> pages)) as (p & Hnew & Hpc & Hm & _);
    [done|done|exact Hall|rewrite insert_zlen; apply (rep_limit _ _ _ (proj1 r_pc))|done|].
  destruct (loadAndCheckPage1_run (<[0%nat := data]> pages) p l2 data true) as (d2 & l1' & Hload & Hfresh);
    [exact Hpc|right; lia|apply list_lookup_insert_eq; by eapply lookup_lt_Some|exact Hvc|].
  pose proof (fresh_idle _ _ _ _ _ _ Hfresh Hl2 (store_ok_page1 _ _ data r_store)) as Hidle2.
  destruct (open_rest_run _ _ _ rnd _ Hidle2) as (d3 & data3 & Hrest & Hidle3 & Hfull); [by destruct Hfresh|].
  exists d3, (<[0%nat := data3]> (<[0%nat := data]> pages)). split; [|split; [exact Hidle3|exact Hfull]].
  unfold Open, Pcacher.Open. cbn [mbind outcome_bind]. rewrite Hnew. cbn [mbind outcome_bind].
  erewrite M_bind_run by (unfold zoom; cbn [snd fst]; by rewrite Hload).
  unfold open_checked. rewrite M_ret_bind. unfold zoom. cbn [snd fst]. rewrite Hrest. reflexivity.
Qed.

(** Closing and opening again.  Closing an idle manager writes every page to
    the file and marks the first page; opening that file (with the log as it
    is) skips the recovery and gives an idle manager with the same items on the
    same pages, in which every data page is registered in the free-space index
    with the space it really has, whatever the order the cache was closed in
    and the random bytes drawn. *)
Theorem Close_then_Open {T} `{!TransactionManager T} (t : T) st ds pages d lg_Close l' corder l2 fuel order rnd mem :
  idle st ds pages d → lg_Close (dm_lg d) = (l', Ret tt) → lg_rep l2 ds → 10 * PAGE_SIZE ≤ mem < 2 ^ 32 * PAGE_SIZE →
  ∃ d1 d2 pages', Close lg_Close corder d = (d1, Ret tt) ∧
    Open fuel order rnd (Pcacher.Open (Ret (file_of (f_data (pc_file (dm_pc d1))))) mem) (Ret l2) t = Ret (t, d2) ∧
    idle st ds pages' d2 ∧ index_full st d2.
Proof.
  intros Hidle Hlc Hl2 Hmem. destruct (Close_run _ _ _ _ _ _ corder Hidle Hlc) as (d1 & data & Hclose & Hvc & Hfile & Hlen & _).
  destruct (Open_closed t _ _ _ _ data l2 fuel order rnd mem Hidle Hvc Hlen Hl2 Hmem) as (d2 & pages' & Hopen & Hidle2 & Hfull).
  exists d1, d2, pages'. rewrite Hfile. split; [exact Hclose|]. split; [exact Hopen|]. split; [exact Hidle2|exact Hfull].
Qed.

(** ** Opening after a crash *)

Definition recovered_store (active : XID → bool) (ops : list wal_op) (m : nat) (st : store) : store :=
  imap (λ i items, recovered_items active ops i items) (take m st).

Lemma recovered_store_lookup active ops m st i items :
  recovered_store active ops m st !! i = Some items → (i < m)%nat ∧ ∃ old, st !! i = Some old ∧ items = recovered_items active ops i old.
Proof.
  unfold recovered_store. rewrite list_lookup_imap. intros (old & Hold & ->)%fmap_Some. apply lookup_take_Some in Hold as [Hold Hlt].
  split; [done|]. by exists old.
Qed.

Lemma recovered_store_ok n ops st active m pages :
  history n ops st → (m ≤ n)%nat → length pages = m →
  (∀ i items, (1 ≤ i < m)%nat → st !! i = Some items → ∃ pg, pages !! i = Some pg ∧ page_rep (recovered_items active ops i items) pg) →
  store_ok (recovered_store active ops m st) pages.
Proof.
  intros Hh Hmn Hlen Hp. split.
  - unfold recovered_store. rewrite length_imap, length_take, (history_length _ _ _ Hh). lia.
  - intros i items Hi (Hlt & old & Hold & ->)%recovered_store_lookup. split; [|by apply Hp].
    pose proof (recovered_sizes n ops st Hh i old active Hi Hold) as Hs. destruct (history_pages _ _ _ Hh _ _ Hold) as [Hne _].
    apply Forall_lookup. intros j raw Hj. destruct (Forall2_lookup_l _ _ _ _ _ Hs Hj) as (raw0 & Hj0 & Hz).
    rewrite Hz. eapply Forall_lookup in Hne; [|exact Hj0]. exact Hne.
Qed.

Lemma Open_crashed {T} `{!TransactionManager T} `{!TransactionManagerOk T} (t : T) (l : L) sts ops rest n st disk page1 order fuel rnd mem :
  lg_at l (wal_bytes <$> ops) rest → tm_rep t sts → (∀ op, op ∈ ops → 0 ≤ wal_xid op ≤ zlen sts) → zlen sts < 2 ^ 64 →
  history n ops st → no_dirty_writes (tm_IsActive t) ops →
  Forall (λ pg, zlen pg = PAGE_SIZE) disk → length disk = n → Z.of_nat n < 2 ^ 32 - 1 → fso_ok st disk →
  disk !! 0%nat = Some page1 → P1CheckVC page1 = Ret false → 10 * PAGE_SIZE ≤ mem < 2 ^ 32 * PAGE_SIZE →
  (∀ m, order m ≡ₚ (map_to_list m).*1) → (length ops < fuel)%nat →
  ∃ t' d m pages,
    Open fuel order rnd (Pcacher.Open (Ret (file_of (mjoin disk))) mem) (Ret l) t = Ret (t', d) ∧
    idle (recovered_store (tm_IsActive t) ops m st) (wal_bytes <$> ops) pages d ∧
    index_full (recovered_store (tm_IsActive t) ops m st) d ∧ (∀ op, op ∈ ops → wal_pgno op ≤ Z.of_nat m) ∧
    (∃ xids, tm_rep t' (abort_all xids sts) ∧ ∀ xid, xid ∈ xids ↔ tm_IsActive t xid = true ∧ ∃ op, op ∈ ops ∧ wal_xid op = xid).
Proof.
  intros Hat Ht Hx Hsts Hh Hnd Hall Hlen Hn Hfso Hd Hvc Hmem Hord Hfuel. pose proof (lookup_lt_Some _ _ _ Hd) as Hn1.
  destruct (newPcacher_run (file_of (mjoin disk)) mem disk) as (p & Hnew & Hpc & Hm & _); [done|done|done|unfold zlen; lia|done|].
  destruct (loadAndCheckPage1_run disk p l page1 false) as (d1 & l1 & Hload & Hfresh); [done|right; lia|done..|].
  assert (Hready : ready disk (pin1 l1) (dm_pc d1)).
  { destruct Hfresh. split; [done|]. split; [by eapply pin1_room|]. split; [by rewrite size_pin1|]. intros k Hk. apply lookup_singleton_ne. lia. }
  destruct (Recovery_run t l (dm_pc d1) sts ops rest n st disk (pin1 l1) order fuel) as (t' & l' & p' & pages' & m & Hrec & Hr' & Hm' & Hmn & Hops & Hpg0 & Hitems & Hl' & Hxids);
    [done..|lia|done|done|done|done|].
  set (d2 := mkDM p' l' (pidx d1) (dic d1) (dm_items d1) (DataMgr.page1 d1)).
  assert (Hfresh2 : fresh pages' l1 l' d2).
  { destruct Hfresh, Hr' as (Hpc' & Hroom & _). split; cbn [d2 DataMgr.page1 dm_pc dm_lg pidx dic]; try done.
    unfold has_room in Hroom. rewrite (rep_count _ _ (proj2 Hpc')), size_pin1 in Hroom. destruct Hroom; [by left|right; lia]. }
  destruct Hmn as [Hm1 Hmn]. pose proof (recovered_store_ok n ops st (tm_IsActive t) m pages' Hh Hmn Hm' Hitems) as Hst.
  pose proof (fresh_idle _ _ _ _ _ _ Hfresh2 Hl' Hst) as Hidle.
  destruct (open_rest_run _ _ _ rnd _ Hidle) as (d3 & data3 & Hrest & Hidle3 & Hfull); [by destruct Hfresh2|].
  exists t', d3, m, (<[0%nat := data3]> pages'). split; [|split; [exact Hidle3|split; [exact Hfull|split; [exact Hops|exact Hxids]]]].
  unfold Open, Pcacher.Open. cbn [mbind outcome_bind]. rewrite Hnew. cbn [mbind outcome_bind].
  erewrite M_bind_run by (unfold zoom; cbn [snd fst]; by rewrite Hload).
  unfold open_checked. erewrite M_bind_run; [|cbn beta iota; destruct Hfresh; rewrite fr_lg0, Hrec; cbn [sys_tm sys_pc sys_lg]; reflexivity].
  fold d2. unfold zoom. cbn [snd fst]. rewrite Hrest. reflexivity.
Qed.
(** ** The map of the items over a restart *)

(** The items that are closed and opened again. *)
Lemma restart_closed d ops items (lg_Close : M L unit) l' corder : explained d ops items → lg_Close (dm_lg d) = (l', Ret tt) →
  ∃ d1, Close lg_Close corder d = (d1, Ret tt) ∧ dm_lg d1 = l' ∧
    ∀ T `(!TransactionManager T) (t : T) l2 fuel order rnd mem, lg_rep l2 (wal_bytes <$> ops) → 10 * PAGE_SIZE ≤ mem < 2 ^ 32 * PAGE_SIZE →
      ∃ d2, Open fuel order rnd (Pcacher.Open (Ret (file_of (f_data (pc_file (dm_pc d1))))) mem) (Ret l2) t = Ret (t, d2) ∧
        explained d2 ops items ∧ noPages (dm_pc d2) = noPages (dm_pc d).
Proof.
  intros (st & (pages & Hidle & Hh) & Hitems) Hlc. destruct (Close_run _ _ _ _ _ _ corder Hidle Hlc) as (d1 & data & Hclose & Hvc & Hfile & Hlen & Hlg).
  exists d1. split; [exact Hclose|]. split; [exact Hlg|]. intros T ? t l2 fuel order rnd mem Hl2 Hmem. rewrite Hfile.
  destruct (Open_closed t _ _ _ _ data l2 fuel order rnd mem Hidle Hvc Hlen Hl2 Hmem) as (d2 & pages' & Hopen & Hidle2 & _).
  exists d2. split; [exact Hopen|]. split; [|by rewrite (idle_pages _ _ _ _ Hidle), (idle_pages _ _ _ _ Hidle2)]. exists st. split; [by exists pages'|done].
Qed.

(** When every record is of a finished transaction, the recovery finds the last
    state of every item. *)
Lemma recovered_finished n ops st active i items : history n ops st → (∀ op, op ∈ ops → active (wal_xid op) = false) → st !! i = Some items →
  recovered_items active ops i items = items.
Proof.
  intros Hh Ha Hit. destruct (decide (i = 0%nat)) as [->|Hi].
  - destruct (history_pages _ _ _ Hh _ _ Hit) as (_ & _ & H0). by rewrite (H0 eq_refl).
  - apply list_eq. intros j. unfold recovered_items. rewrite list_lookup_imap. destruct (items !! j) as [raw|] eqn:Hj; [|done]. cbn [fmap option_fmap option_map].
    destruct (history_chain _ _ _ Hh _ _ _ _ Hit Hj) as (x & raw0 & ups & Hf & Hc). rewrite Hf.
    assert (Hin : ∀ op, op ∈ Inserted x (Z.of_nat i + 1) (item_offset items j) raw0 :: ups → active (wal_xid op) = false).
    { intros op. rewrite <- Hf. intros [_ Hop]%list_elem_of_filter. by apply Ha. }
    cbn [recovered_value]. pose proof (Hin _ (list_elem_of_here _ _)) as Hx. cbn [wal_xid] in Hx. rewrite Hx. f_equal.
    apply chain_finished; [exact Hc|]. intros op Hop. apply Hin. by right.
Qed.

Lemma recovered_store_finished n ops st active m : history n ops st → (∀ op, op ∈ ops → active (wal_xid op) = false) → recovered_store active ops m st = take m st.
Proof.
  intros Hh Ha. apply list_eq. intros i. unfold recovered_store. rewrite list_lookup_imap. destruct (take m st !! i) as [items|] eqn:Hi; [|done].
  cbn [fmap option_fmap option_map]. f_equal. apply lookup_take_Some in Hi as [Hi _]. by eapply recovered_finished.
Qed.

(** Pages without a record have no items. *)
Lemma stored_take n ops st m uid data : history n ops st → (∀ op, op ∈ ops → wal_pgno op ≤ Z.of_nat m) → stored (take m st) uid data ↔ stored st uid data.
Proof.
  intros Hh Hm. split; intros (i & its & j & Hi & Hit & Hj & ->); exists i, its, j; split_and!; try done.
  - by apply lookup_take_Some in Hit as [? _].
  - rewrite lookup_take_lt; [done|]. destruct (history_chain _ _ _ Hh _ _ _ _ Hit Hj) as (x & raw0 & ups & Hf & _).
    assert (Hop : Inserted x (Z.of_nat i + 1) (item_offset its j) raw0 ∈ ops).
    { assert (Hop : Inserted x (Z.of_nat i + 1) (item_offset its j) raw0 ∈ filter (at_place i (item_offset its j)) ops) by (rewrite Hf; by left). by apply list_elem_of_filter in Hop as [_ ?]. }
    specialize (Hm _ Hop). cbn in Hm. lia.
Qed.

(** The pages a crash leaves: all of them, of the right size, with an FSO that is
    not beyond the items, and a first page that says that nobody closed the
    file. *)
Record torn d (disk : list (list byte)) : Prop := {
  torn_sizes : Forall (λ pg, zlen pg = PAGE_SIZE) disk;
  torn_pages : zlen disk = noPages (dm_pc d) ∧ zlen disk < 2 ^ 32 - 1;
  torn_fso st ds pages : idle st ds pages d → fso_ok st disk;
  torn_page1 : ∃ pg1, disk !! 0%nat = Some pg1 ∧ P1CheckVC pg1 = Ret false
}.

Lemma restart_crashed {T} `{!TransactionManager T} `{!TransactionManagerOk T} (t : T) d (l : L) sts ops items disk rest order fuel rnd mem :
  explained d ops items → torn d disk → lg_at l (wal_bytes <$> ops) rest → tm_rep t sts → zlen sts < 2 ^ 64 →
  (∀ op, op ∈ ops → 0 ≤ wal_xid op ≤ zlen sts ∧ tm_IsActive t (wal_xid op) = false) → 10 * PAGE_SIZE ≤ mem < 2 ^ 32 * PAGE_SIZE →
  (∀ m, order m ≡ₚ (map_to_list m).*1) → (length ops < fuel)%nat →
  ∃ t' d2, Open fuel order rnd (Pcacher.Open (Ret (file_of (mjoin disk))) mem) (Ret l) t = Ret (t', d2) ∧ tm_rep t' sts ∧
    explained d2 ops items ∧ noPages (dm_pc d2) ≤ noPages (dm_pc d).
Proof.
  intros (st & Hlog & Hitems) [Hall [Hlen Hlim] Hfso (pg1 & Hpg1 & Hvc)] Hat Ht Hsts Hx Hmem Hord Hfuel. destruct (logged_pages _ _ _ Hlog) as [Hno _].
  rewrite Hno in Hlen. destruct Hlog as (pages & Hidle & Hh). specialize (Hfso _ _ _ Hidle). assert (Hfin : ∀ op, op ∈ ops → tm_IsActive t (wal_xid op) = false) by (intros; by apply Hx).
  destruct (Open_crashed t l sts ops rest (length st) st disk pg1 order fuel rnd mem) as (t' & d2 & m & pages' & Hrun & Hidle' & _ & Hm & xids & Ht' & Hxids);
    [exact Hat|exact Ht|by intros; apply Hx|exact Hsts|exact Hh| |exact Hall|unfold zlen in Hlen; lia|unfold zlen in Hlen, Hlim; lia|exact Hfso|exact Hpg1|exact Hvc|exact Hmem|exact Hord|exact Hfuel|].
  { intros i o a op b Hf Ha. rewrite Hfin in Ha; [done|]. assert (Hop : op ∈ filter (at_place i o) ops) by (rewrite Hf; apply elem_of_app; right; by left).
    by apply list_elem_of_filter in Hop as [_ ?]. }
  assert (xids = []) as ->.
  { destruct xids as [|x xids]; [done|]. destruct (proj1 (Hxids x) (list_elem_of_here _ _)) as (Ha & op & Hop & <-). by rewrite Hfin in Ha. }
  rewrite (recovered_store_finished _ _ _ _ m Hh Hfin) in Hidle'. exists t', d2. split; [exact Hrun|]. split; [exact Ht'|]. split.
  - exists (take m st). split; [|intros uid data; by rewrite (stored_take _ _ _ _ _ _ Hh Hm)]. exists pages'. split; [exact Hidle'|].
    rewrite length_take. replace (take m st) with (take (m `min` length st) st) by (rewrite <- take_take; f_equal; by apply take_ge).
    apply (history_take (length st)); [done|lia|]. intros op Hop. specialize (Hm _ Hop).
    destruct (history_ops _ _ _ Hh _ Hop) as (i & ? & ? & ? & Hp & _ & Hi%lookup_lt_Some & _). lia.
  - rewrite Hno, (idle_pages _ _ _ _ Hidle'). unfold zlen. rewrite length_take. lia.
Qed.

(** C3: Opening after a crash restores the data items.  Take any history of
    insertions and updates of items, its complete log, and the states of the
    transactions at the time of a crash; suppose that no transaction wrote to an
    item an unfinished one had written to.  Let every data page in the file have
    any content whatsoever (old, new or a mix, as a crash leaves it) with an FSO
    not beyond the page's items, and let the check of the first page say that
    the data base was not closed.  Then [Open] ends normally with an idle manager
    whose pages hold, at the same addresses, exactly the recovered items:
    inserted by an unfinished transaction - marked invalid; otherwise - the
    value of the last update by a finished transaction, whether committed or
    aborted.  The FSO of every page is right again, the free-space index is
    complete, and the unfinished transactions with records are aborted, in
    whatever order the map of their records is visited. *)
Theorem Open_after_crash {T} `{!TransactionManager T} `{!TransactionManagerOk T} (t : T) (l : L) sts ops rest n st disk page1 order fuel rnd mem :
  lg_at l (wal_bytes <$> ops) rest → tm_rep t sts → (∀ op, op ∈ ops → 0 ≤ wal_xid op ≤ zlen sts) → zlen sts < 2 ^ 64 →
  history n ops st → no_dirty_writes (tm_IsActive t) ops →
  Forall (λ pg, zlen pg = PAGE_SIZE) disk → length disk = n → Z.of_nat n < 2 ^ 32 - 1 → fso_ok st disk →
  disk !! 0%nat = Some page1 → P1CheckVC page1 = Ret false → 10 * PAGE_SIZE ≤ mem < 2 ^ 32 * PAGE_SIZE →
  (∀ m, order m ≡ₚ (map_to_list m).*1) → (length ops < fuel)%nat →
  ∃ t' d m pages,
    Open fuel order rnd (Pcacher.Open (Ret (file_of (mjoin disk))) mem) (Ret l) t = Ret (t', d) ∧
    idle (recovered_store (tm_IsActive t) ops m st) (wal_bytes <$> ops) pages d ∧
    index_full (recovered_store (tm_IsActive t) ops m st) d ∧ (∀ op, op ∈ ops → wal_pgno op ≤ Z.of_nat m) ∧
    (∃ xids, tm_rep t' (abort_all xids sts) ∧ ∀ xid, xid ∈ xids ↔ tm_IsActive t xid = true ∧ ∃ op, op ∈ ops ∧ wal_xid op = xid).
Proof. apply Open_crashed. Qed.
End Open.

(** * Samples *)

Lemma sample_dm : ∃ d : dataManager logger, noPages (dm_pc d) = 1 ∧ logged d [] [[]].
Proof.
  destruct (newPcacher_run (file_of []) (10 * PAGE_SIZE) []) as (p & _ & Hpc & Hm & _); [done|done|done|done|rewrite PAGE_SIZE_eq; lia|].
  destruct Logger.Create_run as (lg & _ & Hl).
  destruct (Create_dm (λ _, 0) p lg Hpc) as (d & _ & Hno & Hlog); [right; lia|exact Hl|]. by exists d.
Qed.

Lemma logged_nil (d : dataManager logger) : logged d [] [[]] → explained d [] ∅.
Proof.
  intros Hlog. exists [[]]. split; [exact Hlog|]. intros uid data. rewrite lookup_empty. split; [done|].
  intros (i & items & j & Hi & Hit & _). by destruct i as [|[|]]; [lia|..].
Qed.

Lemma logged_empty (d : dataManager logger) : logged d [] [[]] → represents d ∅.
Proof. intros Hlog. exists []. split; [by apply logged_nil|done]. Qed.

Lemma data_manager_refines_map_witness :
  ∃ (d d' : dataManager logger) uid, represents d ∅ ∧ Insert 1 [Byte.x61] d = (d', Ret uid) ∧ represents d' (<[uid := [Byte.x61]]> ∅).
Proof.
  destruct sample_dm as (d & Hno & Hlog). apply logged_empty in Hlog. exists d.
  destruct (data_manager_refines_map d ∅ 1 Hlog) as (_ & Hins & _).
  destruct (Hins [Byte.x61]) as (d' & uid & Hrun & _ & _ & Hrep); [by vm_compute|by rewrite Hno|]. exists d', uid. done.
Defined.

Lemma operations_are_logged_witness :
  ∃ (d d' : dataManager logger) pgno offset st', Insert 7 [Byte.x61] d = (d', Ret (Address2UUID pgno offset)) ∧
    logged d' [Inserted 7 pgno offset (WrapDataitemRaw [Byte.x61])] st'.
Proof.
  destruct sample_dm as (d & Hno & Hlog). exists d. destruct (operations_are_logged d [] [[]] 7 Hlog) as [Hins _].
  destruct (Hins [Byte.x61]) as (d' & pgno & offset & st' & Hrun & Hlog'); [by vm_compute|by rewrite Hno|]. by exists d', pgno, offset, st'.
Defined.

Lemma Close_then_Open_witness :
  ∃ (d d1 d2 : dataManager logger) l2, Close Logger.Close [] d = (d1, Ret tt) ∧
    Open 0 (λ m, (map_to_list m).*1) (λ _, 5) (Pcacher.Open (Ret (file_of (f_data (pc_file (dm_pc d1))))) (10 * PAGE_SIZE)) (Ret l2) crash_tm =
      Ret (crash_tm, d2) ∧ index_full [[]] d2.
Proof.
  destruct sample_dm as (d & _ & pages & Hidle & _). destruct Logger.Create_run as (l2 & _ & Hl2).
  pose proof Hidle as (l1 & _ & Hrep). pose proof (r_lg _ _ _ _ _ _ Hrep) as (Hh & _).
  destruct (Close_then_Open crash_tm [[]] [] pages d Logger.Close (mkLog (mkFile (f_data (lg_file (dm_lg d))) (f_pos (lg_file (dm_lg d))) false
      (f_faults (lg_file (dm_lg d)))) (lg_pos (dm_lg d)) (fileSize (dm_lg d)) (xChecksum (dm_lg d)))
    [] l2 0 (λ m, (map_to_list m).*1) (λ _, 5) (10 * PAGE_SIZE)) as (d1 & d2 & pages' & Hc & Ho & _ & Hfull).
  - exact Hidle.
  - unfold Logger.Close, on_lfile, zoom, file_Close. by rewrite (proj1 Hh).
  - exact Hl2.
  - rewrite PAGE_SIZE_eq. lia.
  - by exists d, d1, d2, l2.
Defined.

Lemma Open_after_crash_witness :
  ∃ t' (d : dataManager logger) pages pg,
    Open 4 (λ m, (map_to_list m).*1) (λ _, 5) (Pcacher.Open (Ret (file_of (mjoin crash_disk))) (10 * PAGE_SIZE)) (Ret crash_log) crash_tm = Ret (t', d) ∧
    (∃ l1, pc_rep pages (pin1 l1) (dm_pc d)) ∧ pages !! 1%nat = Some pg ∧ page_rep [[Byte.x00; Byte.xcc]; [Byte.x01; Byte.xbb]] pg.
Proof.
  destruct (Open_after_crash crash_tm crash_log crash_sts crash_ops (wal_bytes <$> crash_ops) 2 crash_store crash_disk (copy_at PXInitRaw 100 [Byte.x61])
    (λ m, (map_to_list m).*1) 4 (λ _, 5) (10 * PAGE_SIZE)) as (t' & d & m & pages & Hrun & Hidle & _ & Hops & _).
  - exact crash_scanning.
  - by repeat split.
  - intros op Hop. unfold crash_ops in Hop. rewrite !elem_of_cons, elem_of_nil in Hop. destruct Hop as [->|[->|[->|[]]]]; by vm_compute.
  - by vm_compute.
  - exact crash_history.
  - exact crash_no_dirty.
  - repeat (apply Forall_cons; split; [by vm_compute|]). by apply Forall_nil.
  - reflexivity.
  - lia.
  - exact crash_fso.
  - reflexivity.
  - by vm_compute.
  - rewrite PAGE_SIZE_eq. lia.
  - intros m0. reflexivity.
  - cbn. lia.
  - assert (Hin : Inserted 1 2 2 [Byte.x00; Byte.xaa] ∈ crash_ops) by (apply elem_of_cons; by left).
    specialize (Hops _ Hin). cbn in Hops. assert (Hm : (2 ≤ m)%nat) by (clear - Hops; lia).
    destruct Hidle as (l1 & _ & Hrep). destruct (r_store _ _ _ _ _ _ Hrep) as [_ Hst].
    assert (Hit : recovered_store (tm_IsActive crash_tm) crash_ops m crash_store !! 1%nat = Some [[Byte.x00; Byte.xcc]; [Byte.x01; Byte.xbb]]).
    { unfold recovered_store. rewrite list_lookup_imap, lookup_take_lt by exact Hm. change (crash_store !! 1%nat) with (Some [[Byte.x00; Byte.xcc]; [Byte.x00; Byte.xbb]]).
      cbn [fmap option_fmap option_map]. exact (f_equal Some crash_recovered). }
    destruct (Hst 1%nat _ (le_n 1) Hit) as (_ & pg & Hpg & Hpr). exists t', d, pages, pg. split; [exact Hrun|]. split; [|split; [exact Hpg|exact Hpr]].
    exists l1. exact (r_pc _ _ _ _ _ _ Hrep).
Defined.
