(* ===== verification/Node.v ===== *)
(** Package [im]: the nodes of the B+ tree ([node.go]).  A node is the data of
    an item: a header of 11 bytes and slots of 16 bytes, a son and its key.
    The functions that write to a node return the bytes they leave. *)
From S2P Require Import Prelude.
From S2P Require Import Codec.
From S2P Require Import Tm.
From S2P Require Import DmI.
Local Open Scope Z_scope.

Definition _IS_LEAF_OFFSET : Z := 0.
Definition _NO_KEYS_OFFSET : Z := _IS_LEAF_OFFSET + 1.
Definition _SIBLING_OFFSET : Z := _NO_KEYS_OFFSET + 2.
Definition _NODE_HEADER_SIZE : Z := _SIBLING_OFFSET + LEN_UUID.
Definition _BALANCE_NUMBER : Z := 32.
Definition _NODE_SIZE : Z := _NODE_HEADER_SIZE + 2 * LEN_UUID * (_BALANCE_NUMBER * 2 + 2).

(** [PutUUID(raw[offset:], v)] *)
Definition put_UUID_at (raw : list byte) (offset : Z) (v : UUID) : outcome (list byte) :=
  _ ← slice_from raw offset; Ret (on_tail raw offset (λ buf, PutUUID buf v)).
Definition parse_UUID_at (raw : list byte) (offset : Z) : outcome UUID := buf ← slice_from raw offset; ParseUUID buf.

Definition setRawIsLeaf (raw : list byte) (isLeaf : bool) : outcome (list byte) :=
  _ ← idx raw _IS_LEAF_OFFSET;
  Ret (<[Z.to_nat _IS_LEAF_OFFSET := if isLeaf then Byte.x01 else Byte.x00]> raw).
Definition getRawIsLeaf (raw : list byte) : outcome bool :=
  b ← idx raw _IS_LEAF_OFFSET; Ret (bool_decide (b = Byte.x01)).

Definition setRawNoKeys (raw : list byte) (noKeys : Z) : outcome (list byte) :=
  _ ← slice_from raw _NO_KEYS_OFFSET; Ret (on_tail raw _NO_KEYS_OFFSET (λ buf, PutUint16 buf (u16 noKeys))).
Definition getRawNoKeys (raw : list byte) : outcome Z := buf ← slice_from raw _NO_KEYS_OFFSET; ParseUint16 buf.

Definition setRawSibling (raw : list byte) (sibling : UUID) : outcome (list byte) := put_UUID_at raw _SIBLING_OFFSET sibling.
Definition getRawSibling (raw : list byte) : outcome UUID := parse_UUID_at raw _SIBLING_OFFSET.

Definition setRawKthSon (raw : list byte) (uid : UUID) (kth : Z) : outcome (list byte) :=
  let offset := _NODE_HEADER_SIZE + kth * (LEN_UUID * 2) in put_UUID_at raw offset uid.
Definition getRawKthSon (raw : list byte) (kth : Z) : outcome UUID :=
  let offset := _NODE_HEADER_SIZE + kth * (LEN_UUID * 2) in parse_UUID_at raw offset.
Definition setRawKthKey (raw : list byte) (key : UUID) (kth : Z) : outcome (list byte) :=
  let offset := _NODE_HEADER_SIZE + kth * (LEN_UUID * 2) + LEN_UUID in put_UUID_at raw offset key.
Definition getRawKthKey (raw : list byte) (kth : Z) : outcome UUID :=
  let offset := _NODE_HEADER_SIZE + kth * (LEN_UUID * 2) + LEN_UUID in parse_UUID_at raw offset.

Definition copyRawFromKth (from to : list byte) (kth : Z) : outcome (list byte) :=
  let offset := _NODE_HEADER_SIZE + kth * (LEN_UUID * 2) in
  src ← slice_from from offset;
  _ ← slice_from to _NODE_HEADER_SIZE;
  Ret (copy_at to _NODE_HEADER_SIZE src).

(** [n] bytes, the last one at [i], move 16 to the right. *)
Fixpoint shiftLoop (n : nat) (i : Z) (raw : list byte) : outcome (list byte) :=
  match n with
  | O => Ret raw
  | S n =>
      x ← idx raw (i - LEN_UUID * 2);
      _ ← idx raw i;
      shiftLoop n (i - 1) (<[Z.to_nat i := x]> raw)
  end.
Definition shiftRawKth (raw : list byte) (kth : Z) : outcome (list byte) :=
  let start := _NODE_HEADER_SIZE + (kth + 1) * (LEN_UUID * 2) in
  let stop := _NODE_SIZE - 1 in
  shiftLoop (Z.to_nat (stop - start + 1)) stop raw.

Definition newRootRaw (left right key : UUID) : outcome (list byte) :=
  let raw := make_bytes _NODE_SIZE in
  raw ← setRawIsLeaf raw false;
  raw ← setRawNoKeys raw 2;
  raw ← setRawSibling raw NilUUID;
  raw ← setRawKthSon raw left 0;
  raw ← setRawKthKey raw key 0;
  raw ← setRawKthSon raw right 1;
  setRawKthKey raw INF 1.

Definition newNilRootRaw : outcome (list byte) :=
  let raw := make_bytes _NODE_SIZE in
  raw ← setRawIsLeaf raw true;
  raw ← setRawNoKeys raw 0;
  setRawSibling raw NilUUID.

(** [SearchNext]: the loop from [i] on, [n] keys being left. *)
Fixpoint searchNextLoop (n : nat) (i : Z) (raw : list byte) (key : UUID) : outcome (UUID * UUID) :=
  match n with
  | O => sibling ← getRawSibling raw; Ret (NilUUID, sibling)
  | S n =>
      ik ← getRawKthKey raw i;
      if decide (key < ik) then son ← getRawKthSon raw i; Ret (son, NilUUID)
      else searchNextLoop n (i + 1) raw key
  end.
Definition SearchNext (raw : list byte) (key : UUID) : outcome (UUID * UUID) :=
  noKeys ← getRawNoKeys raw; searchNextLoop (Z.to_nat noKeys) 0 raw key.

(** [for kth < noKeys { if getRawKthKey(raw, kth) stops the loop { break }; kth++ }] *)
Fixpoint kthLoop (n : nat) (kth : Z) (raw : list byte) (go_on : UUID → bool) : outcome Z :=
  match n with
  | O => Ret kth
  | S n => ik ← getRawKthKey raw kth; if go_on ik then kthLoop n (kth + 1) raw go_on else Ret kth
  end.

(** The second loop of [LeafSearchRange]: the sons, and the last [kth]. *)
Fixpoint collectSons (n : nat) (kth : Z) (raw : list byte) (rightKey : UUID) : outcome (list UUID * Z) :=
  match n with
  | O => Ret ([], kth)
  | S n =>
      ik ← getRawKthKey raw kth;
      if decide (ik ≤ rightKey) then
        son ← getRawKthSon raw kth;
        '(uuids, kth) ← collectSons n (kth + 1) raw rightKey;
        Ret (son :: uuids, kth)
      else Ret ([], kth)
  end.
Definition LeafSearchRange (raw : list byte) (leftKey rightKey : UUID) : outcome (list UUID * UUID) :=
  noKeys ← getRawNoKeys raw;
  kth ← kthLoop (Z.to_nat noKeys) 0 raw (λ ik, bool_decide (ik < leftKey));
  '(uuids, kth) ← collectSons (Z.to_nat (noKeys - kth)) kth raw rightKey;
  if decide (kth = noKeys) then sibling ← getRawSibling raw; Ret (uuids, sibling) else Ret (uuids, NilUUID).

(** [insert]: the bytes afterwards, or [None] for false. *)
Definition insert_entry (raw : list byte) (uuid key : UUID) : outcome (option (list byte)) :=
  noKeys ← getRawNoKeys raw;
  kth ← kthLoop (Z.to_nat noKeys) 0 raw (λ ik, bool_decide (ik < key));
  sibling ← getRawSibling raw;
  if decide (kth = noKeys ∧ sibling ≠ NilUUID) then Ret None
  else
    leaf ← getRawIsLeaf raw;
    raw ← (if (leaf : bool) then
             raw ← shiftRawKth raw kth;
             raw ← setRawKthKey raw key kth;
             raw ← setRawKthSon raw uuid kth;
             setRawNoKeys raw (noKeys + 1)
           else
             kk ← getRawKthKey raw kth;
             raw ← setRawKthKey raw key kth;
             raw ← shiftRawKth raw (kth + 1);
             raw ← setRawKthKey raw kk (kth + 1);
             raw ← setRawKthSon raw uuid (kth + 1);
             setRawNoKeys raw (noKeys + 1));
    Ret (Some raw).

Definition needSplit (raw : list byte) : outcome bool :=
  noKeys ← getRawNoKeys raw; Ret (bool_decide (_BALANCE_NUMBER * 2 = noKeys)).

(** The bytes of the node [split] creates. *)
Definition split_off (raw : list byte) : outcome (list byte) :=
  let nodeRaw := make_bytes _NODE_SIZE in
  leaf ← getRawIsLeaf raw;
  nodeRaw ← setRawIsLeaf nodeRaw leaf;
  nodeRaw ← setRawNoKeys nodeRaw _BALANCE_NUMBER;
  sibling ← getRawSibling raw;
  nodeRaw ← setRawSibling nodeRaw sibling;
  copyRawFromKth raw nodeRaw _BALANCE_NUMBER.

Section Node.
Context {D : Type} `{!DataManager D}.

(** The data of a valid item; [utils.Assert] ends the process. *)
Definition loadNode (selfUUID : UUID) : M D (list byte) :=
  d ← get;
  item ← lift (dm_Read d selfUUID);
  match item with Some raw => mret raw | None => crash end.

(** [split]: the bytes of the node afterwards, the new node and its first key. *)
Definition split (raw : list byte) : M D (list byte * UUID * UUID) :=
  nodeRaw ← lift (split_off raw);
  son ← dm_Insert SUPER_XID nodeRaw;
  raw ← lift (setRawNoKeys raw _BALANCE_NUMBER);
  raw ← lift (setRawSibling raw son);
  newKey ← lift (getRawKthKey nodeRaw 0);
  mret (raw, son, newKey).

(** [node.insertAndSplit].  The bytes change between [Before] and [After],
    which hold the node's lock: the change is written at the end; on an error
    [UnBefore] leaves the item as it was. *)
Definition node_insertAndSplit (selfUUID : UUID) (raw : list byte) (uuid key : UUID) : M D (UUID * UUID * UUID) :=
  succ ← lift (insert_entry raw uuid key);
  match succ with
  | None => sibling ← lift (getRawSibling raw); mret (sibling, NilUUID, NilUUID)
  | Some raw =>
      need ← lift (needSplit raw);
      if (need : bool) then
        '(raw, newSon, newKey) ← split raw;
        _ ← dm_Write SUPER_XID selfUUID raw;
        mret (NilUUID, newSon, newKey)
      else
        _ ← dm_Write SUPER_XID selfUUID raw;
        mret (NilUUID, NilUUID, NilUUID)
  end.
End Node.

(** * The node as data *)

(** [a_ents]: keys with their sons. *)
Record anode := mkNode { a_leaf : bool; a_ents : list (UUID * UUID); a_sib : UUID }.

Definition ent_bytes (e : UUID * UUID) : list byte := UUIDToRaw e.2 ++ UUIDToRaw e.1.
Definition node_head (n : anode) : list byte :=
  (if a_leaf n then Byte.x01 else Byte.x00) :: Uint16ToRaw (zlen (a_ents n)) ++ UUIDToRaw (a_sib n).
Definition ents_bytes (ents : list (UUID * UUID)) : list byte := mjoin (ent_bytes <$> ents).

Definition is_uid (v : UUID) : Prop := 0 ≤ v < 2 ^ 64.
Definition anode_wf (n : anode) : Prop :=
  Forall (λ e : UUID * UUID, is_uid e.1 ∧ is_uid e.2) (a_ents n) ∧ is_uid (a_sib n) ∧ zlen (a_ents n) ≤ 64.

(** What is behind the last slot in use is arbitrary. *)
Definition node_rep (n : anode) (raw : list byte) : Prop :=
  zlen raw = _NODE_SIZE ∧ anode_wf n ∧ ∃ rest, raw = node_head n ++ ents_bytes (a_ents n) ++ rest.

Lemma zlen_uid v : zlen (UUIDToRaw v) = 8.
Proof. apply zlen_be_bytes. Qed.
Lemma zlen_ent e : zlen (ent_bytes e) = 16.
Proof. unfold ent_bytes. by rewrite zlen_app, !zlen_uid. Qed.
Lemma zlen_head n : zlen (node_head n) = 11.
Proof. unfold node_head, Uint16ToRaw. by rewrite zlen_cons, zlen_app, zlen_be_bytes, zlen_uid. Qed.
Lemma ents_bytes_app a b : ents_bytes (a ++ b) = ents_bytes a ++ ents_bytes b.
Proof. unfold ents_bytes. rewrite fmap_app. apply join_app. Qed.
Lemma ents_bytes_cons e a : ents_bytes (e :: a) = ent_bytes e ++ ents_bytes a.
Proof. done. Qed.
Lemma zlen_ents ents : zlen (ents_bytes ents) = 16 * zlen ents.
Proof. induction ents as [|e ents IH]; [done|]. rewrite ents_bytes_cons, zlen_app, zlen_ent, zlen_cons, IH. lia. Qed.

(** Reading and writing a piece of eight bytes. *)
Lemma put_UUID_piece raw a b c off v : raw = a ++ b ++ c → zlen a = off → zlen b = 8 → put_UUID_at raw off v = Ret (a ++ UUIDToRaw v ++ c).
Proof.
  intros Hraw Ha Hb. pose proof (zlen_nonneg a). pose proof (zlen_nonneg c). unfold put_UUID_at.
  rewrite slice_from_Ret by (rewrite Hraw, !zlen_app; lia). cbn [mbind outcome_bind]. f_equal.
  unfold PutUUID, PutUint64. rewrite on_tail_put_be by (rewrite ?Hraw, ?zlen_app; lia).
  apply (copy_at_piece _ a b c); [done|done|]. rewrite Hb. apply zlen_uid.
Qed.

Lemma parse_UUID_piece raw a c off v : raw = a ++ UUIDToRaw v ++ c → zlen a = off → is_uid v → parse_UUID_at raw off = Ret v.
Proof.
  intros Hraw Ha Hv. unfold parse_UUID_at. rewrite (slice_from_at raw a (UUIDToRaw v ++ c)) by done. cbn [mbind outcome_bind].
  unfold ParseUUID, ParseUint64, GetUint64. by apply get_be_app.
Qed.

Section Reading.
Context (n : anode) (raw : list byte) (Hrep : node_rep n raw).

Lemma getRawIsLeaf_run : getRawIsLeaf raw = Ret (a_leaf n).
Proof. destruct Hrep as (_ & _ & rest & ->). unfold node_head. by destruct (a_leaf n). Qed.

Lemma getRawNoKeys_run : getRawNoKeys raw = Ret (zlen (a_ents n)).
Proof.
  destruct Hrep as (_ & (_ & _ & Hl) & rest & ->). pose proof (zlen_nonneg (a_ents n)). unfold getRawNoKeys.
  rewrite (slice_from_at _ [if a_leaf n then Byte.x01 else Byte.x00] (Uint16ToRaw (zlen (a_ents n)) ++ UUIDToRaw (a_sib n) ++ ents_bytes (a_ents n) ++ rest));
    [|unfold node_head; cbn [app]; by rewrite <- ?app_assoc|done]. cbn [mbind outcome_bind].
  unfold ParseUint16, GetUint16, Uint16ToRaw. apply get_be_app. lia.
Qed.

Lemma getRawSibling_run : getRawSibling raw = Ret (a_sib n).
Proof.
  destruct Hrep as (_ & (_ & Hs & _) & rest & ->). unfold getRawSibling.
  apply (parse_UUID_piece _ ((if a_leaf n then Byte.x01 else Byte.x00) :: Uint16ToRaw (zlen (a_ents n))) (ents_bytes (a_ents n) ++ rest)); [|done|done].
  unfold node_head. cbn [app]. by rewrite <- ?app_assoc.
Qed.

(** The slots around one of them. *)
Lemma node_slot i k s : a_ents n !! i = Some (k, s) →
  ∃ a c, raw = a ++ UUIDToRaw s ++ UUIDToRaw k ++ c ∧ zlen a = _NODE_HEADER_SIZE + Z.of_nat i * (LEN_UUID * 2) ∧ is_uid k ∧ is_uid s.
Proof.
  intros Hi. destruct Hrep as (_ & (Hall & _ & _) & rest & ->). rewrite Forall_lookup in Hall. destruct (Hall _ _ Hi) as [Hk Hs].
  exists (node_head n ++ ents_bytes (take i (a_ents n))), (ents_bytes (drop (S i) (a_ents n)) ++ rest). split; [|split; [|done]].
  - rewrite <- (take_drop_middle _ _ _ Hi) at 1. rewrite ents_bytes_app, ents_bytes_cons. unfold ent_bytes at 1. by rewrite <- ?app_assoc.
  - rewrite zlen_app, zlen_head, zlen_ents. apply lookup_lt_Some in Hi. unfold zlen. rewrite length_take.
    unfold _NODE_HEADER_SIZE, _SIBLING_OFFSET, _NO_KEYS_OFFSET, _IS_LEAF_OFFSET, LEN_UUID. lia.
Qed.

Lemma getRawKthSon_run i k s : a_ents n !! i = Some (k, s) → getRawKthSon raw (Z.of_nat i) = Ret s.
Proof.
  intros Hi. destruct (node_slot _ _ _ Hi) as (a & c & Hraw & Ha & Hk & Hs). unfold getRawKthSon. by eapply parse_UUID_piece.
Qed.

Lemma getRawKthKey_run i k s : a_ents n !! i = Some (k, s) → getRawKthKey raw (Z.of_nat i) = Ret k.
Proof.
  intros Hi. destruct (node_slot _ _ _ Hi) as (a & c & Hraw & Ha & Hk & Hs). unfold getRawKthKey.
  apply (parse_UUID_piece _ (a ++ UUIDToRaw s) c); [by rewrite <- app_assoc|rewrite zlen_app, zlen_uid, Ha; unfold LEN_UUID; lia|done].
Qed.

(** ** Searching *)

Definition search_next (key : UUID) : UUID * UUID :=
  match list_find (λ e : UUID * UUID, key < e.1) (a_ents n) with
  | Some (_, e) => (e.2, NilUUID)
  | None => (NilUUID, a_sib n)
  end.

Lemma searchNextLoop_run key ents : ∀ i,
  drop i (a_ents n) = ents →
  searchNextLoop (length ents) (Z.of_nat i) raw key =
    Ret (match list_find (λ e : UUID * UUID, key < e.1) ents with Some (_, e) => (e.2, NilUUID) | None => (NilUUID, a_sib n) end).
Proof.
  induction ents as [|[k s] ents IH]; intros i Hd; cbn [searchNextLoop length].
  - by rewrite getRawSibling_run.
  - assert (Hi : a_ents n !! i = Some (k, s)) by (rewrite <- (Nat.add_0_r i), <- lookup_drop, Hd; done).
    rewrite (getRawKthKey_run _ _ _ Hi). cbn [mbind outcome_bind list_find fst]. case_decide.
    + by rewrite (getRawKthSon_run _ _ _ Hi).
    + replace (Z.of_nat i + 1) with (Z.of_nat (S i)) by lia. rewrite IH.
      * by destruct (list_find _ ents) as [[]|].
      * by rewrite <- Nat.add_1_r, <- drop_drop, Hd.
Qed.

Lemma SearchNext_run key : SearchNext raw key = Ret (search_next key).
Proof.
  unfold SearchNext. rewrite getRawNoKeys_run. cbn [mbind outcome_bind]. unfold zlen. rewrite Nat2Z.id. by apply (searchNextLoop_run key (a_ents n) 0).
Qed.

(** The number of entries at the front whose keys satisfy [p]. *)
Fixpoint kth (p : UUID → bool) (ents : list (UUID * UUID)) : nat :=
  match ents with [] => O | e :: ents => if p e.1 then S (kth p ents) else O end.

Lemma kth_le p ents : (kth p ents ≤ length ents)%nat.
Proof. induction ents as [|e ents IH]; cbn; [lia|]. destruct (p e.1); lia. Qed.

Lemma kthLoop_run p ents : ∀ i,
  drop i (a_ents n) = ents → kthLoop (length ents) (Z.of_nat i) raw p = Ret (Z.of_nat (i + kth p ents)).
Proof.
  induction ents as [|[k s] ents IH]; intros i Hd; cbn [kthLoop length kth fst]; [do 2 f_equal; lia|].
  assert (Hi : a_ents n !! i = Some (k, s)) by (rewrite <- (Nat.add_0_r i), <- lookup_drop, Hd; done).
  rewrite (getRawKthKey_run _ _ _ Hi). cbn [mbind outcome_bind]. destruct (p k); [|do 2 f_equal; lia].
  replace (Z.of_nat i + 1) with (Z.of_nat (S i)) by lia. rewrite IH; [do 2 f_equal; lia|]. by rewrite <- Nat.add_1_r, <- drop_drop, Hd.
Qed.

Lemma collectSons_run r ents : ∀ i,
  drop i (a_ents n) = ents → let c := kth (λ k, bool_decide (k ≤ r)) ents in
  collectSons (length ents) (Z.of_nat i) raw r = Ret (snd <$> take c ents, Z.of_nat (i + c)).
Proof.
  induction ents as [|[k s] ents IH]; intros i Hd; cbn [collectSons length kth fst]; [cbn; do 3 f_equal; lia|].
  assert (Hi : a_ents n !! i = Some (k, s)) by (rewrite <- (Nat.add_0_r i), <- lookup_drop, Hd; done).
  rewrite (getRawKthKey_run _ _ _ Hi). cbn [mbind outcome_bind]. destruct (decide (k ≤ r)) as [Hk|Hk].
  - rewrite (bool_decide_eq_true_2 _ Hk), (getRawKthSon_run _ _ _ Hi). cbn [mbind outcome_bind].
    replace (Z.of_nat i + 1) with (Z.of_nat (S i)) by lia. rewrite IH by (by rewrite <- Nat.add_1_r, <- drop_drop, Hd).
    cbn [mbind outcome_bind take fmap list_fmap snd]. do 3 f_equal. lia.
  - rewrite (bool_decide_eq_false_2 _ Hk). cbn. do 3 f_equal. lia.
Qed.

Definition leaf_range (l r : UUID) : list UUID * UUID :=
  let rest := drop (kth (λ k, bool_decide (k < l)) (a_ents n)) (a_ents n) in
  let c := kth (λ k, bool_decide (k ≤ r)) rest in
  (snd <$> take c rest, if decide (c = length rest) then a_sib n else NilUUID).

Lemma LeafSearchRange_run l r : LeafSearchRange raw l r = Ret (leaf_range l r).
Proof.
  unfold LeafSearchRange. rewrite getRawNoKeys_run. cbn [mbind outcome_bind]. unfold zlen. rewrite Nat2Z.id.
  pose proof (kthLoop_run (λ ik, bool_decide (ik < l)) (a_ents n) 0 eq_refl) as Hk. cbn [Nat.add] in Hk. change (Z.of_nat 0) with 0 in Hk. rewrite Hk.
  cbn [mbind outcome_bind]. unfold leaf_range. set (k := kth (λ k : UUID, bool_decide (k < l)) (a_ents n)). pose proof (kth_le (λ k : UUID, bool_decide (k < l)) (a_ents n)) as Hle.
  fold k in Hle. set (rest := drop k (a_ents n)). assert (Hlen : length rest = (length (a_ents n) - k)%nat) by apply length_drop.
  replace (Z.to_nat (Z.of_nat (length (a_ents n)) - Z.of_nat k)) with (length rest) by lia.
  rewrite (collectSons_run r rest k eq_refl). cbn [mbind outcome_bind]. set (c := kth _ rest).
  destruct (decide (c = length rest)) as [Hc|Hc].
  - rewrite decide_True by lia. by rewrite getRawSibling_run.
  - by rewrite decide_False by lia.
Qed.
End Reading.

(** ** Writing *)

(** [n] bytes move 16 places to the right, over what was there. *)
Lemma shiftLoop_run m : ∀ a x b c : list byte,
  length b = m → length x = 16%nat →
  shiftLoop m (zlen a + 16 + Z.of_nat m - 1) (a ++ b ++ x ++ c) = Ret (a ++ take 16 (b ++ x) ++ b ++ c).
Proof.
  induction m as [|m IH]; intros a x b c Hb Hx.
  - apply length_zero_iff_nil in Hb as ->. cbn [shiftLoop app]. by rewrite take_ge by lia.
  - destruct (exists_last (l := b)) as (b' & y & ->); [by destruct b|]. rewrite length_app in Hb. cbn in Hb.
    assert (Hb' : length b' = m) by lia. cbn [shiftLoop]. unfold LEN_UUID.
    set (l := a ++ (b' ++ [y]) ++ x ++ c). pose proof (zlen_nonneg a).
    assert (H1 : idx l (zlen a + 16 + Z.of_nat (S m) - 1 - 8 * 2) = Ret y).
    { apply (idx_at l (a ++ b') y (x ++ c)); [unfold l; by rewrite <- ?app_assoc|]. rewrite zlen_app. unfold zlen. lia. }
    rewrite H1. cbn [mbind outcome_bind].
    destruct (exists_last (l := x)) as (x' & z & Hxz); [by destruct x|].
    assert (Hx' : length x' = 15%nat) by (rewrite Hxz, length_app in Hx; cbn in Hx; lia).
    assert (H2 : idx l (zlen a + 16 + Z.of_nat (S m) - 1) = Ret z).
    { apply (idx_at l (a ++ b' ++ [y] ++ x') z c); [unfold l; rewrite Hxz; by rewrite <- ?app_assoc|]. rewrite !zlen_app. unfold zlen in *. cbn. lia. }
    rewrite H2. cbn [mbind outcome_bind].
    assert (H3 : <[Z.to_nat (zlen a + 16 + Z.of_nat (S m) - 1) := y]> l = a ++ b' ++ ([y] ++ x') ++ [y] ++ c).
    { unfold l. rewrite Hxz. replace (a ++ (b' ++ [y]) ++ (x' ++ [z]) ++ c) with ((a ++ b' ++ [y] ++ x') ++ z :: c) by (by rewrite <- ?app_assoc).
      rewrite insert_app_r_alt by (rewrite !length_app; unfold zlen; cbn; lia).
      replace (Z.to_nat _ - _)%nat with 0%nat by (rewrite !length_app; unfold zlen; cbn; lia). cbn [list_insert insert]. by rewrite <- ?app_assoc. }
    rewrite H3. replace (zlen a + 16 + Z.of_nat (S m) - 1 - 1) with (zlen a + 16 + Z.of_nat m - 1) by lia.
    rewrite (IH a ([y] ++ x') b' ([y] ++ c) Hb') by (cbn; lia). do 2 f_equal.
    assert (Ht : take 16 ((b' ++ [y]) ++ x) = take 16 (b' ++ [y] ++ x')).
    { rewrite Hxz. rewrite <- (app_assoc b'), !app_assoc. rewrite (take_app_le _ [z]); [done|]. rewrite !length_app. cbn. lia. }
    rewrite Ht. by rewrite <- ?app_assoc.
Qed.

Lemma shiftRawKth_run raw kth P b x : 
  raw = P ++ b ++ x → zlen raw = _NODE_SIZE → zlen P = _NODE_HEADER_SIZE + kth * (LEN_UUID * 2) → length x = 16%nat →
  shiftRawKth raw kth = Ret (P ++ take 16 (b ++ x) ++ b).
Proof.
  intros Hraw Hl HP Hx. unfold shiftRawKth. pose proof (zlen_nonneg b). assert (Hz : zlen P + zlen b + 16 = _NODE_SIZE).
  { rewrite <- Hl, Hraw, !zlen_app. assert (zlen x = 16) by (unfold zlen; lia). lia. }
  pose proof (shiftLoop_run (length b) P x b [] eq_refl Hx) as Hrun. rewrite !app_nil_r in Hrun. rewrite <- Hraw in Hrun. rewrite <- Hrun.
  unfold LEN_UUID in *. f_equal; unfold zlen in *; lia.
Qed.

(** A slot is opened and filled. *)
Lemma open_slot raw kth P B rest key uuid :
  raw = P ++ B ++ rest → zlen raw = _NODE_SIZE → zlen P = _NODE_HEADER_SIZE + kth * (LEN_UUID * 2) → 16 ≤ zlen rest →
  ∃ rest', (raw ← shiftRawKth raw kth; raw ← setRawKthKey raw key kth; setRawKthSon raw uuid kth) = Ret (P ++ ent_bytes (key, uuid) ++ B ++ rest') ∧
    zlen rest' = zlen rest - 16.
Proof.
  intros Hraw Hl HP Hrest. set (k := (length rest - 16)%nat). unfold zlen in Hrest.
  assert (Hx : length (drop k rest) = 16%nat) by (rewrite length_drop; lia).
  exists (take k rest). split; [|unfold zlen; rewrite length_take; lia]. rewrite (shiftRawKth_run raw kth P (B ++ take k rest) (drop k rest)); [|by rewrite <- app_assoc, take_drop|done..].
  cbn [mbind outcome_bind]. set (hole := take 16 _).
  assert (Hh : length hole = 16%nat) by (unfold hole; rewrite length_take, !length_app, length_take, Hx; lia).
  unfold setRawKthKey, setRawKthSon. unfold LEN_UUID in *.
  rewrite (put_UUID_piece _ (P ++ take 8 hole) (drop 8 hole) (B ++ take k rest)).
  - cbn [mbind outcome_bind]. rewrite (put_UUID_piece _ P (take 8 hole) (UUIDToRaw key ++ B ++ take k rest)).
    + unfold ent_bytes. cbn [fst snd]. by rewrite <- ?app_assoc.
    + by rewrite <- ?app_assoc.
    + done.
    + unfold zlen. rewrite length_take. lia.
  - rewrite <- ?app_assoc. rewrite (app_assoc (take 8 hole)). by rewrite take_drop.
  - rewrite zlen_app, HP. unfold zlen. rewrite length_take. lia.
  - unfold zlen. rewrite length_drop. lia.
Qed.

Definition mk_head (leaf : bool) (k : Z) (sib : UUID) : list byte :=
  (if leaf then Byte.x01 else Byte.x00) :: Uint16ToRaw k ++ UUIDToRaw sib.

Lemma setRawNoKeys_run leaf k sib rest k' : 0 ≤ k' < 2 ^ 16 →
  setRawNoKeys (mk_head leaf k sib ++ rest) k' = Ret (mk_head leaf k' sib ++ rest).
Proof.
  intros Hk. unfold setRawNoKeys, mk_head. set (f := if leaf then _ else _). pose proof (zlen_nonneg rest).
  assert (Hl : zlen ((f :: Uint16ToRaw k ++ UUIDToRaw sib) ++ rest) = 11 + zlen rest).
  { unfold Uint16ToRaw. rewrite zlen_app, zlen_cons, zlen_app, zlen_be_bytes, zlen_uid. lia. }
  unfold _NO_KEYS_OFFSET, _IS_LEAF_OFFSET. rewrite slice_from_Ret by lia. cbn [mbind outcome_bind]. f_equal.
  unfold PutUint16. rewrite on_tail_put_be by lia. rewrite u16_id by done.
  apply (copy_at_piece _ [f] (Uint16ToRaw k) (UUIDToRaw sib ++ rest)); [done|done|].
  unfold Uint16ToRaw. by rewrite !zlen_be_bytes.
Qed.

Lemma setRawSibling_run leaf k sib rest sib' :
  setRawSibling (mk_head leaf k sib ++ rest) sib' = Ret (mk_head leaf k sib' ++ rest).
Proof.
  unfold setRawSibling, mk_head. set (f := if leaf then _ else _).
  rewrite (put_UUID_piece _ (f :: Uint16ToRaw k) (UUIDToRaw sib) rest); [done|done|done|apply zlen_uid].
Qed.

Lemma setRawIsLeaf_run leaf k sib rest leaf' :
  setRawIsLeaf (mk_head leaf k sib ++ rest) leaf' = Ret (mk_head leaf' k sib ++ rest).
Proof. done. Qed.

Lemma zeroed_node : make_bytes _NODE_SIZE = mk_head false 0 0 ++ make_bytes 1056.
Proof. by vm_compute. Qed.

(** ** Inserting an entry *)

Definition less (key : UUID) : UUID → bool := λ ik, bool_decide (ik < key).

(** The entries after the insertion: a leaf gets the entry in its place; in an
    inner node the entry found keeps its son and takes the new key, the new son
    follows with the old key. *)
Definition inserted (leaf : bool) (ents : list (UUID * UUID)) (key uuid : UUID) : list (UUID * UUID) :=
  let k := kth (less key) ents in
  if leaf then take k ents ++ (key, uuid) :: drop k ents
  else match ents !! k with
       | Some (kk, son) => take k ents ++ (key, son) :: (kk, uuid) :: drop (S k) ents
       | None => ents
       end.

Lemma length_inserted leaf ents key uuid :
  (leaf = false → (kth (less key) ents < length ents)%nat) → length (inserted leaf ents key uuid) = S (length ents).
Proof.
  unfold inserted. intros Hl. pose proof (kth_le (less key) ents). set (k := kth _ _) in *. destruct leaf.
  - rewrite length_app, length_cons, length_take, length_drop. lia.
  - destruct (lookup_lt_is_Some_2 ents k (Hl eq_refl)) as [[kk son] Hk]. rewrite Hk.
    rewrite length_app, !length_cons, length_take, length_drop. specialize (Hl eq_refl). lia.
Qed.

Lemma wf_inserted leaf ents key uuid :
  Forall (λ e : UUID * UUID, is_uid e.1 ∧ is_uid e.2) ents → is_uid key → is_uid uuid →
  Forall (λ e : UUID * UUID, is_uid e.1 ∧ is_uid e.2) (inserted leaf ents key uuid).
Proof.
  intros Hall Hk Hu. unfold inserted. set (k := kth _ _). destruct leaf.
  - apply Forall_app. split; [by apply Forall_take|]. apply Forall_cons. split; [done|by apply Forall_drop].
  - destruct (ents !! k) as [[kk son]|] eqn:E; [|done]. pose proof (proj1 (Forall_lookup _ _) Hall _ _ E) as [Hkk Hson].
    apply Forall_app. split; [by apply Forall_take|]. repeat (apply Forall_cons; split; [done|]). by apply Forall_drop.
Qed.

Lemma insert_entry_run n raw key uuid :
  node_rep n raw → is_uid key → is_uid uuid → zlen (a_ents n) < 64 →
  (a_leaf n = false → (kth (less key) (a_ents n) < length (a_ents n))%nat ∨ a_sib n ≠ 0) →
  if decide (kth (less key) (a_ents n) = length (a_ents n) ∧ a_sib n ≠ 0) then insert_entry raw uuid key = Ret None
  else ∃ raw', insert_entry raw uuid key = Ret (Some raw') ∧ node_rep (mkNode (a_leaf n) (inserted (a_leaf n) (a_ents n) key uuid) (a_sib n)) raw'.
Proof.
  intros Hrep Hk Hu Hlen Hinner. unfold insert_entry. rewrite (getRawNoKeys_run _ _ Hrep). cbn [mbind outcome_bind].
  pose proof (kthLoop_run _ _ Hrep (less key) (a_ents n) 0 eq_refl) as Hkth. change (Z.of_nat 0) with 0 in Hkth. cbn [Nat.add] in Hkth.
  change (λ ik : UUID, bool_decide (ik < key)) with (less key). replace (Z.to_nat (zlen (a_ents n))) with (length (a_ents n)) by (unfold zlen; lia). rewrite Hkth. cbn [mbind outcome_bind].
  rewrite (getRawSibling_run _ _ Hrep). cbn [mbind outcome_bind]. pose proof (kth_le (less key) (a_ents n)) as Hle.
  set (k := kth (less key) (a_ents n)) in *. unfold NilUUID.
  destruct (decide (k = length (a_ents n) ∧ a_sib n ≠ 0)) as [[Hk1 Hs]|Hno].
  { rewrite decide_True; [done|]. split; [unfold zlen; lia|done]. }
  rewrite decide_False by (unfold zlen; intros [? ?]; apply Hno; split; [lia|done]).
  rewrite (getRawIsLeaf_run _ _ Hrep). cbn [mbind outcome_bind].
  pose proof Hrep as (Hl & (Hall & Hsib & _) & rest & Hraw). destruct n as [leaf ents sib]. cbn [a_leaf a_ents a_sib] in *.
  assert (Hhead : node_head (mkNode leaf ents sib) = mk_head leaf (zlen ents) sib) by done. rewrite Hhead in Hraw.
  assert (Hrest : 48 ≤ zlen rest).
  { rewrite Hraw, !zlen_app, zlen_ents in Hl. rewrite <- Hhead, zlen_head in Hl.
    unfold _NODE_SIZE, _NODE_HEADER_SIZE, _SIBLING_OFFSET, _NO_KEYS_OFFSET, _IS_LEAF_OFFSET, LEN_UUID, _BALANCE_NUMBER in Hl. lia. }
  assert (Hz : zlen (mk_head leaf (zlen ents) sib) = 11) by (rewrite <- Hhead; apply zlen_head).
  assert (Hfin : ∀ body ents' rest', body = mk_head leaf (zlen ents) sib ++ ents_bytes ents' ++ rest' → zlen ents' = zlen ents + 1 →
    zlen rest' = zlen rest - 16 → Forall (λ e : UUID * UUID, is_uid e.1 ∧ is_uid e.2) ents' →
    ∃ raw', (raw ← setRawNoKeys body (zlen ents + 1); Ret (Some raw)) = Ret (Some raw') ∧ node_rep (mkNode leaf ents' sib) raw').
  { intros body ents' rest' -> Hl' Hr' Hall'. pose proof (zlen_nonneg ents). rewrite setRawNoKeys_run by lia. cbn [mbind outcome_bind].
    eexists. split; [done|]. split; [|split; [split; [done|]; split; [done|cbn [a_ents]; lia]|]].
    - rewrite Hraw, !zlen_app, zlen_ents, Hz in Hl. rewrite !zlen_app, zlen_ents. unfold mk_head, Uint16ToRaw.
      rewrite zlen_cons, zlen_app, zlen_be_bytes, zlen_uid. rewrite <- Hl. lia.
    - exists rest'. unfold node_head. cbn [a_leaf a_ents a_sib]. by rewrite Hl'. }
  pose proof (wf_inserted leaf ents key uuid Hall Hk Hu) as Hwf'.
  assert (Hlen' : zlen (inserted leaf ents key uuid) = zlen ents + 1).
  { unfold zlen. rewrite length_inserted; [lia|]. intros Hlf. fold k. destruct (Hinner Hlf) as [?|?]; [done|]. assert (k ≠ length ents) by naive_solver. lia. }
  assert (Hpos : ∀ m, (m ≤ length ents)%nat → zlen (mk_head leaf (zlen ents) sib ++ ents_bytes (take m ents)) = _NODE_HEADER_SIZE + Z.of_nat m * (LEN_UUID * 2)).
  { intros m Hm. rewrite zlen_app, Hz, zlen_ents. unfold zlen. rewrite length_take, Nat.min_l by lia.
    unfold _NODE_HEADER_SIZE, _SIBLING_OFFSET, _NO_KEYS_OFFSET, _IS_LEAF_OFFSET, LEN_UUID. lia. }
  destruct leaf.
  - destruct (open_slot raw (Z.of_nat k) (mk_head true (zlen ents) sib ++ ents_bytes (take k ents)) (ents_bytes (drop k ents)) rest key uuid)
      as (rest' & Hrun & Hr'); [|done|by apply Hpos|lia|].
    { rewrite Hraw. rewrite <- app_assoc. f_equal. rewrite (app_assoc (ents_bytes (take k ents))), <- ents_bytes_app. by rewrite take_drop. }
    destruct (shiftRawKth raw (Z.of_nat k)) as [raw1|e| |]; try discriminate. cbn [mbind outcome_bind] in *.
    destruct (setRawKthKey raw1 key (Z.of_nat k)) as [raw2|e| |]; try discriminate. cbn [mbind outcome_bind] in *. rewrite Hrun. cbn [mbind outcome_bind].
    eapply Hfin; [|done|done|done]. unfold inserted. fold k. rewrite ents_bytes_app, ents_bytes_cons. by rewrite <- ?app_assoc.
  - assert (Hkl : (k < length ents)%nat) by (destruct (Hinner eq_refl) as [?|?]; [done|]; assert (k ≠ length ents) by naive_solver; lia).
    destruct (lookup_lt_is_Some_2 ents k Hkl) as [[kk son] He]. rewrite (getRawKthKey_run _ _ Hrep _ _ _ He). cbn [mbind outcome_bind].
    pose proof (proj1 (Forall_lookup _ _) Hall _ _ He) as [Hkk Hson]. cbn [fst snd] in *.
    assert (Hraw2 : raw = ((mk_head false (zlen ents) sib ++ ents_bytes (take k ents)) ++ UUIDToRaw son) ++ UUIDToRaw kk ++ ents_bytes (drop (S k) ents) ++ rest).
    { rewrite Hraw. assert (Hsl : ents_bytes ents = ents_bytes (take k ents) ++ (UUIDToRaw son ++ UUIDToRaw kk) ++ ents_bytes (drop (S k) ents)).
      { rewrite <- (take_drop_middle _ _ _ He) at 1. by rewrite ents_bytes_app, ents_bytes_cons. }
      rewrite Hsl. by rewrite <- ?app_assoc. }
    assert (Hset : setRawKthKey raw key (Z.of_nat k) =
      Ret ((mk_head false (zlen ents) sib ++ ents_bytes (take k ents ++ [(key, son)])) ++ ents_bytes (drop (S k) ents) ++ rest)).
    { unfold setRawKthKey. rewrite (put_UUID_piece _ _ _ _ _ _ Hraw2); [|rewrite zlen_app, zlen_uid, Hpos by lia; unfold LEN_UUID; lia|apply zlen_uid].
      rewrite ents_bytes_app, ents_bytes_cons. change (ents_bytes []) with (@nil byte). unfold ent_bytes. cbn [fst snd]. rewrite app_nil_r. by rewrite <- ?app_assoc. }
    rewrite Hset. cbn [mbind outcome_bind]. set (raw1 := _ ++ ents_bytes (drop (S k) ents) ++ rest).
    assert (Hl1 : zlen raw1 = _NODE_SIZE).
    { rewrite <- Hl, Hraw2. unfold raw1. rewrite !zlen_app, !zlen_uid, !zlen_ents, zlen_app. change (zlen [(key, son)]) with 1. lia. }
    destruct (open_slot raw1 (Z.of_nat k + 1) (mk_head false (zlen ents) sib ++ ents_bytes (take k ents ++ [(key, son)])) (ents_bytes (drop (S k) ents)) rest kk uuid)
      as (rest' & Hrun & Hr'); [done|done| |lia|].
    { rewrite zlen_app, Hz, zlen_ents, zlen_app. change (zlen [(key, son)]) with 1. specialize (Hpos k ltac:(lia)). rewrite zlen_app, Hz, zlen_ents in Hpos.
      unfold LEN_UUID in *. lia. }
    destruct (shiftRawKth raw1 (Z.of_nat k + 1)) as [raw2|e| |]; try discriminate. cbn [mbind outcome_bind] in *.
    destruct (setRawKthKey raw2 kk (Z.of_nat k + 1)) as [raw3|e| |]; try discriminate. cbn [mbind outcome_bind] in *. rewrite Hrun. cbn [mbind outcome_bind].
    eapply Hfin; [|done|done|done]. unfold inserted. fold k. rewrite He. rewrite !ents_bytes_app, !ents_bytes_cons. by rewrite <- ?app_assoc.
Qed.

(** ** Splitting a node *)

Lemma node_rep_intro leaf ents sib rest :
  Forall (λ e : UUID * UUID, is_uid e.1 ∧ is_uid e.2) ents → is_uid sib → zlen ents ≤ 64 → zlen rest = 1056 - 16 * zlen ents →
  node_rep (mkNode leaf ents sib) (mk_head leaf (zlen ents) sib ++ ents_bytes ents ++ rest).
Proof.
  intros Hall Hsib Hl Hr. split; [|split; [done|by exists rest]].
  rewrite !zlen_app, zlen_ents, Hr. change (mk_head leaf (zlen ents) sib) with (node_head (mkNode leaf ents sib)). rewrite zlen_head.
  change _NODE_SIZE with 1067. lia.
Qed.

Lemma node_rep_elim n raw : node_rep n raw →
  ∃ rest, raw = mk_head (a_leaf n) (zlen (a_ents n)) (a_sib n) ++ ents_bytes (a_ents n) ++ rest ∧ zlen rest = 1056 - 16 * zlen (a_ents n).
Proof.
  intros (Hl & _ & rest & Hraw). exists rest. split; [done|]. rewrite Hraw, !zlen_app, zlen_ents, zlen_head in Hl. change _NODE_SIZE with 1067 in Hl. lia.
Qed.

Section Split.
Context (leaf : bool) (ents : list (UUID * UUID)) (sib : UUID) (raw : list byte).
Context (Hrep : node_rep (mkNode leaf ents sib) raw) (Hfull : zlen ents = 64).

Lemma split_halves : zlen (take 32 ents) = 32 ∧ zlen (drop 32 ents) = 32.
Proof. unfold zlen in *. rewrite length_take, length_drop. lia. Qed.

Lemma split_off_run : ∃ nodeRaw, split_off raw = Ret nodeRaw ∧ node_rep (mkNode leaf (drop 32 ents) sib) nodeRaw.
Proof.
  destruct split_halves as [Ht Hd]. pose proof Hrep as (_ & (Hall & Hsib & _) & _). cbn [a_leaf a_ents a_sib] in *.
  destruct (node_rep_elim _ _ Hrep) as (rest & Hraw & Hrest). cbn [a_leaf a_ents a_sib] in *.
  unfold split_off. rewrite (getRawIsLeaf_run _ _ Hrep), zeroed_node. cbn [mbind outcome_bind a_leaf].
  rewrite setRawIsLeaf_run. cbn [mbind outcome_bind]. rewrite setRawNoKeys_run by (unfold _BALANCE_NUMBER; lia). cbn [mbind outcome_bind].
  rewrite (getRawSibling_run _ _ Hrep). cbn [mbind outcome_bind a_sib]. rewrite setRawSibling_run. cbn [mbind outcome_bind].
  unfold copyRawFromKth. set (hd := mk_head leaf _BALANCE_NUMBER sib). assert (Hh : zlen hd = 11).
  { unfold hd, mk_head, Uint16ToRaw. by rewrite zlen_cons, zlen_app, zlen_be_bytes, zlen_uid. }
  rewrite (slice_from_at raw (mk_head leaf (zlen ents) sib ++ ents_bytes (take 32 ents)) (ents_bytes (drop 32 ents) ++ rest)).
  - cbn [mbind outcome_bind]. rewrite slice_from_Ret by (rewrite zlen_app, Hh; pose proof (zlen_nonneg (make_bytes 1056)); unfold _NODE_HEADER_SIZE, _SIBLING_OFFSET, _NO_KEYS_OFFSET, _IS_LEAF_OFFSET, LEN_UUID; lia).
    cbn [mbind outcome_bind]. eexists. split; [done|].
    rewrite (copy_at_piece (hd ++ make_bytes 1056) hd (take 544 (make_bytes 1056)) (drop 544 (make_bytes 1056))); [|by rewrite take_drop|done|].
    + unfold hd. rewrite <- ?app_assoc. change _BALANCE_NUMBER with 32. rewrite <- Hd at 1. apply node_rep_intro; [by apply Forall_drop|done|lia|].
      rewrite zlen_app, Hrest, Hfull, Hd. done.
    + rewrite zlen_app, zlen_ents, Hrest, Hfull, Hd. done.
  - rewrite Hraw. rewrite <- app_assoc. f_equal. rewrite (app_assoc (ents_bytes (take 32 ents))), <- ents_bytes_app. by rewrite take_drop.
  - rewrite zlen_app, zlen_ents, Ht. change (mk_head leaf (zlen ents) sib) with (node_head (mkNode leaf ents sib)). by rewrite zlen_head.
Qed.

Lemma keep_half_run son : is_uid son →
  ∃ raw', (raw ← setRawNoKeys raw _BALANCE_NUMBER; setRawSibling raw son) = Ret raw' ∧ node_rep (mkNode leaf (take 32 ents) son) raw'.
Proof.
  intros Hson. destruct split_halves as [Ht Hd]. pose proof Hrep as (_ & (Hall & Hsib & _) & _). cbn [a_leaf a_ents a_sib] in *.
  destruct (node_rep_elim _ _ Hrep) as (rest & -> & Hrest). cbn [a_leaf a_ents a_sib] in *.
  rewrite setRawNoKeys_run by (unfold _BALANCE_NUMBER; lia). cbn [mbind outcome_bind]. rewrite setRawSibling_run. eexists. split; [done|].
  change _BALANCE_NUMBER with 32. rewrite <- Ht at 1.
  replace (ents_bytes ents) with (ents_bytes (take 32 ents) ++ ents_bytes (drop 32 ents)) by (by rewrite <- ents_bytes_app, take_drop).
  rewrite <- app_assoc.
  apply node_rep_intro; [by apply Forall_take|done|lia|]. rewrite zlen_app, zlen_ents, Hrest, Hfull, Ht, Hd. done.
Qed.
End Split.

(** The nodes the tree starts from. *)
Lemma newNilRootRaw_run : ∃ raw, newNilRootRaw = Ret raw ∧ node_rep (mkNode true [] 0) raw.
Proof.
  unfold newNilRootRaw. rewrite zeroed_node, setRawIsLeaf_run. cbn [mbind outcome_bind]. rewrite setRawNoKeys_run by lia. cbn [mbind outcome_bind].
  rewrite setRawSibling_run. eexists. split; [done|]. by apply (node_rep_intro true [] 0 (make_bytes 1056)).
Qed.

Lemma newRootRaw_run left right key : is_uid left → is_uid right → is_uid key →
  ∃ raw, newRootRaw left right key = Ret raw ∧ node_rep (mkNode false [(key, left); (INF, right)] 0) raw.
Proof.
  intros Hl Hr Hk. unfold newRootRaw. rewrite zeroed_node, setRawIsLeaf_run. cbn [mbind outcome_bind]. rewrite setRawNoKeys_run by lia. cbn [mbind outcome_bind].
  rewrite setRawSibling_run. cbn [mbind outcome_bind]. unfold setRawKthSon, setRawKthKey. set (hd := mk_head false 2 NilUUID).
  assert (Hh : zlen hd = 11) by done. set (z := make_bytes 8).
  rewrite (put_UUID_piece _ hd z (make_bytes 1048)); [|by vm_compute|done|done]. cbn [mbind outcome_bind].
  rewrite (put_UUID_piece _ (hd ++ UUIDToRaw left) z (make_bytes 1040)); [|by rewrite <- app_assoc|by rewrite zlen_app, zlen_uid|done]. cbn [mbind outcome_bind].
  rewrite (put_UUID_piece _ ((hd ++ UUIDToRaw left) ++ UUIDToRaw key) z (make_bytes 1032)); [|by rewrite <- ?app_assoc|by rewrite !zlen_app, !zlen_uid|done]. cbn [mbind outcome_bind].
  rewrite (put_UUID_piece _ (((hd ++ UUIDToRaw left) ++ UUIDToRaw key) ++ UUIDToRaw right) z (make_bytes 1024)); [|by rewrite <- ?app_assoc|by rewrite !zlen_app, !zlen_uid|done].
  eexists. split; [done|]. pose proof (node_rep_intro false [(key, left); (INF, right)] 0 (make_bytes 1024)) as Hi.
  rewrite !ents_bytes_cons in Hi. unfold ent_bytes in Hi. cbn [fst snd] in Hi. rewrite <- ?app_assoc in Hi. rewrite <- ?app_assoc. apply Hi; [|done|done|done].
  repeat (apply Forall_cons; split; [done|]). done.
Qed.

(** ** Inserting into a stored node *)

Section NodeInsert.
Context {D : Type} `{!DataManager D, !DataManagerOk D}.

Lemma loadNode_run (d : D) items u raw : dm_rep d items → items !! u = Some raw → loadNode u d = (d, Ret raw).
Proof. intros Hd Hu. unfold loadNode. rewrite M_get_bind, (dm_Read_ok d items u raw Hd Hu). by run_M. Qed.

Context (d : D) (items : gmap UUID (list byte)) (self : UUID) (n : anode) (raw : list byte) (uuid key : UUID).
Context (Hd : dm_rep d items) (Hself : items !! self = Some raw) (Hrep : node_rep n raw).
Context (Hkey : is_uid key) (Huuid : is_uid uuid) (Hlen : zlen (a_ents n) < 64).
Context (Hinner : a_leaf n = false → (kth (less key) (a_ents n) < length (a_ents n))%nat ∨ a_sib n ≠ 0).
Let ents' := inserted (a_leaf n) (a_ents n) key uuid.

Lemma node_insertAndSplit_next :
  kth (less key) (a_ents n) = length (a_ents n) → a_sib n ≠ 0 →
  node_insertAndSplit self raw uuid key d = (d, Ret (a_sib n, NilUUID, NilUUID)).
Proof.
  intros Hk Hs. pose proof (insert_entry_run n raw key uuid Hrep Hkey Huuid Hlen Hinner) as Hrun. rewrite decide_True in Hrun by done.
  unfold node_insertAndSplit. rewrite Hrun, M_lift_bind, (getRawSibling_run _ _ Hrep). by run_M.
Qed.

Context (Hhere : ¬ (kth (less key) (a_ents n) = length (a_ents n) ∧ a_sib n ≠ 0)).

Lemma zlen_old (raw' : list byte) : node_rep n raw → zlen raw' = _NODE_SIZE → zlen raw' = zlen raw.
Proof. by intros (-> & _) ->. Qed.

Lemma node_insertAndSplit_fits : length ents' ≠ 64%nat →
  ∃ d' raw', node_insertAndSplit self raw uuid key d = (d', Ret (NilUUID, NilUUID, NilUUID)) ∧
    node_rep (mkNode (a_leaf n) ents' (a_sib n)) raw' ∧ dm_rep d' (<[self := raw']> items) ∧ ∀ m, dm_room d m → dm_room d' m.
Proof.
  intros Hfit. pose proof (insert_entry_run n raw key uuid Hrep Hkey Huuid Hlen Hinner) as Hrun. rewrite decide_False in Hrun by done.
  destruct Hrun as (raw' & Hrun & Hrep'). destruct (dm_Write_ok d items SUPER_XID self raw raw' Hd dm_writer_super Hself) as (d' & Hw & Hd' & Hroom).
  { apply zlen_old; [done|]. by destruct Hrep'. }
  exists d', raw'. split; [|done]. unfold node_insertAndSplit. rewrite Hrun, M_lift_bind. unfold needSplit.
  rewrite (getRawNoKeys_run _ _ Hrep'). cbn [mbind outcome_bind a_ents]. rewrite M_lift_bind, bool_decide_eq_false_2.
  - rewrite (M_bind_run _ _ _ _ _ Hw). done.
  - unfold _BALANCE_NUMBER. fold ents'. unfold zlen. lia.
Qed.

Lemma node_insertAndSplit_splits m : length ents' = 64%nat → dm_room d (S m) →
  ∃ d' son k raw1 raw2, node_insertAndSplit self raw uuid key d = (d', Ret (NilUUID, son, k)) ∧
    node_rep (mkNode (a_leaf n) (take 32 ents') son) raw1 ∧ node_rep (mkNode (a_leaf n) (drop 32 ents') (a_sib n)) raw2 ∧
    fst <$> ents' !! 32%nat = Some k ∧ items !! son = None ∧ 0 < son < 2 ^ 64 ∧
    dm_rep d' (<[self := raw1]> (<[son := raw2]> items)) ∧ dm_room d' m.
Proof.
  intros Hfull Hroom. pose proof (insert_entry_run n raw key uuid Hrep Hkey Huuid Hlen Hinner) as Hrun. rewrite decide_False in Hrun by done.
  destruct Hrun as (raw' & Hrun & Hrep'). fold ents' in Hrep'. assert (Hz : zlen ents' = 64) by (unfold zlen; lia).
  destruct (split_off_run _ _ _ _ Hrep' Hz) as (raw2 & Hoff & Hrep2).
  destruct (dm_Insert_ok d items SUPER_XID raw2 m Hd dm_writer_super) as (d1 & son & Hins & Hfresh & Hson & Hd1 & Hroom1); [|done|].
  { destruct Hrep2 as (-> & _). by vm_compute. }
  destruct (keep_half_run _ _ _ _ Hrep' Hz son) as (raw1 & Hkeep & Hrep1); [unfold INF in Hson; unfold is_uid; lia|].
  assert (Hself1 : <[son:=raw2]> items !! self = Some raw) by (rewrite lookup_insert_ne; [done|congruence]).
  destruct (dm_Write_ok d1 _ SUPER_XID self raw raw1 Hd1 dm_writer_super Hself1) as (d' & Hw & Hd' & Hroom').
  { apply zlen_old; [done|]. by destruct Hrep1. }
  destruct (lookup_lt_is_Some_2 ents' 32%nat) as [[k s] Hk]; [lia|].
  assert (Hk0 : drop 32 ents' !! 0%nat = Some (k, s)) by by rewrite lookup_drop.
  assert (Hsplit : split raw' d = (d1, Ret (raw1, son, k))).
  { unfold split. rewrite Hoff, M_lift_bind, (M_bind_run _ _ _ _ _ Hins).
    destruct (setRawNoKeys raw' _BALANCE_NUMBER) as [raw3|e| |]; try discriminate. cbn [mbind outcome_bind] in Hkeep.
    rewrite M_lift_bind, Hkeep, M_lift_bind. change 0 with (Z.of_nat 0). rewrite (getRawKthKey_run _ _ Hrep2 0 k s) by done. by run_M. }
  assert (Hson' : 0 < son < 2 ^ 64) by (unfold INF in Hson; lia).
  exists d', son, k, raw1, raw2. split; [|rewrite Hk; by auto 10].
  unfold node_insertAndSplit. rewrite Hrun, M_lift_bind. unfold needSplit.
  rewrite (getRawNoKeys_run _ _ Hrep'). cbn [mbind outcome_bind a_ents]. rewrite M_lift_bind, bool_decide_eq_true_2 by by rewrite Hz.
  rewrite (M_bind_run _ _ _ _ _ Hsplit).
  by rewrite (M_bind_run _ _ _ _ _ Hw).
Qed.
End NodeInsert.
