(* ===== verification/Tree.v ===== *)
(** Package [im]: the B+ tree ([tree.go]) over the interface of the data
    manager.  The methods take the UUID of the boot item, which is the
    [bPlusTree]; each runs alone, so the boot lock is not part of the model.
    The recursions take the number of nodes they may visit as fuel. *)
From S2P Require Import Prelude.
From S2P Require Import Codec.
From S2P Require Import Tm.
From S2P Require Import DmI.
From S2P Require Import Node.
From Stdlib Require Import Sorting.Sorted.
Local Open Scope Z_scope.

Section Tree.
Context {D : Type} `{!DataManager D}.

Definition Create : M D UUID :=
  rawBoot ← lift newNilRootRaw;
  rootUUID ← dm_Insert SUPER_XID rawBoot;
  bootUUID ← dm_Insert SUPER_XID (UUIDToRaw rootUUID);
  mret bootUUID.

Definition Load (bootUUID : UUID) : M D UUID :=
  d ← get;
  item ← lift (dm_Read d bootUUID);
  match item with Some _ => mret bootUUID | None => fail (ErrMsg []) end.

(** [bt.bootDataitem.Data()]: the item [Load] read, whose bytes are those of
    the page. *)
Definition bootData (bootUUID : UUID) : M D (list byte) := loadNode bootUUID.

Definition rootUUID_ (bootUUID : UUID) : M D UUID :=
  raw ← bootData bootUUID;
  lift (ParseUUID raw).

Definition updaterootUUID_ (bootUUID left right rightKey : UUID) : M D unit :=
  rootRaw ← lift (newRootRaw left right rightKey);
  newRootUUID ← dm_Insert SUPER_XID rootRaw;
  data ← bootData bootUUID;
  dm_Write SUPER_XID bootUUID (copy_at data 0 (UUIDToRaw newRootUUID)).

(** [searchNext]: the loop to the right. *)
Fixpoint searchNext (fuel : nat) (nodeUUID key : UUID) : M D UUID :=
  match fuel with
  | O => lift OutOfFuel
  | S fuel =>
      raw ← loadNode nodeUUID;
      '(next, siblingUUID) ← lift (SearchNext raw key);
      if decide (next ≠ NilUUID) then mret next else searchNext fuel siblingUUID key
  end.

Fixpoint searchLeaf (fuel : nat) (nodeUUID key : UUID) : M D UUID :=
  match fuel with
  | O => lift OutOfFuel
  | S fuel =>
      raw ← loadNode nodeUUID;
      isLeaf ← lift (getRawIsLeaf raw);
      if (isLeaf : bool) then mret nodeUUID
      else next ← searchNext fuel nodeUUID key; searchLeaf fuel next key
  end.

(** The loop of [SearchRange] along the leaves. *)
Fixpoint collectLeaves (fuel : nat) (leafUUID leftKey rightKey : UUID) (uuids : list UUID) : M D (list UUID) :=
  match fuel with
  | O => lift OutOfFuel
  | S fuel =>
      raw ← loadNode leafUUID;
      '(tmp, siblingUUID) ← lift (LeafSearchRange raw leftKey rightKey);
      if decide (siblingUUID = NilUUID) then mret (uuids ++ tmp)
      else collectLeaves fuel siblingUUID leftKey rightKey (uuids ++ tmp)
  end.

Definition SearchRange (fuel : nat) (bootUUID leftKey rightKey : UUID) : M D (list UUID) :=
  rootUUID ← rootUUID_ bootUUID;
  leafUUID ← searchLeaf fuel rootUUID leftKey;
  collectLeaves fuel leafUUID leftKey rightKey [].

Definition Search (fuel : nat) (bootUUID key : UUID) : M D (list UUID) := SearchRange fuel bootUUID key key.

(** [bPlusTree.insertAndSplit]: the loop to the right. *)
Fixpoint insertAndSplit (fuel : nat) (nodeUUID uuid key : UUID) : M D (UUID * UUID) :=
  match fuel with
  | O => lift OutOfFuel
  | S fuel =>
      raw ← loadNode nodeUUID;
      '(siblingSon, newNodeSon, newNodeKey) ← node_insertAndSplit nodeUUID raw uuid key;
      if decide (siblingSon ≠ NilUUID) then insertAndSplit fuel siblingSon uuid key
      else mret (newNodeSon, newNodeKey)
  end.

(** [insert]: the results [newNodeUUID], [newNodeKey] are named and the branch
    for an inner node does not assign them: what its own [insertAndSplit]
    returns goes to [newSonUUID], [newSonKey] and is lost. *)
Fixpoint insert (fuel : nat) (nodeUUID uuid key : UUID) : M D (UUID * UUID) :=
  match fuel with
  | O => lift OutOfFuel
  | S fuel =>
      raw ← loadNode nodeUUID;
      isLeaf ← lift (getRawIsLeaf raw);
      if (isLeaf : bool) then insertAndSplit fuel nodeUUID uuid key
      else
        next ← searchNext fuel nodeUUID key;
        '(newSonUUID, newSonKey) ← insert fuel next uuid key;
        if decide (newSonUUID ≠ NilUUID) then
          _ ← insertAndSplit fuel nodeUUID newSonUUID newSonKey;
          mret (NilUUID, NilUUID)
        else mret (NilUUID, NilUUID)
  end.

Definition Insert (fuel : nat) (bootUUID key uuid : UUID) : M D unit :=
  rootUUID ← rootUUID_ bootUUID;
  '(newNode, newKey) ← insert fuel rootUUID uuid key;
  if decide (newNode ≠ NilUUID) then
    currentRoot ← rootUUID_ bootUUID;
    if decide (currentRoot = rootUUID) then updaterootUUID_ bootUUID rootUUID newNode newKey
    else mret tt
  else mret tt.
End Tree.

(** Several insertions one after the other. *)
Fixpoint Inserts {D} `{!DataManager D} (fuel : nat) (bootUUID : UUID) (kvs : list (UUID * UUID)) : M D unit :=
  match kvs with
  | [] => mret tt
  | (key, uuid) :: kvs => _ ← Insert fuel bootUUID key uuid; Inserts fuel bootUUID kvs
  end.

Lemma Inserts_app {D} `{!DataManager D} fuel boot a b (d d1 d2 : D) :
  Inserts fuel boot a d = (d1, Ret tt) → Inserts fuel boot b d1 = (d2, Ret tt) → Inserts fuel boot (a ++ b) d = (d2, Ret tt).
Proof.
  revert d. induction a as [|[k u] a IH]; intros d; cbn [Inserts app]; [intros [= ->]; done|].
  unfold mbind, M_bind. destruct (Insert fuel boot k u d) as [d3 [[]|e| |]]; try discriminate. apply IH.
Qed.
