(* ===== verification/TreeRep.v ===== *)
(** Package [im]: what the B+ tree promises.  The leaves form a chain from left
    to right, the inner nodes another one above it; read in order the leaves
    hold the entries sorted by key, and for every key the inner entries name a
    leaf no entry of interest is left of.  [insert] loses the node a split of
    an inner node creates, so that there never is a third level: the root's
    siblings are reached from the root alone. *)
From S2P Require Import Prelude.
From S2P Require Import Codec.
From S2P Require Import Tm.
From S2P Require Import DmI.
From S2P Require Import Node.
From S2P Require Import Tree.
From Stdlib Require Import Sorting.Sorted.
Local Open Scope Z_scope.

Notation ent := (UUID * UUID)%type.
Definition chain : Type := list (UUID * list ent).

Definition flat (c : chain) : list ent := mjoin (snd <$> c).
Definition head_of (c : chain) (nxt : UUID) : UUID := match c with [] => nxt | (u, _) :: _ => u end.
Fixpoint chain_nodes (leaf : bool) (c : chain) (nxt : UUID) : list (UUID * anode) :=
  match c with
  | [] => []
  | (u, es) :: c => (u, mkNode leaf es (head_of c nxt)) :: chain_nodes leaf c nxt
  end.

(** The son the inner entries name for a key. *)
Definition find_son (q : UUID) (E : list ent) : option UUID := (λ p : nat * ent, p.2.2) <$> list_find (λ e : ent, q < e.1) E.

(** The leaf [s] does not lie right of the place of [q]. *)
Definition good_start (q : UUID) (leaves : chain) (s : UUID) : Prop :=
  ∃ l1 es l2, leaves = l1 ++ (s, es) :: l2 ∧ Forall (λ e : ent, e.1 < q) (flat l1).

Definition key_ok (q : UUID) : Prop := 0 ≤ q < INF.
Definition indexed (inner leaves : chain) : Prop :=
  match inner with
  | [] => ∃ u es, leaves = [(u, es)]
  | _ => ∀ q, key_ok q → ∃ s, find_son q (flat inner) = Some s ∧ good_start q leaves s
  end.

Definition key_lt (a b : ent) : Prop := a.1 < b.1.
Definition key_le (a b : ent) : Prop := a.1 ≤ b.1.

(** What a chain becomes when [insertAndSplit] runs on it, with the results. *)
Definition chain_step (leaf : bool) (key uuid : UUID) (c c' : chain) (r : UUID * UUID) : Prop :=
  ∃ c3 u es c4, c = c3 ++ (u, es) :: c4 ∧
    Forall (λ p : UUID * list ent, kth (less key) p.2 = length p.2) c3 ∧ ((kth (less key) es < length es)%nat ∨ c4 = []) ∧
    let es' := inserted leaf es key uuid in
    (length es' ≠ 64%nat ∧ c' = c3 ++ (u, es') :: c4 ∧ r = (NilUUID, NilUUID)) ∨
    (length es' = 64%nat ∧ ∃ new e, es' !! 32%nat = Some e ∧ 0 < new < 2 ^ 64 ∧
       c' = c3 ++ (u, take 32 es') :: (new, drop 32 es') :: c4 ∧ r = (new, e.1)).

(** The leaves hold the entries [A]. *)
Record leaves_ok (leaves : chain) (A : list ent) : Prop := {
  leaves_flat : flat leaves = A;
  leaves_sorted : StronglySorted key_lt A;
  leaves_keys : Forall (λ e : ent, key_ok e.1) A;
  leaves_small : Forall (λ p : UUID * list ent, (length p.2 < 64)%nat) leaves
}.

Record tree_shape (inner leaves : chain) (A : list ent) : Prop := {
  shape_leaves : leaves_ok leaves A;
  shape_small : Forall (λ p : UUID * list ent, (length p.2 < 64)%nat) inner;
  shape_indexed : indexed inner leaves;
  shape_size : (length inner + length leaves ≤ 2 * length A + 1)%nat
}.

(** * Chains *)

Lemma flat_app a b : flat (a ++ b) = flat a ++ flat b.
Proof. unfold flat. rewrite fmap_app. apply join_app. Qed.
Lemma flat_cons u es c : flat ((u, es) :: c) = es ++ flat c.
Proof. done. Qed.

Lemma head_of_app a b nxt : head_of (a ++ b) nxt = head_of a (head_of b nxt).
Proof. by destruct a as [|[]]. Qed.

Lemma chain_nodes_app leaf a b nxt : chain_nodes leaf (a ++ b) nxt = chain_nodes leaf a (head_of b nxt) ++ chain_nodes leaf b nxt.
Proof. induction a as [|[u es] a IH]; [done|]. cbn. by rewrite IH, head_of_app. Qed.

Lemma length_chain_nodes leaf c nxt : length (chain_nodes leaf c nxt) = length c.
Proof. induction c as [|[u es] c IH]; [done|]. cbn. by rewrite IH. Qed.

Lemma kth_app p a b : kth p (a ++ b) = if decide (kth p a = length a) then (length a + kth p b)%nat else kth p a.
Proof.
  induction a as [|e a IH]; cbn; [done|]. destruct (p e.1); cbn; [|by rewrite decide_False by lia].
  rewrite IH. repeat case_decide; lia.
Qed.

Lemma kth_all p es : kth p es = length es ↔ Forall (λ e : ent, p e.1 = true) es.
Proof.
  induction es as [|e es IH]; cbn; [by split|]. rewrite Forall_cons, <- IH. destruct (p e.1); [|naive_solver]. split; [|naive_solver]. intros ?. split; [done|lia].
Qed.

Lemma kth_flat key (c : chain) :
  Forall (λ p : UUID * list ent, kth (less key) p.2 = length p.2) c → kth (less key) (flat c) = length (flat c).
Proof.
  induction c as [|[u es] c IH]; [done|]. rewrite Forall_cons, flat_cons. intros [He Hc]. cbn in He.
  rewrite kth_app, decide_True by done. rewrite length_app, IH by done. done.
Qed.

(** The chain has a node the entry belongs to. *)
Lemma locate key (c : chain) : c ≠ [] → ∃ c3 u es c4, c = c3 ++ (u, es) :: c4 ∧
  Forall (λ p : UUID * list ent, kth (less key) p.2 = length p.2) c3 ∧ ((kth (less key) es < length es)%nat ∨ c4 = []).
Proof.
  induction c as [|[u es] c IH]; [done|]. intros _. pose proof (kth_le (less key) es).
  destruct (decide (kth (less key) es < length es ∨ c = [])%nat) as [Hd|Hd]; [by exists [], u, es, c|].
  destruct IH as (c3 & v & es' & c4 & -> & Hall & Hh); [naive_solver|]. exists ((u, es) :: c3), v, es', c4. split; [done|]. split; [|done].
  apply Forall_cons. split; [cbn; lia|done].
Qed.

(** Where an entry goes in a part it goes in the whole. *)
Lemma inserted_app leaf a b key uuid :
  kth (less key) a = length a → inserted leaf (a ++ b) key uuid = a ++ inserted leaf b key uuid.
Proof.
  intros Ha. unfold inserted. rewrite kth_app, decide_True by done. set (k := kth (less key) b). destruct leaf.
  - rewrite take_app_add, drop_app_add. by rewrite <- app_assoc.
  - rewrite lookup_app_r by lia. replace (length a + k - length a)%nat with k by lia. destruct (b !! k) as [[kk s]|]; [|done].
    rewrite take_app_add. replace (S (length a + k)) with (length a + S k)%nat by lia. rewrite drop_app_add. by rewrite <- app_assoc.
Qed.

Lemma inserted_front leaf a b key uuid :
  (kth (less key) a < length a)%nat ∨ b = [] → inserted leaf (a ++ b) key uuid = inserted leaf a key uuid ++ b.
Proof.
  intros [Ha| ->]; [|by rewrite !app_nil_r]. unfold inserted. rewrite kth_app, decide_False by lia. set (k := kth (less key) a) in *. destruct leaf.
  - rewrite take_app_le, drop_app_le by lia. by rewrite <- app_assoc.
  - rewrite lookup_app_l by lia. destruct (a !! k) as [[kk s]|] eqn:E; [|by apply lookup_ge_None in E; lia].
    rewrite take_app_le, drop_app_le by lia. by rewrite <- app_assoc.
Qed.

Lemma chain_step_flat leaf key uuid c c' r : chain_step leaf key uuid c c' r → flat c' = inserted leaf (flat c) key uuid.
Proof.
  intros (c3 & u & es & c4 & -> & Hall & Hh & Hcase). rewrite flat_app, flat_cons, inserted_app by by apply kth_flat.
  rewrite inserted_front by (destruct Hh as [?| ->]; auto).
  destruct Hcase as [(_ & -> & _)|(_ & new & e & _ & _ & -> & _)]; rewrite flat_app, !flat_cons; [done|].
  by rewrite (app_assoc (take 32 _)), take_drop.
Qed.

Lemma chain_step_small leaf key uuid c c' r :
  chain_step leaf key uuid c c' r → Forall (λ p : UUID * list ent, (length p.2 < 64)%nat) c →
  (leaf = false → (kth (less key) (flat c) < length (flat c))%nat) → Forall (λ p : UUID * list ent, (length p.2 < 64)%nat) c'.
Proof.
  intros (c3 & u & es & c4 & -> & Hall & Hh & Hcase) Hs Hin. apply Forall_app in Hs as [H3 H4]. apply Forall_cons in H4 as [Hes H4]. cbn in Hes.
  assert (Hl : length (inserted leaf es key uuid) = S (length es)).
  { apply length_inserted. intros Hlf. specialize (Hin Hlf). rewrite flat_app, kth_app, decide_True, length_app in Hin by by apply kth_flat.
    destruct Hh as [?| ->]; [done|]. rewrite flat_cons in Hin. change (flat []) with (@nil ent) in Hin. rewrite app_nil_r in Hin. lia. }
  destruct Hcase as [(Hn & -> & _)|(Hn & new & e & _ & _ & -> & _)]; apply Forall_app; (split; [done|]); repeat (apply Forall_cons; split; [|try done]); cbn.
  - lia.
  - rewrite length_take. lia.
  - rewrite length_drop. lia.
Qed.

(** * Entries *)

Lemma inserted_true_cons e A key uuid :
  inserted true (e :: A) key uuid = if decide (e.1 < key) then e :: inserted true A key uuid else (key, uuid) :: e :: A.
Proof. unfold inserted, less. cbn. case_decide; [by rewrite bool_decide_eq_true_2|by rewrite bool_decide_eq_false_2]. Qed.

Lemma inserted_false_cons e E key uuid : (kth (less key) (e :: E) < S (length E))%nat →
  inserted false (e :: E) key uuid = if decide (e.1 < key) then e :: inserted false E key uuid else (key, e.2) :: (e.1, uuid) :: E.
Proof.
  unfold inserted, less. cbn. case_decide; [rewrite bool_decide_eq_true_2 by done|rewrite bool_decide_eq_false_2 by done].
  - cbn. intros Hk. set (k := kth _ _) in *. destruct (E !! k) as [[]|] eqn:HE; [done|]. apply lookup_ge_None in HE. lia.
  - destruct e. cbn. by rewrite drop_0.
Qed.

Lemma inserted_perm A key uuid : inserted true A key uuid ≡ₚ (key, uuid) :: A.
Proof. unfold inserted. rewrite <- Permutation_middle. by rewrite take_drop. Qed.

Lemma inserted_sorted A key uuid : StronglySorted key_lt A → Forall (λ e : ent, e.1 ≠ key) A → StronglySorted key_lt (inserted true A key uuid).
Proof.
  induction 1 as [|e A HA IH He]; [repeat constructor|]. rewrite Forall_cons. intros [Hne Hall]. rewrite inserted_true_cons. case_decide as Hlt.
  - constructor; [by apply IH|]. rewrite inserted_perm. apply Forall_cons. by split.
  - constructor; [by constructor|]. cbn in Hne. apply Forall_cons. split; [unfold key_lt; cbn; lia|].
    eapply Forall_impl; [exact He|]. intros x. unfold key_lt. cbn. lia.
Qed.

Lemma find_son_inserted q E key new s : (kth (less key) E < length E)%nat → find_son q E = Some s →
  ∃ s', find_son q (inserted false E key new) = Some s' ∧ (s' = s ∨ s' = new ∧ key ≤ q).
Proof.
  revert s. induction E as [|e E IH]; intros s Hk; [done|]. rewrite inserted_false_cons by done. unfold find_son. cbn [list_find].
  destruct (decide (e.1 < key)) as [Hlt|Hlt]; cbn [list_find].
  - destruct (decide (q < e.1)) as [Hq|Hq]; [intros [= <-]; cbn; eauto|]. intros Hs.
    destruct (IH s) as (s' & Hf & Hor); [cbn [kth] in Hk; unfold less in Hk at 1; rewrite bool_decide_eq_true_2 in Hk by done; cbn in Hk; lia| |].
    + unfold find_son. by destruct (list_find _ E) as [[]|].
    + unfold find_son in Hf. exists s'. split; [|done]. by destruct (list_find _ (inserted false E key new)) as [[]|].
  - cbn [fst snd]. destruct (decide (q < key)) as [Hqk|Hqk].
    + rewrite decide_True by lia. intros [= <-]. cbn. eauto.
    + destruct (decide (q < e.1)) as [Hqe|Hqe]; cbn; [intros _; exists new; split; [done|right; split; [done|lia]]|].
      intros Hs. exists s. split; [|by left]. by destruct (list_find _ E) as [[]|].
Qed.

Lemma find_son_kth q E s : find_son q E = Some s → (kth (less (q + 1)) E < length E)%nat.
Proof.
  unfold find_son, less. induction E as [|e E IH]; [done|]. cbn. case_decide as Hq; cbn.
  - intros _. rewrite bool_decide_eq_false_2 by lia. lia.
  - intros Hs. rewrite bool_decide_eq_true_2 by lia. apply ->Nat.succ_lt_mono. apply IH. by destruct (list_find _ E) as [[]|].
Qed.

Lemma find_son_In q E s : find_son q E = Some s → s ∈ E.*2.
Proof.
  unfold find_son. destruct (list_find _ E) as [[i e]|] eqn:Hf; [|done]. intros [= <-]. apply list_find_Some in Hf as (Hi & _).
  apply list_elem_of_fmap. exists e. split; [done|]. by eapply list_elem_of_lookup_2.
Qed.

Lemma kth_mono key key' E : key ≤ key' → (kth (less key) E ≤ kth (less key') E)%nat.
Proof.
  intros Hk. unfold less. induction E as [|e E IH]; cbn; [done|]. repeat case_bool_decide; lia.
Qed.

(** * The start for a key, after an insertion *)

Lemma two_cuts {A} (l1 l2 k1 k2 : list A) x y :
  l1 ++ x :: l2 = k1 ++ y :: k2 →
  (∃ m, l1 = k1 ++ y :: m ∧ k2 = m ++ x :: l2) ∨ (l1 = k1 ∧ x = y ∧ l2 = k2) ∨ (∃ m, k1 = l1 ++ x :: m ∧ l2 = m ++ y :: k2).
Proof.
  revert k1. induction l1 as [|a l1 IH]; intros [|b k1]; cbn; intros [= -> Heq].
  - right. left. done.
  - right. right. eauto.
  - left. eauto.
  - destruct (IH _ Heq) as [(m & -> & ->)|[(-> & -> & ->)|(m & -> & ->)]]; eauto 10.
Qed.

Lemma kth_not_all key es : (kth (less key) es < length es)%nat → ∃ e, e ∈ es ∧ key ≤ e.1.
Proof.
  intros Hk. induction es as [|e es IH]; cbn in *; [lia|]. unfold less in Hk at 1. case_bool_decide; [|exists e; split; [left|lia]].
  destruct IH as (e' & ? & ?); [lia|]. exists e'. split; [by right|done].
Qed.

Lemma good_start_step q q0 uuid c1 c c' r s :
  chain_step true q0 uuid c c' r → good_start q (c1 ++ c) s → good_start q (c1 ++ c') s.
Proof.
  intros (c3 & u & es & c4 & -> & Hall & Hh & Hcase) (l1 & ess & l2 & Heq & Hl). set (es' := inserted true es q0 uuid) in *.
  assert (Hc' : ∃ es1 mid, c' = c3 ++ (u, es1) :: mid ++ c4 ∧ es1 ++ flat mid = es').
  { destruct Hcase as [(_ & -> & _)|(_ & new & e & _ & _ & -> & _)].
    - exists es', []. split; [done|]. apply app_nil_r.
    - exists (take 32 es'), [(new, drop 32 es')]. split; [done|]. rewrite flat_cons. change (flat []) with (@nil ent). by rewrite app_nil_r, take_drop. }
  destruct Hc' as (es1 & mid & -> & Hes'). rewrite app_assoc in Heq. apply two_cuts in Heq as [(m & H1 & H2)|[(H1 & H2 & H3)|(m & H1 & H2)]].
  - exists l1, ess, (m ++ (u, es1) :: mid ++ c4). split; [|done]. rewrite app_assoc, H1. by rewrite <- app_assoc.
  - injection H2 as -> ->. exists (c1 ++ c3), es1, (mid ++ c4). split; [by rewrite <- app_assoc|]. by rewrite H1.
  - exists (c1 ++ c3 ++ (u, es1) :: mid ++ m), ess, l2. rewrite H2. split; [rewrite <- !app_assoc; cbn [app]; by rewrite <- app_assoc|].
    rewrite H1 in Hl. rewrite !flat_app, flat_cons in Hl. rewrite !Forall_app in Hl. destruct Hl as ([Ha Hb] & Hes & Hm).
    rewrite !flat_app, flat_cons, flat_app, (app_assoc es1), Hes', !Forall_app. split_and!; try done.
    destruct Hh as [Hh| ->]; [|by destruct m]. apply kth_not_all in Hh as (e & He & Hq). pose proof (proj1 (Forall_forall _ _) Hes _ He) as Hlt. cbn in Hlt.
    unfold es'. rewrite inserted_perm. apply Forall_cons. split; [cbn; lia|done].
Qed.

Lemma sorted_middle (a b : list ent) e x : StronglySorted key_lt (a ++ e :: b) → x ∈ a → x.1 < e.1.
Proof.
  induction a as [|y a IH]; [by intros _ ?%elem_of_nil|]. cbn. intros Hs [->|Hx]%elem_of_cons; inversion Hs as [|? ? Hs' Hf]; subst.
  - apply Forall_app in Hf as [_ Hf]. by apply Forall_cons in Hf as [Hf _].
  - by apply IH.
Qed.

Lemma good_start_new c1 q0 uuid c c' new k q :
  chain_step true q0 uuid c c' (new, k) → new ≠ NilUUID → StronglySorted key_lt (flat (c1 ++ c')) → k ≤ q → good_start q (c1 ++ c') new.
Proof.
  intros (c3 & u & es & c4 & -> & Hall & Hh & Hcase) Hnew Hs Hk. set (es' := inserted true es q0 uuid) in *.
  destruct Hcase as [(_ & -> & [= -> ->])|(_ & new' & e & He & _ & -> & [= <- ->])]; [done|].
  exists (c1 ++ c3 ++ [(u, take 32 es')]), (drop 32 es'), c4. split; [by rewrite <- ?app_assoc|].
  rewrite !flat_app, !flat_cons in Hs. rewrite !flat_app, flat_cons. change (flat []) with (@nil ent). rewrite app_nil_r.
  assert (Hd : drop 32 es' = e :: drop 33 es') by by apply drop_S. rewrite Hd in Hs. apply Forall_forall. intros x Hx.
  apply (Z.lt_le_trans _ e.1); [|done]. eapply (sorted_middle _ (drop 33 es' ++ flat c4)); [|exact Hx].
  rewrite <- ?app_assoc. rewrite <- ?app_assoc in Hs. exact Hs.
Qed.

(** * One step on the shape *)

Lemma chain_step_length leaf key uuid c c' r : chain_step leaf key uuid c c' r →
  length c' = (length c + if decide (r.1 = NilUUID) then 0 else 1)%nat.
Proof.
  intros (c3 & u & es & c4 & -> & _ & _ & [(_ & -> & ->)|(_ & new & e & _ & Hn & -> & ->)]); cbn [fst].
  - rewrite decide_True by done. rewrite !length_app. cbn. lia.
  - rewrite decide_False by (unfold NilUUID; lia). rewrite !length_app. cbn. lia.
Qed.

Lemma chain_step_new leaf key uuid c c' r : chain_step leaf key uuid c c' r → r.1 ≠ NilUUID →
  is_uid r.1 ∧ ∃ e, e ∈ flat c' ∧ e.1 = r.2.
Proof.
  intros (c3 & u & es & c4 & -> & _ & _ & [(_ & -> & ->)|(_ & new & e & He & Hn & -> & ->)]); [done|]. intros _. cbn [fst snd]. unfold is_uid.
  split; [lia|]. exists e. split; [|done]. rewrite flat_app, !flat_cons. apply elem_of_app. right. rewrite app_assoc, take_drop.
  apply elem_of_app. left. by eapply list_elem_of_lookup_2.
Qed.

Lemma kth_below key es : Forall (λ e : ent, e.1 < key) es → kth (less key) es = length es.
Proof. intros Hf. apply kth_all. eapply Forall_impl; [exact Hf|]. intros e He. by apply bool_decide_eq_true_2. Qed.

Lemma leaves_step c1 c c' A key uuid r :
  leaves_ok (c1 ++ c) A → key_ok key → Forall (λ e : ent, e.1 ≠ key) A → Forall (λ e : ent, e.1 < key) (flat c1) →
  chain_step true key uuid c c' r → leaves_ok (c1 ++ c') (inserted true A key uuid).
Proof.
  intros [Hf Hs Hk Hsm] Hkey Hne Hb Hstep. apply Forall_app in Hsm as [Hsm1 Hsm]. split.
  - rewrite flat_app, (chain_step_flat _ _ _ _ _ _ Hstep), <- Hf, flat_app, inserted_app; [done|by apply kth_below].
  - by apply inserted_sorted.
  - rewrite inserted_perm. by apply Forall_cons.
  - apply Forall_app. split; [done|]. by eapply chain_step_small.
Qed.

(** The inner nodes keep naming good starts: without a split, and with the new
    leaf entered. *)
Lemma indexed_same inner c1 c c' key uuid r : inner ≠ [] →
  indexed inner (c1 ++ c) → chain_step true key uuid c c' r → indexed inner (c1 ++ c').
Proof.
  intros Hne Hi Hstep. destruct inner as [|p inner]; [done|]. intros q Hq. destruct (Hi q Hq) as (s & Hs & Hg).
  exists s. split; [done|]. by eapply good_start_step.
Qed.

Lemma indexed_kth inner leaves k : inner ≠ [] → indexed inner leaves → key_ok k → (kth (less k) (flat inner) < length (flat inner))%nat.
Proof.
  intros Hne Hi [Hk0 Hk]. destruct inner as [|p inner]; [done|]. destruct (Hi (INF - 1)) as (s & Hs & _); [split; lia|].
  apply find_son_kth in Hs. eapply Nat.le_lt_trans; [|exact Hs]. apply kth_mono. lia.
Qed.

Lemma indexed_new inner inner' c1 c c' key uuid new k r : inner ≠ [] →
  indexed inner (c1 ++ c) → chain_step true key uuid c c' (new, k) → new ≠ NilUUID → key_ok k →
  StronglySorted key_lt (flat (c1 ++ c')) → chain_step false k new inner inner' r → indexed inner' (c1 ++ c').
Proof.
  intros Hne Hi Hstep Hnew Hk Hs Hin. assert (Hne' : inner' ≠ []).
  { apply chain_step_length in Hin. intros ->. destruct inner; [done|]. cbn in Hin. lia. }
  assert (Hgoal : ∀ q, key_ok q → ∃ s, find_son q (flat inner') = Some s ∧ good_start q (c1 ++ c') s); [|by destruct inner'].
  pose proof (indexed_kth _ _ _ Hne Hi Hk) as Hkth. intros q Hq. destruct inner as [|p inner]; [done|]. destruct (Hi q Hq) as (s & Hf & Hg).
  destruct (find_son_inserted q _ k new s Hkth Hf) as (s' & Hf' & Hor). rewrite (chain_step_flat _ _ _ _ _ _ Hin).
  exists s'. split; [done|]. destruct Hor as [->|[-> Hkq]]; [by eapply good_start_step|by eapply good_start_new].
Qed.

Lemma indexed_root root u es c' key uuid new k :
  chain_step true key uuid [(u, es)] c' (new, k) → new ≠ NilUUID → key_ok k →
  StronglySorted key_lt (flat c') → indexed [(root, [(k, u); (INF, new)])] c'.
Proof.
  intros Hstep Hnew Hk Hs q Hq.
  unfold find_son, flat. cbn. destruct (decide (q < k)) as [Hqk|Hqk]; cbn.
  - exists u. split; [done|]. apply (good_start_step q key uuid [] _ _ _ u Hstep). by exists [], es, [].
  - destruct Hq as [_ Hq]. rewrite decide_True by done. cbn. exists new. split; [done|].
    apply (good_start_new [] _ _ _ _ _ _ _ Hstep); [done|done|lia].
Qed.

(** * The tree in the store *)

Section Stored.
Context {D : Type} `{!DataManager D, !DataManagerOk D}.
(** The items of others, which the tree leaves alone. *)
Context (base : gmap UUID (list byte)) (boot : UUID).

Definition node_at (items : gmap UUID (list byte)) (p : UUID * anode) : Prop :=
  0 < p.1 < 2 ^ 64 ∧ ∃ raw, items !! p.1 = Some raw ∧ node_rep p.2 raw.

(** The boot item holds [root], [nodes] are stored, all at different places. *)
Record laid (root : UUID) (nodes : list (UUID * anode)) (items : gmap UUID (list byte)) : Prop := {
  laid_base : base ⊆ items;
  laid_nodup : NoDup (boot :: nodes.*1);
  laid_fresh : Forall (λ u, base !! u = None) (boot :: nodes.*1);
  laid_root : items !! boot = Some (UUIDToRaw root);
  laid_nodes : Forall (node_at items) nodes
}.
Definition stored (root : UUID) (nodes : list (UUID * anode)) (d : D) : Prop := ∃ items, dm_rep d items ∧ laid root nodes items.

Lemma laid_perm root nodes nodes' items : nodes ≡ₚ nodes' → laid root nodes items → laid root nodes' items.
Proof. intros Hp []. by split; rewrite <- ?Hp. Qed.

Lemma stored_load root X u n Y d : stored root (X ++ (u, n) :: Y) d → ∃ raw, loadNode u d = (d, Ret raw) ∧ node_rep n raw.
Proof.
  intros (items & Hd & [_ _ _ _ Ha]). apply Forall_app in Ha as [_ Ha]. apply Forall_cons in Ha as [(_ & raw & Hu & Hr) _].
  exists raw. split; [|done]. by eapply loadNode_run.
Qed.

Lemma stored_root root nodes d : stored root nodes d → is_uid root → rootUUID_ boot d = (d, Ret root).
Proof.
  intros (items & Hd & [_ _ _ Hr _]) Hu. unfold rootUUID_, bootData.
  rewrite (M_bind_run _ _ _ _ _ (loadNode_run _ _ _ _ Hd Hr)). unfold ParseUUID, ParseUint64, GetUint64.
  assert (Hg : get_be 8 (UUIDToRaw root) = Ret root) by by apply get_be_exact. by rewrite Hg.
Qed.

(** Writing to an item that is no node listed keeps the nodes. *)
Lemma nodes_keep items u raw nodes : u ∉ nodes.*1 → Forall (node_at items) nodes → Forall (node_at (<[u := raw]> items)) nodes.
Proof.
  intros Hu. rewrite !Forall_forall. intros Ha [v m] Hv. destruct (Ha _ Hv) as (? & r & ? & ?). split; [done|]. exists r. cbn in *.
  split; [|done]. rewrite lookup_insert_ne; [done|]. intros ->. apply Hu. by apply (list_elem_of_fmap_2 fst _ (v, m)).
Qed.

Lemma base_keep items u (raw : list byte) : base !! u = None → base ⊆ items → base ⊆ <[u := raw]> items.
Proof.
  intros Hu Hb. apply map_subseteq_spec. intros v x Hv. rewrite lookup_insert_ne by congruence. by eapply lookup_weaken.
Qed.

(** A node in the list is replaced; a new item becomes a node. *)
Lemma laid_replace root nodes u n n' items raw' :
  laid root ((u, n) :: nodes) items → node_rep n' raw' → laid root ((u, n') :: nodes) (<[u := raw']> items).
Proof.
  intros [Hb Hn Hf Hr Ha] Hn'. cbn [fmap list_fmap fst] in *. apply NoDup_cons in Hn as [Hboot Hn]. apply NoDup_cons in Hn as [Hu Hn].
  rewrite !Forall_cons in Hf. destruct Hf as (Hfb & Hfu & Hf). apply Forall_cons in Ha as [(Hub & _) Ha].
  split; cbn [fmap list_fmap fst].
  - by apply base_keep.
  - by repeat (apply NoDup_cons; split).
  - by repeat (apply Forall_cons; split).
  - rewrite lookup_insert_ne; [done|]. intros ->. apply Hboot. by left.
  - apply Forall_cons. split; [|by apply nodes_keep]. split; [done|]. exists raw'. split; [|done]. apply lookup_insert_eq.
Qed.

Lemma laid_insert root nodes new n items raw :
  laid root nodes items → items !! new = None → 0 < new < 2 ^ 64 → node_rep n raw → laid root ((new, n) :: nodes) (<[new := raw]> items).
Proof.
  intros [Hb Hn Hf Hr Ha] Hnew Hub Hn'. assert (Hfr : base !! new = None) by by eapply lookup_weaken_None.
  assert (Hout : new ∉ nodes.*1).
  { intros Hin. apply list_elem_of_fmap in Hin as ([v m] & -> & Hv). rewrite Forall_forall in Ha. destruct (Ha _ Hv) as (_ & r & Hr' & _). cbn in *. congruence. }
  apply NoDup_cons in Hn as [Hboot Hn]. apply Forall_cons in Hf as [Hfb Hf]. split; cbn [fmap list_fmap fst].
  - by apply base_keep.
  - apply NoDup_cons. split; [|by apply NoDup_cons]. rewrite elem_of_cons. intros [->|?]; congruence.
  - by repeat (apply Forall_cons; split).
  - rewrite lookup_insert_ne; [done|congruence].
  - apply Forall_cons. split; [|by apply nodes_keep]. split; [done|]. exists raw. split; [|done]. apply lookup_insert_eq.
Qed.

Lemma laid_reroot root root' nodes items : laid root nodes items → laid root' nodes (<[boot := UUIDToRaw root']> items).
Proof.
  intros [Hb Hn Hf Hr Ha]. apply NoDup_cons in Hn as [Hboot Hn]. apply Forall_cons in Hf as [Hfb Hf]. split.
  - by apply base_keep.
  - by apply NoDup_cons.
  - by apply Forall_cons.
  - apply lookup_insert_eq.
  - by apply nodes_keep.
Qed.
End Stored.

Lemma chain_at leaf X c1 u es c2 Y :
  X ++ chain_nodes leaf (c1 ++ (u, es) :: c2) 0 ++ Y =
    (X ++ chain_nodes leaf c1 u) ++ (u, mkNode leaf es (head_of c2 0)) :: chain_nodes leaf c2 0 ++ Y.
Proof. rewrite chain_nodes_app. cbn [chain_nodes head_of]. by rewrite <- ?app_assoc. Qed.

Lemma find_son_app q a b : find_son q (a ++ b) = match find_son q a with Some s => Some s | None => find_son q b end.
Proof.
  unfold find_son. destruct (list_find _ a) as [[i e]|] eqn:Ha; cbn.
  - by rewrite (list_find_app_l _ _ _ _ _ Ha).
  - rewrite list_find_app_r by done. by destruct (list_find _ b) as [[]|].
Qed.

(** The range of a leaf, and what the leaves after it have to add. *)
Definition in_range (l r : UUID) (e : ent) : Prop := l ≤ e.1 ≤ r.
#[export] Instance in_range_dec l r e : Decision (in_range l r e).
Proof. unfold in_range. apply _. Defined.

Lemma filter_outside l r (es : list ent) : Forall (λ e : ent, ¬ in_range l r e) es → filter (in_range l r) es = [].
Proof. induction 1 as [|e es He _ IH]; [done|]. by rewrite filter_cons_False. Qed.

Lemma kth_drop_filter l r es : StronglySorted key_le es →
  let rest := drop (kth (λ k : UUID, bool_decide (k < l)) es) es in
  filter (in_range l r) es = filter (in_range l r) rest ∧ Forall (λ e : ent, l ≤ e.1) rest.
Proof.
  induction 1 as [|e es Hs IH He]; [done|]. cbn [kth]. case_bool_decide as Hl; cbn [drop].
  - rewrite filter_cons_False by (unfold in_range; lia). exact IH.
  - split; [done|]. apply Forall_cons. split; [lia|]. eapply Forall_impl; [exact He|]. unfold key_le. intros. lia.
Qed.

Lemma kth_take_filter l r rest : StronglySorted key_le rest → Forall (λ e : ent, l ≤ e.1) rest →
  let c := kth (λ k : UUID, bool_decide (k ≤ r)) rest in
  filter (in_range l r) rest = take c rest ∧ (c ≠ length rest → ∃ e, e ∈ rest ∧ r < e.1).
Proof.
  induction 1 as [|e es Hs IH He]; [done|]. intros [Hle Hall]%Forall_cons. cbn [kth]. case_bool_decide as Hr; cbn [take length].
  - destruct (IH Hall) as [Hf Hc]. rewrite filter_cons_True by (unfold in_range; lia). split; [by rewrite Hf|].
    intros Hne. destruct Hc as (e' & ? & ?); [lia|]. exists e'. split; [by right|done].
  - split; [|intros _; exists e; split; [left|lia]]. rewrite filter_cons_False by (unfold in_range; lia).
    apply filter_outside. eapply Forall_impl; [exact He|]. unfold key_le, in_range. intros. lia.
Qed.

Lemma sorted_app (R : ent → ent → Prop) a b : StronglySorted R (a ++ b) →
  StronglySorted R a ∧ StronglySorted R b ∧ ∀ x y, x ∈ a → y ∈ b → R x y.
Proof.
  induction a as [|e a IH]; cbn; intros Hs; [repeat split; [constructor|done|by intros ? ? ?%elem_of_nil]|].
  inversion Hs as [|? ? Hs' Hf]; subst. destruct (IH Hs') as (Ha & Hb & Hab). apply Forall_app in Hf as [Hfa Hfb].
  split_and!; [by constructor|done|]. intros x y [->|Hx]%elem_of_cons Hy; [|by apply Hab]. by apply (proj1 (Forall_forall _ _) Hfb).
Qed.

Lemma sorted_lt_le es : StronglySorted key_lt es → StronglySorted key_le es.
Proof.
  induction 1 as [|e es _ IH He]; constructor; [done|]. eapply Forall_impl; [exact He|]. unfold key_lt, key_le. intros. lia.
Qed.

Section Runs.
Context {D : Type} `{!DataManager D, !DataManagerOk D} (base : gmap UUID (list byte)) (boot : UUID).
Notation stored := (stored base boot).

Lemma searchNext_run root X Y d q s c2 : ∀ c1 fuel,
  stored root (X ++ chain_nodes false (c1 ++ c2) 0 ++ Y) d → find_son q (flat c2) = Some s → s ≠ NilUUID → (length c2 ≤ fuel)%nat →
  searchNext fuel (head_of c2 0) q d = (d, Ret s).
Proof.
  induction c2 as [|[u es] c2 IH]; intros c1 fuel Hst Hs Hne Hf; [done|]. destruct fuel as [|fuel]; [cbn in Hf; lia|].
  assert (Hst' := Hst). rewrite chain_at in Hst. destruct (stored_load _ _ _ _ _ _ _ _ Hst) as (raw & Hload & Hrep).
  cbn [searchNext head_of]. rewrite (M_bind_run _ _ _ _ _ Hload), (SearchNext_run _ _ Hrep), M_lift_bind.
  rewrite flat_cons, find_son_app in Hs. unfold search_next. cbn [a_ents a_sib]. unfold find_son at 1 in Hs.
  destruct (list_find _ es) as [[i e]|]; cbn in Hs.
  - injection Hs as ->. by rewrite decide_True.
  - rewrite decide_False by (unfold NilUUID; lia). apply (IH (c1 ++ [(u, es)])); [by rewrite <- app_assoc|done|done|cbn in Hf; lia].
Qed.

Lemma collectLeaves_run root X Y d l r c2 : ∀ c1 fuel acc,
  stored root (X ++ chain_nodes true (c1 ++ c2) 0 ++ Y) d → c2 ≠ [] → StronglySorted key_le (flat c2) → (length c2 ≤ fuel)%nat →
  collectLeaves fuel (head_of c2 0) l r acc d = (d, Ret (acc ++ (filter (in_range l r) (flat c2)).*2)).
Proof.
  induction c2 as [|[u es] c2 IH]; intros c1 fuel acc Hst Hne Hs Hf; [done|]. destruct fuel as [|fuel]; [cbn in Hf; lia|].
  assert (Hst' := Hst). rewrite chain_at in Hst. destruct (stored_load _ _ _ _ _ _ _ _ Hst) as (raw & Hload & Hrep).
  cbn [collectLeaves head_of]. rewrite (M_bind_run _ _ _ _ _ Hload), (LeafSearchRange_run _ _ Hrep), M_lift_bind.
  rewrite flat_cons in *. apply sorted_app in Hs as (Hes & Hc2 & Hlt). rewrite filter_app, fmap_app.
  destruct (kth_drop_filter l r es Hes) as [Hf1 Hge]. unfold leaf_range. cbn [a_ents a_sib]. set (rest := drop _ es) in *.
  assert (Hrest : StronglySorted key_le rest).
  { unfold rest. set (k := kth _ es). rewrite <- (take_drop k es) in Hes. by apply sorted_app in Hes as (_ & ? & _). }
  destruct (kth_take_filter l r rest Hrest Hge) as [Hf2 Hmore]. set (c := kth _ rest) in *. rewrite Hf1, Hf2.
  assert (Hend : c ≠ length rest ∨ c2 = [] → filter (in_range l r) (flat c2) = []).
  { intros [Hc| ->]; [|done]. destruct (Hmore Hc) as (e & He & Hre). apply filter_outside, Forall_forall. intros x Hx.
    assert (He' : e ∈ es). { unfold rest in He. rewrite <- (take_drop (kth (λ k : UUID, bool_decide (k < l)) es) es). apply elem_of_app. by right. }
    specialize (Hlt e x He' Hx). unfold key_le in Hlt. unfold in_range. lia. }
  destruct (decide (c = length rest)) as [Hc|Hc].
  - destruct c2 as [|[v es2] c2].
    + rewrite decide_True by done. run_M. by rewrite Hend, app_nil_r by auto.
    + rewrite decide_False.
      * rewrite (IH (c1 ++ [(u, es)])); [by rewrite <- app_assoc|by rewrite <- app_assoc|done|done|cbn in Hf |- *; lia].
      * cbn [head_of]. destruct Hst as (items & _ & [_ _ _ _ Ha]). apply Forall_app in Ha as [_ Ha]. apply Forall_cons in Ha as [_ Ha].
        cbn in Ha. apply Forall_cons in Ha as [(Hv & _) _]. cbn in Hv. unfold NilUUID. lia.
  - rewrite decide_True by done. run_M. by rewrite Hend, app_nil_r by auto.
Qed.

Lemma stored_at root X u n Y d : stored root (X ++ (u, n) :: Y) d →
  ∃ items raw, dm_rep d items ∧ laid base boot root (X ++ (u, n) :: Y) items ∧ 0 < u < 2 ^ 64 ∧
    items !! u = Some raw ∧ node_rep n raw ∧ loadNode u d = (d, Ret raw).
Proof.
  intros (items & Hd & Hl). assert (Ha := laid_nodes _ _ _ _ _ Hl). apply Forall_app in Ha as [_ Ha].
  apply Forall_cons in Ha as [(Hu & raw & Hr & Hn) _]. exists items, raw. split_and!; try done; try apply Hu. by eapply loadNode_run.
Qed.

Notation small := (Forall (λ p : UUID * list ent, (length p.2 < 64)%nat)).

Lemma insertAndSplit_walk leaf root X Y d key uuid u es c4 c3 : ∀ c1 fuel,
  stored root (X ++ chain_nodes leaf (c1 ++ c3 ++ (u, es) :: c4) 0 ++ Y) d →
  Forall (λ p : UUID * list ent, kth (less key) p.2 = length p.2) c3 → small c3 → is_uid key → is_uid uuid → (length c3 < fuel)%nat →
  insertAndSplit fuel (head_of (c3 ++ (u, es) :: c4) 0) uuid key d = insertAndSplit (fuel - length c3) u uuid key d.
Proof.
  induction c3 as [|[v es0] c3 IH]; intros c1 fuel Hst Hall Hsm Hk Hu Hf; [cbn; by rewrite Nat.sub_0_r|].
  destruct fuel as [|fuel]; [cbn in Hf; lia|]. assert (Hst' := Hst). cbn [app] in Hst. rewrite chain_at in Hst.
  destruct (stored_at _ _ _ _ _ _ Hst) as (items & raw & Hd & Hl & _ & Hv & Hrep & Hload).
  apply Forall_cons in Hall as [Hfull Hall]. apply Forall_cons in Hsm as [Hlt Hsm]. cbn in Hfull, Hlt.
  assert (Hsib : head_of (c3 ++ (u, es) :: c4) 0 ≠ 0).
  { assert (Ha := laid_nodes _ _ _ _ _ Hl). apply Forall_app in Ha as [_ Ha]. apply Forall_cons in Ha as [_ Ha]. apply Forall_app in Ha as [Ha _].
    destruct c3 as [|[w es1] c3]; cbn in Ha |- *; apply Forall_cons in Ha as [(Hw & _) _]; cbn in Hw; lia. }
  cbn [app head_of insertAndSplit length]. rewrite (M_bind_run _ _ _ _ _ Hload).
  rewrite (M_bind_run _ _ _ _ _ (node_insertAndSplit_next d _ _ raw uuid key Hrep Hk Hu ltac:(cbn; unfold zlen; lia) ltac:(by right) Hfull Hsib)).
  cbn [a_sib]. rewrite decide_True by done. cbn [Nat.sub]. apply (IH (c1 ++ [(v, es0)])); [by rewrite <- app_assoc|done..|cbn in Hf; lia].
Qed.

Lemma insertAndSplit_run leaf root X Y d key uuid c1 c fuel m :
  stored root (X ++ chain_nodes leaf (c1 ++ c) 0 ++ Y) d → c ≠ [] → small c → is_uid key → is_uid uuid →
  (leaf = false → (kth (less key) (flat c) < length (flat c))%nat) → (length c ≤ fuel)%nat → dm_room d (S m) →
  ∃ d' c' r, insertAndSplit fuel (head_of c 0) uuid key d = (d', Ret r) ∧ chain_step leaf key uuid c c' r ∧
    stored root (X ++ chain_nodes leaf (c1 ++ c') 0 ++ Y) d' ∧ dm_room d' (if decide (r.1 = NilUUID) then S m else m).
Proof.
  intros Hst Hne Hsm Hk Hu Hin Hf Hroom. destruct (locate key c Hne) as (c3 & u & es & c4 & -> & Hall & Hh).
  apply Forall_app in Hsm as [Hsm3 Hsm]. apply Forall_cons in Hsm as [Hes _]. cbn in Hes. rewrite length_app in Hf. cbn in Hf.
  rewrite (insertAndSplit_walk _ _ _ _ _ _ _ _ _ _ _ _ _ Hst Hall Hsm3 Hk Hu) by lia.
  replace (fuel - length c3)%nat with (S (fuel - length c3 - 1)) by lia. rewrite (app_assoc c1), chain_at in Hst.
  destruct (stored_at _ _ _ _ _ _ Hst) as (items & raw & Hd & Hl & Hpos & Hraw & Hrep & Hload).
  set (n := mkNode leaf es (head_of c4 0)) in *. cbn [insertAndSplit]. rewrite (M_bind_run _ _ _ _ _ Hload).
  assert (Hlen : zlen (a_ents n) < 64) by (cbn; unfold zlen; lia).
  assert (Hhere : ¬ (kth (less key) (a_ents n) = length (a_ents n) ∧ a_sib n ≠ 0)) by (cbn; destruct Hh as [?| ->]; [lia|intros [_ []]; done]).
  assert (Hinner : a_leaf n = false → (kth (less key) (a_ents n) < length (a_ents n))%nat ∨ a_sib n ≠ 0).
  { cbn. intros Hlf. left. destruct Hh as [?| ->]; [done|]. specialize (Hin Hlf). rewrite flat_app, kth_app, decide_True, flat_cons in Hin by by apply kth_flat.
    change (flat []) with (@nil ent) in Hin. rewrite app_nil_r, length_app in Hin. lia. }
  apply (laid_perm _ _ _ _ ((u, n) :: (X ++ chain_nodes leaf (c1 ++ c3) u) ++ chain_nodes leaf c4 0 ++ Y)) in Hl; [|by rewrite <- Permutation_middle].
  destruct (decide (length (inserted leaf es key uuid) = 64%nat)) as [Hfull|Hfit].
  - destruct (node_insertAndSplit_splits d items u n raw uuid key Hd Hraw Hrep Hk Hu Hlen Hinner Hhere m Hfull Hroom)
      as (d' & new & k & raw1 & raw2 & Hrun & Hr1 & Hr2 & Hk' & Hfresh & Hnew & Hd' & Hroom'). cbn [a_leaf a_ents a_sib n] in *.
    destruct (inserted leaf es key uuid !! 32%nat) as [e|] eqn:He; [|done]. injection Hk' as <-.
    exists d', (c3 ++ (u, take 32 (inserted leaf es key uuid)) :: (new, drop 32 (inserted leaf es key uuid)) :: c4), (new, e.1).
    split; [rewrite (M_bind_run _ _ _ _ _ Hrun); by rewrite decide_False by (unfold NilUUID; lia)|].
    split; [exists c3, u, es, c4; split_and!; try done; right; split; [done|]; by exists new, e|].
    split; [|cbn [fst]; by rewrite decide_False by (unfold NilUUID; lia)]. exists (<[u:=raw1]> (<[new:=raw2]> items)). split; [done|].
    rewrite (app_assoc c1), chain_at. eapply (laid_perm _ _ _ _ _); [apply Permutation_middle|]. cbn [head_of chain_nodes].
    eapply laid_perm; [|eapply (laid_replace _ _ _ ((new, mkNode leaf (drop 32 (inserted leaf es key uuid)) (head_of c4 0)) :: _) u n); [|exact Hr1]].
    + apply Permutation_skip. apply Permutation_middle.
    + eapply laid_perm; [apply Permutation_swap|]. by apply laid_insert.
  - destruct (node_insertAndSplit_fits d items u n raw uuid key Hd Hraw Hrep Hk Hu Hlen Hinner Hhere Hfit)
      as (d' & raw' & Hrun & Hr' & Hd' & Hroom'). cbn [a_leaf a_ents a_sib n] in *.
    exists d', (c3 ++ (u, inserted leaf es key uuid) :: c4), (NilUUID, NilUUID).
    split; [rewrite (M_bind_run _ _ _ _ _ Hrun); by rewrite decide_False by (unfold NilUUID; lia)|].
    split; [exists c3, u, es, c4; split_and!; try done; by left|].
    split; [|cbn [fst]; rewrite decide_True by done; by apply Hroom']. exists (<[u:=raw']> items). split; [done|].
    rewrite (app_assoc c1), chain_at. eapply (laid_perm _ _ _ _ _); [apply Permutation_middle|]. by eapply laid_replace.
Qed.

(** ** The tree *)

Definition tree_root (inner leaves : chain) : UUID := head_of inner (head_of leaves 0).
Definition tree_stored (inner leaves : chain) (d : D) : Prop :=
  stored (tree_root inner leaves) (chain_nodes false inner 0 ++ chain_nodes true leaves 0) d.
Definition tree_rep (d : D) (A : list ent) : Prop := ∃ inner leaves, tree_stored inner leaves d ∧ tree_shape inner leaves A.

Definition has_room (d : D) (n : nat) : Prop := ∃ k, (n ≤ k)%nat ∧ dm_room d k.

Lemma stored_uid root X u n Y d : stored root (X ++ (u, n) :: Y) d → 0 < u < 2 ^ 64.
Proof. intros Hst. by destruct (stored_at _ _ _ _ _ _ Hst) as (? & ? & _ & _ & ? & _). Qed.

(** The shape of the chain of leaves a search for [q] sees. *)
Definition start_at (q : UUID) (leaves : chain) (s : UUID) (c1 c : chain) : Prop :=
  leaves = c1 ++ c ∧ Forall (λ e : ent, e.1 < q) (flat c1) ∧ ∃ es c2, c = (s, es) :: c2.

Lemma good_start_at q leaves s : good_start q leaves s → ∃ c1 c, start_at q leaves s c1 c.
Proof. intros (c1 & es & c2 & -> & Hb). exists c1, ((s, es) :: c2). split; [done|]. split; [done|]. eauto. Qed.

Lemma leaf_load inner leaves d q s c1 c : tree_stored inner leaves d → start_at q leaves s c1 c →
  0 < s < 2 ^ 64 ∧ ∃ raw, loadNode s d = (d, Ret raw) ∧ getRawIsLeaf raw = Ret true.
Proof.
  intros Hst (-> & _ & es & c2 & ->). unfold tree_stored in Hst. rewrite <- (app_nil_r (chain_nodes true _ _)) in Hst. rewrite chain_at in Hst.
  split; [by eapply stored_uid|]. destruct (stored_load _ _ _ _ _ _ _ _ Hst) as (raw & Hload & Hrep). exists raw. split; [done|]. by apply getRawIsLeaf_run in Hrep.
Qed.

Lemma inner_load r es inner leaves d : tree_stored ((r, es) :: inner) leaves d →
  0 < r < 2 ^ 64 ∧ ∃ raw, loadNode r d = (d, Ret raw) ∧ getRawIsLeaf raw = Ret false.
Proof.
  intros Hst. pose proof (chain_at false [] [] r es inner (chain_nodes true leaves 0)) as Heq. cbn [app] in Heq. unfold tree_stored in Hst. rewrite Heq in Hst.
  split; [by eapply (stored_uid _ [])|]. destruct (stored_load _ _ _ [] _ _ _ _ Hst) as (raw & Hload & Hrep). exists raw. split; [done|]. by apply getRawIsLeaf_run in Hrep.
Qed.

(** From the root to a leaf: the root itself, or through the inner chain. *)
Lemma descend d inner leaves A q fuel : tree_stored inner leaves d → tree_shape inner leaves A → key_ok q →
  (length inner ≤ fuel)%nat →
  match inner with
  | [] => ∃ es, leaves = [(tree_root inner leaves, es)]
  | _ => ∃ s c1 c, start_at q leaves s c1 c ∧ searchNext fuel (tree_root inner leaves) q d = (d, Ret s)
  end.
Proof.
  intros Hst Hsh Hq Hf. pose proof (shape_indexed _ _ _ Hsh) as Hi. destruct inner as [|[r es] inner].
  - destruct Hi as (u & es & ->). by exists es.
  - destruct (Hi q Hq) as (s & Hs & Hg). destruct (good_start_at _ _ _ Hg) as (c1 & c & Hat). exists s, c1, c. split; [done|].
    pose proof (leaf_load _ _ _ _ _ _ _ Hst Hat) as [Hpos _].
    apply (searchNext_run (tree_root ((r, es) :: inner) leaves) [] (chain_nodes true leaves 0) d q s ((r, es) :: inner) []); [done|done|unfold NilUUID; lia|done].
Qed.

Lemma tree_root_uid d inner leaves A : tree_stored inner leaves d → tree_shape inner leaves A → is_uid (tree_root inner leaves).
Proof.
  intros Hst Hsh. unfold is_uid. destruct inner as [|[r es] inner].
  - pose proof (shape_indexed _ _ _ Hsh) as (u & es & ->). destruct (leaf_load [] _ d 0 u [] [(u, es)] Hst) as [? _]; [|cbn; lia].
    split; [done|]. split; [constructor|]. eauto.
  - destruct (inner_load _ _ _ _ _ Hst) as [? _]. cbn. lia.
Qed.

Lemma SearchRange_run d A l r fuel : tree_rep d A → key_ok l → (2 * length A + 3 ≤ fuel)%nat →
  SearchRange fuel boot l r d = (d, Ret (filter (in_range l r) A).*2).
Proof.
  intros (inner & leaves & Hst & Hsh) Hl Hf. pose proof (shape_size _ _ _ Hsh) as Hsz. pose proof (shape_leaves _ _ _ Hsh) as [Hfl Hsorted _ _].
  unfold SearchRange. rewrite (M_bind_run _ _ _ _ _ (stored_root _ _ _ _ _ Hst (tree_root_uid _ _ _ _ Hst Hsh))).
  assert (Hleaf : ∃ s c1 c, start_at l leaves s c1 c ∧ searchLeaf fuel (tree_root inner leaves) l d = (d, Ret s)).
  { destruct fuel as [|[|fuel]]; [lia..|]. pose proof (descend d inner leaves A l (S fuel) Hst Hsh Hl ltac:(lia)) as Hdesc. destruct inner as [|[r0 es0] inner].
    - destruct Hdesc as (es & Hleaves). assert (Hat : start_at l leaves (tree_root [] leaves) [] leaves).
      { split; [done|]. split; [constructor|]. eauto. }
      exists (tree_root [] leaves), [], leaves. split; [done|]. destruct (leaf_load _ _ _ _ _ _ _ Hst Hat) as (_ & raw & Hload & Hg).
      cbn [searchLeaf]. by rewrite (M_bind_run _ _ _ _ _ Hload), Hg, M_lift_bind.
    - destruct Hdesc as (s & c1 & c & Hat & Hrun). exists s, c1, c. split; [done|]. destruct (inner_load _ _ _ _ _ Hst) as (_ & raw & Hload & Hg).
      destruct (leaf_load _ _ _ _ _ _ _ Hst Hat) as (_ & raw' & Hload' & Hg').
      change (searchLeaf (S (S fuel)) (tree_root ((r0, es0) :: inner) leaves) l d) with
        ((raw ← loadNode r0; isLeaf ← lift (getRawIsLeaf raw);
          if (isLeaf : bool) then mret r0 else next ← searchNext (S fuel) r0 l; searchLeaf (S fuel) next l) d).
      rewrite (M_bind_run _ _ _ _ _ Hload), Hg, M_lift_bind, (M_bind_run _ _ _ _ _ Hrun).
      cbn [searchLeaf]. by rewrite (M_bind_run _ _ _ _ _ Hload'), Hg', M_lift_bind. }
  destruct Hleaf as (s & c1 & c & Hat & Hrun). rewrite (M_bind_run _ _ _ _ _ Hrun). destruct Hat as (-> & Hb & es & c2 & ->).
  rewrite <- Hfl, flat_app in Hsorted. apply sorted_app in Hsorted as (_ & Hs2 & _). apply sorted_lt_le in Hs2.
  pose proof (collectLeaves_run (tree_root inner (c1 ++ (s, es) :: c2)) (chain_nodes false inner 0) [] d l r ((s, es) :: c2) c1 fuel []) as Hcol.
  rewrite app_nil_r in Hcol. rewrite length_app in Hsz. cbn [head_of length] in *. rewrite (Hcol Hst) by (try done; cbn; lia). cbn [app]. do 3 f_equal.
  rewrite <- Hfl, flat_app, filter_app, (filter_outside l r (flat c1)); [done|]. eapply Forall_impl; [exact Hb|]. unfold in_range. intros. lia.
Qed.

(** The insertion into the leaves. *)
Lemma insert_leaf d inner leaves A key uuid s c1 c fuel m :
  tree_stored inner leaves d → tree_shape inner leaves A → start_at key leaves s c1 c → key_ok key → is_uid uuid →
  Forall (λ e : ent, e.1 ≠ key) A → (2 * length A + 3 ≤ fuel)%nat → dm_room d (S m) →
  ∃ d' c' r, insert fuel s uuid key d = (d', Ret r) ∧ chain_step true key uuid c c' r ∧ leaves_ok (c1 ++ c') (inserted true A key uuid) ∧
    stored (tree_root inner leaves) (chain_nodes false inner 0 ++ chain_nodes true (c1 ++ c') 0) d' ∧ dm_room d' (if decide (r.1 = NilUUID) then S m else m).
Proof.
  intros Hst Hsh Hat Hk Hu Hne Hf Hroom. destruct (leaf_load _ _ _ _ _ _ _ Hst Hat) as (_ & raw & Hload & Hg).
  pose proof (shape_leaves _ _ _ Hsh) as Hok. pose proof (shape_size _ _ _ Hsh) as Hsz. destruct Hat as (-> & Hb & es & c2 & ->).
  pose proof (insertAndSplit_run true (tree_root inner (c1 ++ (s, es) :: c2)) (chain_nodes false inner 0) [] d key uuid c1 ((s, es) :: c2) (fuel - 1) m) as Hrun.
  rewrite app_nil_r in Hrun. rewrite length_app in Hsz. cbn [length] in *.
  destruct Hrun as (d' & c' & r & Hrun & Hstep & Hst' & Hroom'); [exact Hst|done| |unfold key_ok, INF in Hk; unfold is_uid; lia|done|done|lia|done|].
  { pose proof (leaves_small _ _ Hok) as Hsm. by apply Forall_app in Hsm as [_ Hsm]. }
  exists d', c', r. rewrite app_nil_r in Hst'. split; [|split; [done|split; [by eapply leaves_step|done]]].
  destruct fuel as [|fuel]; [lia|]. cbn [insert]. rewrite (M_bind_run _ _ _ _ _ Hload), Hg, M_lift_bind. cbn [Nat.sub head_of] in Hrun. by rewrite Nat.sub_0_r in Hrun.
Qed.

(** A new root above the leaves. *)
Lemma updaterootUUID_run root left right key nodes d m :
  stored root nodes d → is_uid left → is_uid right → is_uid key → dm_room d (S m) →
  ∃ d' new, updaterootUUID_ boot left right key d = (d', Ret tt) ∧
    stored new ((new, mkNode false [(key, left); (INF, right)] 0) :: nodes) d' ∧ dm_room d' m.
Proof.
  intros (items & Hd & Hl) Hleft Hright Hk Hroom. destruct (newRootRaw_run left right key Hleft Hright Hk) as (raw & Hraw & Hrep).
  destruct (dm_Insert_ok d items SUPER_XID raw m Hd dm_writer_super) as (d1 & new & Hins & Hfresh & Hnew' & Hd1 & Hroom1); [|done|].
  { destruct Hrep as (-> & _). by vm_compute. }
  assert (Hnew : 0 < new < 2 ^ 64) by (unfold INF in Hnew'; lia).
  pose proof (laid_insert _ _ _ _ _ _ _ _ Hl Hfresh Hnew Hrep) as Hl1. assert (Hboot := laid_root _ _ _ _ _ Hl1).
  destruct (dm_Write_ok d1 _ SUPER_XID boot _ (UUIDToRaw new) Hd1 dm_writer_super Hboot) as (d' & Hw & Hd' & Hroom'); [by rewrite !zlen_uid|].
  exists d', new. split; [|split; [|by apply Hroom']].
  - unfold updaterootUUID_. rewrite Hraw, M_lift_bind, (M_bind_run _ _ _ _ _ Hins). unfold bootData.
    rewrite (M_bind_run _ _ _ _ _ (loadNode_run _ _ _ _ Hd1 Hboot)).
    rewrite (copy_at_piece _ [] (UUIDToRaw root) [] 0 (UUIDToRaw new)); [by rewrite app_nil_r|by rewrite app_nil_r|done|by rewrite !zlen_uid].
  - eexists. split; [done|]. by eapply laid_reroot.
Qed.

Lemma new_key_ok A c1 c c' key uuid new k :
  leaves_ok (c1 ++ c') A → chain_step true key uuid c c' (new, k) → new ≠ NilUUID → key_ok k ∧ is_uid k ∧ is_uid new ∧ StronglySorted key_lt (flat (c1 ++ c')).
Proof.
  intros [Hf Hs Hk _] Hstep Hnew. destruct (chain_step_new _ _ _ _ _ _ Hstep Hnew) as (Huid & e & He & Hek). cbn [fst snd] in *.
  assert (Hin : e ∈ A) by (rewrite <- Hf, flat_app; apply elem_of_app; by right).
  pose proof (proj1 (Forall_forall _ _) Hk _ Hin) as Hok. cbn in Hok. rewrite Hek in Hok. rewrite Hf. split; [done|]. split; [|done].
  unfold key_ok, INF in Hok. unfold is_uid. lia.
Qed.

(** The root is a leaf: it stays one, or becomes the left half below a new
    root.  The keys need not be different. *)
Lemma Insert_root_leaf d u es key uuid fuel m :
  tree_stored [] [(u, es)] d → (length es < 64)%nat → is_uid key → is_uid uuid → (2 ≤ fuel)%nat → dm_room d (S (S m)) →
  let es' := inserted true es key uuid in
  ∃ d', Insert fuel boot key uuid d = (d', Ret tt) ∧
    ((length es' ≠ 64%nat ∧ tree_stored [] [(u, es')] d' ∧ dm_room d' (S (S m))) ∨
     ∃ root new e, length es' = 64%nat ∧ es' !! 32%nat = Some e ∧ 0 < new < 2 ^ 64 ∧
       tree_stored [(root, [(e.1, u); (INF, new)])] [(u, take 32 es'); (new, drop 32 es')] d' ∧ dm_room d' m).
Proof.
  intros Hst Hes Hk Hu Hf Hroom es'. pose proof (leaf_load [] _ d 0 u [] [(u, es)] Hst) as (Hu0 & raw & Hload & Hg).
  { split; [done|]. split; [constructor|]. eauto. }
  assert (Hroot : is_uid u) by (unfold is_uid; lia). unfold tree_stored in Hst. pose proof (stored_root _ _ _ _ _ Hst Hroot) as Hroot1.
  destruct (insertAndSplit_run true u [] [] d key uuid [] [(u, es)] (fuel - 1) (S m)) as (d1 & c' & r & Hrun & Hstep & Hst1 & Hroom1);
    [by rewrite app_nil_r|done|by apply Forall_singleton|done..|cbn; lia|done|].
  destruct fuel as [|fuel]; [lia|]. cbn [Nat.sub app head_of] in *. rewrite Nat.sub_0_r in Hrun. rewrite app_nil_r in Hst1.
  unfold Insert. rewrite (M_bind_run _ _ _ _ _ Hroot1). change (tree_root [] [(u, es)]) with u. cbn [insert].
  rewrite (M_bind_run _ _ d d1 r); [|by rewrite (M_bind_run _ _ _ _ _ Hload), Hg, M_lift_bind].
  destruct Hstep as (c3 & v & es3 & c4 & Heq & _ & _ & Hcase). destruct c3 as [|? []]; [|done..]. injection Heq as <- <- <-. cbn [app] in Hcase. fold es' in Hcase.
  destruct Hcase as [(Hl & -> & ->)|(Hl & new & e & He & Hn & -> & ->)]; cbn [fst snd] in *.
  - exists d1. rewrite decide_False by naive_solver. split; [done|]. left. done.
  - rewrite decide_False in Hroom1 by (unfold NilUUID; lia). rewrite decide_True by (unfold NilUUID; lia).
    rewrite (M_bind_run _ _ _ _ _ (stored_root _ _ _ _ _ Hst1 Hroot)), decide_True by done.
    assert (Hek : is_uid e.1).
    { destruct Hst1 as (items & _ & Hlaid). pose proof (laid_nodes _ _ _ _ _ Hlaid) as Ha. cbn [chain_nodes app] in Ha.
      apply Forall_cons in Ha as [_ Ha]. apply Forall_cons in Ha as [(_ & raw2 & _ & _ & (Hall & _) & _) _]. cbn [a_ents snd] in Hall. rewrite (drop_S _ _ _ He) in Hall. by apply Forall_cons in Hall as [[? _] _]. }
    destruct (updaterootUUID_run _ u new e.1 _ _ _ Hst1 Hroot ltac:(unfold is_uid; lia) Hek Hroom1) as (d' & root & Hup & Hst' & Hroom').
    exists d'. split; [exact Hup|]. right. exists root, new, e. exact (conj Hl (conj He (conj Hn (conj Hst' Hroom')))).
Qed.

Lemma Insert_leaf d u es A key uuid fuel m :
  tree_stored [] [(u, es)] d → tree_shape [] [(u, es)] A → key_ok key → is_uid uuid →
  Forall (λ e : ent, e.1 ≠ key) A → (2 ≤ fuel)%nat → dm_room d (S (S m)) →
  ∃ d', Insert fuel boot key uuid d = (d', Ret tt) ∧ tree_rep d' (inserted true A key uuid) ∧ has_room d' m.
Proof.
  intros Hst Hsh Hk Hu Hne Hf Hroom. pose proof (shape_leaves _ _ _ Hsh) as Hok. pose proof (leaves_small _ _ Hok) as Hes.
  rewrite Forall_singleton in Hes. cbn in Hes. assert (HlA : length (inserted true A key uuid) = S (length A)) by by rewrite inserted_perm.
  assert (Hkey : is_uid key) by (unfold key_ok, INF in Hk; unfold is_uid; lia).
  destruct (Insert_root_leaf d u es key uuid fuel m Hst Hes Hkey Hu Hf Hroom) as (d' & Hrun & Hcase). exists d'. split; [done|].
  set (es' := inserted true es key uuid) in *.
  destruct Hcase as [(Hl & Hst' & Hroom')|(root & new & e & Hl & He & Hn & Hst' & Hroom')].
  - split; [|by exists (S (S m)); split; [lia|]]. exists [], [(u, es')]. split; [done|].
    assert (Hstep : chain_step true key uuid [(u, es)] [(u, es')] (NilUUID, NilUUID)).
    { exists [], u, es, []. split_and!; [done|constructor|by right|by left]. }
    split; [exact (leaves_step [] _ _ _ _ _ _ Hok Hk Hne (Forall_nil_2 _) Hstep)|constructor|by eexists _, _|rewrite HlA; cbn [length]; lia].
  - assert (Hstep : chain_step true key uuid [(u, es)] [(u, take 32 es'); (new, drop 32 es')] (new, e.1)).
    { exists [], u, es, []. split_and!; [done|constructor|by right|]. right. split; [done|]. by exists new, e. }
    pose proof (leaves_step [] _ _ _ _ _ _ Hok Hk Hne (Forall_nil_2 _) Hstep) as Hok'. assert (Hnew : new ≠ NilUUID) by (unfold NilUUID; lia).
    destruct (new_key_ok _ [] _ _ _ _ _ _ Hok' Hstep Hnew) as (Hkk & _ & _ & Hsorted). cbn [app] in *.
    split; [|exists m; split; [apply le_n|exact Hroom']]. eexists _, _. split; [exact Hst'|].
    split; [done|apply Forall_singleton; cbn; lia|by eapply indexed_root|rewrite HlA; cbn [length]; lia].
Qed.

Lemma Insert_inner d r0 es0 inner leaves A key uuid fuel m :
  tree_stored ((r0, es0) :: inner) leaves d → tree_shape ((r0, es0) :: inner) leaves A → key_ok key → is_uid uuid →
  Forall (λ e : ent, e.1 ≠ key) A → (2 * length A + 5 ≤ fuel)%nat → dm_room d (S (S m)) →
  ∃ d', Insert fuel boot key uuid d = (d', Ret tt) ∧ tree_rep d' (inserted true A key uuid) ∧ has_room d' m.
Proof.
  set (I := (r0, es0) :: inner). intros Hst Hsh Hk Hu Hne Hf Hroom. pose proof (tree_root_uid _ _ _ _ Hst Hsh) as Hroot.
  assert (HI : I ≠ []) by done. pose proof (shape_size _ _ _ Hsh) as Hsz. destruct fuel as [|fuel]; [lia|].
  pose proof (descend d I leaves A key fuel Hst Hsh Hk ltac:(lia)) as (s & c1 & c & Hat & Hnext).
  destruct (inner_load _ _ _ _ _ Hst) as (_ & raw & Hload & Hg). pose proof Hat as (Hleaves & Hb & es & c2 & Hc).
  destruct (insert_leaf _ _ _ _ key uuid _ _ _ fuel (S m) Hst Hsh Hat Hk Hu Hne) as (d1 & c' & [new k] & Hrun & Hstep & Hok & Hst1 & Hroom1); [lia|done|].
  change (tree_root I leaves) with r0 in *. cbn [fst] in *.
  assert (HlA : length (inserted true A key uuid) = S (length A)) by by rewrite inserted_perm.
  pose proof (chain_step_length _ _ _ _ _ _ Hstep) as Hlen. cbn [fst] in Hlen. rewrite Hleaves, length_app in Hsz.
  assert (Hindex : indexed I (c1 ++ c')).
  { eapply indexed_same; [done| |exact Hstep]. rewrite <- Hleaves. exact (shape_indexed _ _ _ Hsh). }
  unfold Insert. rewrite (M_bind_run _ _ _ _ _ (stored_root _ _ _ _ _ Hst Hroot)). cbn [insert].
  destruct (decide (new = NilUUID)) as [->|Hnew].
  - exists d1. split; [|split; [|exists (S (S m)); split; [lia|done]]].
    + rewrite (M_bind_run _ _ d d1 (NilUUID, NilUUID)); [by rewrite decide_False by naive_solver|].
      rewrite (M_bind_run _ _ _ _ _ Hload), Hg, M_lift_bind, (M_bind_run _ _ _ _ _ Hnext), (M_bind_run _ _ _ _ _ Hrun). by rewrite decide_False by naive_solver.
    + exists I, (c1 ++ c'). split; [done|]. split; [done|exact (shape_small _ _ _ Hsh)|done|rewrite length_app; lia].
  - destruct (new_key_ok _ _ _ _ _ _ _ _ Hok Hstep Hnew) as (Hkk & Hkuid & Hnuid & Hsorted).
    pose proof (shape_small _ _ _ Hsh) as HsmI. pose proof (indexed_kth _ _ _ HI Hindex Hkk) as Hkth.
    destruct (insertAndSplit_run false r0 [] (chain_nodes true (c1 ++ c') 0) d1 k new [] I fuel m) as (d' & I' & r & Hrun' & Hstep' & Hst' & Hroom');
      [exact Hst1|done|done|done|done|done|cbn in *; lia|done|]. cbn [app head_of] in Hst', Hrun'.
    pose proof (chain_step_length _ _ _ _ _ _ Hstep') as Hlen'. assert (Hhead : head_of I' (head_of (c1 ++ c') 0) = r0).
    { destruct Hstep' as (c3 & v & es3 & c4 & Heq & _ & _ & [(_ & -> & _)|(_ & ? & ? & _ & _ & -> & _)]); destruct c3 as [|[w ?] c3]; cbn; by injection Heq. }
    exists d'. split; [|split].
    + rewrite (M_bind_run _ _ d d' (NilUUID, NilUUID)); [by rewrite decide_False by naive_solver|].
      rewrite (M_bind_run _ _ _ _ _ Hload), Hg, M_lift_bind, (M_bind_run _ _ _ _ _ Hnext), (M_bind_run _ _ _ _ _ Hrun). rewrite decide_True by done.
      change (head_of I 0) with r0 in Hrun'. by rewrite (M_bind_run _ _ _ _ _ Hrun').
    + exists I', (c1 ++ c'). split; [unfold tree_stored, tree_root; by rewrite Hhead|]. split; [done| | |].
      * eapply chain_step_small; [exact Hstep'|done|done].
      * eapply indexed_new; [exact HI| |exact Hstep|done|done|done|exact Hstep']. rewrite <- Hleaves. exact (shape_indexed _ _ _ Hsh).
      * rewrite length_app. revert Hlen'. case_decide; lia.
    + revert Hroom'. case_decide; [intros Hr; exists (S m); split; [apply le_S, le_n|exact Hr]|intros Hr; exists m; split; [apply le_n|exact Hr]].
Qed.

Lemma tree_Insert_run d A key uuid fuel m :
  tree_rep d A → key_ok key → is_uid uuid → key ∉ A.*1 → (2 * length A + 5 ≤ fuel)%nat → dm_room d (S (S m)) →
  ∃ d', Insert fuel boot key uuid d = (d', Ret tt) ∧ tree_rep d' (inserted true A key uuid) ∧ has_room d' m.
Proof.
  intros (inner & leaves & Hst & Hsh) Hk Hu Hne Hf Hroom. assert (Hne' : Forall (λ e : ent, e.1 ≠ key) A).
  { apply Forall_forall. intros e He <-. apply Hne. by apply list_elem_of_fmap_2. }
  destruct inner as [|[r0 es0] inner].
  - pose proof (shape_indexed _ _ _ Hsh) as (u & es & ->). eapply Insert_leaf; try done. lia.
  - by eapply Insert_inner.
Qed.

(** Insertions of keys the tree does not have. *)
Lemma Inserts_run kvs : ∀ d A fuel m,
  tree_rep d A → Forall (λ e : ent, key_ok e.1 ∧ is_uid e.2) kvs → NoDup (kvs.*1 ++ A.*1) →
  (2 * (length kvs + length A) + 5 ≤ fuel)%nat → has_room d (2 * length kvs + m) →
  ∃ d' A', Inserts fuel boot kvs d = (d', Ret tt) ∧ tree_rep d' A' ∧ A' ≡ₚ kvs ++ A ∧ has_room d' m.
Proof.
  induction kvs as [|[key uuid] kvs IH]; intros d A fuel m Hrep Hall Hnd Hf Hroom; [by exists d, A|].
  apply Forall_cons in Hall as [[Hk Hu] Hall]. cbn [fst snd fmap list_fmap app length] in *. apply NoDup_cons in Hnd as [Hnot Hnd].
  destruct Hroom as ([|[|k]] & Hle & Hroom); [lia..|].
  destruct (tree_Insert_run d A key uuid fuel k Hrep Hk Hu) as (d1 & Hrun & Hrep1 & k1 & Hk1 & Hroom1); [|lia|done|].
  { intros Hin. apply Hnot. apply elem_of_app. by right. }
  pose proof (inserted_perm A key uuid) as Hp. destruct (IH d1 (inserted true A key uuid) fuel m) as (d' & A' & Hrun' & Hrep' & Hp' & Hroom').
  - done.
  - done.
  - rewrite Hp. cbn [fmap list_fmap fst]. rewrite <- Permutation_middle. by apply NoDup_cons.
  - rewrite Hp. cbn [length]. lia.
  - exists k1. split; [lia|done].
  - exists d', A'. split_and!; [|done| |done].
    + cbn [Inserts]. by rewrite (M_bind_run _ _ _ _ _ Hrun).
    + rewrite Hp', Hp. by rewrite <- Permutation_middle.
Qed.

(** Equal keys: the last one inserted comes first, until the leaf is full. *)
Definition same_key (key : UUID) (us : list UUID) : list ent := (λ u, (key, u)) <$> us.

Lemma inserted_same key us v : inserted true (same_key key us) key v = same_key key (v :: us).
Proof. destruct us as [|u us]; [done|]. cbn [same_key fmap list_fmap]. rewrite inserted_true_cons, decide_False by (cbn; lia). done. Qed.

Lemma Inserts_same us : ∀ d u vs key fuel m,
  tree_stored [] [(u, same_key key vs)] d → (length us + length vs < 64)%nat → is_uid key → Forall is_uid us → (2 ≤ fuel)%nat → dm_room d (S (S m)) →
  ∃ d', Inserts fuel boot (same_key key us) d = (d', Ret tt) ∧ tree_stored [] [(u, same_key key (reverse us ++ vs))] d' ∧ dm_room d' (S (S m)).
Proof.
  induction us as [|v us IH]; intros d u vs key fuel m Hst Hl Hk Hus Hf Hroom; [by exists d|]. apply Forall_cons in Hus as [Hv Hus]. cbn [length] in Hl.
  assert (Hvs : length (same_key key vs) = length vs) by apply length_fmap.
  destruct (Insert_root_leaf d u _ key v fuel m Hst ltac:(lia) Hk Hv Hf Hroom) as (d1 & Hrun & Hcase). rewrite inserted_same in Hcase.
  assert (Hvs' : length (same_key key (v :: vs)) = S (length vs)) by exact (length_fmap _ (v :: vs)).
  destruct Hcase as [(_ & Hst1 & Hroom1)|(root & new & e & Hfull & _)]; [|lia].
  destruct (IH d1 u (v :: vs) key fuel m Hst1 ltac:(cbn; lia) Hk Hus Hf Hroom1) as (d' & Hrun' & Hst' & Hroom').
  exists d'. split; [|split; [by rewrite reverse_cons, <- app_assoc|done]]. cbn [same_key fmap list_fmap Inserts]. by rewrite (M_bind_run _ _ _ _ _ Hrun).
Qed.

Lemma sorted_same key us : StronglySorted key_le (same_key key us).
Proof.
  induction us as [|u us IH]; constructor; [done|]. apply Forall_forall. intros x Hx. apply list_elem_of_fmap in Hx as (v & -> & _). unfold key_le. cbn. lia.
Qed.

Lemma filter_same key us : filter (in_range key key) (same_key key us) = same_key key us.
Proof. induction us as [|u us IH]; [done|]. cbn [same_key fmap list_fmap]. rewrite filter_cons_True by (unfold in_range; cbn; lia). by f_equal. Qed.

Lemma Search_same d root u new key vs ws fuel :
  tree_stored [(root, [(key, u); (INF, new)])] [(u, same_key key vs); (new, same_key key ws)] d → key_ok key → (3 ≤ fuel)%nat →
  Search fuel boot key d = (d, Ret ws).
Proof.
  intros Hst [Hk0 Hk] Hf. destruct (inner_load _ _ _ _ _ Hst) as (Hroot & raw & Hload & Hg). destruct fuel as [|[|[|fuel]]]; [lia..|].
  set (leaves := [(u, same_key key vs); (new, same_key key ws)]) in *.
  assert (Hnew : 0 < new < 2 ^ 64 ∧ ∃ raw, loadNode new d = (d, Ret raw) ∧ getRawIsLeaf raw = Ret true).
  { apply (leaf_load _ leaves d (key + 1) new [(u, same_key key vs)] [(new, same_key key ws)] Hst). split; [done|]. split; [|by eexists _, _].
    rewrite flat_cons. change (flat []) with (@nil ent). rewrite app_nil_r. apply Forall_forall. intros e He. apply list_elem_of_fmap in He as (w & -> & _). cbn. lia. }
  destruct Hnew as (Hnew & raw' & Hload' & Hg'). unfold Search, SearchRange. unfold tree_stored in Hst. cbn [tree_root head_of] in *.
  rewrite (M_bind_run _ _ _ _ _ (stored_root _ _ _ _ _ Hst ltac:(unfold is_uid; lia))).
  assert (Hnext : searchNext (S (S fuel)) root key d = (d, Ret new)).
  { apply (searchNext_run root [] (chain_nodes true leaves 0) d key new [(root, [(key, u); (INF, new)])] []); [done| |unfold NilUUID; lia|cbn; lia].
    unfold find_son, flat. cbn. rewrite decide_False by lia. by rewrite decide_True. }
  assert (Hleaf : searchLeaf (S (S (S fuel))) root key d = (d, Ret new)).
  { change (searchLeaf (S (S (S fuel))) root key d) with
      ((raw ← loadNode root; isLeaf ← lift (getRawIsLeaf raw);
        if (isLeaf : bool) then mret root else next ← searchNext (S (S fuel)) root key; searchLeaf (S (S fuel)) next key) d).
    rewrite (M_bind_run _ _ _ _ _ Hload), Hg, M_lift_bind, (M_bind_run _ _ _ _ _ Hnext). cbn [searchLeaf]. by rewrite (M_bind_run _ _ _ _ _ Hload'), Hg', M_lift_bind. }
  rewrite (M_bind_run _ _ _ _ _ Hleaf).
  pose proof (collectLeaves_run root (chain_nodes false [(root, [(key, u); (INF, new)])] 0) [] d key key [(new, same_key key ws)] [(u, same_key key vs)] (S (S (S fuel))) []) as Hcol.
  rewrite app_nil_r in Hcol. cbn [head_of app] in Hcol. rewrite flat_cons in Hcol. change (flat []) with (@nil ent) in Hcol. rewrite app_nil_r, filter_same in Hcol.
  rewrite Hcol; [|exact Hst|done|apply sorted_same|cbn; lia]. do 2 f_equal. unfold same_key. rewrite <- list_fmap_compose. by rewrite list_fmap_id.
Qed.
End Runs.

Section Whole.
Context {D : Type} `{!DataManager D, !DataManagerOk D}.

Lemma tree_Create_run (d : D) items m : dm_rep d items → dm_room d (S (S m)) →
  ∃ d' boot, Create d = (d', Ret boot) ∧ Load boot d' = (d', Ret boot) ∧ 0 < boot < INF ∧ tree_rep items boot d' [] ∧ dm_room d' m.
Proof.
  intros Hd Hroom. destruct newNilRootRaw_run as (raw & Hraw & Hrep).
  destruct (dm_Insert_ok d items SUPER_XID raw (S m) Hd dm_writer_super) as (d1 & root & Hins & Hfresh & Hroot' & Hd1 & Hroom1); [|done|].
  { destruct Hrep as (-> & _). by vm_compute. }
  assert (Hroot : 0 < root < 2 ^ 64) by (unfold INF in Hroot'; lia).
  destruct (dm_Insert_ok d1 _ SUPER_XID (UUIDToRaw root) m Hd1 dm_writer_super) as (d2 & boot & Hins2 & Hfresh2 & Hboot & Hd2 & Hroom2); [|done|].
  { rewrite zlen_uid. by vm_compute. }
  assert (Hne : boot ≠ root) by (intros ->; by rewrite lookup_insert_eq in Hfresh2). rewrite lookup_insert_ne in Hfresh2 by done.
  exists d2, boot. split; [|split; [|split; [exact Hboot|split; [|done]]]].
  - unfold Create. by rewrite Hraw, M_lift_bind, (M_bind_run _ _ _ _ _ Hins), (M_bind_run _ _ _ _ _ Hins2).
  - unfold Load. rewrite M_get_bind, (dm_Read_ok d2 _ boot _ Hd2 (lookup_insert_eq _ _ _)). by run_M.
  - exists [], [(root, [])]. split; [|split; [split; [done|constructor|constructor|]|constructor|by eexists _, _|cbn; lia]].
    + eexists. split; [exact Hd2|]. cbn. split; cbn.
      * apply base_keep; [done|]. by apply base_keep.
      * apply NoDup_cons. split; [|apply NoDup_singleton]. by intros [->|?%elem_of_nil]%elem_of_cons.
      * by repeat (apply Forall_cons; split).
      * apply lookup_insert_eq.
      * apply Forall_cons. split; [|done]. split; [done|]. exists raw. cbn. by rewrite lookup_insert_ne, lookup_insert_eq.
    + apply Forall_cons. split; [cbn; lia|done].
Qed.

(** C21: The B+ tree is a sorted map.  A tree created in any data manager that
    keeps its contract, and loaded, takes any list of entries with different
    keys below [INF], in any order, as long as the manager has room for two
    items per entry: no call fails, the searches end, and [SearchRange] then
    returns the UUIDs of exactly the entries whose keys are in the range, in
    the order of the keys; the items of others are as they were. *)
Theorem tree_is_sorted_map (d : D) items kvs fuel :
  dm_rep d items → dm_room d (2 * length kvs + 2) → NoDup kvs.*1 → Forall (λ e : ent, key_ok e.1 ∧ is_uid e.2) kvs →
  (2 * length kvs + 5 ≤ fuel)%nat →
  ∃ d' boot, (boot ← Create; bt ← Load boot; _ ← Inserts fuel bt kvs; mret bt) d = (d', Ret boot) ∧
    (∃ items', dm_rep d' items' ∧ items ⊆ items') ∧
    ∀ l r, key_ok l → ∃ found, SearchRange fuel boot l r d' = (d', Ret found.*2) ∧ found ≡ₚ filter (in_range l r) kvs ∧ StronglySorted key_lt found.
Proof.
  intros Hd Hroom Hnd Hall Hf. destruct (tree_Create_run d items (2 * length kvs) Hd) as (d1 & boot & Hc & Hl & _ & Hrep & Hroom1).
  { by replace (S (S (2 * length kvs))) with (2 * length kvs + 2)%nat by lia. }
  destruct (Inserts_run items boot kvs d1 [] fuel 0 Hrep Hall) as (d' & A & Hrun & Hrep' & Hp & _).
  { by rewrite app_nil_r. } { cbn [length]. lia. } { eexists. split; [|done]. lia. }
  rewrite app_nil_r in Hp. exists d', boot. split; [|split].
  - by rewrite (M_bind_run _ _ _ _ _ Hc), (M_bind_run _ _ _ _ _ Hl), (M_bind_run _ _ _ _ _ Hrun).
  - destruct Hrep' as (? & ? & (items' & ? & Hlaid) & _). exists items'. split; [done|]. exact (laid_base _ _ _ _ _ Hlaid).
  - intros l r Hlk. exists (filter (in_range l r) A). split; [|split; [by rewrite Hp|]].
    + eapply SearchRange_run; [done|done|]. rewrite Hp. lia.
    + destruct Hrep' as (? & ? & _ & Hsh). pose proof (leaves_sorted _ _ (shape_leaves _ _ _ Hsh)) as Hs. clear -Hs.
      induction Hs as [|e A Hs IH He]; [constructor|]. destruct (decide (in_range l r e)).
      * rewrite filter_cons_True by done. constructor; [done|]. apply Forall_forall. intros x [_ Hx]%list_elem_of_filter. by apply (proj1 (Forall_forall _ _) He).
      * by rewrite filter_cons_False.
Qed.

(** C22: Entries with one key get lost.  64 entries with the same key are
    inserted without an error, and a search for the key returns 32 of them, the
    ones inserted first: the separator of the leaves is the key itself, and
    [SearchNext] starts right of it. *)
Theorem duplicate_keys_lost (d : D) items key us fuel :
  dm_rep d items → dm_room d 4 → key_ok key → Forall is_uid us → length us = 64%nat → (3 ≤ fuel)%nat →
  ∃ d' boot, (boot ← Create; bt ← Load boot; _ ← Inserts fuel bt (same_key key us); mret bt) d = (d', Ret boot) ∧
    Search fuel boot key d' = (d', Ret (reverse (take 32 us))).
Proof.
  intros Hd Hroom Hk Hus Hl Hf. destruct (tree_Create_run d items 2 Hd Hroom) as (d1 & boot & Hc & Hload & _ & (inner & leaves & Hst & Hsh) & Hroom1).
  assert (Hempty : ∃ u, inner = [] ∧ leaves = [(u, [])]).
  { pose proof (shape_indexed _ _ _ Hsh) as Hi. pose proof (leaves_flat _ _ (shape_leaves _ _ _ Hsh)) as Hfl. pose proof (shape_size _ _ _ Hsh) as Hsz.
    destruct inner as [|p inner]; [|destruct (Hi 0) as (? & _ & ? & ? & ? & -> & _); [done|]; rewrite length_app in Hsz; cbn in Hsz; lia].
    destruct Hi as (u & es & ->). rewrite flat_cons in Hfl. apply app_nil in Hfl as [-> _]. by exists u. }
  destruct Hempty as (u & -> & ->). destruct (exists_last (l := us)) as (us1 & v & ->); [by intros ->|]. rewrite length_app in Hl. cbn in Hl.
  apply Forall_app in Hus as [Hus Hv]. apply Forall_cons in Hv as [Hv _]. assert (Hkey : is_uid key) by (unfold key_ok, INF in Hk; unfold is_uid; lia).
  destruct (Inserts_same items boot us1 d1 u [] key fuel 0 Hst ltac:(cbn; lia) Hkey Hus ltac:(lia) Hroom1) as (d2 & Hrun & Hst2 & Hroom2). rewrite app_nil_r in Hst2.
  assert (Hlen : length (same_key key (reverse us1)) = 63%nat) by (unfold same_key; rewrite length_fmap, length_reverse; lia).
  destruct (Insert_root_leaf items boot d2 u _ key v fuel 0 Hst2 ltac:(lia) Hkey Hv ltac:(lia) Hroom2) as (d' & Hrun' & Hcase). rewrite inserted_same in Hcase.
  assert (Hlen' : length (same_key key (v :: reverse us1)) = 64%nat) by (cbn [same_key fmap list_fmap length]; unfold same_key in Hlen; by rewrite Hlen).
  destruct Hcase as [(Hne & _)|(root & new & e & _ & He & _ & Hst' & _)]; [done|]. exists d', boot. split.
  - rewrite (M_bind_run _ _ _ _ _ Hc), (M_bind_run _ _ _ _ _ Hload). rewrite (M_bind_run _ _ d1 d' tt); [done|].
    unfold same_key at 1. rewrite fmap_app. cbn [fmap list_fmap]. eapply Inserts_app; [exact Hrun|]. cbn [Inserts]. by rewrite (M_bind_run _ _ _ _ _ Hrun').
  - assert (He1 : e.1 = key) by (apply list_elem_of_lookup_2, list_elem_of_fmap in He as (w & -> & _); done). rewrite He1 in Hst'.
    unfold same_key in Hst'. rewrite <- fmap_take, <- fmap_drop in Hst'. rewrite (Search_same items boot d' root u new key _ _ fuel Hst' Hk Hf). do 2 f_equal.
    rewrite <- reverse_snoc. change (drop 32 (reverse (us1 ++ [v])) = reverse (take 32 (us1 ++ [v]))). symmetry. rewrite <- (take_drop 32 (us1 ++ [v])) at 2.
    rewrite reverse_app. rewrite drop_app_length'; [done|]. rewrite length_reverse, length_drop, length_app. cbn. lia.
Qed.

(** The tree never has a third level: what [insert] returns for an inner
    node is no new node, whatever happened below and even if the node itself
    was split, so that [Insert] only ever replaces a root that is a leaf. *)
Lemma inner_split_not_reported fuel (d d1 d' : D) nodeUUID raw uuid key r :
  loadNode nodeUUID d = (d1, Ret raw) → getRawIsLeaf raw = Ret false → insert fuel nodeUUID uuid key d = (d', Ret r) → r = (NilUUID, NilUUID).
Proof.
  destruct fuel as [|fuel]; [done|]. intros Hload Hg. cbn [insert]. rewrite (M_bind_run _ _ _ _ _ Hload), Hg, M_lift_bind.
  unfold mbind, M_bind. destruct (searchNext _ _ _ _) as [d2 [next|e| |]]; try discriminate.
  destruct (insert _ _ _ _ _) as [d3 [[s k]|e| |]]; try discriminate. destruct (decide (s ≠ NilUUID)); [|by intros [= _ <-]].
  destruct (insertAndSplit _ _ _ _ _) as [d4 [?|e| |]]; try discriminate. by intros [= _ <-].
Qed.
End Whole.

(** * On concrete inputs *)

Definition sample_kvs : list ent := [(5, 50); (3, 30); (9, 90)].

Lemma tree_is_sorted_map_witness : ∃ (d' : memDM) boot,
  (boot ← Create; bt ← Load boot; _ ← Inserts 20 bt sample_kvs; mret bt) (mkMem ∅ 1) = (d', Ret boot) ∧
  (∃ items', dm_rep d' items' ∧ (∅ : gmap UUID (list byte)) ⊆ items') ∧
  ∀ l r, key_ok l → ∃ found, SearchRange 20 boot l r d' = (d', Ret found.*2) ∧ found ≡ₚ filter (in_range l r) sample_kvs ∧ StronglySorted key_lt found.
Proof.
  apply (tree_is_sorted_map (mkMem ∅ 1) ∅ sample_kvs 20); [by split_and!|by vm_compute|by apply (bool_decide_unpack _)| |cbn; lia].
  unfold sample_kvs, key_ok, is_uid, INF. repeat (apply Forall_cons; split; [cbn; lia|]). constructor.
Defined.

Lemma duplicate_keys_lost_witness : ∃ (d' : memDM) boot,
  (boot ← Create; bt ← Load boot; _ ← Inserts 3 bt (same_key 7 (Z.of_nat <$> seq 1 64)); mret bt) (mkMem ∅ 1) = (d', Ret boot) ∧
  Search 3 boot 7 d' = (d', Ret (reverse (take 32 (Z.of_nat <$> seq 1 64)))).
Proof.
  apply (duplicate_keys_lost (mkMem ∅ 1) ∅ 7 (Z.of_nat <$> seq 1 64) 3); [by split_and!|by vm_compute|done| |done|lia].
  apply Forall_fmap, Forall_seq. intros j Hj. unfold is_uid. cbn. lia.
Defined.
