(* ===== verification/Sm.v ===== *)
(** Package [sm]: entries, transactions, the visibility rules and the
    serializability manager ([entry.go], [transaction.go], [visibility.go],
    [serializability_manager.go]).

    The manager runs its methods under a mutex but gives it up in three places:
    [Delete] while it waits for a row, [Commit] and [abort] once the
    transaction is out of the cache.  Each piece between two such points is one
    definition here; a method run alone is their composition, and [sm_step]
    interleaves the pieces of different transactions. *)
From S2P Require Import Prelude.
From S2P Require Import Codec.
From S2P Require Import GoFile.
From S2P Require Import Tm.
From S2P Require Import LockTable.
From S2P Require Import DmI.
From stdpp Require Import relations.
Local Open Scope Z_scope.

(** * entry.go *)

Definition _ENTRY_OF_XMIN : Z := 0.
Definition _ENTRY_OF_XMAX : Z := _ENTRY_OF_XMIN + LEN_XID.
Definition _ENTRY_DATA : Z := _ENTRY_OF_XMAX + LEN_XID.

(** An entry is its data item; the item's bytes are shared with the page. *)
Definition entry := list byte.

Definition WrapEntryRaw (xid : XID) (data : list byte) : list byte :=
  let raw := make_bytes (_ENTRY_DATA + zlen data) in
  let raw := on_tail raw _ENTRY_OF_XMIN (λ buf, PutXID buf xid) in
  copy_at raw _ENTRY_DATA data.

(** [make([]byte, n)] panics for a negative [n]. *)
Definition entry_Data (e : entry) : outcome (list byte) :=
  if decide (zlen e - _ENTRY_DATA < 0) then Panic
  else
    let data := make_bytes (zlen e - _ENTRY_DATA) in
    src ← slice_from e _ENTRY_DATA;
    Ret (copy_at data 0 src).

Definition XMIN (e : entry) : outcome XID :=
  raw ← slice e _ENTRY_OF_XMIN _ENTRY_OF_XMAX; ParseXID raw.

Definition XMAX (e : entry) : outcome XID :=
  raw ← slice_from e _ENTRY_OF_XMAX; ParseXID raw.

(** The bytes [SetXMAX] leaves in the item. *)
Definition SetXMAX (e : entry) (xid : XID) : outcome entry :=
  _ ← slice_from e _ENTRY_OF_XMAX;
  Ret (on_tail e _ENTRY_OF_XMAX (λ buf, PutXID buf xid)).

(** * transaction.go *)

Record transaction := mkT {
  t_XID : XID;
  t_Level : Z;
  t_snapshot : option (gset XID);
  t_Err : option goerror;
  t_AutoAbortted : bool
}.

Definition newTransaction (xid : XID) (level : Z) (active : gset XID) : transaction :=
  mkT xid level (if decide (level ≠ 0) then Some active else None) None false.

Definition InSnapShot (t : transaction) (xid : XID) : bool :=
  if decide (xid = SUPER_XID) then false
  else match t_snapshot t with Some s => bool_decide (xid ∈ s) | None => false end.

Definition set_Err (e : goerror) (t : transaction) : transaction :=
  mkT (t_XID t) (t_Level t) (t_snapshot t) (Some e) (t_AutoAbortted t).
Definition set_AutoAbortted (t : transaction) : transaction :=
  mkT (t_XID t) (t_Level t) (t_snapshot t) (t_Err t) true.

(** * visibility.go *)

Section Visibility.
Context {T : Type} `{!TransactionManager T}.

Definition IsVersionSkip (tm : T) (t : transaction) (e : entry) : outcome bool :=
  xmax ← XMAX e;
  if decide (t_Level t = 0) then Ret false
  else Ret (tm_IsCommitted tm xmax && (bool_decide (t_XID t < xmax) || InSnapShot t xmax)).

Definition readCommitted (tm : T) (t : transaction) (e : entry) : outcome bool :=
  let xid := t_XID t in
  xmin ← XMIN e;
  xmax ← XMAX e;
  Ret (if bool_decide (xmin = xid) && bool_decide (xmax = 0) then true
       else if tm_IsCommitted tm xmin then
         if bool_decide (xmax = 0) then true
         else if bool_decide (xmax ≠ xid) then negb (tm_IsCommitted tm xmax)
         else false
       else false).

Definition repeatableRead (tm : T) (t : transaction) (e : entry) : outcome bool :=
  let xid := t_XID t in
  xmin ← XMIN e;
  xmax ← XMAX e;
  Ret (if bool_decide (xmin = xid) && bool_decide (xmax = 0) then true
       else if tm_IsCommitted tm xmin && bool_decide (xmin < xid) && negb (InSnapShot t xmin) then
         if bool_decide (xmax = 0) then true
         else if bool_decide (xmax ≠ xid) then
           negb (tm_IsCommitted tm xmax) || bool_decide (xid < xmax) || InSnapShot t xmax
         else false
       else false).

Definition IsVisible (tm : T) (t : transaction) (e : entry) : outcome bool :=
  if decide (t_Level t = 0) then readCommitted tm t e else repeatableRead tm t e.
End Visibility.

(** * serializability_manager.go *)

Section Manager.
Context {T : Type} `{!TransactionManager T} {D : Type} `{!DataManager D}.

(** [sm_txs] holds the transaction objects (a goroutine keeps its pointer after
    the object left the cache); [sm_tc] is the set of keys of the map [tc]. *)
Record serializabilityManager := mkSM {
  sm_TM : T;
  sm_DM : D;
  sm_txs : gmap XID transaction;
  sm_tc : gset XID;
  sm_lt : lockTable
}.

Definition set_TM x s := mkSM x (sm_DM s) (sm_txs s) (sm_tc s) (sm_lt s).
Definition set_DM x s := mkSM (sm_TM s) x (sm_txs s) (sm_tc s) (sm_lt s).
Definition set_txs x s := mkSM (sm_TM s) (sm_DM s) x (sm_tc s) (sm_lt s).
Definition set_tc x s := mkSM (sm_TM s) (sm_DM s) (sm_txs s) x (sm_lt s).
Definition set_lt x s := mkSM (sm_TM s) (sm_DM s) (sm_txs s) (sm_tc s) x.

Definition on_TM {A} : M T A → M serializabilityManager A := zoom sm_TM set_TM.
Definition on_DM {A} : M D A → M serializabilityManager A := zoom sm_DM set_DM.
Definition on_lt {A} : M lockTable A → M serializabilityManager A := zoom sm_lt set_lt.

Definition NewSerializabilityManager (tm0 : T) (dm0 : D) : serializabilityManager :=
  mkSM tm0 dm0 {[SUPER_XID := newTransaction SUPER_XID 0 ∅]} {[SUPER_XID]} NewLockTable.

(** [t := sm.tc[xid]] for code that goes on to dereference [t]: a transaction
    that is not in the cache is a nil pointer. *)
Definition cached (xid : XID) : M serializabilityManager transaction := λ s,
  if decide (xid ∈ sm_tc s) then
    match sm_txs s !! xid with Some t => (s, Ret t) | None => (s, Panic) end
  else (s, Panic).

(** [t], kept by the goroutine across a release of the lock. *)
Definition object (xid : XID) : M serializabilityManager transaction := λ s,
  match sm_txs s !! xid with Some t => (s, Ret t) | None => (s, Panic) end.

Definition update_object (xid : XID) (f : transaction → transaction) : M serializabilityManager unit :=
  modify (λ s, set_txs (alter f xid (sm_txs s)) s).

(** [sm.ec.Get(uuid)], through [getForCacher] and [LoadEntry]. *)
Definition getEntry (uuid : UUID) : M serializabilityManager entry := λ s,
  match dm_Read (sm_DM s) uuid with
  | Ret (Some e) => (s, Ret e)
  | Ret None => (s, Err ErrNilEntry)
  | Err e => (s, Err e)
  | Panic => (s, Panic)
  | OutOfFuel => (s, OutOfFuel)
  end.

Definition sm_Read (xid : XID) (uuid : UUID) : M serializabilityManager (option (list byte)) :=
  t ← cached xid;
  match t_Err t with
  | Some err => fail err
  | None =>
      e ← getEntry uuid;
      s ← get;
      visible ← lift (IsVisible (sm_TM s) t e);
      if (visible : bool) then data ← lift (entry_Data e); mret (Some data) else mret None
  end.

Definition sm_Insert (xid : XID) (data : list byte) : M serializabilityManager UUID :=
  t ← cached xid;
  match t_Err t with
  | Some err => fail err
  | None => let raw := WrapEntryRaw xid data in on_DM (dm_Insert xid raw)
  end.

Definition sm_Begin (level : Z) : M serializabilityManager XID :=
  xid ← on_TM tm_Begin;
  s ← get;
  let t := newTransaction xid level (sm_tc s) in
  _ ← modify (λ s, set_tc ({[xid]} ∪ sm_tc s) (set_txs (<[xid := t]> (sm_txs s)) s));
  mret xid.

(** ** Commit *)

(** Under the lock; [false]: nothing left to do. *)
Definition Commit_unregister (xid : XID) : M serializabilityManager bool :=
  s ← get;
  if decide (xid ∈ sm_tc s) then
    t ← object xid;
    match t_Err t with
    | Some err => fail err
    | None => _ ← modify (λ s, set_tc (sm_tc s ∖ {[xid]}) s); mret true
    end
  else mret false.

Definition Commit_unlock (xid : XID) : M serializabilityManager unit := on_lt (LockTable.Remove xid).
Definition Commit_record (xid : XID) : M serializabilityManager unit := on_TM (tm_Commit xid).

Definition sm_Commit (xid : XID) : M serializabilityManager unit :=
  go ← Commit_unregister xid;
  if (go : bool) then _ ← Commit_unlock xid; Commit_record xid else mret tt.

(** ** abort *)

(** Under the lock, then the test of [AutoAbortted]; [false]: return nil. *)
Definition abort_unregister (xid : XID) (auto : bool) : M serializabilityManager bool :=
  t ← cached xid;
  _ ← (if auto then mret tt else modify (λ s, set_tc (sm_tc s ∖ {[xid]}) s));
  mret (negb (t_AutoAbortted t)).

Definition abort_unlock (xid : XID) : M serializabilityManager unit := on_lt (LockTable.Remove xid).
Definition abort_record (xid : XID) : M serializabilityManager unit := on_TM (tm_Abort xid).

Definition abort (xid : XID) (auto : bool) : M serializabilityManager unit :=
  go ← abort_unregister xid auto;
  if (go : bool) then _ ← abort_unlock xid; abort_record xid else mret tt.

Definition sm_Abort (xid : XID) : M serializabilityManager unit := abort xid false.

(** ** Delete *)

Inductive delete_result :=
| DeleteDone (ok : bool)     (* return ok, nil *)
| DeleteWait (ch : chan)     (* block on the channel, then [Delete_locked] *)
| DeleteConflict.            (* t.Err is set: abort automatically *)

(** Up to the release of the lock before [<-ch]. *)
Definition Delete_request (order : list XID) (xid : XID) (uuid : UUID) : M serializabilityManager delete_result :=
  t ← cached xid;
  match t_Err t with
  | Some err => fail err
  | None =>
      e ← getEntry uuid;
      s ← get;
      visible ← lift (IsVisible (sm_TM s) t e);
      if negb visible then mret (DeleteDone false)
      else
        '(ok, ch) ← on_lt (LockTable.Add order xid uuid);
        match ok : bool, ch with
        | true, Some ch => mret (DeleteWait ch)
        | _, _ => _ ← update_object xid (set_Err ErrCannotSR); mret DeleteConflict
        end
  end.

(** After the channel delivered.  The handle [e] pins the item, so reading it
    again reads the bytes it has now. *)
Definition Delete_locked (xid : XID) (uuid : UUID) : M serializabilityManager delete_result :=
  t ← object xid;
  match t_Err t with
  | Some err => fail err
  | None =>
      e ← getEntry uuid;
      xmax ← lift (XMAX e);
      if decide (xmax = xid) then mret (DeleteDone false)
      else
        s ← get;
        skip ← lift (IsVersionSkip (sm_TM s) t e);
        if (skip : bool) then
          _ ← update_object xid (set_Err ErrCannotSR); mret DeleteConflict
        else
          e' ← lift (SetXMAX e xid);
          _ ← on_DM (dm_Write xid uuid e');
          mret (DeleteDone true)
  end.

(** [sm.abort(xid, true); t.AutoAbortted = true; return false, t.Err] *)
Definition auto_abort {A} (xid : XID) : M serializabilityManager A :=
  _ ← catch (abort xid true) mret (λ _, mret tt);
  _ ← update_object xid set_AutoAbortted;
  fail ErrCannotSR.

(** [<-ch] when nobody else runs: blocks for good on an empty channel. *)
Definition receive (ch : chan) : M serializabilityManager unit := λ s,
  if decide (chans (sm_lt s) !! ch = Some true) then (s, Ret tt) else (s, OutOfFuel).

Definition sm_Delete (order : list XID) (xid : XID) (uuid : UUID) : M serializabilityManager bool :=
  r ← Delete_request order xid uuid;
  match r with
  | DeleteDone ok => mret ok
  | DeleteConflict => auto_abort xid
  | DeleteWait ch =>
      _ ← receive ch;
      r ← Delete_locked xid uuid;
      match r with
      | DeleteDone ok => mret ok
      | _ => auto_abort xid
      end
  end.
End Manager.
Arguments serializabilityManager T D : clear implicits.

(** * Interleavings *)

Section World.
Context {T : Type} `{!TransactionManager T} {D : Type} `{!DataManager D}.

(** What a transaction's goroutine has left to do in an unfinished call. *)
Inductive activity :=
| DeleteBlocked (uuid : UUID) (ch : chan)
| CommitUnlock
| CommitRecord
| AbortUnlock (auto : bool)
| AbortRecord (auto : bool)
| AbortMark.

(** What calls returned. *)
Inductive event :=
| EvBegin (xid : XID)
| EvInsert (xid : XID) (uuid : UUID)
| EvRead (xid : XID) (uuid : UUID) (data : option (list byte))
| EvDelete (xid : XID) (uuid : UUID) (ok : bool)
| EvCommit (xid : XID)
| EvAbort (xid : XID)
| EvError (xid : XID) (e : goerror).

Record world := mkW {
  w_sm : serializabilityManager T D;
  w_act : gmap XID activity;
  w_log : list event
}.

(** A client call, or the next piece of an unfinished one. *)
Inductive action :=
| ABegin (level : Z)
| AInsert (xid : XID) (data : list byte)
| ARead (xid : XID) (uuid : UUID)
| ADelete (order : list XID) (xid : XID) (uuid : UUID)
| ACommit (xid : XID)
| AAbort (xid : XID)
| AResume (xid : XID).

Definition busy (xid : XID) (a : activity) (w : world) : world := mkW (w_sm w) (<[xid := a]> (w_act w)) (w_log w).
Definition finish (xid : XID) (e : event) (w : world) : world := mkW (w_sm w) (delete xid (w_act w)) (w_log w ++ [e]).

(** Run a piece; an error ends the call, a panic ends the process. *)
Definition piece {A} (xid : XID) (m : M (serializabilityManager T D) A) (k : A → world → world) (w : world)
    : option world :=
  match m (w_sm w) with
  | (s, Ret a) => Some (k a (mkW s (w_act w) (w_log w)))
  | (s, Err e) => Some (finish xid (EvError xid e) (mkW s (w_act w) (w_log w)))
  | _ => None
  end.

Definition after_delete (xid : XID) (uuid : UUID) (r : delete_result) : world → world :=
  match r with
  | DeleteDone ok => finish xid (EvDelete xid uuid ok)
  | DeleteWait ch => busy xid (DeleteBlocked uuid ch)
  | DeleteConflict => λ w,
      (* [abort(xid, true)] up to its first release of the lock *)
      match abort_unregister xid true (w_sm w) with
      | (_, Ret true) => busy xid (AbortUnlock true) w
      | _ => busy xid AbortMark w
      end
  end.

Definition resume (xid : XID) (w : world) : option world :=
  match w_act w !! xid with
  | None => None
  | Some (DeleteBlocked uuid ch) =>
      if decide (chans (sm_lt (w_sm w)) !! ch = Some true) then
        piece xid (Delete_locked xid uuid) (after_delete xid uuid) w
      else None
  | Some CommitUnlock => piece xid (Commit_unlock xid) (λ _, busy xid CommitRecord) w
  | Some CommitRecord => piece xid (Commit_record xid) (λ _, finish xid (EvCommit xid)) w
  | Some (AbortUnlock auto) => piece xid (abort_unlock xid) (λ _, busy xid (AbortRecord auto)) w
  | Some (AbortRecord auto) =>
      piece xid (abort_record xid)
        (λ _, if auto : bool then busy xid AbortMark else finish xid (EvAbort xid)) w
  | Some AbortMark =>
      piece xid (update_object xid set_AutoAbortted) (λ _, finish xid (EvError xid ErrCannotSR)) w
  end.

(** One step; a transaction with an unfinished call can only be resumed. *)
Definition act (a : action) (w : world) : option world :=
  let idle_then xid (o : option world) := if decide (w_act w !! xid = None) then o else None in
  match a with
  | ABegin level =>
      match sm_Begin level (w_sm w) with
      | (s, Ret xid) => Some (finish xid (EvBegin xid) (mkW s (w_act w) (w_log w)))
      | (s, Err e) => Some (mkW s (w_act w) (w_log w ++ [EvError 0 e]))
      | _ => None
      end
  | AInsert xid data => idle_then xid (piece xid (sm_Insert xid data) (λ uuid, finish xid (EvInsert xid uuid)) w)
  | ARead xid uuid => idle_then xid (piece xid (sm_Read xid uuid) (λ r, finish xid (EvRead xid uuid r)) w)
  | ADelete order xid uuid =>
      idle_then xid (piece xid (Delete_request order xid uuid) (after_delete xid uuid) w)
  | ACommit xid =>
      idle_then xid (piece xid (Commit_unregister xid)
        (λ go, if go : bool then busy xid CommitUnlock else finish xid (EvCommit xid)) w)
  | AAbort xid =>
      idle_then xid (piece xid (abort_unregister xid false)
        (λ go, if go : bool then busy xid (AbortUnlock false) else finish xid (EvAbort xid)) w)
  | AResume xid => resume xid w
  end.

Fixpoint acts (l : list action) (w : world) : option world :=
  match l with
  | [] => Some w
  | a :: l' => w' ← act a w; acts l' w'
  end.

Definition sm_step : relation world := λ w w', ∃ a, act a w = Some w'.

Lemma acts_steps l w w' : acts l w = Some w' → rtc sm_step w w'.
Proof.
  revert w. induction l as [|a l IH]; intros w; cbn.
  - by intros [= ->].
  - intros (w1 & Ha & Hl)%bind_Some. eapply rtc_l; [by exists a|by apply IH].
Qed.
End World.
Arguments world T D : clear implicits.

(** The manager over the real transaction manager and the in-memory items,
    for concrete runs. *)
Definition boot : option (world transactionManager memDM) :=
  match Create (Ret (file_of [])) with
  | Ret tm => Some (mkW (NewSerializabilityManager tm (mkMem ∅ 1)) ∅ [])
  | _ => None
  end.

Definition scenario (l : list action) : option (world transactionManager memDM) := w ← boot; acts l w.
Definition events (l : list action) : list event := default [] (w_log <$> scenario l).

(** * Entries by their parts *)

Definition mk_entry (xmin xmax : XID) (data : list byte) : entry :=
  Uint64ToRaw xmin ++ Uint64ToRaw xmax ++ data.

Definition is_u64 (z : Z) : Prop := 0 ≤ z < 2 ^ 64.

Lemma zlen_mk_entry xmin xmax data : zlen (mk_entry xmin xmax data) = 16 + zlen data.
Proof. unfold mk_entry, Uint64ToRaw, zlen. rewrite !length_app, !length_be_bytes. lia. Qed.
#[export] Hint Rewrite zlen_mk_entry : zlen.

Lemma sub_mk_entry_xmin xmin xmax data : sub (mk_entry xmin xmax data) 0 8 = Uint64ToRaw xmin.
Proof.
  unfold mk_entry. rewrite sub_app_l by (unfold Uint64ToRaw; zlen_lia).
  rewrite <- (sub_all (Uint64ToRaw xmin)) at 2. done.
Qed.

Lemma drop_mk_entry_8 xmin xmax data : drop 8 (mk_entry xmin xmax data) = Uint64ToRaw xmax ++ data.
Proof. unfold mk_entry. by rewrite (drop_app_length' (Uint64ToRaw _)). Qed.

Lemma drop_mk_entry_16 xmin xmax data : drop 16 (mk_entry xmin xmax data) = data.
Proof. change 16%nat with (8 + 8)%nat. rewrite <- drop_drop, drop_mk_entry_8. by rewrite (drop_app_length' (Uint64ToRaw _)). Qed.

Lemma take_mk_entry_8 xmin xmax data : take 8 (mk_entry xmin xmax data) = Uint64ToRaw xmin.
Proof. unfold mk_entry. by rewrite (take_app_length' (Uint64ToRaw _)). Qed.

Lemma XMIN_mk_entry xmin xmax data : is_u64 xmin → XMIN (mk_entry xmin xmax data) = Ret xmin.
Proof.
  intros H. unfold XMIN, _ENTRY_OF_XMAX, _ENTRY_OF_XMIN, LEN_XID, LEN_UUID.
  pose proof (zlen_nonneg data). rewrite slice_Ret by (rewrite ?zlen_mk_entry; lia).
  cbn [mbind outcome_bind]. change (0 + 8 - 0) with 8. rewrite sub_mk_entry_xmin.
  by apply get_be_exact.
Qed.

Lemma XMAX_mk_entry xmin xmax data : is_u64 xmax → XMAX (mk_entry xmin xmax data) = Ret xmax.
Proof.
  intros H. unfold XMAX, _ENTRY_OF_XMAX, _ENTRY_OF_XMIN, LEN_XID, LEN_UUID.
  pose proof (zlen_nonneg data). rewrite slice_from_Ret by (rewrite ?zlen_mk_entry; lia).
  cbn [mbind outcome_bind]. change (Z.to_nat (0 + 8)) with 8%nat. rewrite drop_mk_entry_8.
  by apply get_be_app.
Qed.

Lemma entry_Data_mk_entry xmin xmax data : entry_Data (mk_entry xmin xmax data) = Ret data.
Proof.
  unfold entry_Data, _ENTRY_DATA, _ENTRY_OF_XMAX, _ENTRY_OF_XMIN, LEN_XID, LEN_UUID.
  pose proof (zlen_nonneg data). rewrite zlen_mk_entry. rewrite decide_False by lia. cbv zeta.
  rewrite slice_from_Ret by (rewrite zlen_mk_entry; lia). cbn [mbind outcome_bind].
  change (Z.to_nat (0 + 8 + 8)) with 16%nat. rewrite drop_mk_entry_16. f_equal.
  replace (16 + zlen data - (0 + 8 + 8)) with (zlen data) by lia.
  rewrite copy_at_in_bounds by (rewrite ?zlen_make_bytes; lia). cbn [Z.to_nat take app].
  rewrite drop_ge; [apply app_nil_r|]. pose proof (zlen_make_bytes (zlen data)). unfold zlen in *. lia.
Qed.

Lemma SetXMAX_mk_entry xmin xmax data xid :
  SetXMAX (mk_entry xmin xmax data) xid = Ret (mk_entry xmin xid data).
Proof.
  unfold SetXMAX, _ENTRY_OF_XMAX, _ENTRY_OF_XMIN, LEN_XID, LEN_UUID. change (0 + 8) with 8.
  pose proof (zlen_nonneg data). rewrite slice_from_Ret by (rewrite zlen_mk_entry; lia).
  cbn [mbind outcome_bind]. f_equal. unfold PutXID, PutUUID, PutUint64.
  rewrite on_tail_put_be by (rewrite ?zlen_mk_entry; cbn; lia).
  rewrite copy_at_in_bounds by (rewrite ?zlen_mk_entry, ?zlen_be_bytes; cbn; lia).
  rewrite zlen_be_bytes. change (Z.to_nat 8) with 8%nat. rewrite take_mk_entry_8.
  change (Z.to_nat (8 + Z.of_nat 8)) with 16%nat. by rewrite drop_mk_entry_16.
Qed.

Lemma WrapEntryRaw_mk_entry xid data : WrapEntryRaw xid data = mk_entry xid 0 data.
Proof.
  unfold WrapEntryRaw, _ENTRY_DATA, _ENTRY_OF_XMAX, _ENTRY_OF_XMIN, LEN_XID, LEN_UUID. cbv zeta.
  change (0 + 8 + 8) with 16. pose proof (zlen_nonneg data) as Hd.
  unfold PutXID, PutUUID, PutUint64. set (raw := make_bytes _).
  assert (Hraw : zlen raw = 16 + zlen data) by (apply zlen_make_bytes; lia).
  rewrite on_tail_put_be by (rewrite ?Hraw; cbn; lia).
  rewrite (copy_at_in_bounds raw) by (rewrite ?Hraw, ?zlen_be_bytes; cbn; lia).
  rewrite zlen_be_bytes. cbn [Z.to_nat take app]. change (Z.to_nat (0 + Z.of_nat 8)) with 8%nat.
  assert (Hd8 : drop 8 raw = Uint64ToRaw 0 ++ make_bytes (zlen data)).
  { unfold raw, make_bytes. rewrite Z2Nat.inj_add by lia. rewrite replicate_add.
    change (Z.to_nat 16) with (8 + 8)%nat. rewrite replicate_add, <- app_assoc.
    rewrite (drop_app_length' (replicate 8 _)) by (by rewrite length_replicate). done. }
  rewrite Hd8. rewrite copy_at_in_bounds by (unfold Uint64ToRaw; zlen_lia).
  change (Z.to_nat 0) with 0%nat. rewrite take_0, app_nil_l. change (Z.to_nat 16) with 16%nat. unfold mk_entry.
  rewrite (app_assoc (be_bytes 8 xid) (Uint64ToRaw 0)).
  rewrite take_app_length' by done. rewrite drop_ge; [by rewrite app_nil_r, <- app_assoc|].
  pose proof (zlen_make_bytes (zlen data)). unfold Uint64ToRaw. rewrite !length_app, !length_be_bytes.
  unfold zlen in *. lia.
Qed.

(** * What a transaction sees *)

Section Views.
Context {T : Type} `{!TransactionManager T} {D : Type} `{!DataManager D}.

(** The effects of transaction [x] belong to the view of [t]. *)
Definition in_view (tm : T) (t : transaction) (x : XID) : bool :=
  tm_IsCommitted tm x &&
  (bool_decide (t_Level t = 0) || (bool_decide (x < t_XID t) && negb (InSnapShot t x))).

(** Created for [t], and not deleted for [t]. *)
Definition alive (tm : T) (t : transaction) (xmin xmax : XID) : bool :=
  (bool_decide (xmin = t_XID t) || in_view tm t xmin) &&
  negb (bool_decide (xmax ≠ 0) && (bool_decide (xmax = t_XID t) || in_view tm t xmax)).

(** Nobody deletes a row whose creator has not committed. *)
Definition own_row (t : transaction) (xmin xmax : XID) : Prop :=
  xmin = t_XID t → xmax = 0 ∨ xmax = t_XID t.

Lemma IsVisible_alive tm t xmin xmax data :
  is_u64 xmin → is_u64 xmax → own_row t xmin xmax →
  IsVisible tm t (mk_entry xmin xmax data) = Ret (alive tm t xmin xmax).
Proof.
  intros Hmin Hmax Hown. unfold IsVisible, readCommitted, repeatableRead, alive, in_view.
  rewrite XMIN_mk_entry, XMAX_mk_entry by done. cbn [mbind outcome_bind].
  assert (Hown' : xmin ≠ t_XID t ∨ xmax = 0 ∨ xmax = t_XID t).
  { destruct (decide (xmin = t_XID t)); [right; by apply Hown|by left]. }
  clear Hown. unfold is_u64 in *. f_equal.
  destruct (decide (t_Level t = 0)) as [Hl|Hl];
    [rewrite (bool_decide_eq_true_2 (t_Level t = 0)) by done
    |rewrite (bool_decide_eq_false_2 (t_Level t = 0)) by done];
    destruct (tm_IsCommitted tm xmin), (tm_IsCommitted tm xmax), (InSnapShot t xmin), (InSnapShot t xmax);
    repeat case_bool_decide; cbn; try reflexivity; exfalso; lia.
Qed.

(** A transaction that may go on working, and a row. *)
Definition working (s : serializabilityManager T D) (xid : XID) (t : transaction) : Prop :=
  xid ∈ sm_tc s ∧ sm_txs s !! xid = Some t ∧ t_XID t = xid ∧ t_Err t = None.

Definition row_at (s : serializabilityManager T D) (uuid : UUID) (xmin xmax : XID) (data : list byte) : Prop :=
  dm_Read (sm_DM s) uuid = Ret (Some (mk_entry xmin xmax data)) ∧ is_u64 xmin ∧ is_u64 xmax.

Lemma cached_working s xid t : working s xid t → cached xid s = (s, Ret t).
Proof. intros (Hc & Hx & _). unfold cached. by rewrite decide_True, Hx. Qed.

Lemma object_working s xid t : working s xid t → object xid s = (s, Ret t).
Proof. intros (_ & Hx & _). unfold object. by rewrite Hx. Qed.

Lemma getEntry_row s uuid xmin xmax data :
  row_at s uuid xmin xmax data → getEntry uuid s = (s, Ret (mk_entry xmin xmax data)).
Proof. intros (Hr & _). unfold getEntry. by rewrite Hr. Qed.

Lemma sm_Read_run s xid t uuid xmin xmax data :
  working s xid t → row_at s uuid xmin xmax data → own_row t xmin xmax →
  sm_Read xid uuid s = (s, Ret (if alive (sm_TM s) t xmin xmax then Some data else None)).
Proof.
  intros Hw Hr Hown. unfold sm_Read. erewrite M_bind_run by by apply cached_working.
  destruct Hw as (_ & _ & _ & ->). erewrite M_bind_run by by apply getEntry_row.
  erewrite M_bind_run by done. destruct Hr as (_ & Hmin & Hmax).
  erewrite M_bind_run by (unfold lift; by rewrite IsVisible_alive).
  destruct (alive _ _ _ _); [|done]. erewrite M_bind_run by (unfold lift; by rewrite entry_Data_mk_entry). done.
Qed.
End Views.

Section Deleting.
Context {T : Type} `{!TransactionManager T} {D : Type} `{!DataManager D}.

(** The test of [IsVersionSkip]. *)
Definition skipped (tm : T) (t : transaction) (xmax : XID) : bool :=
  negb (bool_decide (t_Level t = 0)) && tm_IsCommitted tm xmax &&
  (bool_decide (t_XID t < xmax) || InSnapShot t xmax).

Lemma IsVersionSkip_skipped tm t xmin xmax data :
  is_u64 xmax → IsVersionSkip tm t (mk_entry xmin xmax data) = Ret (skipped tm t xmax).
Proof.
  intros H. unfold IsVersionSkip, skipped. rewrite XMAX_mk_entry by done. cbn [mbind outcome_bind].
  case_decide as Hl;
    [by rewrite (bool_decide_eq_true_2 (t_Level t = 0))|by rewrite (bool_decide_eq_false_2 (t_Level t = 0))].
Qed.

Lemma Delete_locked_run (s : serializabilityManager T D) xid t uuid xmin xmax data :
  working s xid t → row_at s uuid xmin xmax data →
  Delete_locked xid uuid s =
    if decide (xmax = xid) then (s, Ret (DeleteDone false))
    else if skipped (sm_TM s) t xmax then
      (set_txs (alter (set_Err ErrCannotSR) xid (sm_txs s)) s, Ret DeleteConflict)
    else
      let '(d', o) := dm_Write xid uuid (mk_entry xmin xid data) (sm_DM s) in
      (set_DM d' s, (λ _, DeleteDone true) <$> o).
Proof.
  intros Hw Hr. unfold Delete_locked. rewrite (M_bind_run _ _ _ _ _ (object_working _ _ _ Hw)).
  destruct Hw as (_ & _ & _ & ->). rewrite (M_bind_run _ _ _ _ _ (getEntry_row _ _ _ _ _ Hr)).
  destruct Hr as (_ & Hmin & Hmax). rewrite XMAX_mk_entry by done. rewrite M_lift_bind.
  case_decide; [done|]. rewrite M_get_bind, IsVersionSkip_skipped by done. rewrite M_lift_bind.
  destruct (skipped _ _ _); [done|]. rewrite SetXMAX_mk_entry, M_lift_bind.
  unfold on_DM, zoom, mbind, M_bind. by destruct (dm_Write _ _ _ _) as [d' []].
Qed.
End Deleting.

(** * Properties of one call *)

Section Calls.
Context {T : Type} `{!TransactionManager T} {D : Type} `{!DataManager D}.

(** C9: [Read] returns a row exactly when it was created by the reading
    transaction or by one in its view and was not deleted by either; the view
    is the committed transactions at read committed, and those that committed
    before it began (smaller identifier, not in the snapshot) at repeatable
    read.  So no uncommitted data is read and the state is left alone. *)
Theorem Read_by_view (s : serializabilityManager T D) xid t uuid xmin xmax data :
  working s xid t → row_at s uuid xmin xmax data → own_row t xmin xmax →
  ∃ r, sm_Read xid uuid s = (s, Ret r) ∧
    (r = Some data ∨ r = None) ∧
    (r = Some data ↔
      (xmin = xid ∨ in_view (sm_TM s) t xmin = true) ∧
      (xmax = 0 ∨ xmax ≠ xid ∧ in_view (sm_TM s) t xmax = false)).
Proof.
  intros Hw Hr Hown. rewrite (sm_Read_run s xid t uuid xmin xmax data) by done.
  destruct Hw as (_ & _ & <- & _). eexists. split; [done|]. unfold alive.
  split; [by case_match; [left|right]|].
  destruct (in_view _ _ xmin), (in_view _ _ xmax); repeat case_bool_decide; cbn; naive_solver.
Qed.

(** Transactions whose fate was settled when [t] began: smaller identifiers
    that were not active. *)
Definition settled (t : transaction) (x : XID) : Prop := 0 ≤ x < t_XID t ∧ InSnapShot t x = false.

(** What happened to the row between two reads of [t]: nothing, or a
    transaction that is not settled for [t] entered itself as the deleter. *)
Definition concurrent_update (t : transaction) (xmax xmax' : XID) : Prop :=
  xmax' = xmax ∨ (¬ settled t xmax' ∧ xmax' ≠ t_XID t).

(** The row is deleted as [t] sees it. *)
Definition seen_deleted (tm : T) (t : transaction) (xmax : XID) : Prop :=
  xmax ≠ 0 ∧ (xmax = t_XID t ∨ in_view tm t xmax = true).

Lemma in_view_unsettled tm t x : t_Level t ≠ 0 → 0 ≤ x → ¬ settled t x → in_view tm t x = false.
Proof.
  intros Hl Hx Hns. unfold in_view. rewrite (bool_decide_eq_false_2 (t_Level t = 0)) by done.
  case_bool_decide as Hlt; [|by rewrite andb_false_r].
  destruct (InSnapShot t x) eqn:Es; [by rewrite andb_false_r|]. destruct Hns. by split.
Qed.

Lemma in_view_settled tm tm' t x :
  t_Level t ≠ 0 → 0 ≤ x → (∀ x, settled t x → tm_IsCommitted tm' x = tm_IsCommitted tm x) →
  in_view tm' t x = in_view tm t x.
Proof.
  intros Hl Hx Hst. unfold in_view. rewrite !(bool_decide_eq_false_2 (t_Level t = 0)) by done.
  case_bool_decide as Hlt; [|by rewrite !andb_false_r].
  destruct (InSnapShot t x) eqn:Es; [by rewrite !andb_false_r|]. by rewrite Hst.
Qed.

(** C11: A repeatable-read transaction reads a row twice, and in between other
    transactions begin, commit, abort and delete the row, while those settled
    when it began (smaller identifier, not in the snapshot) keep their state
    and neither they nor the reader touch the row, nor does anybody else if the
    reader created it.  It gets the same answer both times, with exactly one exception: the reader saw the row deleted and
    a concurrent transaction then entered itself as the row's deleter (a
    read-committed [Delete] does that, C16).  In that case the first read
    returns nothing and the second one the row again, if the reader sees the
    row's creator. *)
Theorem repeatable_read_stable (s s' : serializabilityManager T D) xid t uuid xmin xmax xmax' data :
  working s xid t → working s' xid t → t_Level t ≠ 0 →
  row_at s uuid xmin xmax data → row_at s' uuid xmin xmax' data →
  own_row t xmin xmax → own_row t xmin xmax' →
  (∀ x, settled t x → tm_IsCommitted (sm_TM s') x = tm_IsCommitted (sm_TM s) x) →
  concurrent_update t xmax xmax' →
  (¬ (xmax' ≠ xmax ∧ seen_deleted (sm_TM s) t xmax) → (sm_Read xid uuid s').2 = (sm_Read xid uuid s).2) ∧
  (xmax' ≠ xmax ∧ seen_deleted (sm_TM s) t xmax →
    (sm_Read xid uuid s).2 = Ret None ∧
    (sm_Read xid uuid s').2 =
      Ret (if bool_decide (xmin = xid) || in_view (sm_TM s) t xmin then Some data else None)).
Proof.
  intros Hw Hw' Hl Hr Hr' Hown Hown' Hst Hup.
  rewrite (sm_Read_run s xid t uuid xmin xmax data), (sm_Read_run s' xid t uuid xmin xmax' data) by done.
  cbn [snd]. destruct Hw as (_ & _ & <- & _).
  destruct Hr as (_ & Hu & Hu1), Hr' as (_ & _ & Hu2). unfold is_u64 in *.
  assert (Hnew : xmax' ≠ xmax → (bool_decide (xmax' = t_XID t) || in_view (sm_TM s) t xmax') = false).
  { destruct Hup as [?|[Hns Hne]]; [done|intros _].
    rewrite (in_view_unsettled _ t xmax') by (done || lia). by rewrite bool_decide_eq_false_2. }
  unfold alive, seen_deleted. rewrite !(in_view_settled (sm_TM s) (sm_TM s') t) by (done || lia).
  destruct (decide (xmax' = xmax)) as [->|Hne]; [split; [done|naive_solver]|].
  rewrite Hnew by done. rewrite andb_false_r. cbn [negb]. rewrite !andb_true_r. split.
  - intros Hno. assert (bool_decide (xmax ≠ 0) && (bool_decide (xmax = t_XID t) || in_view (sm_TM s) t xmax) = false) as ->;
      [|cbn [negb]; by rewrite andb_true_r].
    apply not_true_iff_false. intros [Hz%bool_decide_eq_true E%orb_true_iff]%andb_true_iff.
    rewrite bool_decide_eq_true in E. by destruct Hno.
  - intros [_ [Hz Hs]]. rewrite (bool_decide_eq_true_2 (xmax ≠ 0)) by done.
    assert (bool_decide (xmax = t_XID t) || in_view (sm_TM s) t xmax = true) as ->
      by (apply orb_true_iff; by rewrite bool_decide_eq_true).
    by rewrite andb_false_r.
Qed.

(** C12: Deleting a row once its lock is held.  A row the transaction deleted
    before is left alone; at repeatable read a row that a concurrent
    transaction deleted and committed makes the transaction fail with
    [ErrCannotSR]; otherwise the transaction becomes the row's deleter and
    does not see the row any more. *)
Theorem Delete_locked_behaviour (s : serializabilityManager T D) xid t uuid xmin xmax data d' :
  working s xid t → row_at s uuid xmin xmax data → 0 < xid < 2 ^ 64 →
  dm_Write xid uuid (mk_entry xmin xid data) (sm_DM s) = (d', Ret tt) →
  dm_Read d' uuid = Ret (Some (mk_entry xmin xid data)) →
  if decide (xmax = xid) then Delete_locked xid uuid s = (s, Ret (DeleteDone false))
  else if skipped (sm_TM s) t xmax then
    ∃ s', Delete_locked xid uuid s = (s', Ret DeleteConflict) ∧
      sm_txs s' !! xid = Some (set_Err ErrCannotSR t) ∧ sm_DM s' = sm_DM s ∧
      sm_Read xid uuid s' = (s', Err ErrCannotSR)
  else
    Delete_locked xid uuid s = (set_DM d' s, Ret (DeleteDone true)) ∧
    sm_Read xid uuid (set_DM d' s) = (set_DM d' s, Ret None).
Proof.
  intros Hw Hr Hxid Hwr Hrd. pose proof Hr as (_ & Hmin & Hmax).
  rewrite (Delete_locked_run s xid t uuid xmin xmax data) by done.
  case_decide; [done|]. pose proof Hw as (Hc & Hx & Ht & He). destruct (skipped _ _ _).
  - assert (Hx' : alter (set_Err ErrCannotSR) xid (sm_txs s) !! xid = Some (set_Err ErrCannotSR t))
      by (by rewrite lookup_alter_eq, Hx).
    eexists. split_and!; [done..|]. unfold sm_Read. erewrite M_bind_run; [|unfold cached; cbn [sm_tc sm_txs set_txs];
      by rewrite decide_True, Hx' by done]. done.
  - rewrite Hwr. split; [done|]. rewrite (sm_Read_run (set_DM d' s) xid t uuid xmin xid data).
    + unfold alive. rewrite (bool_decide_eq_true_2 (xid ≠ 0)), (bool_decide_eq_true_2 (xid = t_XID t)) by lia.
      by rewrite andb_false_r.
    + done.
    + split; [done|]. unfold is_u64 in *. lia.
    + intros _. by right.
Qed.

(** A row just inserted is read back by its transaction and by nobody else
    before that transaction commits, at either isolation level.  The insertion
    itself succeeds whenever the row fits a page and the data manager has room. *)
Theorem Insert_then_Read `{!DataManagerOk D} (s : serializabilityManager T D) xid t data items :
  working s xid t → is_u64 xid → dm_writer (D := D) xid → dm_rep (sm_DM s) items → zlen data ≤ 8140 → dm_room (sm_DM s) 1 →
  ∃ s' uuid, sm_Insert xid data s = (s', Ret uuid) ∧
    sm_Read xid uuid s' = (s', Ret (Some data)) ∧
    ∀ xid' t', working s xid' t' → xid' ≠ xid → tm_IsCommitted (sm_TM s) xid = false →
      sm_Read xid' uuid s' = (s', Ret None).
Proof.
  intros Hw Hu Hwr Hrep Hlen Hroom. unfold sm_Insert. rewrite (M_bind_run _ _ _ _ _ (cached_working _ _ _ Hw)).
  pose proof Hw as (Hc & Hx & Ht & ->). rewrite WrapEntryRaw_mk_entry. unfold on_DM, zoom.
  destruct (dm_Insert_ok _ _ xid (mk_entry xid 0 data) 0 Hrep Hwr) as (d' & uuid & Hrun & _ & _ & Hrep' & _);
    [rewrite zlen_mk_entry; unfold ITEM_LIMIT; lia|done|].
  rewrite Hrun. exists (set_DM d' s), uuid. split; [done|].
  assert (Hr : row_at (set_DM d' s) uuid xid 0 data).
  { split; [|by split]. eapply dm_Read_ok; [done|]. apply lookup_insert_eq. }
  split.
  - rewrite (sm_Read_run _ xid t uuid xid 0 data) by (done || by left). unfold alive.
    by rewrite (bool_decide_eq_true_2 (xid = t_XID t)).
  - intros xid' t' Hw' Hne Hnc. pose proof Hw' as (_ & _ & Ht' & _).
    rewrite (sm_Read_run _ xid' t' uuid xid 0 data) by (done || by left). unfold alive, in_view.
    cbn [sm_TM set_DM]. rewrite Hnc, (bool_decide_eq_false_2 (xid = t_XID t')) by congruence. done.
Qed.
End Calls.

(** * Automatic abort *)

Section Conflicts.
Context {T : Type} `{!TransactionManager T} `{!TransactionManagerOk T} {D : Type} `{!DataManager D}.

(** A transaction that fails with [ErrCannotSR] is aborted on the spot: its
    state becomes aborted and its row locks are released.  After that every
    read, insert, delete and commit of it returns the error and changes
    nothing, and an explicit abort only drops it from the cache. *)
Theorem conflict_is_final (s : serializabilityManager T D) (xid : XID) t sts lt' :
  xid ∈ sm_tc s → sm_txs s !! xid = Some t → t_AutoAbortted t = false → t_Err t = Some ErrCannotSR →
  tm_rep (sm_TM s) sts → 1 ≤ xid ≤ zlen sts → LockTable.Remove xid (sm_lt s) = (lt', Ret tt) →
  ∃ s', (∀ A, @auto_abort _ _ D A xid s = (s', Err ErrCannotSR)) ∧
    tm_rep (sm_TM s') (<[Z.to_nat (xid - 1) := Aborted]> sts) ∧ sm_lt s' = lt' ∧ sm_DM s' = sm_DM s ∧
    (∀ uuid, sm_Read xid uuid s' = (s', Err ErrCannotSR)) ∧
    (∀ data, sm_Insert xid data s' = (s', Err ErrCannotSR)) ∧
    (∀ order uuid, sm_Delete order xid uuid s' = (s', Err ErrCannotSR)) ∧
    sm_Commit xid s' = (s', Err ErrCannotSR) ∧
    sm_Abort xid s' = (set_tc (sm_tc s' ∖ {[xid]}) s', Ret tt).
Proof.
  intros Hc Hx Ha He Hrep Hr Hrm. destruct (tm_Abort_ok _ _ xid Hrep Hr) as (tm' & Hab & Hrep').
  set (s' := mkSM tm' (sm_DM s) (<[xid := set_AutoAbortted t]> (sm_txs s)) (sm_tc s) lt').
  assert (Hcached : cached xid s' = (s', Ret (set_AutoAbortted t))).
  { unfold cached. cbn. by rewrite decide_True, lookup_insert_eq by done. }
  exists s'. split_and!.
  - intros A. assert (Hrun : abort xid true s = (set_TM tm' (set_lt lt' s), Ret tt)).
    { assert (Hc0 : cached xid s = (s, Ret t)) by (unfold cached; by rewrite decide_True, Hx by done).
      unfold abort. erewrite M_bind_run; [|unfold abort_unregister; by rewrite (M_bind_run _ _ _ _ _ Hc0)].
      rewrite Ha. cbn [negb].
      erewrite M_bind_run; [|unfold abort_unlock, on_lt, zoom; by rewrite Hrm].
      unfold abort_record, on_TM, zoom. cbn [sm_TM set_lt]. by rewrite Hab. }
    unfold auto_abort. erewrite M_bind_run; [|unfold catch; by rewrite Hrun]. cbn.
    unfold fail, update_object, modify, mbind, M_bind, set_txs. cbn. by rewrite (alter_insert_Some _ _ _ _ Hx).
  - done.
  - done.
  - done.
  - intros uuid. unfold sm_Read. rewrite (M_bind_run _ _ _ _ _ Hcached). cbn. by rewrite He.
  - intros data. unfold sm_Insert. rewrite (M_bind_run _ _ _ _ _ Hcached). cbn. by rewrite He.
  - intros order uuid. unfold sm_Delete, Delete_request. apply M_bind_err.
    rewrite (M_bind_run _ _ _ _ _ Hcached). cbn. by rewrite He.
  - unfold sm_Commit, Commit_unregister. apply M_bind_err. rewrite M_get_bind, decide_True by done.
    erewrite M_bind_run; [|unfold object; cbn; by rewrite lookup_insert_eq]. cbn. by rewrite He.
  - unfold sm_Abort, abort. erewrite M_bind_run; [|unfold abort_unregister; rewrite (M_bind_run _ _ _ _ _ Hcached); done].
    cbn. done.
Qed.
End Conflicts.

(** * The states of transactions along an interleaving *)

Section Lifecycle.
Context {T : Type} `{!TransactionManager T} `{!TransactionManagerOk T} {D : Type} `{!DataManager D}.
Implicit Types (w : world T D) (s : serializabilityManager T D) (xid : XID).

(** Where a transaction stands: what its goroutine is doing, whether it is in
    the cache, its error and its auto-abort flag, against its recorded state. *)
Inductive phase_ok : option activity → bool → transaction → status → Prop :=
| phase_running t o : (o = None ∨ ∃ uuid ch, o = Some (DeleteBlocked uuid ch)) →
    t_Err t = None → t_AutoAbortted t = false → phase_ok o true t Active
| phase_failed t : t_Err t ≠ None → t_AutoAbortted t = true → phase_ok None true t Aborted
| phase_committing t a : a = CommitUnlock ∨ a = CommitRecord →
    t_Err t = None → phase_ok (Some a) false t Active
| phase_aborting t a : a = AbortUnlock false ∨ a = AbortRecord false → phase_ok (Some a) false t Active
| phase_auto t a : a = AbortUnlock true ∨ a = AbortRecord true → t_Err t ≠ None →
    t_AutoAbortted t = false → phase_ok (Some a) true t Active
| phase_mark t : t_Err t ≠ None → t_AutoAbortted t = false → phase_ok (Some AbortMark) true t Aborted
| phase_committed t : t_Err t = None → phase_ok None false t Committed
| phase_aborted t : phase_ok None false t Aborted.

Record world_ok w (sts : list status) : Prop := {
  wo_rep : tm_rep (sm_TM (w_sm w)) sts;
  wo_range xid t : sm_txs (w_sm w) !! xid = Some t → 0 ≤ xid ≤ zlen sts ∧ t_XID t = xid;
  wo_tc xid : xid ∈ sm_tc (w_sm w) → is_Some (sm_txs (w_sm w) !! xid);
  wo_act xid : is_Some (w_act w !! xid) → is_Some (sm_txs (w_sm w) !! xid);
  wo_phase xid : 1 ≤ xid ≤ zlen sts → ∃ t st, sm_txs (w_sm w) !! xid = Some t ∧
    sts !! Z.to_nat (xid - 1) = Some st ∧
    phase_ok (w_act w !! xid) (bool_decide (xid ∈ sm_tc (w_sm w))) t st
}.

(** A transition that concerns one transaction only: it may change the
    recorded state, the object, the cache membership and the activity of
    [xid], and the tables that the invariant does not mention. *)
Lemma world_ok_update w w' sts xid t t' st st' :
  world_ok w sts → 1 ≤ xid ≤ zlen sts →
  sm_txs (w_sm w) !! xid = Some t → sts !! Z.to_nat (xid - 1) = Some st →
  tm_rep (sm_TM (w_sm w')) (<[Z.to_nat (xid - 1) := st']> sts) →
  sm_txs (w_sm w') = <[xid := t']> (sm_txs (w_sm w)) → t_XID t' = t_XID t →
  (∀ x, x ≠ xid → x ∈ sm_tc (w_sm w') ↔ x ∈ sm_tc (w_sm w)) →
  (∀ x, x ≠ xid → w_act w' !! x = w_act w !! x) →
  phase_ok (w_act w' !! xid) (bool_decide (xid ∈ sm_tc (w_sm w'))) t' st' →
  world_ok w' (<[Z.to_nat (xid - 1) := st']> sts).
Proof.
  intros [Hrep Hrange Htc Hact Hph] Hx Ht Hst Hrep' Htxs HX Htc' Hact' Hph'.
  assert (Hl : zlen (<[Z.to_nat (xid - 1) := st']> sts) = zlen sts)
    by (unfold zlen; by rewrite length_insert).
  split; [done|rewrite ?Hl, ?Htxs..].
  - intros x tx [[<- <-]|[Hne Hl']]%lookup_insert_Some; [|by apply Hrange].
    destruct (Hrange xid t Ht). by rewrite HX.
  - intros x Hin. destruct (decide (x = xid)) as [->|Hne]; [rewrite ?Htxs, lookup_insert_eq; eauto|].
    rewrite ?Htxs, lookup_insert_ne by done. by apply Htc, Htc'.
  - intros x Hin. destruct (decide (x = xid)) as [->|Hne]; [rewrite ?Htxs, lookup_insert_eq; eauto|].
    rewrite ?Htxs, lookup_insert_ne by done. apply Hact. by rewrite <- Hact'.
  - intros x Hin. destruct (decide (x = xid)) as [->|Hne].
    + exists t', st'. rewrite lookup_insert_eq. split_and!; [done| |done].
      apply list_lookup_insert_eq. unfold zlen in *. lia.
    + destruct (Hph x Hin) as (tx & stx & Htx & Hstx & Hp). exists tx, stx.
      rewrite lookup_insert_ne, list_lookup_insert_ne, Hact' by (done || lia). split_and!; [done..|].
      by rewrite (bool_decide_ext _ _ (Htc' x Hne)).
Qed.

(** The invariant does not mention row locks, items or the log. *)
Lemma world_ok_frame w w' sts :
  world_ok w sts → sm_TM (w_sm w') = sm_TM (w_sm w) → sm_txs (w_sm w') = sm_txs (w_sm w) →
  sm_tc (w_sm w') = sm_tc (w_sm w) → w_act w' = w_act w → world_ok w' sts.
Proof. intros [] H1 H2 H3 H4. split; rewrite ?H1, ?H2, ?H3, ?H4; done. Qed.

(** ** What the pieces do to objects and cache *)

Definition frame s s' : Prop :=
  sm_TM s' = sm_TM s ∧ sm_txs s' = sm_txs s ∧ sm_tc s' = sm_tc s.

Definition failing xid s s' : Prop :=
  ∃ t, xid ∈ sm_tc s ∧ sm_txs s !! xid = Some t ∧ t_Err t = None ∧
    sm_TM s' = sm_TM s ∧ sm_tc s' = sm_tc s ∧ sm_txs s' = <[xid := set_Err ErrCannotSR t]> (sm_txs s).

Lemma sm_Read_frame xid uuid s : frame s (sm_Read xid uuid s).1.
Proof.
  unfold frame, sm_Read, cached, getEntry, mbind, M_bind, fail, get, lift. repeat (case_match; cbn); simplify_eq; done.
Qed.

Lemma sm_Insert_frame xid data s : frame s (sm_Insert xid data s).1.
Proof.
  unfold frame, sm_Insert, cached, mbind, M_bind, fail, on_DM, zoom.
  repeat (case_match; cbn in * ); simplify_eq; done.
Qed.

Lemma Delete_request_effect order xid uuid s :
  let '(s', o) := Delete_request order xid uuid s in
  match o with
  | Ret DeleteConflict => failing xid s s'
  | Ret (DeleteWait _) =>
      frame s s' ∧ ∃ t, xid ∈ sm_tc s ∧ sm_txs s !! xid = Some t ∧ t_Err t = None
  | _ => frame s s'
  end.
Proof.
  unfold Delete_request, mbind, M_bind. destruct (cached xid s) as [s1 o1] eqn:Ec.
  assert (Hc : s1 = s ∧ ∀ t, o1 = Ret t → xid ∈ sm_tc s ∧ sm_txs s !! xid = Some t).
  { unfold cached in Ec. repeat case_match; simplify_eq; naive_solver. }
  destruct Hc as [-> Hc]. destruct o1 as [t| | |]; try done. destruct (Hc t eq_refl) as [Hin Ht].
  destruct (t_Err t) eqn:Ee; [done|]. unfold getEntry, get, lift.
  repeat (case_match; simplify_eq; try done).
  all: unfold on_lt, zoom, mret, M_ret in *; repeat case_match; simplify_eq; try done.
  all: try (unfold update_object, modify in *; simplify_eq).
  all: try (by split_and!; eauto).
  all: exists t; split_and!; try done; cbn; by apply alter_insert_Some.
Qed.

Lemma Delete_locked_effect xid uuid s t :
  xid ∈ sm_tc s → sm_txs s !! xid = Some t → t_Err t = None →
  let '(s', o) := Delete_locked xid uuid s in
  match o with
  | Ret DeleteConflict => failing xid s s'
  | Ret (DeleteWait _) => False
  | _ => frame s s'
  end.
Proof.
  intros Hin Ht Ee. unfold Delete_locked, mbind, M_bind, object. rewrite Ht, Ee. unfold getEntry, get, lift.
  repeat (case_match; simplify_eq; try done).
  all: unfold on_DM, zoom, mret, M_ret in *; repeat case_match; simplify_eq; try done.
  all: try (unfold update_object, modify in *; simplify_eq).
  all: try (exists t; split_and!; try done; cbn; by apply alter_insert_Some).
Qed.

(** ** Preservation *)

Lemma world_ok_quiet w w' sts xid t st :
  world_ok w sts → 1 ≤ xid ≤ zlen sts →
  sm_txs (w_sm w) !! xid = Some t → sts !! Z.to_nat (xid - 1) = Some st →
  frame (w_sm w) (w_sm w') → (∀ x, x ≠ xid → w_act w' !! x = w_act w !! x) →
  phase_ok (w_act w' !! xid) (bool_decide (xid ∈ sm_tc (w_sm w))) t st → world_ok w' sts.
Proof.
  intros Hok Hx Ht Hst (H1 & H2 & H3) Ha Hph. rewrite <- (list_insert_id sts _ st Hst).
  eapply (world_ok_update w w' sts xid t t st st); try done.
  - rewrite list_insert_id by done. rewrite H1. apply Hok.
  - by rewrite H2, insert_id.
  - by rewrite H3.
  - by rewrite H3.
Qed.

Lemma world_ok_at w sts xid t :
  world_ok w sts → sm_txs (w_sm w) !! xid = Some t → xid ≠ 0 →
  1 ≤ xid ≤ zlen sts ∧ ∃ st, sts !! Z.to_nat (xid - 1) = Some st ∧
    phase_ok (w_act w !! xid) (bool_decide (xid ∈ sm_tc (w_sm w))) t st.
Proof.
  intros Hok Ht Hne. pose proof (wo_range _ _ Hok _ _ Ht) as [Hr _]. assert (Hx : 1 ≤ xid ≤ zlen sts) by lia.
  split; [done|]. destruct (wo_phase _ _ Hok xid Hx) as (t' & st & Ht' & Hst & Hp). simplify_eq. eauto.
Qed.

Lemma running_phase o t st :
  phase_ok o true t st → t_Err t = None → (o = None ∨ ∃ uuid ch, o = Some (DeleteBlocked uuid ch)) →
  st = Active ∧ t_AutoAbortted t = false.
Proof. intros Hp He Ho. inversion Hp; naive_solver. Qed.

Lemma after_conflict w s' log sts xid t uuid :
  world_ok w sts → xid ≠ 0 → failing xid (w_sm w) s' →
  sm_txs (w_sm w) !! xid = Some t →
  (w_act w !! xid = None ∨ ∃ uuid ch, w_act w !! xid = Some (DeleteBlocked uuid ch)) →
  world_ok (after_delete xid uuid DeleteConflict (mkW s' (w_act w) log)) sts.
Proof.
  intros Hok Hne (t' & Hin & Ht' & He & H1 & H2 & H3) Ht Ho. assert (t' = t) as -> by congruence.
  destruct (world_ok_at _ _ _ _ Hok Ht Hne) as (Hx & st & Hst & Hp). rewrite bool_decide_eq_true_2 in Hp by done.
  destruct (running_phase _ _ _ Hp He Ho) as [-> Ha].
  assert (Hab : abort_unregister xid true s' = (s', Ret true)).
  { unfold abort_unregister. erewrite M_bind_run; [|unfold cached; rewrite decide_True by (by rewrite H2);
      by rewrite H3, lookup_insert_eq]. cbn. by rewrite Ha. }
  unfold after_delete. cbn [w_sm]. rewrite Hab. unfold busy. cbn.
  rewrite <- (list_insert_id sts _ Active Hst).
  eapply (world_ok_update w _ sts xid t _ Active Active); try done; cbn.
  - rewrite list_insert_id, H1 by done. apply Hok.
  - by rewrite H2.
  - intros x Hxx. by rewrite lookup_insert_ne.
  - rewrite lookup_insert_eq, H2, bool_decide_eq_true_2 by done. apply phase_auto; [by left|done..].
Qed.

Lemma sm_Begin_ok w sts level :
  world_ok w sts → zlen sts < XID_LIMIT →
  ∃ s', sm_Begin level (w_sm w) = (s', Ret (zlen sts + 1)) ∧
    ∀ log, world_ok (finish (zlen sts + 1) (EvBegin (zlen sts + 1)) (mkW s' (w_act w) log)) (sts ++ [Active]).
Proof.
  intros Hok Hlim. destruct (tm_Begin_ok _ _ (wo_rep _ _ Hok) Hlim) as (tm' & Hb & Hrep').
  unfold sm_Begin. erewrite M_bind_run; [|unfold on_TM, zoom; by rewrite Hb].
  rewrite M_get_bind. eexists. split; [done|]. intros log. destruct Hok as [Hrep Hrange Htc Hact Hph].
  pose proof (zlen_nonneg sts).
  assert (Hfresh : ∀ (x : XID) t, sm_txs (w_sm w) !! x = Some t → x ≠ zlen sts + 1).
  { intros x t Hxt. apply Hrange in Hxt. lia. }
  split; cbn; rewrite ?zlen_app; change (zlen [Active]) with 1.
  - done.
  - intros xid t [[<- <-]|[Hne Hl]]%lookup_insert_Some; [split; [lia|done]|]. apply Hrange in Hl. lia.
  - intros xid [->%elem_of_singleton|Hin]%elem_of_union; [rewrite lookup_insert_eq; eauto|].
    destruct (Htc xid Hin) as [t Ht]. rewrite lookup_insert_ne by (pose proof (Hfresh _ _ Ht); congruence). by exists t.
  - intros xid [Hne Hin]%lookup_delete_is_Some. rewrite lookup_insert_ne by done. by apply Hact.
  - intros xid Hx. destruct (decide (xid = zlen sts + 1)) as [->|Hne].
    + exists (newTransaction (zlen sts + 1) level (sm_tc (w_sm w))), Active.
      rewrite lookup_insert_eq, lookup_delete_eq. split_and!; [done| |].
      * rewrite lookup_app_r by (unfold zlen in *; lia).
        replace (Z.to_nat (zlen sts + 1 - 1) - length sts)%nat with 0%nat by (unfold zlen; lia). done.
      * rewrite bool_decide_eq_true_2 by set_solver. apply phase_running; [by left|done..].
    + destruct (Hph xid) as (t & st & Ht & Hst & Hp); [lia|]. exists t, st.
      rewrite lookup_insert_ne, lookup_delete_ne by done.
      split_and!; [done|by apply lookup_app_l_Some|].
      rewrite (bool_decide_ext _ (xid ∈ sm_tc (w_sm w))); [done|]. set_solver.
Qed.

Lemma idle_finish w s' sts xid e log :
  world_ok w sts → w_act w !! xid = None → frame (w_sm w) s' →
  world_ok (finish xid e (mkW s' (w_act w) log)) sts.
Proof.
  intros Hok Hn (H1 & H2 & H3). eapply world_ok_frame; [done|try done..]. cbn. by apply delete_id.
Qed.

Lemma delete_step w w' sts order xid uuid :
  world_ok w sts → xid ≠ 0 → act (ADelete order xid uuid) w = Some w' → world_ok w' sts.
Proof.
  intros Hok Hne. cbn [act]. case_decide as Hidle; [|done]. unfold piece.
  pose proof (Delete_request_effect order xid uuid (w_sm w)) as He.
  destruct (Delete_request order xid uuid (w_sm w)) as [s' [r|e| |]]; try done; intros [= <-].
  2: by apply idle_finish.
  destruct r as [ok|ch|].
  - by apply idle_finish.
  - destruct He as [Hf (t & Hin & Ht & Hterr)].
    destruct (world_ok_at _ _ _ _ Hok Ht Hne) as (Hx & st & Hst & Hp).
    rewrite bool_decide_eq_true_2 in Hp by done.
    destruct (running_phase _ _ _ Hp Hterr ltac:(by left)) as [-> Ha].
    eapply world_ok_quiet; try done; cbn.
    + intros x Hxx. by rewrite lookup_insert_ne.
    + rewrite lookup_insert_eq, bool_decide_eq_true_2 by done. apply phase_running; eauto.
  - pose proof He as (t & _ & Ht & _). apply (after_conflict w s' _ sts xid t uuid); eauto.
Qed.

Lemma commit_step w w' sts xid :
  world_ok w sts → xid ≠ 0 → act (ACommit xid) w = Some w' → world_ok w' sts.
Proof.
  intros Hok Hne. cbn [act]. case_decide as Hidle; [|done]. unfold piece, Commit_unregister.
  rewrite M_get_bind. case_decide as Hin; [|intros [= <-]; by apply idle_finish].
  destruct (wo_tc _ _ Hok xid Hin) as [t Ht].
  rewrite (M_bind_run _ _ (w_sm w) (w_sm w) t) by (unfold object; by rewrite Ht).
  destruct (t_Err t) as [err|] eqn:Ee; intros [= <-]; [by apply idle_finish|].
  destruct (world_ok_at _ _ _ _ Hok Ht Hne) as (Hx & st & Hst & Hp). rewrite bool_decide_eq_true_2 in Hp by done.
  destruct (running_phase _ _ _ Hp Ee ltac:(by left)) as [-> Ha].
  rewrite <- (list_insert_id sts _ Active Hst).
  eapply (world_ok_update w _ sts xid t t Active Active); try done; cbn.
  - rewrite list_insert_id by done. apply Hok.
  - by rewrite insert_id.
  - set_solver.
  - intros x Hxx. by rewrite lookup_insert_ne.
  - rewrite lookup_insert_eq, bool_decide_eq_false_2 by set_solver. apply phase_committing; [by left|done].
Qed.

Lemma abort_step w w' sts xid :
  world_ok w sts → xid ≠ 0 → act (AAbort xid) w = Some w' → world_ok w' sts.
Proof.
  intros Hok Hne. cbn [act]. case_decide as Hidle; [|done]. unfold piece, abort_unregister.
  destruct (decide (xid ∈ sm_tc (w_sm w))) as [Hin|Hin].
  2: { unfold cached, mbind, M_bind. by rewrite decide_False by done. }
  destruct (wo_tc _ _ Hok xid Hin) as [t Ht].
  rewrite (M_bind_run _ _ (w_sm w) (w_sm w) t) by (unfold cached; by rewrite decide_True, Ht by done).
  intros [= <-].
  destruct (world_ok_at _ _ _ _ Hok Ht Hne) as (Hx & st & Hst & Hp).
  rewrite bool_decide_eq_true_2, Hidle in Hp by done. rewrite <- (list_insert_id sts _ st Hst).
  eapply (world_ok_update w _ sts xid t t st st); try done.
  - rewrite list_insert_id by done. destruct (t_AutoAbortted t); apply Hok.
  - rewrite insert_id by done. by destruct (t_AutoAbortted t).
  - intros x Hxx. destruct (t_AutoAbortted t); cbn; set_solver.
  - intros x Hxx. destruct (t_AutoAbortted t); cbn; [by rewrite lookup_delete_ne|by rewrite lookup_insert_ne].
  - inversion Hp as [? ? Ho He Ha|? He Ha| | | | | |]; subst; rewrite Ha; cbn;
      rewrite bool_decide_eq_false_2 by set_solver.
    + rewrite lookup_insert_eq. apply phase_aborting. by left.
    + rewrite lookup_delete_eq. apply phase_aborted.
Qed.

(** Releasing row locks reports no error. *)
Definition no_err {S A} (m : M S A) : Prop := ∀ (st : S) e, (m st).2 ≠ Err e.

Lemma no_err_bind {S A B} (m : M S A) (k : A → M S B) : no_err m → (∀ a, no_err (k a)) → no_err (m ≫= k).
Proof. intros Hm Hk st e. unfold mbind, M_bind. specialize (Hm st e).
  destruct (m st) as [s' []]; try done; [apply Hk|]. intros [= ->]. by apply Hm.
Qed.

Lemma Remove_no_err xid : no_err (LockTable.Remove xid).
Proof.
  assert (Hsend : ∀ ch, no_err (send ch)) by (intros ch st e; unfold send; by repeat case_match).
  assert (Hsel : ∀ uid l, no_err (selectLoop uid l)).
  { intros uid. induction l as [|x l IH]; cbn; [done|]. apply no_err_bind; [done|]. intros lt.
    case_match; [|done]. do 3 (apply no_err_bind; [done|intros _]). apply no_err_bind; [apply Hsend|done]. }
  assert (Hnew : ∀ uid, no_err (selectNewXID uid)).
  { intros uid. apply no_err_bind; [done|intros _]. apply no_err_bind; [done|intros lt].
    case_match; [|done]. case_match; [done|]. by apply no_err_bind; [apply Hsel|]. }
  assert (Hall : ∀ l, no_err (releaseAll l)) by (induction l; [done|by apply no_err_bind]).
  unfold LockTable.Remove. apply no_err_bind; [done|intros lt].
  apply no_err_bind; [by case_match; [apply Hall|]|intros _]. by do 2 (apply no_err_bind; [done|intros _]).
Qed.

Lemma phase_busy a b t st : phase_ok (Some a) b t st →
  match a with
  | DeleteBlocked _ _ => b = true ∧ t_Err t = None ∧ t_AutoAbortted t = false ∧ st = Active
  | CommitUnlock | CommitRecord => b = false ∧ t_Err t = None ∧ st = Active
  | AbortUnlock auto | AbortRecord auto =>
      b = auto ∧ st = Active ∧ (auto = true → t_Err t ≠ None ∧ t_AutoAbortted t = false)
  | AbortMark => b = true ∧ t_Err t ≠ None ∧ t_AutoAbortted t = false ∧ st = Aborted
  end.
Proof.
  intros Hp. inversion Hp as [? ? [?|(?&?&?)]| |? ? [?|?]|? ? [?|?]|? ? [?|?]| | |]; simplify_eq; done.
Qed.

Lemma resume_step w w' sts xid :
  world_ok w sts → xid ≠ 0 → resume xid w = Some w' → ∃ sts', zlen sts' = zlen sts ∧ world_ok w' sts'.
Proof.
  intros Hok Hne. unfold resume. destruct (w_act w !! xid) as [a|] eqn:Ea; [|done].
  destruct (wo_act _ _ Hok xid ltac:(eauto)) as [t Ht].
  destruct (world_ok_at _ _ _ _ Hok Ht Hne) as (Hx & st & Hst & Hp). rewrite Ea in Hp.
  assert (Hquiet : ∀ w1, frame (w_sm w) (w_sm w1) → (∀ x, x ≠ xid → w_act w1 !! x = w_act w !! x) →
    phase_ok (w_act w1 !! xid) (bool_decide (xid ∈ sm_tc (w_sm w))) t st →
    ∃ sts', zlen sts' = zlen sts ∧ world_ok w1 sts').
  { intros w1 Hf Hw1 Hp1. exists sts. split; [done|]. by eapply (world_ok_quiet w w1 sts xid t st). }
  assert (Hbusy : ∀ w1 b x, x ≠ xid → w_act (busy xid b w1) !! x = w_act w1 !! x)
    by (intros; by apply lookup_insert_ne).
  assert (Hfin : ∀ w1 e x, x ≠ xid → w_act (finish xid e w1) !! x = w_act w1 !! x)
    by (intros; by apply lookup_delete_ne).
  assert (Hend : ∀ w1 e, w_act (finish xid e w1) !! xid = None) by (intros; apply lookup_delete_eq).
  destruct a as [uuid ch| | |auto|auto|]; unfold piece.
  - destruct (decide (chans (sm_lt (w_sm w)) !! ch = Some true)); [|done].
    destruct (phase_busy _ _ _ _ Hp) as (Hin%bool_decide_eq_true & He & Ha & ->).
    pose proof (Delete_locked_effect xid uuid (w_sm w) t Hin Ht He) as Hd.
    destruct (Delete_locked xid uuid (w_sm w)) as [s' [r|err| |]]; try done; [destruct r as [ok|?|]|]; try done; intros [= <-].
    + apply Hquiet; [done|by intros; rewrite Hfin|]. rewrite Hend, bool_decide_eq_true_2 by done.
      apply phase_running; [by left|done..].
    + exists sts. split; [done|]. apply (after_conflict w s' _ sts xid t uuid); eauto.
    + apply Hquiet; [done|by intros; rewrite Hfin|]. rewrite Hend, bool_decide_eq_true_2 by done.
      apply phase_running; [by left|done..].
  - unfold Commit_unlock, on_lt, zoom. pose proof (Remove_no_err xid (sm_lt (w_sm w))) as Hr.
    destruct (LockTable.Remove _ _) as [lt' [|e| |]]; [|by destruct (Hr e)|done..]. intros [= <-].
    apply Hquiet; [done|by intros; rewrite Hbusy|]. cbn. rewrite lookup_insert_eq.
    apply phase_busy in Hp as (-> & He & ->). apply phase_committing; [by right|done].
  - destruct (tm_Commit_ok _ _ xid (wo_rep _ _ Hok) Hx) as (tm' & Hc & Hrep').
    unfold Commit_record, on_TM, zoom. rewrite Hc. intros [= <-].
    exists (<[Z.to_nat (xid - 1) := Committed]> sts). split; [unfold zlen; by rewrite length_insert|].
    eapply (world_ok_update w _ sts xid t t st Committed); try done.
    + by rewrite insert_id.
    + by intros; rewrite Hfin.
    + rewrite Hend. cbn. apply phase_busy in Hp as (-> & He & _). by apply phase_committed.
  - unfold abort_unlock, on_lt, zoom. pose proof (Remove_no_err xid (sm_lt (w_sm w))) as Hr.
    destruct (LockTable.Remove _ _) as [lt' [|e| |]]; [|by destruct (Hr e)|done..]. intros [= <-].
    apply Hquiet; [done|by intros; rewrite Hbusy|]. cbn. rewrite lookup_insert_eq.
    apply phase_busy in Hp as (-> & -> & Hauto). destruct auto.
    + apply phase_auto; [by right|by apply Hauto..].
    + apply phase_aborting. by right.
  - destruct (tm_Abort_ok _ _ xid (wo_rep _ _ Hok) Hx) as (tm' & Hc & Hrep').
    unfold abort_record, on_TM, zoom. rewrite Hc. intros [= <-].
    exists (<[Z.to_nat (xid - 1) := Aborted]> sts). split; [unfold zlen; by rewrite length_insert|].
    eapply (world_ok_update w _ sts xid t t st Aborted); try done.
    + by destruct auto.
    + rewrite insert_id by done. by destruct auto.
    + by destruct auto.
    + destruct auto; [by intros; rewrite Hbusy|by intros; rewrite Hfin].
    + apply phase_busy in Hp as (Hb & _ & Hauto). destruct auto; cbn.
      * rewrite lookup_insert_eq, Hb. by apply phase_mark; apply Hauto.
      * rewrite lookup_delete_eq, Hb. apply phase_aborted.
  - unfold update_object, modify. intros [= <-]. exists sts. split; [done|].
    rewrite <- (list_insert_id sts _ st Hst).
    eapply (world_ok_update w _ sts xid t (set_AutoAbortted t) st st); try done.
    + rewrite list_insert_id by done. apply Hok.
    + cbn. by apply alter_insert_Some.
    + by intros; rewrite Hfin.
    + rewrite Hend. cbn. apply phase_busy in Hp as (-> & He & _ & ->). by apply phase_failed.
Qed.

(** The transaction an action is for; the super transaction neither works
    through the manager nor ends. *)
Definition action_xid (a : action) : option XID :=
  match a with
  | ABegin _ => None
  | AInsert xid _ | ARead xid _ | ADelete _ xid _ | ACommit xid | AAbort xid | AResume xid => Some xid
  end.

Lemma act_ok w w' sts a :
  world_ok w sts → zlen sts < XID_LIMIT → action_xid a ≠ Some 0 → act a w = Some w' →
  ∃ sts', zlen sts' ≤ zlen sts + 1 ∧ world_ok w' sts'.
Proof.
  intros Hok Hlim Hne Hact.
  destruct a as [level|xid data|xid uuid|order xid uuid|xid|xid|xid];
    try (assert (Hx : xid ≠ 0) by (intros ->; by apply Hne)).
  - destruct (sm_Begin_ok w sts level Hok Hlim) as (s' & Hb & Hw). cbn in Hact. rewrite Hb in Hact. simplify_eq.
    eexists. split; [|apply Hw]. rewrite zlen_app. done.
  - exists sts. split; [lia|]. cbn in Hact. case_decide as Hi; [|done]. unfold piece in Hact.
    pose proof (sm_Insert_frame xid data (w_sm w)) as Hf.
    destruct (sm_Insert xid data (w_sm w)) as [s' []]; simplify_eq; by apply idle_finish.
  - exists sts. split; [lia|]. cbn in Hact. case_decide as Hi; [|done]. unfold piece in Hact.
    pose proof (sm_Read_frame xid uuid (w_sm w)) as Hf.
    destruct (sm_Read xid uuid (w_sm w)) as [s' []]; simplify_eq; by apply idle_finish.
  - exists sts. split; [lia|]. by eapply delete_step.
  - exists sts. split; [lia|]. by eapply commit_step.
  - exists sts. split; [lia|]. by eapply abort_step.
  - destruct (resume_step w w' sts xid Hok Hx Hact) as (sts' & Hl & Hok'). exists sts'. split; [lia|done].
Qed.

Lemma acts_ok l w w' sts :
  world_ok w sts → zlen sts + zlen l ≤ XID_LIMIT → Forall (λ a, action_xid a ≠ Some 0) l →
  acts l w = Some w' → ∃ sts', world_ok w' sts'.
Proof.
  revert w sts. induction l as [|a l IH]; intros w sts Hok Hlim Hl; cbn; [intros [= <-]; eauto|].
  apply Forall_cons in Hl as [Ha Hl]. rewrite zlen_cons in Hlim. pose proof (zlen_nonneg l).
  intros (w1 & H1 & H2)%bind_Some. destruct (act_ok w w1 sts a) as (sts1 & Hle & Hok1); [done|lia|done..|].
  eapply (IH w1 sts1); [done|lia|done..].
Qed.

Lemma world_ok_init tm dm : tm_rep tm [] → world_ok (mkW (NewSerializabilityManager tm dm) ∅ []) [].
Proof.
  intros Hr. split; cbn; [done|..].
  - intros xid t [<- <-]%lookup_singleton_Some. done.
  - intros xid ->%elem_of_singleton. by eexists.
  - intros xid [t Ht]. done.
  - intros xid Hx. change (zlen []) with 0 in Hx. lia.
Qed.

(** C10: However the calls of transactions interleave, the recorded state of
    each transaction follows its life: one that failed with a conflict or is
    still in the cache is never committed, one at rest in the cache is active,
    or aborted if it failed, and one at rest outside the cache is committed or
    aborted, never active. *)
Theorem transaction_lifecycle (tm : T) (dm : D) l w :
  tm_rep tm [] → zlen l ≤ XID_LIMIT → Forall (λ a, action_xid a ≠ Some 0) l →
  acts l (mkW (NewSerializabilityManager tm dm) ∅ []) = Some w →
  ∃ sts, tm_rep (sm_TM (w_sm w)) sts ∧
    ∀ xid t, sm_txs (w_sm w) !! xid = Some t → xid ≠ 0 →
    ∃ st, sts !! Z.to_nat (xid - 1) = Some st ∧
      (t_Err t ≠ None ∨ xid ∈ sm_tc (w_sm w) → st ≠ Committed) ∧
      (w_act w !! xid = None → xid ∈ sm_tc (w_sm w) → (t_Err t = None ↔ st = Active)) ∧
      (w_act w !! xid = None → xid ∉ sm_tc (w_sm w) → st ≠ Active).
Proof.
  intros Hr Hl Hxs Hacts. destruct (acts_ok l _ w [] (world_ok_init tm dm Hr) Hl Hxs Hacts) as (sts & Hok).
  exists sts. split; [apply Hok|]. intros xid t Ht Hne.
  destruct (world_ok_at _ _ _ _ Hok Ht Hne) as (_ & st & Hst & Hp). exists st. split; [done|].
  destruct (decide (xid ∈ sm_tc (w_sm w))) as [Hin|Hin].
  - rewrite bool_decide_eq_true_2 in Hp by done. inversion Hp; subst; naive_solver.
  - rewrite bool_decide_eq_false_2 in Hp by done.
    inversion Hp as [| |? ? [?|?]|? ? [?|?]| | | |]; subst; naive_solver.
Qed.
End Lifecycle.

(** * Two deletions of one row *)

Section DoubleDelete.
Context {T : Type} `{!TransactionManager T} `{!TransactionManagerOk T} {D : Type} `{!DataManager D} `{!DataManagerOk D}.
Implicit Types s : serializabilityManager T D.

Lemma Delete_request_waits s order xid t uuid xmin xmax data lt' ch :
  working s xid t → row_at s uuid xmin xmax data → own_row t xmin xmax → alive (sm_TM s) t xmin xmax = true →
  LockTable.Add order xid uuid (sm_lt s) = (lt', Ret (true, Some ch)) →
  Delete_request order xid uuid s = (set_lt lt' s, Ret (DeleteWait ch)).
Proof.
  intros Hw Hr Hown Hal HA. unfold Delete_request. rewrite (M_bind_run _ _ _ _ _ (cached_working _ _ _ Hw)).
  destruct Hw as (_ & _ & _ & ->). rewrite (M_bind_run _ _ _ _ _ (getEntry_row _ _ _ _ _ Hr)).
  destruct Hr as (_ & Hmin & Hmax). rewrite M_get_bind, IsVisible_alive by done. rewrite M_lift_bind, Hal.
  cbn [negb]. unfold on_lt, zoom, mbind, M_bind. by rewrite HA.
Qed.

Lemma Delete_locked_takes s xid t uuid items xmin xmax data :
  working s xid t → dm_rep (sm_DM s) items → dm_writer (D := D) xid →
  items !! uuid = Some (mk_entry xmin xmax data) → is_u64 xmin → is_u64 xmax →
  xmax ≠ xid → skipped (sm_TM s) t xmax = false →
  ∃ d', Delete_locked xid uuid s = (set_DM d' s, Ret (DeleteDone true)) ∧
    dm_rep d' (<[uuid := mk_entry xmin xid data]> items).
Proof.
  intros Hw Hrep Hwr Hi Hmin Hmax Hne Hsk.
  assert (Hr : row_at s uuid xmin xmax data) by (split; [by eapply dm_Read_ok|done]).
  rewrite (Delete_locked_run s xid t uuid xmin xmax data) by done. rewrite decide_False by done. rewrite Hsk.
  destruct (dm_Write_ok _ _ xid uuid _ (mk_entry xmin xid data) Hrep Hwr Hi) as (d' & -> & Hrep' & _);
    [by rewrite !zlen_mk_entry|]. by exists d'.
Qed.

Lemma sm_Commit_run s xid t sts :
  working s xid t → tm_rep (sm_TM s) sts → 1 ≤ xid ≤ zlen sts → lt_queues (sm_lt s) →
  ∃ tm', sm_Commit xid s =
      (mkSM tm' (sm_DM s) (sm_txs s) (sm_tc s ∖ {[xid]}) (LockTable.removed xid (sm_lt s)), Ret tt) ∧
    tm_rep tm' (<[Z.to_nat (xid - 1) := Committed]> sts).
Proof.
  intros Hw Hrep Hx Hq. destruct (tm_Commit_ok _ _ xid Hrep Hx) as (tm' & Hc & Hrep'). exists tm'. split; [|done].
  pose proof (object_working _ _ _ Hw) as Ho. destruct Hw as (Hin & _ & _ & He).
  unfold sm_Commit, Commit_unregister.
  erewrite M_bind_run; [|rewrite M_get_bind, decide_True by done; rewrite (M_bind_run _ _ _ _ _ Ho), He; done].
    cbv iota. erewrite M_bind_run; [|unfold Commit_unlock, on_lt, zoom; cbn [sm_lt set_tc]; by rewrite Remove_run].
  unfold Commit_record, on_TM, zoom. cbn. by rewrite Hc.
Qed.

Lemma alive_creator (tm : T) t xmin xmax :
  alive tm t xmin xmax = true → xmin ≠ t_XID t → tm_IsCommitted tm xmin = true.
Proof.
  unfold alive, in_view. intros [H _]%andb_true_iff Hne. rewrite (bool_decide_eq_false_2 (xmin = _)) in H by done.
  by apply andb_true_iff in H as [? _].
Qed.

(** A deletion that is not committed does not hide the row from others. *)
Lemma undeleted_alive (tm : T) t xmin xmax :
  alive tm t xmin 0 = true → xmax ≠ t_XID t → tm_IsCommitted tm xmax = false → alive tm t xmin xmax = true.
Proof.
  unfold alive. intros [H _]%andb_true_iff Hne Hc. rewrite H. unfold in_view at 1. rewrite Hc.
  rewrite (bool_decide_eq_false_2 (xmax = t_XID t)) by done. cbn. by rewrite andb_false_r.
Qed.

(** The first of two requests: the row is free and undeleted. *)
Lemma first_deletes s sts items x tx uuid xmin data order :
  tm_rep (sm_TM s) sts → dm_rep (sm_DM s) items → lt_inv (sm_lt s) → working s x tx → 1 ≤ x ≤ zlen sts →
  dm_writer (D := D) x → items !! uuid = Some (mk_entry xmin 0 data) → is_u64 xmin →
  alive (sm_TM s) tx xmin 0 = true → u2x (sm_lt s) !! uuid = None →
  ∃ d', sm_Delete order x uuid s = (set_DM d' (set_lt (taken x uuid (sm_lt s)) s), Ret true) ∧
    dm_rep d' (<[uuid := mk_entry xmin x data]> items).
Proof.
  intros Htm Hdm (_ & Hh & _) Hw Hx Hwr Hi Hmin Hal Hfree.
  assert (Hrow : row_at s uuid xmin 0 data) by (split; [by eapply dm_Read_ok|done]).
  assert (El : isInList (x2u (sm_lt s)) x uuid = false).
  { apply not_true_is_false. intros (l & Hl & Hin)%isInList_spec. pose proof (Hh x l uuid I Hl Hin). congruence. }
  pose proof (Delete_request_waits s order x tx uuid xmin 0 data _ _ Hw Hrow ltac:(by left) Hal
    (Add_free_run order x uuid (sm_lt s) Hfree El)) as Hreq.
  set (s1 := set_lt (taken x uuid (sm_lt s)) s) in *.
  destruct (Delete_locked_takes s1 x tx uuid items xmin 0 data) as (d' & Hd & Hrep); [done..|lia| |].
  { unfold skipped, InSnapShot. destruct Hw as (_ & _ & -> & _). rewrite decide_True by done.
    rewrite (bool_decide_eq_false_2 (x < 0)) by lia. by rewrite andb_false_r. }
  exists d'. split; [|done]. unfold sm_Delete. rewrite (M_bind_run _ _ _ _ _ Hreq).
  assert (Hrc : receive (nextCh (sm_lt s)) s1 = (s1, Ret tt)).
  { unfold receive. cbn. by rewrite decide_True by apply lookup_insert_eq. }
  rewrite (M_bind_run _ _ _ _ _ Hrc), (M_bind_run _ _ _ _ _ Hd). done.
Qed.

(** C16: At read committed two transactions both delete the same row and both
    commit.  Two running transactions see an undeleted row that is free, and
    nobody is stuck in a cycle of waits; [x] deletes the row; [y], at read
    committed, asks for it as well and waits on an empty channel; [x] commits,
    which fills the channel; [y] goes on, [Delete] does not look again at who
    deleted the row and reports success a second time, and [y] commits.  The
    row's recorded deleter is then [y]. *)
Theorem read_committed_double_delete s sts items x y tx ty uuid xmin data orderx ordery :
  tm_rep (sm_TM s) sts → dm_rep (sm_DM s) items → lt_reachable (sm_lt s) →
  working s x tx → working s y ty → x ≠ y → 1 ≤ x ≤ zlen sts → 1 ≤ y ≤ zlen sts →
  zlen sts ≤ XID_LIMIT → sts !! Z.to_nat (x - 1) = Some Active → sts !! Z.to_nat (y - 1) = Some Active → t_Level ty = 0 →
  dm_writer (D := D) x → dm_writer (D := D) y →
  items !! uuid = Some (mk_entry xmin 0 data) → is_u64 xmin →
  alive (sm_TM s) tx xmin 0 = true → alive (sm_TM s) ty xmin 0 = true →
  idle (sm_lt s) x → idle (sm_lt s) y → u2x (sm_lt s) !! uuid = None → (∀ z, ¬ stuck (sm_lt s) z) →
  ∃ s1 s2 s3 s4 s5 ch,
    sm_Delete orderx x uuid s = (s1, Ret true) ∧
    Delete_request ordery y uuid s1 = (s2, Ret (DeleteWait ch)) ∧ chans (sm_lt s2) !! ch = Some false ∧
    sm_Commit x s2 = (s3, Ret tt) ∧ chans (sm_lt s3) !! ch = Some true ∧
    Delete_locked y uuid s3 = (s4, Ret (DeleteDone true)) ∧
    sm_Commit y s4 = (s5, Ret tt) ∧
    tm_IsCommitted (sm_TM s5) x = true ∧ tm_IsCommitted (sm_TM s5) y = true ∧
    row_at s5 uuid xmin y data.
Proof.
  intros Htm Hdm Hlt Hwx Hwy Hne Hx Hy Hlim Hsx Hsy Hl Hdx Hdy Hi Hmin Hax Hay Hix Hiy Hfree Hno.
  apply lt_reachable_inv in Hlt.
  assert (Hac : ∀ z, 1 ≤ z ≤ zlen sts → sts !! Z.to_nat (z - 1) = Some Active → tm_IsCommitted (sm_TM s) z = false).
  { intros z Hz Hsz. rewrite (tm_IsCommitted_ok _ _ z Htm), Hsz by lia. by apply bool_decide_eq_false_2. }
  pose proof (Hac x Hx Hsx) as Hnx. pose proof (Hac y Hy Hsy) as Hny.
  assert (Hxy : xmin ≠ y).
  { intros ->. assert (y ≠ t_XID tx) by (destruct Hwx as (_ & _ & -> & _); done).
    pose proof (alive_creator _ _ _ _ Hax ltac:(done)). congruence. }
  destruct (first_deletes s sts items x tx uuid xmin data orderx) as (d1 & Hs1 & Hd1); [done..|].
  destruct (two_requests ordery x y uuid (sm_lt s)) as (HA & Hi2 & Hf & Ht); [done..|].
  set (lt1 := taken x uuid (sm_lt s)) in *. set (s1 := set_DM d1 (set_lt lt1 s)) in *.
  assert (Hr1 : row_at s1 uuid xmin x data)
    by (split; [eapply dm_Read_ok; [done|apply lookup_insert_eq]|split; [done|unfold is_u64, XID_LIMIT in *; lia]]).
  assert (Hreq : Delete_request ordery y uuid s1 = (set_lt (enqueued y uuid lt1) s1, Ret (DeleteWait (nextCh lt1)))).
  { apply (Delete_request_waits s1 ordery y ty uuid xmin x data); try done.
    - destruct Hwy as (_ & _ & Hty & _). unfold own_row. congruence.
    - apply undeleted_alive; [done|destruct Hwy as (_ & _ & Hty & _); congruence|done]. }
  set (s2 := set_lt (enqueued y uuid lt1) s1) in *.
  destruct (sm_Commit_run s2 x tx sts) as (tm3 & Hc3 & Htm3); [done|done|done|apply Hi2|].
  set (s3 := mkSM _ _ _ _ _) in Hc3.
  assert (Hwy3 : working s3 y ty) by (destruct Hwy; split; [cbn; set_solver|done]).
  destruct (Delete_locked_takes s3 y ty uuid (<[uuid:=mk_entry xmin x data]> items) xmin x data)
    as (d4 & Hd4 & Hrep4); [done|done|done|apply lookup_insert_eq|done|apply Hr1|done|
      unfold skipped; by rewrite bool_decide_eq_true_2|].
  set (s4 := set_DM d4 s3) in *.
  destruct (sm_Commit_run s4 y ty (<[Z.to_nat (x - 1):=Committed]> sts)) as (tm5 & Hc5 & Htm5);
    [done|done|by unfold zlen; rewrite length_insert|by apply removed_inv|].
  do 5 eexists. exists (nextCh lt1). split_and!; [done..| | |].
  - cbn [sm_TM]. rewrite (tm_IsCommitted_ok _ _ x Htm5) by (rewrite ?zlen_cons; lia). apply bool_decide_eq_true.
    rewrite list_lookup_insert_ne by lia. apply list_lookup_insert_eq. unfold zlen in *; lia.
  - cbn [sm_TM]. rewrite (tm_IsCommitted_ok _ _ y Htm5) by (rewrite ?zlen_cons; lia). apply bool_decide_eq_true.
    apply list_lookup_insert_eq. rewrite length_insert. unfold zlen in *; lia.
  - split; [eapply dm_Read_ok; [done|apply lookup_insert_eq]|split; [done|unfold is_u64, XID_LIMIT in *; lia]].
Qed.
End DoubleDelete.

(** * Concrete runs *)

(** The manager after a run, [NewSerializabilityManager] if it cannot run. *)
Definition sm_after (l : list action) : serializabilityManager transactionManager memDM :=
  match scenario l with
  | Some w => w_sm w
  | None => NewSerializabilityManager (mkTM (file_of []) 0) (mkMem ∅ 1)
  end.

(** A committed row [1] and a transaction [2] at the given level. *)
Definition committed_row (level : Z) : list action :=
  [ABegin 0; AInsert 1 [Byte.x41]; ACommit 1; AResume 1; AResume 1; ABegin level].

Ltac eval_working :=
  split_and!; [refine (bool_decide_eq_true_1 _ _); vm_compute; reflexivity|vm_compute; reflexivity..].

Ltac eval_row := split_and!; [vm_compute; reflexivity|done..].

Lemma Read_by_view_witness :
  let s := sm_after (committed_row 1) in
  let t := mkT 2 1 (Some {[0]}) None false in
  ∃ r, sm_Read 2 1 s = (s, Ret r) ∧ (r = Some [Byte.x41] ∨ r = None) ∧
    (r = Some [Byte.x41] ↔
      (1 = 2 ∨ in_view (sm_TM s) t 1 = true) ∧ (0 = 0 ∨ 0 ≠ 2 ∧ in_view (sm_TM s) t 0 = false)).
Proof.
  cbv zeta. apply (Read_by_view _ 2 (mkT 2 1 (Some {[0]}) None false) 1 1 0 [Byte.x41]);
    [eval_working|eval_row|by left].
Defined.

(** Two reads of a repeatable-read transaction around a committed deletion:
    of a row it sees, and of a row that it sees deleted. *)
Lemma repeatable_read_stable_witness :
  let s := sm_after (committed_row 1) in
  let s' := sm_after (committed_row 1 ++ [ABegin 0; ADelete [] 3 1; AResume 3; ACommit 3; AResume 3; AResume 3]) in
  let l := committed_row 0 ++ [ABegin 0; ADelete [] 2 1; AResume 2; ADelete [2] 3 1; ACommit 2; AResume 2;
    AResume 2; ABegin 1] in
  (sm_Read 2 1 s').2 = (sm_Read 2 1 s).2 ∧ (sm_Read 2 1 s).2 = Ret (Some [Byte.x41]) ∧
  (sm_Read 4 1 (sm_after l)).2 = Ret None ∧
  (sm_Read 4 1 (sm_after (l ++ [AResume 3]))).2 = Ret (Some [Byte.x41]).
Proof.
  cbv zeta. split; [|split; [vm_compute; reflexivity|]].
  - apply (repeatable_read_stable _ _ 2 (mkT 2 1 (Some {[0]}) None false) 1 1 0 3 [Byte.x41]);
      [eval_working|eval_working|done|eval_row|eval_row|done|done| | |].
    + intros x [Hx _]. cbn in Hx. assert (x = 0 ∨ x = 1) as [-> | ->] by lia; vm_compute; reflexivity.
    + right. split; [|done]. intros [Hc _]. cbn in Hc. lia.
    + intros [_ [? _]]. done.
  - match goal with |- (sm_Read 4 1 ?s).2 = _ ∧ (sm_Read 4 1 ?s').2 = _ =>
      destruct (repeatable_read_stable s s' 4 (mkT 4 1 (Some {[0; 3]}) None false) 1 1 2 3 [Byte.x41])
        as [_ Hback]; [eval_working|eval_working|done|eval_row|eval_row|done|done| | |] end.
    + intros x [Hx Hs]. cbn in Hx.
      assert (x = 0 ∨ x = 1 ∨ x = 2 ∨ x = 3) as [-> |[-> |[-> | ->]]] by lia; [vm_compute; reflexivity..|].
      vm_compute in Hs; discriminate Hs.
    + right. split; [|done]. intros [_ Hs]. vm_compute in Hs; discriminate Hs.
    + destruct Hback as [H1 H2]; [split; [done|]; split; [done|right; vm_compute; reflexivity]|].
      split; [exact H1|]. rewrite H2. vm_compute. reflexivity.
Defined.

Lemma Delete_locked_behaviour_witness :
  let s := sm_after (committed_row 1) in
  let d' := mkMem {[1 := mk_entry 1 2 [Byte.x41]]} 2 in
  Delete_locked 2 1 s = (set_DM d' s, Ret (DeleteDone true)) ∧
  sm_Read 2 1 (set_DM d' s) = (set_DM d' s, Ret None).
Proof.
  cbv zeta.
  refine (Delete_locked_behaviour (sm_after (committed_row 1)) 2 (mkT 2 1 (Some {[0]}) None false) 1 1 0 [Byte.x41]
    (mkMem {[1 := mk_entry 1 2 [Byte.x41]]} 2) _ _ _ _ _);
    [eval_working|eval_row|done|vm_compute; reflexivity|vm_compute; reflexivity].
Defined.

Lemma Insert_then_Read_witness :
  let s := sm_after [ABegin 0; ABegin 0] in
  ∃ s' uuid, sm_Insert 1 [Byte.x42] s = (s', Ret uuid) ∧
    sm_Read 1 uuid s' = (s', Ret (Some [Byte.x42])) ∧
    ∀ xid' t', working s xid' t' → xid' ≠ 1 → tm_IsCommitted (sm_TM s) 1 = false →
      sm_Read xid' uuid s' = (s', Ret None).
Proof.
  cbv zeta. apply (Insert_then_Read (sm_after [ABegin 0; ABegin 0]) 1 (mkT 1 0 None None false) [Byte.x42] ∅);
    [eval_working|done|done|split_and!; [done|vm_compute; done|done]|vm_compute; done|vm_compute; done].
Defined.

(** Two repeatable-read transactions want the same row; the second gets it
    after the first committed and has failed. *)
Definition conflict_run : list action :=
  committed_row 1 ++ [ABegin 1; ADelete [] 2 1; AResume 2; ADelete [2] 3 1; ACommit 2; AResume 2; AResume 2; AResume 3].

Lemma conflict_is_final_witness :
  ∃ s', (∀ A, @auto_abort transactionManager _ memDM A 3 (sm_after conflict_run) = (s', Err ErrCannotSR)) ∧
    tm_rep (sm_TM s') (<[Z.to_nat (3 - 1) := Aborted]> [Committed; Committed; Active]) ∧
    sm_lt s' = (LockTable.Remove 3 (sm_lt (sm_after conflict_run))).1 ∧ sm_DM s' = sm_DM (sm_after conflict_run) ∧
    (∀ uuid, sm_Read 3 uuid s' = (s', Err ErrCannotSR)) ∧
    (∀ data, sm_Insert 3 data s' = (s', Err ErrCannotSR)) ∧
    (∀ order uuid, sm_Delete order 3 uuid s' = (s', Err ErrCannotSR)) ∧
    sm_Commit 3 s' = (s', Err ErrCannotSR) ∧
    sm_Abort 3 s' = (set_tc (sm_tc s' ∖ {[3]}) s', Ret tt).
Proof.
  apply (conflict_is_final (sm_after conflict_run) 3 (mkT 3 1 (Some {[0; 2]}) (Some ErrCannotSR) false)).
  - refine (bool_decide_eq_true_1 _ _). vm_compute. reflexivity.
  - vm_compute. reflexivity.
  - done.
  - done.
  - split_and!; [split; vm_compute; reflexivity|vm_compute; done|vm_compute; reflexivity|vm_compute; reflexivity].
  - done.
  - vm_compute. reflexivity.
Defined.

Lemma transaction_lifecycle_witness :
  match scenario conflict_run with
  | None => False
  | Some w => ∃ sts, tm_rep (sm_TM (w_sm w)) sts ∧
      ∀ xid t, sm_txs (w_sm w) !! xid = Some t → xid ≠ 0 →
      ∃ st, sts !! Z.to_nat (xid - 1) = Some st ∧
        (t_Err t ≠ None ∨ xid ∈ sm_tc (w_sm w) → st ≠ Committed) ∧
        (w_act w !! xid = None → xid ∈ sm_tc (w_sm w) → (t_Err t = None ↔ st = Active)) ∧
        (w_act w !! xid = None → xid ∉ sm_tc (w_sm w) → st ≠ Active)
  end.
Proof.
  destruct (scenario conflict_run) as [w|] eqn:Es; [|vm_compute in Es; discriminate].
  apply (transaction_lifecycle (mkTM (file_of (make_bytes 8)) 0) (mkMem ∅ 1) conflict_run w).
  - split_and!; [split; vm_compute; reflexivity|vm_compute; done|done|vm_compute; reflexivity].
  - vm_compute. done.
  - unfold conflict_run, committed_row. repeat constructor; done.
  - rewrite <- Es. vm_compute. reflexivity.
Defined.

(** * What interleavings can do *)

Lemma read_committed_double_delete_witness :
  let s := sm_after (committed_row 0 ++ [ABegin 0]) in
  ∃ s1 s2 s3 s4 s5 ch,
    sm_Delete [] 2 1 s = (s1, Ret true) ∧
    Delete_request [2] 3 1 s1 = (s2, Ret (DeleteWait ch)) ∧ chans (sm_lt s2) !! ch = Some false ∧
    sm_Commit 2 s2 = (s3, Ret tt) ∧ chans (sm_lt s3) !! ch = Some true ∧
    Delete_locked 3 1 s3 = (s4, Ret (DeleteDone true)) ∧
    sm_Commit 3 s4 = (s5, Ret tt) ∧
    tm_IsCommitted (sm_TM s5) 2 = true ∧ tm_IsCommitted (sm_TM s5) 3 = true ∧
    row_at s5 1 1 3 [Byte.x41].
Proof.
  cbv zeta.
  assert (Hlt : sm_lt (sm_after (committed_row 0 ++ [ABegin 0])) = NewLockTable) by (vm_compute; reflexivity).
  apply (read_committed_double_delete (sm_after (committed_row 0 ++ [ABegin 0])) [Committed; Active; Active]
    {[1 := mk_entry 1 0 [Byte.x41]]} 2 3 (mkT 2 0 None None false) (mkT 3 0 None None false) 1 1 [Byte.x41] [] [2]);
    rewrite ?Hlt; clear Hlt.
  - split_and!; [split; vm_compute; reflexivity|vm_compute; done|vm_compute; reflexivity|vm_compute; reflexivity].
  - split_and!; [vm_compute; reflexivity|vm_compute; reflexivity|].
    intros uid Hu. vm_compute in Hu. apply lookup_singleton_ne. intros <-. by apply Hu.
  - by apply rtc_refl.
  - eval_working.
  - eval_working.
  - lia.
  - by vm_compute.
  - by vm_compute.
  - by vm_compute.
  - reflexivity.
  - reflexivity.
  - reflexivity.
  - done.
  - done.
  - reflexivity.
  - done.
  - vm_compute. reflexivity.
  - vm_compute. reflexivity.
  - apply idleb_idle. reflexivity.
  - apply idleb_idle. reflexivity.
  - reflexivity.
  - intros z (w & _ & Hw). inversion Hw; subst; unfold edge, next in *; cbn in *; discriminate.
Defined.

(** [Commit] takes the transaction out of the cache and releases its row
    locks before the transaction manager records the commit.  In that window a
    transaction that begins counts the committing one neither as active nor as
    committed: a repeatable-read transaction then reads the same row twice
    with different answers, and two repeatable-read transactions both delete
    the same row and both commit. *)
Theorem commit_window :
  events [ABegin 0; AInsert 1 [Byte.x41]; ACommit 1; ABegin 1; ARead 2 1; AResume 1; AResume 1; ARead 2 1] =
    [EvBegin 1; EvInsert 1 1; EvBegin 2; EvRead 2 1 None; EvCommit 1; EvRead 2 1 (Some [Byte.x41])] ∧
  events (committed_row 1 ++ [ABegin 1; ADelete [] 2 1; AResume 2; ADelete [2] 3 1; ACommit 2; AResume 2;
    AResume 3; AResume 2; ACommit 3; AResume 3; AResume 3]) =
    [EvBegin 1; EvInsert 1 1; EvCommit 1; EvBegin 2; EvBegin 3; EvDelete 2 1 true; EvDelete 3 1 true;
     EvCommit 2; EvCommit 3].
Proof. split; vm_compute; reflexivity. Qed.
