(* ===== verification/Parser.v ===== *)
(** Package [parser]: the tokener ([tokener.go]), the statements
    ([statement/statement.go]) and the recursive-descent parser ([parser.go]). *)
From S2P Require Import Prelude.
From S2P Require Import Codec.
From stdpp Require Import strings.
Local Open Scope Z_scope.
Local Open Scope string_scope.

(** * tokener.go *)

Record tokener := mkTk {
  stat : list byte;
  pos : Z;
  curToken : string;
  flushToken : bool;
  tk_err : option goerror
}.

Definition set_pos p tk := mkTk (stat tk) p (curToken tk) (flushToken tk) (tk_err tk).
Definition set_cur t tk := mkTk (stat tk) (pos tk) t (flushToken tk) (tk_err tk).
Definition set_flush f tk := mkTk (stat tk) (pos tk) (curToken tk) f (tk_err tk).
Definition set_err e tk := mkTk (stat tk) (pos tk) (curToken tk) (flushToken tk) (Some e).

Definition newTokener (s : list byte) : tokener := mkTk s 0 "" true None.

Definition popByte : M tokener unit :=
  _ ← modify (λ tk, set_pos (pos tk + 1) tk);
  modify (λ tk, if decide (zlen (stat tk) < pos tk) then set_pos (zlen (stat tk)) tk else tk).

Definition peekByte : M tokener (byte * bool) :=
  tk ← get;
  if decide (pos tk = zlen (stat tk)) then mret (Byte.x00, true)
  else b ← lift (idx (stat tk) (pos tk)); mret (b, false).

Definition is_char (b : byte) (c : string) : bool := bool_decide (str_bytes c = [b]).

Definition between (lo hi : Z) (b : byte) : bool :=
  bool_decide (lo ≤ byte.unsigned b ≤ hi)%Z.

Definition isSymbol (b : byte) : bool :=
  is_char b ">" || is_char b "<" || is_char b "=" || is_char b "*" || is_char b "," || is_char b "(" || is_char b ")" ||
  is_char b "{" || is_char b "}" || is_char b "!".

(** ['a'..'z'] and ['A'..'Z'] *)
Definition isAlphaBeta (b : byte) : bool := between 97 122 b || between 65 90 b.

Definition isDigital (b : byte) : bool := between 48 57 b.

Definition isBlank (b : byte) : bool :=
  bool_decide (byte.unsigned b = 10) || is_char b " " || bool_decide (byte.unsigned b = 9).

(** A double or a single quote. *)
Definition isQuote (b : byte) : bool :=
  bool_decide (byte.unsigned b = 34) || bool_decide (byte.unsigned b = 39).

(** The loops over the statement consume a byte per turn. *)
Definition loop_fuel (tk : tokener) : nat := S (length (stat tk)).

Fixpoint tokenLoop (fuel : nat) (tmp : list byte) : M tokener string :=
  match fuel with
  | O => lift OutOfFuel
  | S fuel' =>
      '(b, eof) ← peekByte;
      if eof || negb (isAlphaBeta b || isDigital b) then
        _ ← (if isBlank b then popByte else mret tt);
        mret (bytes_str tmp)
      else
        _ ← popByte; tokenLoop fuel' (tmp ++ [b])
  end.

Definition nextTokenState : M tokener string := tk ← get; tokenLoop (loop_fuel tk) [].

Fixpoint quoteLoop (fuel : nat) (quote : byte) (tmp : list byte) : M tokener string :=
  match fuel with
  | O => lift OutOfFuel
  | S fuel' =>
      '(b, eof) ← peekByte;
      if (eof : bool) then _ ← modify (set_err ErrInvalidStat); fail ErrInvalidStat
      else if decide (b = quote) then _ ← popByte; mret (bytes_str tmp)
      else _ ← popByte; quoteLoop fuel' quote (tmp ++ [b])
  end.

Definition nextQuoteState : M tokener string :=
  '(quote, _) ← peekByte;
  _ ← popByte;
  tk ← get; quoteLoop (loop_fuel tk) quote [].

(** The loop over blanks; [true] at the end of the statement. *)
Fixpoint blankLoop (fuel : nat) : M tokener bool :=
  match fuel with
  | O => lift OutOfFuel
  | S fuel' =>
      '(b, eof) ← peekByte;
      if (eof : bool) then mret true
      else if isBlank b then _ ← popByte; blankLoop fuel'
      else mret false
  end.

Definition nextMetaState : M tokener string :=
  tk ← get;
  eof ← blankLoop (loop_fuel tk);
  if (eof : bool) then mret ""
  else
    '(b, _) ← peekByte;
    if isSymbol b then _ ← popByte; mret (bytes_str [b])
    else if isQuote b then nextQuoteState
    else if isAlphaBeta b || isDigital b then nextTokenState
    else _ ← modify (set_err ErrInvalidStat); fail ErrInvalidStat.

Definition next : M tokener string :=
  tk ← get;
  match tk_err tk with
  | Some e => fail e
  | None => nextMetaState
  end.

Definition Peek : M tokener string :=
  tk ← get;
  match tk_err tk with
  | Some e => fail e
  | None =>
      _ ← (if flushToken tk then
             catch next
               (λ token, _ ← modify (set_cur token); modify (set_flush false))
               (λ err, _ ← modify (set_err err); fail err)
           else mret tt);
      tk ← get;
      mret (curToken tk)
  end.

Definition Pop : M tokener unit := modify (set_flush true).

Definition ErrStat (tk : tokener) : outcome (list byte) :=
  let tmp := make_bytes (zlen (stat tk) + 3) in
  s1 ← slice (stat tk) 0 (pos tk);
  let tmp := copy_at tmp 0 s1 in
  let tmp := copy_at tmp (pos tk) (str_bytes "<< ") in
  s2 ← slice_from (stat tk) (pos tk);
  Ret (copy_at tmp (pos tk + 3) s2).

(** * statement.go *)

Record Begin := mkBegin { IsRepeatableRead : bool }.
Record Drop := mkDrop { Drop_TableName : string }.
Record Create := mkCreate {
  Create_TableName : string; Create_FieldName : list string; Create_FieldType : list string;
  Create_Index : list string }.
Record SingleExp := mkExp { Exp_Field : string; CmpOp : string; Exp_Value : string }.
Record Where := mkWhere { SingleExp1 : SingleExp; LogicOp : string; SingleExp2 : option SingleExp }.
Record Update := mkUpdate {
  Update_TableName : string; Update_FieldName : string; Update_Value : string;
  Update_Where : option Where }.
Record Delete := mkDelete { Delete_TableName : string; Delete_Where : option Where }.
Record Insert := mkInsert {
  Insert_TableName : string; Values : list string; ValuesList : list (list string) }.
Record Aggregate := mkAgg { Func : string; Agg_Field : string }.
Record Read := mkRead {
  Read_TableName : string; Fields : list string; Aggregates : list Aggregate;
  Read_Where : option Where; OrderBy : string; OrderDesc : bool; Limit : Z; Offset : Z }.

Inductive Statement :=
| SBegin (s : Begin)
| SCommit
| SAbort
| SDrop (s : Drop)
| SShow
| SCreate (s : Create)
| SUpdate (s : Update)
| SDelete (s : Delete)
| SInsert (s : Insert)
| SRead (s : Read).

(** * parser.go *)

Section Parsers.
Local Abbreviation P := (M tokener).

Definition invalid {A} : P A := fail ErrInvalidStat.

(** [token, err := tokener.Peek(); if err != nil { return nil, err }], with the
    token compared to a keyword. *)
Definition keyword (k : string) : P unit :=
  t ← Peek;
  if decide (t ≠ k) then invalid else mret tt.

Definition isLogicOp (op : string) : bool := bool_decide (op = "and") || bool_decide (op = "or").

Definition isAggFunc (name : string) : bool :=
  bool_decide (name = "count") || bool_decide (name = "sum") || bool_decide (name = "avg") ||
  bool_decide (name = "min") || bool_decide (name = "max").

Definition isType (tp : string) : bool :=
  bool_decide (tp = "uint32") || bool_decide (tp = "uint64") || bool_decide (tp = "string").

Definition isName (name : string) : bool :=
  negb match str_bytes name with [b] => negb (isAlphaBeta b) | _ => false end.

Definition isCmpOp (op : string) : bool :=
  bool_decide (op = "=") || bool_decide (op = ">") || bool_decide (op = "<") ||
  bool_decide (op = "!=") || bool_decide (op = "<=") || bool_decide (op = ">=").

(** [for _, c := range s]: a byte of a multi-byte rune is no digit either. *)
Definition utilsStrToInt (s : string) : outcome Z :=
  foldl (λ acc c, n ← acc;
    if decide (c < 48 ∨ 57 < c)%Z then Err ErrInvalidStat else Ret (i64 (i64 (n * 10) + (c - 48)))) (Ret 0) (range_str s).

(** [name, err := tokener.Peek(); ...; if isName(name) == false { ... }] *)
Definition name : P string :=
  n ← Peek;
  if isName n then mret n else invalid.

Definition parseSingleExpr : P SingleExp :=
  field ← name;
  _ ← Pop;
  op ← Peek;
  _ ← Pop;
  op ← (if bool_decide (op = "<") || bool_decide (op = ">") || bool_decide (op = "!") then
          next ← Peek;
          if decide (next = "=") then _ ← Pop; mret (op +:+ "=") else mret op
        else mret op);
  if negb (isCmpOp op) then invalid
  else
    value ← Peek;
    _ ← Pop;
    mret (mkExp field op value).

Definition parseWhere : P Where :=
  _ ← keyword "where";
  _ ← Pop;
  sexp1 ← parseSingleExpr;
  logicOp ← Peek;
  if bool_decide (logicOp = "") || negb (isLogicOp logicOp) then mret (mkWhere sexp1 "" None)
  else
    _ ← Pop;
    sexp2 ← parseSingleExpr;
    _ ← keyword "";
    mret (mkWhere sexp1 logicOp (Some sexp2)).

Definition parseShow : P Statement := _ ← keyword ""; mret SShow.
Definition parseCommit : P Statement := _ ← keyword ""; mret SCommit.
Definition parseAbort : P Statement := _ ← keyword ""; mret SAbort.

Definition parseUpdate : P Statement :=
  tableName ← Peek;
  _ ← Pop;
  _ ← keyword "set";
  _ ← Pop;
  fieldName ← Peek;
  _ ← Pop;
  _ ← keyword "=";
  _ ← Pop;
  value ← Peek;
  _ ← Pop;
  tmp ← Peek;
  if decide (tmp = "") then mret (SUpdate (mkUpdate tableName fieldName value None))
  else
    where_ ← parseWhere;
    mret (SUpdate (mkUpdate tableName fieldName value (Some where_))).

Definition parseDelete : P Statement :=
  _ ← keyword "from";
  _ ← Pop;
  tableName ← name;
  _ ← Pop;
  where_ ← parseWhere;
  mret (SDelete (mkDelete tableName (Some where_))).

Definition parseDrop : P Statement :=
  _ ← keyword "table";
  _ ← Pop;
  tableName ← name;
  _ ← Pop;
  _ ← keyword "";
  mret (SDrop (mkDrop tableName)).

(** The values of a single row: [Pop], [Peek] until the end. *)
Fixpoint valuesLoop (fuel : nat) (values : list string) : P (list string) :=
  match fuel with
  | O => lift OutOfFuel
  | S fuel' =>
      _ ← Pop;
      value ← Peek;
      if decide (value = "") then mret values
      else valuesLoop fuel' (values ++ [value])
  end.

(** One row of a bulk insert, up to its closing brace. *)
Fixpoint rowLoop (fuel : nat) (row : list string) : P (list string) :=
  match fuel with
  | O => lift OutOfFuel
  | S fuel' =>
      _ ← Pop;
      value ← Peek;
      if decide (value = "") then invalid
      else if decide (value = "}") then mret row
      else if decide (value = ",") then rowLoop fuel' row
      else rowLoop fuel' (row ++ [value])
  end.

Fixpoint bulkLoop (fuel : nat) (rows : list (list string)) : P (list (list string)) :=
  match fuel with
  | O => lift OutOfFuel
  | S fuel' =>
      tk ← get;
      row ← rowLoop (loop_fuel tk) [];
      let rows := (rows ++ [row])%list in
      _ ← Pop;
      next ← Peek;
      if decide (next = "") then mret rows
      else if decide (next = ",") then
        _ ← Pop;
        _ ← keyword "{";
        bulkLoop fuel' rows
      else invalid
  end.

Definition parseInsertBulk (tableName : string) : P Statement :=
  tk ← get;
  rows ← bulkLoop (loop_fuel tk) [];
  mret (SInsert (mkInsert tableName [] rows)).

Definition parseInsert : P Statement :=
  _ ← keyword "into";
  _ ← Pop;
  tableName ← name;
  _ ← Pop;
  _ ← keyword "values";
  _ ← Pop;
  first ← Peek;
  if decide (first = "") then invalid
  else if decide (first = "{") then parseInsertBulk tableName
  else
    tk ← get;
    values ← valuesLoop (loop_fuel tk) [first];
    mret (SInsert (mkInsert tableName values [])).

(** [x, err := tokener.Peek(); if err != nil || x != k { return nil, ErrInvalidStat }] *)
Definition keyword_or_invalid (k : string) : P unit :=
  catch Peek (λ t, if decide (t ≠ k) then invalid else mret tt) (λ _, invalid).

Definition parseAggregate (field : string) : P Aggregate :=
  _ ← Pop;
  _ ← keyword_or_invalid "(";
  _ ← Pop;
  arg ← Peek;
  agg ← (if bool_decide (arg = "*") && bool_decide (field = "count") then _ ← Pop; mret (mkAgg field "*")
         else if isName arg then _ ← Pop; mret (mkAgg field arg)
         else invalid);
  _ ← keyword_or_invalid ")";
  _ ← Pop;
  mret agg.

(** The list of fields and aggregates. *)
Fixpoint fieldsLoop (fuel : nat) (fields : list string) (aggs : list Aggregate)
    : P (list string * list Aggregate) :=
  match fuel with
  | O => lift OutOfFuel
  | S fuel' =>
      field ← Peek;
      '(fields, aggs) ←
        (if isAggFunc field then agg ← parseAggregate field; mret (fields, (aggs ++ [agg])%list)
         else if isName field then _ ← Pop; mret ((fields ++ [field])%list, aggs)
         else invalid);
      comma ← Peek;
      if decide (comma = ",") then _ ← Pop; fieldsLoop fuel' fields aggs
      else mret (fields, aggs)
  end.

Definition parseOrderBy : P (string * bool) :=
  tmp ← Peek;
  if decide (tmp = "order") then
    _ ← Pop;
    _ ← keyword_or_invalid "by";
    _ ← Pop;
    field ← catch Peek (λ f, if isName f then mret f else invalid) (λ _, invalid);
    _ ← Pop;
    desc ← catch Peek
      (λ dir, if decide (dir = "desc") then _ ← Pop; mret true
              else if decide (dir = "asc") then _ ← Pop; mret false
              else mret false)
      (λ _, mret false);
    mret (field, desc)
  else mret ("", false).

(** [v, err := utilsStrToInt(s); if err != nil { return nil, ErrInvalidStat }] *)
Definition number : P Z :=
  s ← Peek;
  match utilsStrToInt s with
  | Ret n => _ ← Pop; mret n
  | _ => invalid
  end.

Definition parseLimit : P (Z * Z) :=
  tmp ← Peek;
  if decide (tmp = "limit") then
    _ ← Pop;
    limit ← number;
    offset ← catch Peek
      (λ off, if decide (off = "offset") then _ ← Pop; number else mret 0)
      (λ _, mret 0);
    mret (limit, offset)
  else mret (0, 0).

Definition parseRead : P Statement :=
  asterisk ← Peek;
  '(fields, aggs) ←
    (if decide (asterisk = "*") then _ ← Pop; mret (["*"], [])
     else tk ← get; fieldsLoop (loop_fuel tk) [] []);
  _ ← keyword "from";
  _ ← Pop;
  tableName ← name;
  _ ← Pop;
  tmp ← Peek;
  if decide (tmp = "") then mret (SRead (mkRead tableName fields aggs None "" false 0 0))
  else
    where_ ← (if decide (tmp = "where") then w ← parseWhere; mret (Some w) else mret None);
    '(orderBy, desc) ← parseOrderBy;
    '(limit, offset) ← parseLimit;
    mret (SRead (mkRead tableName fields aggs where_ orderBy desc limit offset)).

(** Ends with the fields and types, and whether an index clause follows. *)
Fixpoint columnsLoop (fuel : nat) (names types : list string) : P (list string * list string * bool) :=
  match fuel with
  | O => lift OutOfFuel
  | S fuel' =>
      _ ← Pop;
      field ← Peek;
      if decide (field = "(") then mret (names, types, true)
      else if negb (isName field) then invalid
      else
        _ ← Pop;
        ftype ← Peek;
        if negb (isType ftype) then invalid
        else
          let names := (names ++ [field])%list in
          let types := (types ++ [ftype])%list in
          _ ← Pop;
          next ← Peek;
          if decide (next = ",") then columnsLoop fuel' names types
          else if decide (next = "") then _ ← keyword ""; mret (names, types, false)
          else if decide (next = "(") then mret (names, types, true)
          else invalid
  end.

Fixpoint indexLoop (fuel : nat) (index : list string) : P (list string) :=
  match fuel with
  | O => lift OutOfFuel
  | S fuel' =>
      _ ← Pop;
      field ← Peek;
      if decide (field = ")") then mret index
      else if negb (isName field) then invalid
      else indexLoop fuel' (index ++ [field])
  end.

Definition parseCreate : P Statement :=
  _ ← keyword "table";
  _ ← Pop;
  tableName ← name;
  tk ← get;
  '(names, types, more) ← columnsLoop (loop_fuel tk) [] [];
  if negb more then mret (SCreate (mkCreate tableName names types []))
  else
    _ ← Pop;
    _ ← keyword "index";
    index ← indexLoop (loop_fuel tk) [];
    _ ← Pop;
    _ ← keyword "";
    mret (SCreate (mkCreate tableName names types index)).

Definition parseBegin : P Statement :=
  isolation ← Peek;
  if decide (isolation = "") then mret (SBegin (mkBegin false))
  else if decide (isolation ≠ "isolation") then invalid
  else
    _ ← Pop;
    _ ← keyword "level";
    _ ← Pop;
    tmp1 ← Peek;
    if decide (tmp1 = "read") then
      _ ← Pop;
      tmp2 ← Peek;
      if decide (tmp2 = "committed") then
        _ ← Pop; _ ← keyword ""; mret (SBegin (mkBegin false))
      else invalid
    else if decide (tmp1 = "repeatable") then
      _ ← Pop;
      tmp2 ← Peek;
      if decide (tmp2 = "read") then
        _ ← Pop; _ ← keyword ""; mret (SBegin (mkBegin true))
      else invalid
    else invalid.

Definition dispatch (token : string) : option (P Statement) :=
  match token with
  | "begin" => Some parseBegin
  | "commit" => Some parseCommit
  | "abort" => Some parseAbort
  | "create" => Some parseCreate
  | "drop" => Some parseDrop
  | "read" | "select" => Some parseRead
  | "insert" => Some parseInsert
  | "delete" => Some parseDelete
  | "update" => Some parseUpdate
  | "show" => Some parseShow
  | _ => None
  end.

(** The error of a statement with tokens left over. *)
Definition unexpected (errStat : list byte) : goerror :=
  ErrMsg (str_bytes "unexpected token after statement at: " ++ errStat ++
    str_bytes ". Hint: check syntax — ORDER BY comes after WHERE, LIMIT after ORDER BY").

(** After the parser: the error of this [Peek] is dropped. *)
Definition check_rest (parser : P Statement) : P Statement := λ tk,
  let '(tk, result) := parser tk in
  match result with
  | Panic | OutOfFuel => (tk, result)
  | _ =>
      match Peek tk with
      | (tk, Ret next) =>
          if decide (next ≠ "") then
            (tk, errStat ← ErrStat tk; Err (unexpected errStat))
          else (tk, result)
      | (tk, Err _) => (tk, result)
      | (tk, Panic) => (tk, Panic)
      | (tk, OutOfFuel) => (tk, OutOfFuel)
      end
  end.

Definition parse_statement : P Statement :=
  token ← Peek;
  _ ← Pop;
  match dispatch token with
  | None => invalid
  | Some parser => check_rest parser
  end.

Definition Parse (statement : list byte) : outcome Statement := (parse_statement (newTokener statement)).2.
End Parsers.

(** * The tokener against a lexer on the remaining bytes *)

Definition isWord (b : byte) : bool := isAlphaBeta b || isDigital b.

Fixpoint skip (l : list byte) : list byte :=
  match l with
  | [] => []
  | b :: l' => if isBlank b then skip l' else l
  end.

Fixpoint word (l : list byte) : list byte * list byte :=
  match l with
  | [] => ([], [])
  | b :: l' => if isWord b then let '(w, r) := word l' in (b :: w, r) else ([], l)
  end.

Definition drop_blank (l : list byte) : list byte :=
  match l with
  | b :: l' => if isBlank b then l' else l
  | [] => []
  end.

Fixpoint quoted (q : byte) (l : list byte) : option (list byte * list byte) :=
  match l with
  | [] => None
  | b :: l' => if decide (b = q) then Some ([], l') else '(w, r) ← quoted q l'; Some (b :: w, r)
  end.

(** The next token of [l] and what is left; the empty token at the end. *)
Definition lex_one (l : list byte) : option (list byte * list byte) :=
  match skip l with
  | [] => Some ([], [])
  | b :: r =>
      if isSymbol b then Some ([b], r)
      else if isQuote b then quoted b r
      else if isWord b then let '(w, r') := word (b :: r) in Some (w, drop_blank r')
      else None
  end.

(** The tokener standing before the bytes [l], a suffix of its statement. *)
Definition goto (l : list byte) (tk : tokener) : tokener := set_pos (zlen (stat tk) - zlen l) tk.
Definition suff (tk : tokener) (l : list byte) : Prop := ∃ pre, stat tk = (pre ++ l)%list.

Lemma suff_cons tk b l : suff tk (b :: l) → suff tk l.
Proof. intros [pre H]. exists (pre ++ [b])%list. by rewrite <- app_assoc. Qed.

Lemma suff_length tk l : suff tk l → (length l ≤ length (stat tk))%nat.
Proof. intros [pre ->]. rewrite length_app. lia. Qed.

Lemma peekByte_goto tk l :
  suff tk l → peekByte (goto l tk) = (goto l tk, Ret match l with [] => (Byte.x00, true) | b :: _ => (b, false) end).
Proof.
  intros [pre H]. unfold peekByte. rewrite M_get_bind. cbn [pos goto set_pos stat].
  destruct l as [|b l]; [by rewrite decide_True by zlen_lia|]. rewrite decide_False by zlen_lia.
  rewrite (idx_Ret _ _ b); [done|rewrite H; zlen_lia|]. rewrite H.
  rewrite lookup_app_r by zlen_lia. replace (_ - _)%nat with 0%nat by zlen_lia. done.
Qed.

Lemma popByte_goto tk b l : suff tk (b :: l) → popByte (goto (b :: l) tk) = (goto l tk, Ret tt).
Proof.
  intros [pre H]. unfold popByte, modify, mbind, M_bind. cbn [pos goto set_pos stat].
  rewrite decide_False by (rewrite H; zlen_lia). unfold goto, set_pos. cbn. do 2 f_equal. zlen_lia.
Qed.

Lemma blankLoop_run fuel tk l :
  suff tk l → (length l < fuel)%nat →
  blankLoop fuel (goto l tk) = (goto (skip l) tk, Ret (bool_decide (skip l = []))) ∧ suff tk (skip l).
Proof.
  revert l. induction fuel as [|fuel IH]; intros l Hs Hf; [lia|]. cbn [blankLoop].
  rewrite (M_bind_run _ _ _ _ _ (peekByte_goto tk l Hs)). destruct l as [|b l]; cbn [skip]; [done|].
  destruct (isBlank b); [|by rewrite bool_decide_eq_false_2].
  rewrite (M_bind_run _ _ _ _ _ (popByte_goto tk b l Hs)). apply IH; [by eapply suff_cons|cbn in Hf; lia].
Qed.

Lemma tokenLoop_run fuel tk l tmp :
  suff tk l → (length l < fuel)%nat →
  tokenLoop fuel tmp (goto l tk) =
    (goto (drop_blank (word l).2) tk, Ret (bytes_str (tmp ++ (word l).1))) ∧ suff tk (drop_blank (word l).2).
Proof.
  revert l tmp. induction fuel as [|fuel IH]; intros l tmp Hs Hf; [lia|]. cbn [tokenLoop].
  rewrite (M_bind_run _ _ _ _ _ (peekByte_goto tk l Hs)). destruct l as [|b l]; cbn [word].
  { cbn. by rewrite app_nil_r. }
  fold (isWord b). destruct (isWord b) eqn:Ew; cbn [negb orb].
  - rewrite (M_bind_run _ _ _ _ _ (popByte_goto tk b l Hs)).
    destruct (IH l (tmp ++ [b])%list) as [-> Hs']; [by eapply suff_cons|cbn in Hf; lia|].
    destruct (word l) as [w r]. cbn in *. by rewrite <- app_assoc.
  - cbn [fst snd drop_blank]. rewrite app_nil_r. destruct (isBlank b) eqn:Eb.
    + rewrite (M_bind_run _ _ _ _ _ (popByte_goto tk b l Hs)). split; [done|by eapply suff_cons].
    + done.
Qed.

Lemma quoteLoop_run fuel q tk l tmp :
  suff tk l → (length l < fuel)%nat →
  match quoted q l with
  | Some (w, r) => quoteLoop fuel q tmp (goto l tk) = (goto r tk, Ret (bytes_str (tmp ++ w))) ∧ suff tk r
  | None => quoteLoop fuel q tmp (goto l tk) = (set_err ErrInvalidStat (goto [] tk), Err ErrInvalidStat)
  end.
Proof.
  revert l tmp. induction fuel as [|fuel IH]; intros l tmp Hs Hf; [lia|]. cbn [quoteLoop].
  rewrite (M_bind_run _ _ _ _ _ (peekByte_goto tk l Hs)). destruct l as [|b l]; cbn [quoted]; [done|].
  case_decide as Eb.
  - rewrite (M_bind_run _ _ _ _ _ (popByte_goto tk b l Hs)). rewrite app_nil_r. split; [done|by eapply suff_cons].
  - rewrite (M_bind_run _ _ _ _ _ (popByte_goto tk b l Hs)).
    specialize (IH l (tmp ++ [b])%list ltac:(by eapply suff_cons) ltac:(cbn in Hf; lia)).
    destruct (quoted q l) as [[w r]|]; cbn; [by rewrite <- app_assoc in IH|done].
Qed.

Lemma skip_length l : (length (skip l) ≤ length l)%nat.
Proof. induction l as [|b l IH]; cbn; [lia|]. destruct (isBlank b); cbn; lia. Qed.

(** [nextMetaState] is [lex_one]. *)
Lemma nextMetaState_run tk l :
  suff tk l →
  match lex_one l with
  | Some (t, r) => nextMetaState (goto l tk) = (goto r tk, Ret (bytes_str t)) ∧ suff tk r
  | None => ∃ l', nextMetaState (goto l tk) = (set_err ErrInvalidStat (goto l' tk), Err ErrInvalidStat) ∧ suff tk l' ∧
      (length l' ≤ length l)%nat
  end.
Proof.
  intros Hs. unfold nextMetaState, lex_one. rewrite M_get_bind. pose proof (suff_length _ _ Hs).
  destruct (blankLoop_run (loop_fuel (goto l tk)) tk l Hs) as [Hb Hs']; [unfold loop_fuel; cbn; lia|].
  rewrite (M_bind_run _ _ _ _ _ Hb). destruct (skip l) as [|b r] eqn:El; cbn [bool_decide]; [done|].
  rewrite bool_decide_eq_false_2 by done. rewrite (M_bind_run _ _ _ _ _ (peekByte_goto tk _ Hs')).
  destruct (isSymbol b). { rewrite (M_bind_run _ _ _ _ _ (popByte_goto tk b r Hs')). split; [done|by eapply suff_cons]. }
  pose proof (suff_length _ _ Hs'). cbn in *.
  destruct (isQuote b).
  { unfold nextQuoteState. rewrite (M_bind_run _ _ _ _ _ (peekByte_goto tk _ Hs')).
    rewrite (M_bind_run _ _ _ _ _ (popByte_goto tk b r Hs')), M_get_bind.
    pose proof (quoteLoop_run (loop_fuel (goto r tk)) b tk r [] ltac:(by eapply suff_cons) ltac:(unfold loop_fuel; cbn; lia)) as Hq.
    destruct (quoted b r) as [[w r']|]; [done|]. exists []. split_and!; [done| |cbn; lia].
    exists (stat tk). by rewrite app_nil_r. }
  unfold isWord. destruct (isAlphaBeta b || isDigital b) eqn:Ew.
  - unfold nextTokenState. rewrite M_get_bind.
    destruct (tokenLoop_run (loop_fuel (goto (b :: r) tk)) tk (b :: r) [] Hs') as [Ht Hs2]; [unfold loop_fuel; cbn; lia|].
    rewrite Ht. cbn [word] in *. unfold isWord in *. rewrite Ew in *. by destruct (word r) as [w r'].
  - exists (b :: r). split_and!; [done..|]. rewrite <- El. apply skip_length.
Qed.

(** ** Totality *)

Local Open Scope Z_scope.

(** Bytes not read yet, and those of the token that is ready. *)
Definition left (tk : tokener) : nat := Z.to_nat (zlen (stat tk) - pos tk).
Definition budget (tk : tokener) : nat :=
  (left tk + if flushToken tk then 0 else if decide (curToken tk = "") then 0 else 1)%nat.

Definition tk_wf (tk : tokener) : Prop :=
  0 ≤ pos tk ≤ zlen (stat tk) ∧ (budget tk ≤ length (stat tk))%nat.

(** [m] run at [tk] gives a value or an error, or does not end if [hang]
    allows that; and it does not go back. *)
Definition ok_run {hang : Prop} {A} (m : M tokener A) (tk : tokener) : Prop :=
  let '(tk', o) := m tk in
  tk_wf tk' ∧ stat tk' = stat tk ∧ (budget tk' ≤ budget tk)%nat ∧
  match o with Ret _ | Err _ => True | OutOfFuel => hang | Panic => False end.

(** The bytes the tokener has not read. *)
Definition rest (tk : tokener) : list byte := drop (Z.to_nat (pos tk)) (stat tk).

Lemma rest_goto tk : 0 ≤ pos tk ≤ zlen (stat tk) →
  suff tk (rest tk) ∧ goto (rest tk) tk = tk ∧ length (rest tk) = left tk.
Proof.
  intros Hp. unfold rest.
  assert (Hl : zlen (drop (Z.to_nat (pos tk)) (stat tk)) = zlen (stat tk) - pos tk)
    by (unfold zlen in *; rewrite length_drop; lia).
  split_and!.
  - exists (take (Z.to_nat (pos tk)) (stat tk)). by rewrite take_drop.
  - unfold goto. rewrite Hl. destruct tk. unfold set_pos. cbn. f_equal. lia.
  - unfold left, zlen in *. lia.
Qed.

Lemma left_goto tk l : suff tk l → left (goto l tk) = length l ∧ 0 ≤ pos (goto l tk) ≤ zlen (stat tk).
Proof. intros Hs%suff_length. unfold left. cbn. unfold zlen. lia. Qed.

Lemma word_length l : (length (word l).1 + length (word l).2 = length l)%nat.
Proof. induction l as [|b l IH]; cbn; [lia|]. destruct (isWord b); [|cbn; lia]. destruct (word l). cbn in *. lia. Qed.

Lemma quoted_length q l w r : quoted q l = Some (w, r) → (length r < length l)%nat.
Proof.
  revert w r. induction l as [|b l IH]; intros w r; cbn; [done|].
  case_decide; [intros [= <- <-]; lia|]. intros ([w' r'] & Hq & [= <- <-])%bind_Some. apply IH in Hq. cbn. lia.
Qed.

(** A token that is not empty takes at least a byte. *)
Lemma lex_one_length l t r : lex_one l = Some (t, r) → (length r < length l)%nat ∨ t = [] ∧ r = [].
Proof.
  unfold lex_one. pose proof (skip_length l). destruct (skip l) as [|b l'] eqn:El; cbn in *.
  { intros [= <- <-]. by right. }
  destruct (isSymbol b); [intros [= <- <-]; left; lia|].
  destruct (isQuote b); [intros Hq%quoted_length; left; lia|].
  destruct (isWord b) eqn:Ew; [|done]. pose proof (word_length l') as Hw.
  destruct (word l') as [w r'] eqn:E'. intros [= <- <-]. left. cbn in *.
  destruct r' as [|c r']; cbn; [lia|]. destruct (isBlank c); cbn in *; lia.
Qed.

(** ** The index list

    The loop over the fields of an index clause ends at a closing parenthesis
    or at a token that is no name; the end of the statement is neither, since
    the tokener then gives the empty token and [isName] accepts it. *)

(** A list of names that runs up to the end of the statement. *)
Inductive open_list : list byte → Prop :=
| open_end : open_list []
| open_name l t r :
    lex_one l = Some (t, r) → bytes_str t ≠ ")" → isName (bytes_str t) = true → open_list r → open_list l.

(** [create table ... (index], the statement up to its index list. *)
Definition create_prefix : M tokener unit :=
  _ ← keyword "table";
  _ ← Pop;
  _ ← name;
  tk ← get;
  '(_, _, more) ← columnsLoop (loop_fuel tk) [] [];
  if negb more then invalid
  else
    _ ← Pop;
    keyword "index".

Definition before_index : M tokener unit :=
  token ← Peek;
  _ ← Pop;
  if decide (token = "create") then create_prefix else invalid.

Lemma goto_rest tk l : suff tk l → rest (goto l tk) = l.
Proof.
  intros [pre H]. unfold rest. cbn [pos goto set_pos stat]. rewrite H.
  replace (Z.to_nat _) with (length pre) by (unfold zlen; rewrite length_app; lia). by rewrite drop_app_length.
Qed.

(** After [Pop], [Peek] gives the next token of what is left. *)
Lemma pop_peek_lex tk :
  0 ≤ pos tk ≤ zlen (stat tk) → tk_err tk = None →
  match lex_one (rest tk) with
  | Some (t, r) => ∃ tk', Peek (set_flush true tk) = (tk', Ret (bytes_str t)) ∧ rest tk' = r ∧ tk_err tk' = None
  | None => ∃ tk' e, Peek (set_flush true tk) = (tk', Err e)
  end.
Proof.
  intros Hp He. destruct (rest_goto (set_flush true tk) Hp) as (Hs & Hg & _).
  pose proof (nextMetaState_run (set_flush true tk) _ Hs) as Hn. rewrite Hg in Hn.
  change (rest (set_flush true tk)) with (rest tk) in Hn.
  assert (Hnext : next (set_flush true tk) = nextMetaState (set_flush true tk))
    by (unfold next; rewrite M_get_bind; cbn [tk_err set_flush]; by rewrite He).
  unfold Peek. rewrite M_get_bind. cbn [tk_err set_flush flushToken]. rewrite He.
  unfold catch, modify, fail, mbind, M_bind. rewrite Hnext.
  destruct (lex_one (rest tk)) as [[t r]|].
  - destruct Hn as [-> Hr]. cbn. eexists. split; [done|]. split; [by apply (goto_rest (set_flush true tk))|done].
  - destruct Hn as (l' & -> & _). cbn. eauto.
Qed.

Lemma Peek_err_None tk tk' t : 0 ≤ pos tk ≤ zlen (stat tk) → Peek tk = (tk', Ret t) → tk_err tk' = None.
Proof.
  intros Hp. unfold Peek. rewrite M_get_bind. destruct (tk_err tk) eqn:He; [done|]. destruct (flushToken tk).
  - assert (Hn : next tk = nextMetaState tk) by (unfold next; by rewrite M_get_bind, He).
    unfold catch, mbind, M_bind. rewrite Hn. destruct (rest_goto tk Hp) as (Hs & Hg & _).
    pose proof (nextMetaState_run tk _ Hs) as Hr. rewrite Hg in Hr.
    destruct (lex_one (rest tk)) as [[t' r]|]; [|by destruct Hr as (l' & -> & _)].
    destruct Hr as [-> _]. cbn. by intros [= <- _].
  - unfold mbind, M_bind. cbn. by intros [= <- _].
Qed.

Lemma keyword_err_None k tk tk' : 0 ≤ pos tk ≤ zlen (stat tk) → keyword k tk = (tk', Ret tt) → tk_err tk' = None.
Proof.
  intros Hp. unfold keyword, mbind, M_bind. destruct (Peek tk) as [tk1 [t|e| |]] eqn:Ep; try done.
  case_decide; [done|]. intros [= <-]. by eapply Peek_err_None.
Qed.

Lemma open_list_next l : open_list l →
  ∃ t r, lex_one l = Some (t, r) ∧ bytes_str t ≠ ")" ∧ isName (bytes_str t) = true ∧ open_list r.
Proof. destruct 1 as [|l t r Hl Ht Hn Hr]; [|by exists t, r]. exists [], []. split_and!; try done. constructor. Qed.

Section Total.
Context {hang : Prop}.
Local Abbreviation ok_run := (@ok_run hang _).

Lemma Peek_ok tk : tk_wf tk →
  ok_run Peek tk ∧
  ∀ tk' t, Peek tk = (tk', Ret t) → t ≠ "" → (left tk' < budget tk)%nat ∧ flushToken tk' = false ∧ curToken tk' = t.
Proof.
  intros [Hp Hb]. unfold ok_run, Peek. rewrite M_get_bind. destruct (tk_err tk) eqn:He; [by cbn|].
  destruct (flushToken tk) eqn:Ef.
  - destruct (rest_goto tk Hp) as (Hs & Hg & Hl'). set (l := rest tk) in *. pose proof (eq_sym Hl') as Hl. clear Hl'. unfold budget in Hb. rewrite Ef, Hl in Hb.
    assert (Hbt : budget tk = length l) by (unfold budget; rewrite Ef, Hl; lia).
    pose proof (nextMetaState_run tk l Hs) as Hn. rewrite Hg in Hn.
    assert (Hnext : next tk = nextMetaState tk) by (unfold next; by rewrite M_get_bind, He).
    unfold catch, modify, fail, mbind, M_bind. rewrite Hnext.
    destruct (lex_one l) as [[t r]|] eqn:Elex.
    + destruct Hn as [-> Hr]. cbn. apply lex_one_length in Elex. destruct (left_goto tk r Hr) as [Hlr Hpr].
      assert (Hbr : (budget (set_flush false (set_cur (bytes_str t) (goto r tk))) ≤ length l)%nat ∧
        (bytes_str t ≠ "" → length r < length l)%nat).
      { unfold budget. cbn. unfold left in *. cbn in *. rewrite Hlr.
        destruct Elex as [Hlt|[-> ->]]; [split; [case_decide; lia|by intros]|]. rewrite decide_True by done. cbn. split; [lia|done]. }
      destruct Hbr as [Hbr Hlt]. rewrite Hbt.
      pose proof (suff_length _ _ Hs). split.
      * split_and!; try done. split; [exact Hpr|]. cbn [stat set_flush set_cur goto set_pos] in *. lia.
      * intros tk' t' [= <- <-] Hne. split; [|done]. unfold left in *. cbn in *. rewrite Hlr. by apply Hlt.
    + destruct Hn as (l' & -> & Hl' & Hle). cbn. destruct (left_goto tk l' Hl') as [Hll Hpl]. split; [|done].
      assert (Hbl : budget (set_err ErrInvalidStat (set_err ErrInvalidStat (goto l' tk))) = length l').
      { unfold budget, left in *. cbn in *. rewrite Hll, Ef. lia. }
      pose proof (suff_length _ _ Hs). split_and!; try done; [split; [exact Hpl|]|]; rewrite ?Hbl, ?Hbt; [|lia].
      change (stat _) with (stat tk). lia.
  - cbn. split; [split_and!; done|]. intros tk' t' [= <- <-] Hne. unfold budget. rewrite Ef, decide_False by done.
    split; [lia|done].
Qed.

Lemma ok_run_Ret {A} (m : M tokener A) tk tk' a : ok_run m tk → m tk = (tk', Ret a) → tk_wf tk'.
Proof. unfold ok_run. intros H E. rewrite E in H. apply H. Qed.

Lemma ok_run_ret {A} (a : A) tk : tk_wf tk → ok_run (mret a) tk.
Proof. intros H. unfold ok_run. cbn. done. Qed.

Lemma ok_run_fail {A} e tk : tk_wf tk → ok_run (@fail _ A e) tk.
Proof. intros H. unfold ok_run. cbn. done. Qed.

Lemma ok_run_get tk : tk_wf tk → ok_run get tk.
Proof. intros H. unfold ok_run. cbn. done. Qed.

Lemma ok_run_bind {A B} (m : M tokener A) (k : A → M tokener B) tk :
  ok_run m tk →
  (∀ tk' a, m tk = (tk', Ret a) → tk_wf tk' → stat tk' = stat tk → (budget tk' ≤ budget tk)%nat → ok_run (k a) tk') →
  ok_run (m ≫= k) tk.
Proof.
  unfold ok_run, mbind, M_bind. destruct (m tk) as [tk' [a|e| |]]; intros (Hw & Hs & Hb & Ho) Hk; try done.
  specialize (Hk tk' a eq_refl Hw Hs Hb). destruct (k a tk') as [tk2 o2]. destruct Hk as (? & ? & ? & ?).
  split_and!; [done|congruence|lia|done].
Qed.

Lemma ok_run_catch {A B} (m : M tokener A) (k : A → M tokener B) h tk :
  ok_run m tk →
  (∀ tk' a, m tk = (tk', Ret a) → tk_wf tk' → stat tk' = stat tk → (budget tk' ≤ budget tk)%nat → ok_run (k a) tk') →
  (∀ tk' e, tk_wf tk' → stat tk' = stat tk → (budget tk' ≤ budget tk)%nat → ok_run (h e) tk') →
  ok_run (catch m k h) tk.
Proof.
  unfold ok_run, catch. destruct (m tk) as [tk' [a|e| |]]; intros (Hw & Hs & Hb & Ho) Hk Hh; try done.
  - specialize (Hk tk' a eq_refl Hw Hs Hb). destruct (k a tk') as [tk2 o2]. destruct Hk as (? & ? & ? & ?).
    split_and!; [done|congruence|lia|done].
  - specialize (Hh tk' e Hw Hs Hb). destruct (h e tk') as [tk2 o2]. destruct Hh as (? & ? & ? & ?).
    split_and!; [done|congruence|lia|done].
Qed.

Lemma ok_run_Peek tk : tk_wf tk → ok_run Peek tk.
Proof. apply Peek_ok. Qed.

Lemma Pop_ok tk : tk_wf tk → ok_run Pop tk ∧ tk_wf (set_flush true tk) ∧ budget (set_flush true tk) = left tk.
Proof.
  intros [Hp Hb]. assert (Hl : budget (set_flush true tk) = left tk) by (unfold budget, left; cbn; lia).
  assert (Hle : (left tk ≤ budget tk)%nat) by (unfold budget; lia).
  assert (Hw : tk_wf (set_flush true tk)) by (split; [done|]; rewrite Hl; change (stat _) with (stat tk); lia).
  unfold ok_run, Pop, modify. by rewrite Hl.
Qed.

Lemma ok_run_Pop tk : tk_wf tk → ok_run Pop tk.
Proof. apply Pop_ok. Qed.

(** Straight-line code: one case per construct. *)
Ltac ok_step :=
  match goal with
  | |- ok_run (mbind _ _) _ => apply ok_run_bind; [|intros ? ? ? ? ? ?]
  | |- ok_run (catch _ _ _) _ => apply ok_run_catch; [|intros ? ? ? ? ? ?|intros ? ? ? ? ?]
  | |- ok_run (mret _) _ => apply ok_run_ret
  | |- ok_run (fail _) _ => apply ok_run_fail
  | |- ok_run invalid _ => apply ok_run_fail
  | |- ok_run get _ => apply ok_run_get
  | |- ok_run Peek _ => apply ok_run_Peek
  | |- ok_run Pop _ => apply ok_run_Pop
  | |- ok_run (keyword _) _ => unfold keyword
  | |- ok_run (keyword_or_invalid _) _ => unfold keyword_or_invalid
  | |- ok_run name _ => unfold name
  | |- ok_run number _ => unfold number
  | |- ok_run (match ?b with _ => _ end) _ => destruct b
  | |- tk_wf _ => assumption
  end.
Ltac ok_auto := repeat ok_step.

(** A loop that starts with [Pop], after which the next token is looked at. *)
Lemma ok_run_pop_peek {B} (k : string → M tokener B) tk :
  tk_wf tk →
  (∀ tk' t, tk_wf tk' → stat tk' = stat tk → (left tk' ≤ left tk ∧ (t ≠ "" → left tk' < left tk))%nat → ok_run (k t) tk') →
  ok_run (_ ← Pop; t ← Peek; k t) tk.
Proof.
  intros Hw Hk. destruct (Pop_ok tk Hw) as (Hpop & Hw1 & Hb1).
  apply ok_run_bind; [done|]. intros tk1 ? [= <- _] _ _ _.
  destruct (Peek_ok _ Hw1) as [Hpeek Hlt]. apply ok_run_bind; [done|].
  intros tk2 t Ht Hw2 Hs2 Hb2. apply Hk; [done|done|]. split; [unfold budget at 1 in Hb2; lia|]. intros Hne.
  destruct (Hlt _ _ Ht Hne) as [Hl _]. by rewrite Hb1 in Hl.
Qed.

Lemma ok_run_valuesLoop fuel values tk : tk_wf tk → (left tk < fuel)%nat → ok_run (valuesLoop fuel values) tk.
Proof.
  revert values tk. induction fuel as [|fuel IH]; intros values tk Hw Hf; [lia|].
  cbn [valuesLoop]. apply ok_run_pop_peek; [done|]. intros tk' t Hw' Hs' [_ Hlt].
  case_decide; [by ok_auto|]. apply IH; [done|]. specialize (Hlt H). lia.
Qed.

(** The list of index fields ends unless it is open. *)
Lemma ok_run_indexLoop_open fuel index tk : hang → tk_wf tk → ok_run (indexLoop fuel index) tk.
Proof.
  intros Hh. revert index tk. induction fuel as [|fuel IH]; intros index tk Hw; [unfold ok_run; cbn; done|].
  cbn [indexLoop]. apply ok_run_pop_peek; [done|]. intros tk' t Hw' Hs' _.
  case_decide; [by ok_auto|]. destruct (isName t) eqn:En; cbn [negb]; [|by ok_auto]. by apply IH.
Qed.

Lemma ok_run_indexLoop fuel index tk :
  tk_wf tk → tk_err tk = None → (left tk < fuel)%nat → (open_list (rest tk) → hang) → ok_run (indexLoop fuel index) tk.
Proof.
  revert index tk. induction fuel as [|fuel IH]; intros index tk Hw He Hf Hh; [lia|]. cbn [indexLoop].
  pose proof Hw as [Hp _]. pose proof (pop_peek_lex tk Hp He) as Hlex. destruct (Pop_ok tk Hw) as (Hpop & Hw1 & _).
  apply ok_run_bind; [done|]. intros tk1 ? [= <- _] _ _ _.
  apply ok_run_bind; [by apply ok_run_Peek|]. intros tk2 t Ht Hw2 _ _.
  destruct (lex_one (rest tk)) as [[t' r]|] eqn:El; [|destruct Hlex as (? & ? & Hlex); congruence].
  destruct Hlex as (tk2' & Hpk & Hr & He2). rewrite Hpk in Ht. injection Ht as -> <-.
  case_decide as Hc; [by ok_auto|]. destruct (isName (bytes_str t')) eqn:En; cbn [negb]; [|by ok_auto].
  assert (Hopen : open_list r → open_list (rest tk)) by (by eapply open_name).
  destruct (rest_goto tk Hp) as (_ & _ & Hl). destruct (rest_goto tk2 ltac:(apply Hw2)) as (_ & _ & Hl2).
  rewrite Hr in Hl2. destruct (lex_one_length _ _ _ El) as [Hlt|[_ ->]].
  - apply IH; [done|done|lia|]. rewrite Hr. auto.
  - apply ok_run_indexLoop_open; [|done]. apply Hh, Hopen. constructor.
Qed.

Lemma ok_run_rowLoop fuel row tk : tk_wf tk → (left tk < fuel)%nat → ok_run (rowLoop fuel row) tk.
Proof.
  revert row tk. induction fuel as [|fuel IH]; intros row tk Hw Hf; [lia|].
  cbn [rowLoop]. apply ok_run_pop_peek; [done|]. intros tk' t Hw' Hs' [_ Hlt].
  case_decide as Ht; [by ok_auto|]. specialize (Hlt Ht).
  case_decide; [by ok_auto|]. case_decide; (apply IH; [done|lia]).
Qed.

Lemma left_loop_fuel tk : tk_wf tk → (left tk < loop_fuel tk)%nat.
Proof. intros [Hp Hb]. unfold loop_fuel, budget in *. lia. Qed.

(** After a token that is not empty, [Pop] leaves less. *)
Lemma left_budget tk : (left tk ≤ budget tk)%nat.
Proof. unfold budget. lia. Qed.

Lemma ok_run_bulkLoop fuel rows tk : tk_wf tk → (budget tk < fuel)%nat → ok_run (bulkLoop fuel rows) tk.
Proof.
  revert rows tk. induction fuel as [|fuel IH]; intros rows tk Hw Hf; [lia|].
  cbn [bulkLoop]. apply ok_run_bind; [by ok_auto|]. intros ? ? [= <- <-] _ _ _.
  apply ok_run_bind; [by apply ok_run_rowLoop, left_loop_fuel|]. intros tk1 row _ Hw1 Hs1 Hb1.
  apply ok_run_pop_peek; [done|]. intros tk2 t Hw2 Hs2 [_ Hlt].
  case_decide as Ht; [by ok_auto|]. specialize (Hlt Ht). case_decide; [|by ok_auto].
  pose proof (left_budget tk1). destruct (Pop_ok _ Hw2) as (Hpop & Hw3 & Hb3).
  apply ok_run_bind; [done|]. intros ? ? [= <- <-] _ _ _.
  apply ok_run_bind; [by ok_auto|]. intros tk4 ? _ Hw4 Hs4 Hb4. apply IH; [done|]. lia.
Qed.

Lemma ok_run_parseAggregate field tk : tk_wf tk → ok_run (parseAggregate field) tk.
Proof. intros Hw. unfold parseAggregate. ok_auto. Qed.

Lemma ok_run_fieldsLoop fuel fields aggs tk :
  tk_wf tk → (budget tk < fuel)%nat → ok_run (fieldsLoop fuel fields aggs) tk.
Proof.
  revert fields aggs tk. induction fuel as [|fuel IH]; intros fields aggs tk Hw Hf; [lia|].
  cbn [fieldsLoop]. apply ok_run_bind; [by ok_auto|]. intros tk1 field _ Hw1 Hs1 Hb1.
  apply ok_run_bind.
  { destruct (isAggFunc field); [|by ok_auto].
    apply ok_run_bind; [by apply ok_run_parseAggregate|]. intros. by ok_auto. }
  intros tk2 [fields' aggs'] _ Hw2 Hs2 Hb2. destruct (Peek_ok _ Hw2) as [Hpeek Hlt].
  apply ok_run_bind; [done|]. intros tk3 t Ht Hw3 Hs3 Hb3. case_decide as Hc; [|by ok_auto].
  destruct (Hlt _ _ Ht) as [Hl _]; [by rewrite Hc|]. destruct (Pop_ok _ Hw3) as (Hpop & Hw4 & Hb4).
  apply ok_run_bind; [done|]. intros ? ? [= <- <-] _ _ _. apply IH; [done|]. lia.
Qed.

Lemma ok_run_columnsLoop fuel names types tk :
  tk_wf tk → (left tk < fuel)%nat → ok_run (columnsLoop fuel names types) tk.
Proof.
  revert names types tk. induction fuel as [|fuel IH]; intros names types tk Hw Hf; [lia|].
  cbn [columnsLoop]. apply ok_run_pop_peek; [done|]. intros tk1 field Hw1 Hs1 [Hl1 _].
  case_decide; [by ok_auto|]. destruct (isName field); cbn [negb]; [|by ok_auto].
  apply ok_run_pop_peek; [done|]. intros tk2 ftype Hw2 Hs2 [_ Hlt2].
  destruct (isType ftype) eqn:Et; cbn [negb]; [|by ok_auto].
  assert (Hlt : (left tk2 < left tk1)%nat) by (apply Hlt2; intros ->; done).
  apply ok_run_pop_peek; [done|]. intros tk3 next Hw3 Hs3 [_ Hlt3].
  case_decide as Hc; [|by ok_auto]. apply IH; [done|]. rewrite Hc in Hlt3. specialize (Hlt3 ltac:(done)). lia.
Qed.

Lemma ok_run_parseSingleExpr tk : tk_wf tk → ok_run parseSingleExpr tk.
Proof. intros Hw. unfold parseSingleExpr. ok_auto. Qed.

Lemma ok_run_parseWhere tk : tk_wf tk → ok_run parseWhere tk.
Proof.
  intros Hw. unfold parseWhere. repeat (ok_step || by apply ok_run_parseSingleExpr).
Qed.

Lemma ok_run_parseRead tk : tk_wf tk → ok_run parseRead tk.
Proof.
  intros Hw. unfold parseRead, parseOrderBy, parseLimit. apply ok_run_bind; [by ok_auto|].
  intros tk1 a _ Hw1 Hs1 Hb1. apply ok_run_bind.
  { case_decide; [by ok_auto|]. apply ok_run_bind; [by ok_auto|]. intros ? ? [= <- <-] _ _ _.
    apply ok_run_fieldsLoop; [done|]. destruct Hw1. unfold loop_fuel. lia. }
  intros. repeat (ok_step || by apply ok_run_parseWhere).
Qed.

Lemma ok_run_parseInsert tk : tk_wf tk → ok_run parseInsert tk.
Proof.
  intros Hw. unfold parseInsert, parseInsertBulk.
  repeat (ok_step || (apply ok_run_valuesLoop; [done|]) || (apply ok_run_bulkLoop; [done|]));
    match goal with H : get _ = _ |- _ => injection H as <- <- end; [|by apply left_loop_fuel].
  match goal with H : tk_wf ?t |- (budget ?t < _)%nat => destruct H; unfold loop_fuel; lia end.
Qed.

Lemma ok_run_parseCreate tk :
  tk_wf tk → (∀ tk', create_prefix tk = (tk', Ret tt) → open_list (rest tk') → hang) → ok_run parseCreate tk.
Proof.
  intros Hw Hh. unfold parseCreate, create_prefix in *.
  apply ok_run_bind; [by ok_auto|]. intros tk1 [] E1 Hw1 _ _. rewrite (M_bind_run _ _ _ _ _ E1) in Hh.
  apply ok_run_bind; [by ok_auto|]. intros tk2 [] E2 Hw2 _ _. rewrite (M_bind_run _ _ _ _ _ E2) in Hh.
  apply ok_run_bind; [by ok_auto|]. intros tk3 n E3 Hw3 _ _. rewrite (M_bind_run _ _ _ _ _ E3) in Hh.
  apply ok_run_bind; [by ok_auto|]. intros ? ? [= <- <-] _ _ _. rewrite M_get_bind in Hh.
  apply ok_run_bind; [by apply ok_run_columnsLoop, left_loop_fuel|].
  intros tk4 [[names types] more] E4 Hw4 Hs4 Hb4. rewrite (M_bind_run _ _ _ _ _ E4) in Hh.
  destruct more; cbn [negb] in *; [|by ok_auto].
  apply ok_run_bind; [by ok_auto|]. intros tk5 [] E5 Hw5 Hs5 Hb5. rewrite (M_bind_run _ _ _ _ _ E5) in Hh.
  apply ok_run_bind; [by ok_auto|]. intros tk6 [] E6 Hw6 Hs6 Hb6.
  apply ok_run_bind; [|intros; by ok_auto].
  apply ok_run_indexLoop; [done|by eapply keyword_err_None; [apply Hw5|]| |by apply Hh].
  pose proof (left_loop_fuel tk6 Hw6) as Hl. unfold loop_fuel in *.
  replace (stat tk3) with (stat tk6) by congruence. done.
Qed.

(** What a successful prefix leaves behind. *)
Lemma create_prefix_ok tk tk' : tk_wf tk → create_prefix tk = (tk', Ret tt) → tk_wf tk' ∧ tk_err tk' = None.
Proof.
  intros Hw H. unfold create_prefix in H.
  apply M_bind_Ret in H as (tk1 & [] & E1 & H).
  assert (Hw1 : tk_wf tk1) by (eapply ok_run_Ret; [|exact E1]; by ok_auto).
  apply M_bind_Ret in H as (tk2 & [] & E2 & H).
  assert (Hw2 : tk_wf tk2) by (eapply ok_run_Ret; [|exact E2]; by ok_auto).
  apply M_bind_Ret in H as (tk3 & n & E3 & H).
  assert (Hw3 : tk_wf tk3) by (eapply ok_run_Ret; [|exact E3]; by ok_auto).
  rewrite M_get_bind in H. apply M_bind_Ret in H as (tk4 & [[names types] more] & E4 & H).
  assert (Hw4 : tk_wf tk4) by (eapply ok_run_Ret; [|exact E4]; by apply ok_run_columnsLoop, left_loop_fuel).
  destruct more; [|done]. cbn [negb] in H. apply M_bind_Ret in H as (tk5 & [] & E5 & H).
  assert (Hw5 : tk_wf tk5) by (eapply ok_run_Ret; [|exact E5]; by ok_auto).
  split; [eapply ok_run_Ret; [|exact H]; by ok_auto|]. eapply keyword_err_None; [apply Hw5|done].
Qed.

Lemma ErrStat_ok tk : tk_wf tk → ∃ s, ErrStat tk = Ret s.
Proof.
  intros [Hp _]. unfold ErrStat. rewrite slice_Ret by lia. cbn [mbind outcome_bind].
  rewrite slice_from_Ret by lia. cbn. eauto.
Qed.

Lemma ok_run_check_rest (parser : M tokener Statement) tk : tk_wf tk → ok_run parser tk → ok_run (check_rest parser) tk.
Proof.
  intros Hw. unfold ok_run, check_rest. destruct (parser tk) as [tk1 o] eqn:Ep.
  intros (Hw1 & Hs1 & Hb1 & Ho). pose proof (ok_run_Peek tk1 Hw1) as Hpk. unfold ok_run in Hpk.
  destruct (Peek tk1) as [tk2 [t|e| |]]; destruct Hpk as (Hw2 & Hs2 & Hb2 & Hpk); try done.
  - destruct (ErrStat_ok tk2 Hw2) as [es Hes].
    destruct o; try done; (case_decide; [rewrite Hes|]); split_and!; try done; try congruence; lia.
  - destruct o; try done; split_and!; try done; try congruence; lia.
  - destruct o; try done; split_and!; try done; try congruence; lia.
Qed.

Lemma ok_run_dispatch t parser tk :
  dispatch t = Some parser →
  (t = "create" → ∀ tk', create_prefix tk = (tk', Ret tt) → open_list (rest tk') → hang) →
  tk_wf tk → ok_run parser tk.
Proof.
  intros Hd Hh Hw. unfold dispatch in Hd.
  repeat match type of Hd with
  | context [match ?x with _ => _ end] => destruct x; try discriminate
  end; injection Hd as <-;
    first [by apply ok_run_parseRead|by apply ok_run_parseInsert|apply ok_run_parseCreate; [done|by apply Hh]|idtac].
  all: unfold parseBegin, parseCommit, parseAbort, parseDrop, parseDelete, parseUpdate, parseShow.
  all: repeat (ok_step || by apply ok_run_parseWhere).
Qed.
End Total.

Lemma newTokener_wf s : tk_wf (newTokener s).
Proof. unfold tk_wf, budget, left. cbn. unfold zlen. lia. Qed.

(** An open list is never left, whatever the fuel. *)
Lemma indexLoop_open fuel index tk :
  tk_wf tk → tk_err tk = None → open_list (rest tk) → (indexLoop fuel index tk).2 = OutOfFuel.
Proof.
  revert index tk. induction fuel as [|fuel IH]; intros index tk Hw He Ho; [done|]. cbn [indexLoop].
  pose proof Hw as [Hp _]. pose proof (pop_peek_lex tk Hp He) as Hlex.
  destruct (open_list_next _ Ho) as (t & r & Hl & Ht & Hn & Hr). rewrite Hl in Hlex.
  destruct Hlex as (tk' & Hpk & <- & He'). rewrite (M_bind_run Pop _ tk (set_flush true tk) tt) by done.
  rewrite (M_bind_run _ _ _ _ _ Hpk), decide_False by done. rewrite Hn. cbn [negb]. apply IH; [|done..].
  destruct (Pop_ok (hang := True) tk Hw) as (_ & Hw1 & _). destruct (Peek_ok (hang := True) _ Hw1) as [Hok _].
  unfold ok_run in Hok. rewrite Hpk in Hok. apply Hok.
Qed.

Lemma before_index_ok s tk :
  before_index (newTokener s) = (tk, Ret tt) → tk_wf tk ∧ tk_err tk = None.
Proof.
  intros H. pose proof (newTokener_wf s) as Hw. unfold before_index in H.
  apply M_bind_Ret in H as (tk1 & t & E1 & H).
  assert (Hw1 : tk_wf tk1) by (eapply (ok_run_Ret (hang := True)); [|exact E1]; by apply ok_run_Peek).
  apply M_bind_Ret in H as (tk2 & [] & E2 & H).
  assert (Hw2 : tk_wf tk2) by (eapply (ok_run_Ret (hang := True)); [|exact E2]; by apply ok_run_Pop).
  case_decide; [|done]. by apply (create_prefix_ok (hang := True) tk2).
Qed.

(** A statement with an open index list keeps the parser in the loop. *)
Lemma parseCreate_open tk tk' :
  create_prefix tk = (tk', Ret tt) → (∀ fuel index, (indexLoop fuel index tk').2 = OutOfFuel) →
  (parseCreate tk).2 = OutOfFuel.
Proof.
  intros H Hl. unfold create_prefix, parseCreate in *.
  apply M_bind_Ret in H as (tk1 & [] & E1 & H). rewrite (M_bind_run _ _ _ _ _ E1).
  apply M_bind_Ret in H as (tk2 & [] & E2 & H). rewrite (M_bind_run _ _ _ _ _ E2).
  apply M_bind_Ret in H as (tk3 & n & E3 & H). rewrite (M_bind_run _ _ _ _ _ E3).
  rewrite M_get_bind. rewrite M_get_bind in H. apply M_bind_Ret in H as (tk4 & [[names types] more] & E4 & H).
  rewrite (M_bind_run _ _ _ _ _ E4). destruct more; [|done]. cbn [negb] in *.
  apply M_bind_Ret in H as (tk5 & [] & E5 & H). rewrite (M_bind_run _ _ _ _ _ E5), (M_bind_run _ _ _ _ _ H).
  specialize (Hl (loop_fuel tk3) []). unfold mbind, M_bind. destruct (indexLoop _ _ tk') as [? []]; done.
Qed.

(** C18: Parsing ends with a statement or an error for every byte sequence, but
    for one class of inputs.  No index is out of range, every loop of the
    tokener and the parser consumes input, and [Parse] fails to return exactly
    when the statement starts with a well-formed [create table ... (index]
    and only names follow up to its end, without the closing parenthesis; then
    the loop over the index fields goes on for any number of turns. *)
Theorem Parse_total s :
  Parse s ≠ Panic ∧
  (Parse s = OutOfFuel ↔ ∃ tk, before_index (newTokener s) = (tk, Ret tt) ∧ open_list (rest tk)) ∧
  ∀ tk, before_index (newTokener s) = (tk, Ret tt) → open_list (rest tk) →
    ∀ fuel index, (indexLoop fuel index tk).2 = OutOfFuel.
Proof.
  assert (Hloop : ∀ tk, before_index (newTokener s) = (tk, Ret tt) → open_list (rest tk) →
    ∀ fuel index, (indexLoop fuel index tk).2 = OutOfFuel).
  { intros tk Hb Ho fuel index. destruct (before_index_ok s tk Hb). by apply indexLoop_open. }
  assert (Hok : ok_run (hang := ∃ tk, before_index (newTokener s) = (tk, Ret tt) ∧ open_list (rest tk))
    parse_statement (newTokener s)).
  { unfold parse_statement. pose proof (newTokener_wf s) as Hw. apply ok_run_bind; [by apply ok_run_Peek|].
    intros tk t Ht Hw1 _ _. apply ok_run_bind; [by apply ok_run_Pop|]. intros tk2 [] Ht2 Hw2 _ _.
    destruct (dispatch t) as [parser|] eqn:Ed; [|by apply ok_run_fail].
    apply ok_run_check_rest; [done|]. eapply ok_run_dispatch; [done| |done]. intros -> tk' Hp Ho. exists tk'.
    split; [|done]. unfold before_index. by rewrite (M_bind_run _ _ _ _ _ Ht), (M_bind_run _ _ _ _ _ Ht2), decide_True. }
  unfold Parse, ok_run in *. split_and!; [..|done].
  - destruct (parse_statement (newTokener s)) as [tk [| | |]]; cbn; naive_solver.
  - split; [destruct (parse_statement (newTokener s)) as [tk [| | |]]; cbn; naive_solver|].
    intros (tk & Hb & Ho). specialize (Hloop tk Hb Ho). clear Hok Ho. unfold before_index in Hb.
    apply M_bind_Ret in Hb as (tk1 & t & E1 & Hb). apply M_bind_Ret in Hb as (tk2 & [] & E2 & Hb).
    case_decide as Ht; [|done]. unfold parse_statement.
    rewrite (M_bind_run _ _ _ _ _ E1), (M_bind_run _ _ _ _ _ E2), Ht. cbn [dispatch]. unfold check_rest.
    pose proof (parseCreate_open tk2 tk Hb Hloop) as Hp. destruct (parseCreate tk2) as [tk' o]. cbn in Hp. by subst o.
Qed.

Lemma Parse_total_witness :
  let s := str_bytes "create table t id uint32 (index id name" in
  Parse (str_bytes "read * from") ≠ OutOfFuel ∧ Parse s = OutOfFuel ∧
  ∀ fuel index, (indexLoop fuel index (before_index (newTokener s)).1).2 = OutOfFuel.
Proof.
  intros s. split.
  - destruct (Parse_total (str_bytes "read * from")) as (_ & H & _). intros (tk & Hb & _)%H. vm_compute in Hb. discriminate.
  - destruct (Parse_total s) as (_ & H & Hl).
    assert (Hb : before_index (newTokener s) = ((before_index (newTokener s)).1, Ret tt)) by (vm_compute; reflexivity).
    assert (Ho : open_list (rest (before_index (newTokener s)).1)).
    { vm_compute. do 2 (eapply open_name; [vm_compute; reflexivity|vm_compute; done|vm_compute; reflexivity|]). constructor. }
    split; [apply H; eauto|by apply Hl].
Defined.

(** * Printing statements *)

Definition is_word (t : string) : bool := forallb isWord (str_bytes t) && negb (bool_decide (t = "")).
Definition is_sym (t : string) : bool := match str_bytes t with [b] => isSymbol b | _ => false end.
Definition dquote : byte := Byte.x22.
Definition squote : byte := Byte.x27.
Definition has (q : byte) (t : string) : bool := existsb (λ b, bool_decide (b = q)) (str_bytes t).

(** What can be written so that the tokener gives it back as one token. *)
Definition token_ok (t : string) : bool :=
  negb (bool_decide (t = "")) && (negb (has dquote t) || negb (has squote t)).

Definition show_token (t : string) : list byte :=
  if is_sym t || is_word t then str_bytes t
  else if has dquote t then ([squote] ++ str_bytes t ++ [squote])%list
  else ([dquote] ++ str_bytes t ++ [dquote])%list.

Definition blank : byte := Byte.x20.
Definition render (ts : list string) : list byte := mjoin ((λ t, show_token t ++ [blank])%list <$> ts).

(** A comparison of two characters is two tokens. *)
Definition op_tokens (op : string) : list string :=
  if bool_decide (op = "<=") then ["<"; "="]
  else if bool_decide (op = ">=") then [">"; "="]
  else if bool_decide (op = "!=") then ["!"; "="] else [op].

Definition exp_tokens (e : SingleExp) : list string := Exp_Field e :: op_tokens (CmpOp e) ++ [Exp_Value e].

Definition where_tokens (w : Where) : list string :=
  "where" :: exp_tokens (SingleExp1 w) ++
  match SingleExp2 w with Some e2 => LogicOp w :: exp_tokens e2 | None => [] end.

Definition agg_tokens (a : Aggregate) : list string := [Func a; "("; Agg_Field a; ")"].

(** Items with commas between them. *)
Fixpoint commas (l : list (list string)) : list string :=
  match l with
  | [] => []
  | [x] => x
  | x :: l' => x ++ "," :: commas l'
  end.

Definition row_tokens (row : list string) : list string := "{" :: commas ((λ v, [v]) <$> row) ++ ["}"].

Definition order_tokens (field : string) (desc : bool) : list string :=
  if bool_decide (field = "") then [] else "order" :: "by" :: field :: if desc then ["desc"] else [].

Definition limit_tokens (limit offset : Z) : list string :=
  if bool_decide (limit = 0) && bool_decide (offset = 0) then []
  else "limit" :: Uint64ToStr limit :: if bool_decide (offset = 0) then [] else ["offset"; Uint64ToStr offset].

Definition statement_tokens (s : Statement) : list string :=
  match s with
  | SBegin b => if IsRepeatableRead b then ["begin"; "isolation"; "level"; "repeatable"; "read"] else ["begin"]
  | SCommit => ["commit"]
  | SAbort => ["abort"]
  | SShow => ["show"]
  | SDrop d => ["drop"; "table"; Drop_TableName d]
  | SCreate c =>
      ["create"; "table"; Create_TableName c] ++ commas (zip_with (λ f t, [f; t]) (Create_FieldName c) (Create_FieldType c)) ++
      (if bool_decide (Create_Index c = []) && negb (bool_decide (Create_FieldName c = [])) then []
       else "(" :: "index" :: Create_Index c ++ [")"])
  | SUpdate u =>
      ["update"; Update_TableName u; "set"; Update_FieldName u; "="; Update_Value u] ++
      match Update_Where u with Some w => where_tokens w | None => [] end
  | SDelete d => ["delete"; "from"; Delete_TableName d] ++
      match Delete_Where d with Some w => where_tokens w | None => [] end
  | SInsert i => ["insert"; "into"; Insert_TableName i; "values"] ++
      match ValuesList i with [] => Values i | rows => commas (row_tokens <$> rows) end
  | SRead r =>
      "read" :: commas (((λ f, [f]) <$> Fields r) ++ (agg_tokens <$> Aggregates r)) ++
      ["from"; Read_TableName r] ++
      match Read_Where r with Some w => where_tokens w | None => [] end ++
      order_tokens (OrderBy r) (OrderDesc r) ++ limit_tokens (Limit r) (Offset r)
  end.

(** The statements that have such a form. *)
Definition name_ok (n : string) : bool := token_ok n && isName n.

Definition exp_ok (e : SingleExp) : bool :=
  name_ok (Exp_Field e) && isCmpOp (CmpOp e) && token_ok (Exp_Value e) &&
  negb ((bool_decide (CmpOp e = "<") || bool_decide (CmpOp e = ">")) && bool_decide (Exp_Value e = "=")).

Definition where_ok (w : Where) : bool :=
  exp_ok (SingleExp1 w) &&
  match SingleExp2 w with
  | Some e2 => isLogicOp (LogicOp w) && exp_ok e2
  | None => bool_decide (LogicOp w = "")
  end.

Definition agg_ok (a : Aggregate) : bool :=
  isAggFunc (Func a) && (name_ok (Agg_Field a) || bool_decide (Func a = "count") && bool_decide (Agg_Field a = "*")).

Definition statement_ok (s : Statement) : bool :=
  match s with
  | SBegin _ | SCommit | SAbort | SShow => true
  | SDrop d => name_ok (Drop_TableName d)
  | SCreate c =>
      name_ok (Create_TableName c) && bool_decide (length (Create_FieldName c) = length (Create_FieldType c)) &&
      forallb name_ok (Create_FieldName c) && forallb isType (Create_FieldType c) && forallb name_ok (Create_Index c)
  | SUpdate u =>
      token_ok (Update_TableName u) && token_ok (Update_FieldName u) && token_ok (Update_Value u) &&
      match Update_Where u with Some w => where_ok w | None => true end
  | SDelete d => name_ok (Delete_TableName d) && match Delete_Where d with Some w => where_ok w | None => false end
  | SInsert i =>
      name_ok (Insert_TableName i) &&
      match ValuesList i with
      | [] => match Values i with
              | v :: vs => negb (bool_decide (v = "{")) && forallb token_ok (v :: vs)
              | [] => false
              end
      | rows => bool_decide (Values i = []) &&
          forallb (forallb (λ v, token_ok v && negb (bool_decide (v = "}")) && negb (bool_decide (v = ",")))) rows
      end
  | SRead r =>
      name_ok (Read_TableName r) &&
      (bool_decide (Fields r = ["*"]) && bool_decide (Aggregates r = []) ||
       forallb (λ f, name_ok f && negb (isAggFunc f)) (Fields r) && forallb agg_ok (Aggregates r) &&
       negb (bool_decide (Fields r = []) && bool_decide (Aggregates r = []))) &&
      match Read_Where r with
      | Some w => where_ok w && (bool_decide (SingleExp2 w = None) ||
          bool_decide (OrderBy r = "") && bool_decide (Limit r = 0) && bool_decide (Offset r = 0))
      | None => true
      end &&
      (if bool_decide (OrderBy r = "") then negb (OrderDesc r) else name_ok (OrderBy r)) &&
      bool_decide (0 ≤ Limit r < 2 ^ 63) && bool_decide (0 ≤ Offset r < 2 ^ 63)
  end.

(** * The tokens of a byte sequence *)

Inductive lexes : list byte → list string → Prop :=
| lexes_end l : skip l = [] → lexes l []
| lexes_token l t r ts : lex_one l = Some (t, r) → t ≠ [] → lexes r ts → lexes l (bytes_str t :: ts).

Lemma lex_one_blank l : lex_one (blank :: l) = lex_one l.
Proof. done. Qed.

Lemma lexes_blank l ts : lexes l ts → lexes (blank :: l) ts.
Proof. intros H. inversion H; subst; [by apply lexes_end|eapply lexes_token; [|done..]; by rewrite lex_one_blank]. Qed.

Lemma lexes_length l ts : lexes l ts → (length ts ≤ length l)%nat.
Proof.
  induction 1 as [|l t r ts Hl Ht _ IH]; cbn; [lia|]. apply lex_one_length in Hl as [?|[-> _]]; [lia|done].
Qed.

Lemma word_app w r : forallb isWord w = true → match r with b :: _ => isWord b = false | [] => True end →
  word (w ++ r) = (w, r).
Proof.
  induction w as [|b w IH]; cbn.
  - destruct r as [|b r]; cbn; [done|]. by intros _ ->.
  - intros [-> Hw]%andb_prop Hr. by rewrite IH.
Qed.

Lemma quoted_app q w r : existsb (λ b, bool_decide (b = q)) w = false → quoted q (w ++ q :: r) = Some (w, r).
Proof.
  induction w as [|b w IH]; cbn; [by rewrite decide_True|].
  intros [Hb Hw]%orb_false_iff. apply bool_decide_eq_false in Hb. rewrite decide_False by done. by rewrite IH.
Qed.

(** The classes of bytes exclude each other where the tokener tests them in order. *)
Definition class_ok (b : byte) : bool :=
  implb (isSymbol b) (negb (isBlank b)) &&
  implb (isWord b) (negb (isBlank b) && negb (isSymbol b) && negb (isQuote b)).

Lemma byte_classes b : class_ok b = true.
Proof. destruct b; vm_compute; reflexivity. Qed.

Lemma word_class b : isWord b = true → isBlank b = false ∧ isSymbol b = false ∧ isQuote b = false.
Proof.
  intros H. pose proof (byte_classes b) as Hb. unfold class_ok in Hb. rewrite H in Hb.
  apply andb_prop in Hb as [_ Hb]. cbn in Hb. by destruct (isBlank b), (isSymbol b), (isQuote b).
Qed.

Lemma symbol_class b : isSymbol b = true → isBlank b = false.
Proof.
  intros H. pose proof (byte_classes b) as Hb. unfold class_ok in Hb. rewrite H in Hb.
  apply andb_prop in Hb as [Hb _]. by destruct (isBlank b).
Qed.

Lemma str_bytes_nonempty t : t ≠ "" → str_bytes t ≠ [].
Proof. intros Ht E. apply Ht. rewrite <- (bytes_str_bytes t), E. done. Qed.

Lemma lexes_show t l ts : token_ok t = true → lexes l ts → lexes (show_token t ++ blank :: l) (t :: ts).
Proof.
  intros [Hne Hq]%andb_prop Hl. apply negb_true_iff, bool_decide_eq_false in Hne.
  pose proof (str_bytes_nonempty t Hne) as Hb. rewrite <- (bytes_str_bytes t) at 2. unfold show_token.
  destruct (is_sym t) eqn:Es; cbn [orb].
  { unfold is_sym in Es. destruct (str_bytes t) as [|b [|? ?]]; try done.
    eapply lexes_token; [|done|by apply lexes_blank]. unfold lex_one. cbn. by rewrite symbol_class, Es. }
  destruct (is_word t) eqn:Ew.
  { apply andb_prop in Ew as [Ew _]. destruct (str_bytes t) as [|b w]; [done|]. pose proof Ew as [Hw _]%andb_prop.
    destruct (word_class b Hw) as (H1 & H2 & H3). eapply lexes_token; [|done|exact Hl].
    unfold lex_one. cbn [skip app]. rewrite H1, H2, H3, Hw.
    change (b :: w ++ blank :: l)%list with ((b :: w) ++ blank :: l)%list. by rewrite word_app. }
  destruct (has dquote t) eqn:Ed; rewrite <- !app_assoc; (eapply lexes_token; [|done|by apply lexes_blank]).
  - cbn in Hq. apply negb_true_iff in Hq. unfold lex_one. cbn. by apply quoted_app.
  - unfold lex_one. cbn. by apply quoted_app.
Qed.

Lemma lexes_render ts : forallb token_ok ts = true → lexes (render ts) ts.
Proof.
  induction ts as [|t ts IH]; [by constructor|]. cbn. intros [Ht Hts]%andb_prop.
  rewrite <- app_assoc. apply lexes_show; [done|by apply IH].
Qed.

(** ** Tokeners that stand before given tokens *)

(** After [Peek]: the first token is ready. *)
Definition peeked (tk : tokener) (ts : list string) : Prop :=
  tk_err tk = None ∧ flushToken tk = false ∧ curToken tk = hd "" ts ∧
  ∃ l, suff tk l ∧ goto l tk = tk ∧ lexes l (tail ts).

(** After [Pop], or at the start. *)
Definition fresh (tk : tokener) (ts : list string) : Prop :=
  tk_err tk = None ∧ flushToken tk = true ∧ ∃ l, suff tk l ∧ goto l tk = tk ∧ lexes l ts.

Definition before (tk : tokener) (ts : list string) : Prop := peeked tk ts ∨ fresh tk ts.

Lemma before_Peek tk ts : before tk ts → ∃ tk', Peek tk = (tk', Ret (hd "" ts)) ∧ peeked tk' ts ∧ stat tk' = stat tk.
Proof.
  intros [Hp|(He & Hf & l & Hs & Hg & Hl)].
  { pose proof Hp as (He & Hf & Hc & _). exists tk. unfold Peek. rewrite M_get_bind, He, Hf, <- Hc. done. }
  pose proof (nextMetaState_run tk l Hs) as Hn. rewrite Hg in Hn.
  assert (Hlex : ∃ t r, lex_one l = Some (t, r) ∧ bytes_str t = hd "" ts ∧ lexes r (tail ts)).
  { inversion Hl as [? Hk|? t r ts' Ht Hne Hr]; subst.
    - exists [], []. unfold lex_one. rewrite Hk. split_and!; [done..|by apply lexes_end].
    - eauto. }
  destruct Hlex as (t & r & Ht & Hhd & Hr). rewrite Ht in Hn. destruct Hn as [Hn Hsr].
  exists (set_flush false (set_cur (bytes_str t) (goto r tk))). split_and!; [|split_and!|]; try done.
  - unfold Peek, next. rewrite M_get_bind, He, Hf. unfold catch, get, mbind, M_bind. rewrite He, Hn. cbn. by rewrite Hhd.
  - by exists r.
Qed.

Lemma peeked_Pop tk ts : peeked tk ts → ∃ tk', Pop tk = (tk', Ret tt) ∧ fresh tk' (tail ts) ∧ stat tk' = stat tk.
Proof.
  intros (He & Hf & Hc & l & Hs & Hg & Hl). exists (set_flush true tk). split_and!; [done|split_and!|done]; [done|done|].
  exists l. split_and!; [done| |done]. destruct tk. unfold goto, set_pos in *. cbn in *. injection Hg as Hg. by rewrite Hg.
Qed.

Lemma fresh_new ts : forallb token_ok ts = true → before (newTokener (render ts)) ts.
Proof.
  intros H. right. split_and!; [done..|]. exists (render ts). split_and!; [by exists []| |by apply lexes_render].
  unfold goto, newTokener, set_pos. cbn. f_equal. lia.
Qed.

Lemma peeked_fuel tk ts : peeked tk ts → (length (tail ts) < loop_fuel tk)%nat.
Proof. intros (_ & _ & _ & l & Hs & _ & Hl). apply suff_length in Hs. apply lexes_length in Hl. unfold loop_fuel. lia. Qed.

(** ** Running the parser on known tokens *)

(** [m] gives [a] and leaves the tokener before [ts]. *)
Definition gives {A} (m : M tokener A) (tk : tokener) (a : A) (ts : list string) : Prop :=
  ∃ tk', m tk = (tk', Ret a) ∧ before tk' ts.

(** The same, with the first token of [ts] ready. *)
Definition gives_peeked {A} (m : M tokener A) (tk : tokener) (a : A) (ts : list string) : Prop :=
  ∃ tk', m tk = (tk', Ret a) ∧ peeked tk' ts.

Lemma gives_ret {A} (a : A) tk ts : before tk ts → gives (mret a) tk a ts.
Proof. by exists tk. Qed.

Lemma gives_bind {A B} (m : M tokener A) (k : A → M tokener B) tk a b ts1 ts2 :
  gives m tk a ts1 → (∀ tk', before tk' ts1 → gives (k a) tk' b ts2) → gives (m ≫= k) tk b ts2.
Proof. intros (tk1 & E & H1) Hk. destruct (Hk tk1 H1) as (tk2 & E2 & H2). exists tk2. by rewrite (M_bind_run _ _ _ _ _ E). Qed.

Lemma gives_bind_peeked {A B} (m : M tokener A) (k : A → M tokener B) tk a b ts1 ts2 :
  gives_peeked m tk a ts1 → (∀ tk', peeked tk' ts1 → gives (k a) tk' b ts2) → gives (m ≫= k) tk b ts2.
Proof. intros (tk1 & E & H1) Hk. destruct (Hk tk1 H1) as (tk2 & E2 & H2). exists tk2. by rewrite (M_bind_run _ _ _ _ _ E). Qed.

Lemma gives_get {B} (k : tokener → M tokener B) tk b ts : gives (k tk) tk b ts → gives (get ≫= k) tk b ts.
Proof. done. Qed.

Lemma peeked_before tk ts : peeked tk ts → before tk ts.
Proof. by left. Qed.

Lemma Peek_gives tk ts : before tk ts → gives_peeked Peek tk (hd "" ts) ts.
Proof. intros H. destruct (before_Peek tk ts H) as (tk' & E & Hp & _). by exists tk'. Qed.

Lemma Pop_gives tk ts : peeked tk ts → gives Pop tk tt (tail ts).
Proof. intros H. destruct (peeked_Pop tk ts H) as (tk' & E & Hp & _). exists tk'. split; [done|by right]. Qed.

Lemma keyword_gives k tk ts : before tk ts → hd "" ts = k → gives_peeked (keyword k) tk tt ts.
Proof.
  intros H <-. destruct (before_Peek tk ts H) as (tk' & E & Hp & _). exists tk'. unfold keyword.
  rewrite (M_bind_run _ _ _ _ _ E), decide_False by (intros Hn; by apply Hn). done.
Qed.

Lemma keyword_or_invalid_gives k tk ts : before tk ts → hd "" ts = k → gives_peeked (keyword_or_invalid k) tk tt ts.
Proof.
  intros H <-. destruct (before_Peek tk ts H) as (tk' & E & Hp & _). exists tk'. unfold keyword_or_invalid, catch.
  rewrite E, decide_False by (intros Hn; by apply Hn). done.
Qed.

Lemma name_gives n tk ts : before tk (n :: ts) → isName n = true → gives_peeked name tk n (n :: ts).
Proof.
  intros H Hn. destruct (before_Peek tk _ H) as (tk' & E & Hp & _). exists tk'. unfold name.
  rewrite (M_bind_run _ _ _ _ _ E). cbn [hd]. by rewrite Hn.
Qed.

(** One construct: look, take, compare. *)
Ltac tok :=
  match goal with
  | H : peeked ?tk _ |- gives (Peek ≫= _) ?tk _ _ =>
      eapply gives_bind_peeked; [eapply Peek_gives, peeked_before, H|]
  | H : before ?tk _ |- gives (Peek ≫= _) ?tk _ _ =>
      eapply gives_bind_peeked; [eapply Peek_gives, H|]
  | H : peeked ?tk _ |- gives (Pop ≫= _) ?tk _ _ =>
      eapply gives_bind; [eapply Pop_gives, H|]
  | H : before ?tk _ |- gives (keyword _ ≫= _) ?tk _ _ =>
      eapply gives_bind_peeked; [eapply keyword_gives; [exact H|reflexivity]|]
  | H : peeked ?tk _ |- gives (keyword _ ≫= _) ?tk _ _ =>
      eapply gives_bind_peeked; [eapply keyword_gives; [exact (peeked_before _ _ H)|reflexivity]|]
  | H : before ?tk _ |- gives (keyword_or_invalid _ ≫= _) ?tk _ _ =>
      eapply gives_bind_peeked; [eapply keyword_or_invalid_gives; [exact H|reflexivity]|]
  | H : before ?tk _ |- gives (name ≫= _) ?tk _ _ =>
      eapply gives_bind_peeked; [eapply name_gives; [exact H|eassumption]|]
  | H : before ?tk _ |- gives (mret _) ?tk _ _ => eapply gives_ret, H
  | H : peeked ?tk _ |- gives (mret _) ?tk _ _ => eapply gives_ret, peeked_before, H
  end;
  lazymatch goal with
  | |- ∀ _, _ => match goal with H : before _ _ |- _ => clear H | H : peeked _ _ |- _ => clear H end;
      let tk := fresh "tk" in let H := fresh "Hb" in intros tk H; cbn [hd tail app] in H |- *
  | |- _ => idtac
  end.

(** Settle the comparisons of known tokens. *)
Ltac cmp :=
  repeat match goal with
  | |- context [bool_decide ?P] =>
      first [rewrite (bool_decide_eq_true_2 P) by (done || assumption)
            |rewrite (bool_decide_eq_false_2 P) by (done || assumption)]
  | |- context [decide ?P] =>
      first [rewrite (decide_True (P := P)) by (done || assumption)
            |rewrite (decide_False (P := P)) by (done || assumption || (let H := fresh in intros H; by apply H))]
  end; cbn [orb andb negb].

Ltac ret_bind := match goal with H : before ?tk _ |- gives (mret _ ≫= _) ?tk _ _ =>
  eapply gives_bind; [eapply gives_ret, H|]; clear H; let tk := fresh "tk" in let H := fresh "Hb" in intros tk H;
  cbn [hd tail app] in H |- * end.

Lemma name_ok_elim n : name_ok n = true → token_ok n = true ∧ isName n = true ∧ n ≠ "".
Proof.
  intros [Ht Hn]%andb_prop. split_and!; [done..|]. intros ->. by apply andb_prop in Ht as [Ht _].
Qed.

Lemma token_ok_ne t : token_ok t = true → t ≠ "".
Proof. intros Ht ->. by apply andb_prop in Ht as [Ht _]. Qed.

(** A nested block that looks at the next token. *)
Ltac next_value :=
  eapply gives_bind; [tok; cmp; repeat tok|];
  match goal with H : before _ _ |- _ => clear H end;
  let tk := fresh "tk" in let H := fresh "Hb" in intros tk H; cbn [hd tail app] in H |- *.

Lemma parseSingleExpr_gives e tk ts :
  exp_ok e = true → before tk (exp_tokens e ++ ts) → gives parseSingleExpr tk e ts.
Proof.
  intros He Hb. destruct e as [f op v]. unfold exp_ok, exp_tokens in *. cbn [Exp_Field CmpOp Exp_Value] in *.
  apply andb_prop in He as [He Hop]. apply andb_prop in He as [He Hv]. apply andb_prop in He as [Hf Hc].
  apply name_ok_elim in Hf as (_ & Hf & _). unfold parseSingleExpr. cbn [app] in Hb. tok. tok.
  rewrite <- app_assoc in Hb. cbn [app] in Hb.
  assert (Hcases : op = "=" ∨ op = ">" ∨ op = "<" ∨ op = "!=" ∨ op = "<=" ∨ op = ">=").
  { unfold isCmpOp in Hc. repeat case_bool_decide; naive_solver. }
  destruct Hcases as [-> | [-> | [-> | [-> | [-> | ->]]]]].
  - change (op_tokens "=") with ["="] in Hb. cbn [app] in Hb. do 2 tok. cmp. ret_bind.
    change (isCmpOp _) with true. cbn [negb]. repeat tok.
  - change (op_tokens ">") with [">"] in Hb. cbn [app] in Hb. do 2 tok. cmp. revert Hop. cmp. intros Hop%negb_true_iff.
    apply bool_decide_eq_false in Hop. next_value. change (isCmpOp _) with true. cbn [negb]. repeat tok.
  - change (op_tokens "<") with ["<"] in Hb. cbn [app] in Hb. do 2 tok. cmp. revert Hop. cmp. intros Hop%negb_true_iff.
    apply bool_decide_eq_false in Hop. next_value. change (isCmpOp _) with true. cbn [negb]. repeat tok.
  - change (op_tokens "!=") with ["!"; "="] in Hb. cbn [app] in Hb. do 2 tok. cmp. next_value.
    change (isCmpOp _) with true. cbn [negb]. repeat tok.
  - change (op_tokens "<=") with ["<"; "="] in Hb. cbn [app] in Hb. do 2 tok. cmp. next_value.
    change (isCmpOp _) with true. cbn [negb]. repeat tok.
  - change (op_tokens ">=") with [">"; "="] in Hb. cbn [app] in Hb. do 2 tok. cmp. next_value.
    change (isCmpOp _) with true. cbn [negb]. repeat tok.
Qed.

Ltac sub_parser lem :=
  eapply gives_bind; [eapply lem; [..|eassumption]; try eassumption|];
  match goal with H : before _ _ |- _ => clear H end;
  let tk := fresh "tk" in let H := fresh "Hb" in intros tk H; cbn [hd tail app] in H |- *.

Lemma parseWhere_gives w tk ts :
  where_ok w = true → match SingleExp2 w with Some _ => ts = [] | None => isLogicOp (hd "" ts) = false end →
  before tk (where_tokens w ++ ts) → gives parseWhere tk w ts.
Proof.
  intros [H1 H2]%andb_prop Hts Hb. destruct w as [e1 op e2]. unfold where_tokens in Hb.
  cbn [SingleExp1 SingleExp2 LogicOp] in *. cbn [app] in Hb. rewrite <- app_assoc in Hb.
  unfold parseWhere. tok. tok. eapply gives_bind; [by eapply parseSingleExpr_gives|].
  clear Hb. intros ? Hb. destruct e2 as [e2|].
  - subst ts. apply andb_prop in H2 as [H2 He2]. cbn [app] in Hb. tok. rewrite H2.
    assert (Hop : op ≠ "") by (by intros ->). cmp. tok.
    eapply gives_bind; [by eapply parseSingleExpr_gives|]. clear Hb. intros ? Hb. do 2 tok.
  - apply bool_decide_eq_true in H2 as ->. cbn [app] in Hb. tok. rewrite Hts. rewrite orb_true_r. tok.
Qed.

Lemma where_tokens_ne w : ∃ l, where_tokens w = "where" :: l.
Proof. unfold where_tokens. eauto. Qed.

(** The parser of the first token gives the statement. *)
Definition parsed (d : Statement) : Prop :=
  ∃ parser, dispatch (hd "" (statement_tokens d)) = Some parser ∧
    ∀ tk, before tk (tail (statement_tokens d)) → gives parser tk d [].

Ltac with_parser := eexists; split; [reflexivity|]; intros tk Hb; cbn [statement_tokens tail app] in Hb.

Lemma begin_parsed b : parsed (SBegin b).
Proof.
  destruct b as [[]]; with_parser; cbn in Hb; unfold parseBegin.
  - tok. cmp. repeat (tok; cmp).
  - tok. cmp. tok.
Qed.

Lemma drop_parsed d : name_ok (Drop_TableName d) = true → parsed (SDrop d).
Proof.
  intros (_ & Hn & _)%name_ok_elim. destruct d as [t]. cbn in Hn. with_parser. unfold parseDrop. do 6 tok.
Qed.

Lemma delete_parsed d : statement_ok (SDelete d) = true → parsed (SDelete d).
Proof.
  destruct d as [t [w|]]; cbn; intros [(_ & Hn & _)%name_ok_elim Hw]%andb_prop; [|done].
  with_parser. cbn in Hb. unfold parseDelete. do 4 tok.
  eapply gives_bind; [eapply (parseWhere_gives w _ []); [done|by destruct (SingleExp2 w)|]; by rewrite app_nil_r|].
  clear Hb. intros ? Hb. tok.
Qed.

Lemma update_parsed u : statement_ok (SUpdate u) = true → parsed (SUpdate u).
Proof.
  destruct u as [t f v w]. cbn. intros [_ Hw]%andb_prop. with_parser. cbn in Hb. unfold parseUpdate. do 11 tok.
  destruct w as [w|]; cbn [app] in Hb.
  - destruct (where_tokens_ne w) as [l Hl]. rewrite Hl. cbn [hd]. cmp.
    eapply gives_bind; [eapply (parseWhere_gives w _ []); [done|by destruct (SingleExp2 w)|];
      rewrite app_nil_r; by apply peeked_before|].
    clear Hb. intros ? Hb. tok.
  - cmp. tok.
Qed.

(** *** insert *)

Lemma valuesLoop_gives fuel acc t vs tk :
  forallb token_ok vs = true → (length vs < fuel)%nat → peeked tk (t :: vs) →
  gives (valuesLoop fuel acc) tk (acc ++ vs)%list [].
Proof.
  revert acc t vs tk. induction fuel as [|fuel IH]; intros acc t vs tk Hok Hf Hb; [lia|]. cbn [valuesLoop].
  do 2 tok. destruct vs as [|v vs]; cbn [hd].
  - cmp. rewrite app_nil_r. tok.
  - apply andb_prop in Hok as [Hv Hok]. apply token_ok_ne in Hv. cmp.
    replace (acc ++ v :: vs)%list with ((acc ++ [v]) ++ vs)%list by (by rewrite <- app_assoc).
    eapply IH; [done|cbn in Hf; lia|done].
Qed.

Definition value_ok (v : string) : bool := token_ok v && negb (bool_decide (v = "}")) && negb (bool_decide (v = ",")).

(** The head of a loop that takes a token and looks at the next. *)
Lemma pop_peek_run {B} (k : string → M tokener B) tk ts :
  peeked tk ts → ∃ tk', (_ ← Pop; t ← Peek; k t) tk = k (hd "" (tail ts)) tk' ∧ peeked tk' (tail ts).
Proof.
  intros H. destruct (Pop_gives tk ts H) as (tk1 & E1 & H1). destruct (Peek_gives tk1 _ H1) as (tk2 & E2 & H2).
  exists tk2. by rewrite (M_bind_run _ _ _ _ _ E1), (M_bind_run _ _ _ _ _ E2).
Qed.

(** A row of which [acc] is read, from the token before its next value. *)
Lemma rowLoop_gives fuel acc t row ts tk :
  forallb value_ok row = true → (2 * length row < fuel)%nat →
  peeked tk (t :: commas ((λ v, [v]) <$> row) ++ "}" :: ts) →
  gives_peeked (rowLoop fuel acc) tk (acc ++ row)%list ("}" :: ts).
Proof.
  revert fuel acc t tk. induction row as [|v row IH]; intros fuel acc t tk Hok Hf Hb;
    (destruct fuel as [|fuel]; [cbn in Hf; lia|]); cbn [rowLoop];
    edestruct (pop_peek_run (B := list string)) as (tk1 & E1 & H1); try exact Hb; unfold gives_peeked; rewrite E1; clear E1.
  - cbn in *. rewrite app_nil_r. by exists tk1.
  - apply andb_prop in Hok as [Hv Hok]. apply andb_prop in Hv as [Hv Hv2]. apply andb_prop in Hv as [Hv Hv1].
    apply token_ok_ne in Hv. apply negb_true_iff, bool_decide_eq_false in Hv1, Hv2.
    replace (acc ++ v :: row)%list with ((acc ++ [v]) ++ row)%list by (by rewrite <- app_assoc).
    destruct row as [|v' row].
    + cbn in *. cmp. apply (IH _ _ v); [done|lia|done].
    + change (commas ((λ v, [v]) <$> v :: v' :: row)) with (v :: "," :: commas ((λ v, [v]) <$> v' :: row)) in H1.
      cbn [hd tail app] in H1 |- *. cmp.
      destruct fuel as [|fuel]; [cbn in Hf; lia|]. cbn [rowLoop].
      edestruct (pop_peek_run (B := list string)) as (tk2 & E2 & H2); try exact H1. rewrite E2; clear E2.
      cbn [hd tail app] in H2 |- *. cmp. apply (IH _ _ ","); [done|cbn in *; lia|done].
Qed.

Local Open Scope list_scope.

Lemma commas_cons x l : l ≠ [] → commas (x :: l) = x ++ "," :: commas l.
Proof. by destruct l. Qed.

Lemma rows_length (rows : list (list string)) : (2 * length rows ≤ length (commas (row_tokens <$> rows)))%nat.
Proof.
  induction rows as [|row rows IH]; [cbn; lia|]. destruct rows as [|row' rows].
  - cbn. rewrite length_app. cbn. lia.
  - cbn [fmap list_fmap] in *. rewrite commas_cons by done. unfold row_tokens at 1. rewrite length_app. cbn [length].
    rewrite length_app. cbn [length] in *. lia.
Qed.

Lemma values_length (row : list string) : (2 * length row ≤ S (length (commas ((λ v, [v]) <$> row))))%nat.
Proof.
  induction row as [|v row IH]; [cbn; lia|]. destruct row as [|v' row]; [cbn; lia|].
  cbn [fmap list_fmap] in *. rewrite commas_cons by done. cbn [length app] in *. lia.
Qed.

(** The rest of the rows, the opening brace of the next one being ready. *)
Lemma bulkLoop_gives fuel acc row rows tk :
  forallb (forallb value_ok) (row :: rows) = true → (length rows < fuel)%nat →
  peeked tk (commas (row_tokens <$> row :: rows)) →
  gives (bulkLoop fuel acc) tk (acc ++ row :: rows)%list [].
Proof.
  revert fuel acc row tk. induction rows as [|row' rows IH]; intros fuel acc row tk Hok Hf Hb;
    (destruct fuel as [|fuel]; [lia|]); cbn [bulkLoop]; apply andb_prop in Hok as [Hrow Hok];
    apply gives_get;
    pose proof (peeked_fuel _ _ Hb) as Hfuel; pose proof (values_length row) as Hlen.
  - assert (E : commas (row_tokens <$> [row]) = "{" :: commas ((λ v, [v]) <$> row) ++ ["}"]) by done.
    rewrite E in *. cbn [tail] in Hfuel. rewrite length_app in Hfuel. cbn [length] in Hfuel.
    eapply gives_bind_peeked; [eapply rowLoop_gives; [done| |exact Hb]; lia|].
    clear Hb; intros tk2 Hb. do 2 tok. cmp. tok.
  - assert (E : commas (row_tokens <$> row :: row' :: rows) =
      "{" :: commas ((λ v, [v]) <$> row) ++ "}" :: "," :: commas (row_tokens <$> row' :: rows)).
    { cbn [fmap list_fmap]. rewrite commas_cons by done. unfold row_tokens at 1. cbn [app]. by rewrite <- app_assoc. }
    rewrite E in *. cbn [tail] in Hfuel. rewrite length_app in Hfuel. cbn [length] in Hfuel.
    eapply gives_bind_peeked; [eapply rowLoop_gives; [done| |exact Hb]; lia|].
    clear Hb; intros tk2 Hb. do 2 tok. cmp. tok.
    eapply gives_bind_peeked; [eapply keyword_gives; [exact Hb|by destruct rows]|]. clear Hb; intros ? Hb.
    replace (acc ++ row :: row' :: rows)%list with ((acc ++ [row]) ++ row' :: rows)%list by (by rewrite <- app_assoc).
    eapply IH; [done|cbn in Hf; lia|done].
Qed.

Lemma insert_parsed i : statement_ok (SInsert i) = true → parsed (SInsert i).
Proof.
  destruct i as [t vs rows]. cbn. intros [(_ & Hn & _)%name_ok_elim Hok]%andb_prop.
  with_parser. cbn in Hb. unfold parseInsert. do 6 tok. destruct rows as [|row rows].
  - destruct vs as [|v vs]; [done|]. apply andb_prop in Hok as [Hv Hok]. apply andb_prop in Hok as [Hv' Hok].
    apply negb_true_iff, bool_decide_eq_false in Hv. apply token_ok_ne in Hv'. cbn [app] in Hb. tok. cmp.
    apply gives_get. eapply gives_bind; [eapply valuesLoop_gives; [done|apply (peeked_fuel _ _ Hb)|exact Hb]|].
    clear Hb. intros ? Hb. tok.
  - apply andb_prop in Hok as [Hvs Hok]. apply bool_decide_eq_true in Hvs as ->.
    assert (Hhd : hd "" (commas (row_tokens <$> row :: rows)) = "{") by (by destruct rows).
    match type of Hb with before ?t _ => change (before t (commas (row_tokens <$> row :: rows))) in Hb end.
    remember (commas (row_tokens <$> row :: rows)) as cs eqn:Ecs. tok. rewrite Hhd. cmp.
    unfold parseInsertBulk. apply gives_get. pose proof (rows_length (row :: rows)) as Hlen. rewrite <- Ecs in Hlen.
    pose proof (peeked_fuel _ _ Hb) as Hfuel. subst cs.
    eapply gives_bind; [eapply bulkLoop_gives; [done| |exact Hb]|].
    { destruct (commas _); cbn in *; lia. }
    clear Hb. intros ? Hb. tok.
Qed.

(** *** create *)

Lemma isType_ne t : isType t = true → t ≠ "".
Proof. by intros H ->. Qed.

Lemma name_ok_ne_sym n (b : byte) : name_ok n = true → isAlphaBeta b = false → n ≠ bytes_str [b].
Proof.
  intros (_ & Hn & _)%name_ok_elim Hb ->. unfold isName in Hn. rewrite str_bytes_str, Hb in Hn. done.
Qed.

Definition column_list (names types : list string) : list string := commas (zip_with (λ f t, [f; t]) names types).

Lemma columnsLoop_gives fuel na ty t names types rest tk :
  length names = length types → forallb name_ok names = true → forallb isType types = true →
  (length names < fuel)%nat →
  (rest = [] ∧ names ≠ []) ∨ hd "" rest = "(" →
  peeked tk (t :: column_list names types ++ rest) →
  gives_peeked (columnsLoop fuel na ty) tk (na ++ names, ty ++ types, negb (bool_decide (rest = []))) rest.
Proof.
  revert fuel na ty t types tk. induction names as [|f names IH]; intros fuel na ty t types tk Hlen Hn Ht Hf Hrest Hb;
    (destruct fuel as [|fuel]; [cbn in Hf; lia|]); cbn [columnsLoop];
    edestruct (pop_peek_run (B := list string * list string * bool)) as (tk1 & E1 & H1); try exact Hb;
    unfold gives_peeked; rewrite E1; clear E1.
  - destruct types; [|done]. destruct Hrest as [[_ ?]|Hrest]; [done|]. cbn [column_list commas zip_with app tail] in *.
    rewrite Hrest. cmp. exists tk1. rewrite !app_nil_r. split; [|done]. by destruct rest.
  - destruct types as [|ty1 types]; [done|]. cbn in Hn, Ht. apply andb_prop in Hn as [Hf1 Hn]. apply andb_prop in Ht as [Ht1 Ht].
    pose proof (name_ok_ne_sym f Byte.x28 Hf1 eq_refl) as Hpar. change (bytes_str [Byte.x28]) with "(" in Hpar.
    apply name_ok_elim in Hf1 as (_ & Hf1 & _).
    assert (Ecol : tail (t :: column_list (f :: names) (ty1 :: types) ++ rest) =
      f :: ty1 :: (if decide (names = []) then rest else "," :: column_list names types ++ rest)).
    { destruct names, types; try done. }
    rewrite Ecol in *. clear Ecol. cbn [hd]. cmp. rewrite Hf1. cbn [negb].
    edestruct (pop_peek_run (B := list string * list string * bool)) as (tk2 & E2 & H2); try exact H1. rewrite E2; clear E2.
    cbn [hd tail] in *. rewrite Ht1. cbn [negb].
    edestruct (pop_peek_run (B := list string * list string * bool)) as (tk3 & E3 & H3); try exact H2. rewrite E3; clear E3.
    cbn [tail] in *. destruct (decide (names = [])) as [->|Hne].
    + destruct types; [|done]. destruct Hrest as [[-> _]|Hrest].
      * cbn [hd]. cmp. destruct (keyword_gives "" tk3 [] (peeked_before _ _ H3) eq_refl) as (tk4 & E4 & H4).
        exists tk4. by rewrite (M_bind_run _ _ _ _ _ E4).
      * rewrite Hrest. cmp. exists tk3. split; [|done]. by destruct rest.
    + cbn [hd]. cmp. replace (na ++ f :: names) with ((na ++ [f]) ++ names) by (by rewrite <- app_assoc).
      replace (ty ++ ty1 :: types) with ((ty ++ [ty1]) ++ types) by (by rewrite <- app_assoc).
      eapply (IH _ _ _ ","); [by injection Hlen|done|done|cbn in Hf; lia| |done].
      destruct Hrest as [[-> _]|?]; [by left|by right].
Qed.

Lemma indexLoop_gives fuel acc t index tk :
  forallb name_ok index = true → (length index < fuel)%nat → peeked tk (t :: index ++ [")"]) →
  gives_peeked (indexLoop fuel acc) tk (acc ++ index) [")"].
Proof.
  revert fuel acc t tk. induction index as [|i index IH]; intros fuel acc t tk Hn Hf Hb;
    (destruct fuel as [|fuel]; [cbn in Hf; lia|]); cbn [indexLoop];
    edestruct (pop_peek_run (B := list string)) as (tk1 & E1 & H1); try exact Hb; unfold gives_peeked; rewrite E1; clear E1;
    cbn [tail app hd] in *.
  - cmp. exists tk1. by rewrite app_nil_r.
  - apply andb_prop in Hn as [Hi Hn]. pose proof (name_ok_ne_sym i Byte.x29 Hi eq_refl) as Hpar.
    change (bytes_str [Byte.x29]) with ")" in Hpar. apply name_ok_elim in Hi as (_ & Hi & _). cmp. rewrite Hi. cbn [negb].
    replace (acc ++ i :: index) with ((acc ++ [i]) ++ index) by (by rewrite <- app_assoc).
    eapply (IH _ _ i); [done|cbn in Hf; lia|done].
Qed.

Lemma columns_length names types :
  length names = length types → (length names ≤ length (column_list names types))%nat.
Proof.
  revert types. induction names as [|f names IH]; intros [|ty types]; cbn [length]; [lia|lia|lia|]. intros [= Hl].
  specialize (IH types Hl). unfold column_list in *. cbn [zip_with]. destruct names as [|f' names], types as [|ty' types]; cbn [length] in Hl; try lia; [cbn; lia|].
  cbn [zip_with] in *. rewrite commas_cons by done. cbn [length app] in *. lia.
Qed.

Lemma create_parsed c : statement_ok (SCreate c) = true → parsed (SCreate c).
Proof.
  destruct c as [t names types index]. cbn. intros [[[[(_ & Hn & _)%name_ok_elim Hlen]%andb_prop Hns]%andb_prop Hts]%andb_prop His]%andb_prop.
  apply bool_decide_eq_true in Hlen. with_parser. cbn [Create_TableName Create_FieldName Create_FieldType Create_Index] in Hb.
  fold (column_list names types) in Hb. set (rest := if bool_decide (index = []) && _ then _ else _) in Hb.
  unfold parseCreate. do 3 tok. apply gives_get. pose proof (peeked_fuel _ _ Hb) as Hfuel. cbn [tail] in Hfuel.
  rewrite length_app in Hfuel. pose proof (columns_length names types Hlen).
  eapply gives_bind_peeked; [eapply (columnsLoop_gives _ _ _ t names types rest); [done..|lia| |exact Hb]|].
  { subst rest. destruct (bool_decide (index = [])), (bool_decide (names = [])) eqn:En; cbn; try by right.
    left. by apply bool_decide_eq_false in En. }
  clear Hb. intros ? Hb. cbn [app]. subst rest. destruct (bool_decide (index = []) && negb (bool_decide (names = []))) eqn:Ei.
  - apply andb_prop in Ei as [Ei _]. apply bool_decide_eq_true in Ei as ->. cmp. tok.
  - rewrite bool_decide_eq_false_2 by done. cbn [negb]. do 2 tok. cbn [length] in Hfuel. rewrite length_app in Hfuel.
    eapply gives_bind_peeked; [eapply (indexLoop_gives _ _ "index" index); [done|lia|exact Hb]|].
    clear Hb. intros ? Hb. do 3 tok.
Qed.

(** *** Numbers *)

Lemma utf8_runes_ascii (l : list Z) fuel :
  (length l ≤ fuel)%nat → Forall (λ b, b < 128) l → utf8_runes fuel l = l.
Proof.
  revert fuel. induction l as [|b l IH]; intros [|fuel] Hf Hl; try done; [cbn in Hf; lia|].
  apply Forall_cons in Hl as [Hb Hl]. cbn [utf8_runes utf8_rune]. rewrite decide_True by done.
  cbn [drop]. rewrite IH; [done|cbn in Hf; lia|done].
Qed.

Lemma parse_digits_bytes maxVal n l v :
  0 ≤ n → parse_digits maxVal n l = Ret v → v < 2 ^ 63 →
  n ≤ v ∧ Forall (λ b, b < 128) (byte.unsigned <$> l) ∧
  foldl (λ acc c, n ← acc; if decide (c < 48 ∨ 57 < c) then Err ErrInvalidStat else Ret (i64 (i64 (n * 10) + (c - 48))))
    (Ret n) (byte.unsigned <$> l) = Ret v.
Proof.
  revert n. induction l as [|b l IH]; intros n Hn; cbn [parse_digits fmap list_fmap foldl].
  { intros [= ->] _. done. }
  destruct (digit_of b) as [d|] eqn:Ed; [|done]. unfold digit_of in Ed. case_decide as Hd; [|done]. injection Ed as <-.
  cbv zeta. case_decide; [done|]. intros Hp Hv.
  destruct (IH (n * 10 + (byte.unsigned b - 48)) ltac:(lia) Hp Hv) as (Hle & Hf & Hfold).
  split_and!; [lia|constructor; [lia|done]|]. cbn [mbind outcome_bind]. rewrite decide_False by lia.
  rewrite !i64_id by (rewrite ?i64_id by lia; lia). done.
Qed.

Lemma utilsStrToInt_print n : 0 ≤ n < 2 ^ 63 → utilsStrToInt (Uint64ToStr n) = Ret n.
Proof.
  intros Hn. pose proof (ParseUint_FormatUint 64 n ltac:(lia) ltac:(lia)) as Hp.
  unfold utilsStrToInt, range_str, Uint64ToStr. unfold strconv_ParseUint in Hp.
  destruct (str_bytes (strconv_FormatUint n)) as [|b l] eqn:E; [done|]. rewrite <- E in *. clear b l E.
  apply parse_digits_bytes in Hp as (_ & Hf & Hfold); [|lia..]. rewrite utf8_runes_ascii; [done|done|done].
Qed.

Lemma number_gives n tk ts : 0 ≤ n < 2 ^ 63 → before tk (Uint64ToStr n :: ts) → gives number tk n ts.
Proof. intros Hn Hb. unfold number. tok. rewrite utilsStrToInt_print by done. do 2 tok. Qed.

(** *** read *)

Lemma parseAggregate_gives a tk ts :
  agg_ok a = true → peeked tk (agg_tokens a ++ ts) → gives (parseAggregate (Func a)) tk a ts.
Proof.
  destruct a as [f arg]. unfold agg_ok. cbn [Func Agg_Field agg_tokens app].
  intros [Hf Harg]%andb_prop Hb. unfold parseAggregate. do 4 tok.
  apply orb_prop in Harg as [Harg|Harg].
  - apply name_ok_elim in Harg as (_ & Harg & _).
    assert (Hstar : arg ≠ "*") by (by intros ->). cmp. rewrite Harg.
    eapply gives_bind; [do 2 tok|]. clear Hb. intros ? Hb. do 3 tok.
  - apply andb_prop in Harg as [Hc Ha]. apply bool_decide_eq_true in Hc as ->, Ha as ->. cmp.
    eapply gives_bind; [do 2 tok|]. clear Hb. intros ? Hb. do 3 tok.
Qed.

(** A field or an aggregate. *)
Definition item : Type := string + Aggregate.
Definition item_tokens (i : item) : list string := match i with inl f => [f] | inr a => agg_tokens a end.
Definition item_ok (i : item) : bool :=
  match i with inl f => name_ok f && negb (isAggFunc f) | inr a => agg_ok a end.
Definition add_item (i : item) (acc : list string * list Aggregate) : list string * list Aggregate :=
  match i with inl f => (acc.1 ++ [f], acc.2) | inr a => (acc.1, acc.2 ++ [a]) end.

Lemma fieldsLoop_gives fuel acc items ts tk :
  forallb item_ok items = true → items ≠ [] → (length items ≤ fuel)%nat → hd "" ts ≠ "," →
  before tk (commas (item_tokens <$> items) ++ ts) →
  gives (fieldsLoop fuel acc.1 acc.2) tk (foldl (λ acc i, add_item i acc) acc items) ts.
Proof.
  revert fuel acc tk. induction items as [|i items IH]; intros fuel acc tk Hok Hne Hf Hts Hb; [done|].
  destruct fuel as [|fuel]; [cbn in Hf; lia|]. cbn [forallb] in Hok. apply andb_prop in Hok as [Hi Hok]. cbn [fieldsLoop].
  assert (E : commas (item_tokens <$> i :: items) ++ ts =
    item_tokens i ++ if decide (items = []) then ts else "," :: commas (item_tokens <$> items) ++ ts).
  { cbn [fmap list_fmap]. destruct items; [done|]. cbn [fmap list_fmap]. rewrite commas_cons by done. by rewrite <- app_assoc. }
  rewrite E in Hb. clear E. set (rest := if decide (items = []) then _ else _) in Hb.
  eapply gives_bind_peeked; [eapply Peek_gives, Hb|]. clear Hb. intros tk1 Hb.
  assert (Hitem : ∀ B (k : list string * list Aggregate → M tokener B) b,
    (∀ tk2, before tk2 rest → gives (k (add_item i acc)) tk2 b ts) →
    gives ((if isAggFunc (hd "" (item_tokens i ++ rest)) then
              agg ← parseAggregate (hd "" (item_tokens i ++ rest)); mret (acc.1, (acc.2 ++ [agg])%list)
            else if isName (hd "" (item_tokens i ++ rest)) then
              _ ← Pop; mret ((acc.1 ++ [hd "" (item_tokens i ++ rest)])%list, acc.2) else invalid) ≫= k) tk1 b ts).
  { intros B k b Hk. destruct i as [f|a]; cbn [item_tokens app hd item_ok add_item] in *.
    - apply andb_prop in Hi as [Hf1 Hagg]. apply negb_true_iff in Hagg. apply name_ok_elim in Hf1 as (_ & Hf1 & _).
      rewrite Hagg, Hf1. eapply gives_bind; [do 2 tok|exact Hk].
    - pose proof Hi as [Hfn _]%andb_prop. change (hd "" (agg_tokens a ++ rest)) with (Func a). rewrite Hfn.
      eapply gives_bind; [eapply gives_bind; [by eapply parseAggregate_gives|intros tk2 H2; by apply gives_ret]|exact Hk]. }
  apply Hitem. clear Hitem Hb. intros tk2 Hb. destruct (add_item i acc) as [fs ags] eqn:Eadd.
  cbn [foldl]. rewrite Eadd. subst rest. destruct (decide (items = [])) as [->|Hni].
  - tok. cmp. tok.
  - tok. cmp. tok. apply (IH fuel (fs, ags)); [done..|cbn in Hf; lia|done|done].
Qed.

Lemma parseLimit_gives limit offset tk :
  0 ≤ limit < 2 ^ 63 → 0 ≤ offset < 2 ^ 63 → before tk (limit_tokens limit offset) →
  gives parseLimit tk (limit, offset) [].
Proof.
  intros Hl Ho. unfold limit_tokens, parseLimit.
  destruct (bool_decide (limit = 0) && bool_decide (offset = 0)) eqn:E; intros Hb.
  - apply andb_prop in E as [E1 E2]. apply bool_decide_eq_true in E1 as ->, E2 as ->. tok. cmp. tok.
  - clear E. tok. cmp. tok. eapply gives_bind; [by apply (number_gives limit)|]. clear Hb. intros ? Hb.
    destruct (bool_decide (offset = 0)) eqn:E.
    + apply bool_decide_eq_true in E as ->. eapply gives_bind; [|intros ? ?; by eapply gives_ret].
      destruct (Peek_gives _ _ Hb) as (tk2 & E2 & H2). exists tk2. unfold catch. rewrite E2. cbn [hd]. cmp.
      split; [done|by left].
    + eapply gives_bind; [|intros ? ?; by eapply gives_ret].
      destruct (Peek_gives _ _ Hb) as (tk2 & E2 & H2). cbn [hd] in *.
      destruct (Pop_gives _ _ H2) as (tk3 & E3 & H3). destruct (number_gives offset tk3 [] Ho H3) as (tk4 & E4 & H4).
      exists tk4. unfold catch. rewrite E2. cmp. by rewrite (M_bind_run _ _ _ _ _ E3).
Qed.

Lemma limit_tokens_hd limit offset :
  hd "" (limit_tokens limit offset) = "" ∨ hd "" (limit_tokens limit offset) = "limit".
Proof. unfold limit_tokens. destruct (_ && _); [by left|by right]. Qed.

Lemma parseOrderBy_gives field desc ts tk :
  (if bool_decide (field = "") then negb desc else name_ok field) = true →
  hd "" ts = "" ∨ hd "" ts = "limit" →
  before tk (order_tokens field desc ++ ts) → gives parseOrderBy tk (field, desc) ts.
Proof.
  intros Hok Hts. unfold order_tokens, parseOrderBy. destruct (bool_decide (field = "")) eqn:E; intros Hb; cbn [app] in Hb.
  - apply bool_decide_eq_true in E as ->. apply negb_true_iff in Hok as ->. tok.
    rewrite decide_False by (destruct Hts as [-> | ->]; done). tok.
  - apply name_ok_elim in Hok as (_ & Hn & _). tok. cmp. do 3 tok.
    destruct (Peek_gives _ _ Hb) as (tk5 & E5 & H5). cbn [hd] in E5.
    eapply gives_bind_peeked; [exists tk5; unfold catch; rewrite E5, Hn; done|]. clear Hb H5 E5. intros ? Hb. tok.
    destruct desc; cbn [app] in Hb; (eapply gives_bind; [|intros ? ?; by eapply gives_ret]);
      destruct (Peek_gives _ _ Hb) as (tk7 & E7 & H7); unfold gives, catch; rewrite E7; cbn [hd] in *.
    + cmp. destruct (Pop_gives _ _ H7) as (tk8 & E8 & H8). exists tk8. by rewrite (M_bind_run _ _ _ _ _ E8).
    + exists tk7. rewrite !decide_False by (destruct Hts as [-> | ->]; done). split; [done|by left].
Qed.

Lemma items_foldl fs ags : foldl (λ acc i, add_item i acc) ([], []) ((inl <$> fs) ++ (inr <$> ags)) = (fs, ags).
Proof.
  rewrite foldl_app. assert (H1 : ∀ l acc, foldl (λ acc i, add_item i acc) acc (inl <$> l) = (acc.1 ++ l, acc.2)).
  { induction l as [|f l IH]; intros [a b]; cbn; [by rewrite app_nil_r|]. rewrite IH. cbn. by rewrite <- app_assoc. }
  assert (H2 : ∀ l acc, foldl (λ acc i, add_item i acc) acc (inr <$> l) = (acc.1, acc.2 ++ l)).
  { induction l as [|f l IH]; intros [a b]; cbn; [by rewrite app_nil_r|]. rewrite IH. cbn. by rewrite <- app_assoc. }
  by rewrite H1, H2.
Qed.

Lemma items_tokens fs ags :
  ((λ f, [f]) <$> fs) ++ (agg_tokens <$> ags) = item_tokens <$> ((inl <$> fs) ++ (inr <$> ags) : list item).
Proof. rewrite fmap_app, <- !list_fmap_compose. done. Qed.

Lemma items_length (items : list item) :
  forallb item_ok items = true → (length items ≤ length (commas (item_tokens <$> items)))%nat.
Proof.
  induction items as [|i items IH]; [cbn; lia|]. cbn [forallb]. intros [Hi Hok]%andb_prop. specialize (IH Hok).
  assert (1 ≤ length (item_tokens i))%nat by (destruct i; cbn; lia). destruct items as [|j items]; [by cbn|].
  cbn [fmap list_fmap] in *. rewrite commas_cons by done. rewrite length_app. cbn [length] in *. lia.
Qed.

(** What may follow a table name or a condition. *)
Lemma rest_hd orderBy desc limit offset :
  let h := hd "" (order_tokens orderBy desc ++ limit_tokens limit offset) in h = "" ∨ h = "order" ∨ h = "limit".
Proof.
  unfold order_tokens. destruct (bool_decide (orderBy = "")); [|by right; left].
  destruct (limit_tokens_hd limit offset); cbn [app]; naive_solver.
Qed.

Definition read_items (r : Read) : list item := (inl <$> Fields r) ++ (inr <$> Aggregates r).

(** The field list, which the code reads differently when it is a star. *)
Lemma fields_gives r ts tk {B} (k : list string * list Aggregate → M tokener B) b ts' :
  bool_decide (Fields r = ["*"]) && bool_decide (Aggregates r = []) ||
    forallb (λ f, name_ok f && negb (isAggFunc f)) (Fields r) && forallb agg_ok (Aggregates r) &&
    negb (bool_decide (Fields r = []) && bool_decide (Aggregates r = [])) = true →
  hd "" ts = "from" → before tk (commas (item_tokens <$> read_items r) ++ ts) →
  (∀ tk', before tk' ts → gives (k (Fields r, Aggregates r)) tk' b ts') →
  gives (asterisk ← Peek;
    fa ← (if decide (asterisk = "*") then _ ← Pop; mret (["*"], [])
          else tk ← get; fieldsLoop (loop_fuel tk) [] []); k fa) tk b ts'.
Proof.
  intros Hok Hts Hb Hk. unfold read_items in *. destruct r as [t fs ags w o d li off]. cbn [Fields Aggregates] in *.
  apply orb_prop in Hok as [Hok|Hok].
  - apply andb_prop in Hok as [H1 H2]. apply bool_decide_eq_true in H1 as ->, H2 as ->. cbn in Hb.
    tok. cmp. eapply gives_bind; [do 2 tok|exact Hk].
  - apply andb_prop in Hok as [Hok Hne]. apply andb_prop in Hok as [Hfs Hags].
    set (items := (inl <$> fs) ++ (inr <$> ags) : list item) in Hb.
    assert (Hitems : forallb item_ok items = true).
    { unfold items. rewrite forallb_app. apply andb_true_intro. split.
      - clear -Hfs. induction fs as [|f fs IH]; [done|]. cbn in *. apply andb_prop in Hfs as [-> Hfs]. by apply IH.
      - clear -Hags. induction ags as [|a ags IH]; [done|]. cbn in *. apply andb_prop in Hags as [-> Hags]. by apply IH. }
    assert (Hni : items ≠ []).
    { unfold items. destruct fs, ags; done. }
    assert (Hstar : hd "" (commas (item_tokens <$> items) ++ ts) ≠ "*").
    { clearbody items. destruct items as [|i items]; [done|]. cbn in Hitems. apply andb_prop in Hitems as [Hi _].
      assert (E : ∃ l, commas (item_tokens <$> i :: items) ++ ts = hd "" (item_tokens i) :: l).
      { destruct i as [f|a], items; cbn; eauto. }
      destruct E as [l ->]. cbn [hd]. by destruct i as [f|[fn arg]]; cbn in *; intros ->. }
    eapply gives_bind_peeked; [eapply Peek_gives, Hb|]. clear Hb. intros tk1 Hb. rewrite decide_False by done.
    pose proof (peeked_fuel _ _ Hb) as Hfuel. pose proof (items_length items Hitems) as Hlen.
    assert (Hlt : (length items ≤ loop_fuel tk1)%nat).
    { destruct (commas (item_tokens <$> items)); cbn in *; [lia|]. rewrite length_app in Hfuel. lia. }
    eapply gives_bind; [|exact Hk]. apply gives_get. rewrite <- (items_foldl fs ags).
    apply (fieldsLoop_gives _ ([], []) items ts); [done..| |by apply peeked_before]. by rewrite Hts.
Qed.

Lemma clauses_gives r tk :
  (if bool_decide (OrderBy r = "") then negb (OrderDesc r) else name_ok (OrderBy r)) = true →
  0 ≤ Limit r < 2 ^ 63 → 0 ≤ Offset r < 2 ^ 63 →
  before tk (order_tokens (OrderBy r) (OrderDesc r) ++ limit_tokens (Limit r) (Offset r)) →
  gives ('(orderBy, desc) ← parseOrderBy; '(limit, offset) ← parseLimit;
    mret (SRead (mkRead (Read_TableName r) (Fields r) (Aggregates r) (Read_Where r) orderBy desc limit offset))) tk (SRead r) [].
Proof.
  intros Ho Hl Hoff Hb.
  eapply gives_bind; [eapply parseOrderBy_gives; [exact Ho|apply limit_tokens_hd|exact Hb]|].
  clear Hb. intros tk1 Hb. eapply gives_bind; [by apply (parseLimit_gives (Limit r) (Offset r))|].
  clear Hb. intros tk2 Hb. destruct r. tok.
Qed.

Lemma read_parsed r : statement_ok (SRead r) = true → parsed (SRead r).
Proof.
  intros [[[[[(_ & Hn & _)%name_ok_elim Hfs]%andb_prop Hw]%andb_prop Ho]%andb_prop Hl%bool_decide_eq_true]%andb_prop
    Hoff%bool_decide_eq_true]%andb_prop.
  eexists; split; [reflexivity|]. intros tk Hb. cbn [statement_tokens tail] in Hb.
  rewrite items_tokens in Hb. fold (read_items r) in Hb. cbn [dispatch]. unfold parseRead.
  eapply (fields_gives r); [exact Hfs| |exact Hb|]; [done|]. clear Hb. intros tk1 Hb.
  pose proof (rest_hd (OrderBy r) (OrderDesc r) (Limit r) (Offset r)) as Hhd. cbn zeta in Hhd.
  remember (order_tokens (OrderBy r) (OrderDesc r) ++ limit_tokens (Limit r) (Offset r)) as rest eqn:Erest.
  do 4 tok. destruct (Read_Where r) as [w|] eqn:Ew.
  - destruct (where_tokens_ne w) as [l El]. rewrite El in Hb. cbn [app] in Hb. tok. cmp.
    apply peeked_before in Hb. change ("where" :: l ++ rest) with (("where" :: l) ++ rest) in Hb. rewrite <- El in Hb.
    apply andb_prop in Hw as [Hw Hrest].
    eapply gives_bind; [eapply gives_bind; [eapply (parseWhere_gives w _ rest); [done| |exact Hb]|intros tk6 H6; by apply gives_ret]|].
    { destruct (SingleExp2 w).
      - rewrite bool_decide_eq_false_2, orb_false_l in Hrest by done.
        apply andb_prop in Hrest as [Hrest H3]. apply andb_prop in Hrest as [H1 H2].
        rewrite Erest. unfold order_tokens, limit_tokens. by rewrite H1, H2, H3.
      - destruct Hhd as [-> |[-> | ->]]; done. }
    clear Hb. intros tk7 Hb. subst rest. rewrite <- Ew. by apply clauses_gives.
  - cbn [app] in Hb. tok. destruct (decide (hd "" rest = "")) as [Hend|Hend].
    + assert (rest = [] ∧ OrderBy r = "" ∧ OrderDesc r = false ∧ Limit r = 0 ∧ Offset r = 0) as (-> & H1 & H2 & H3 & H4).
      { subst rest. unfold order_tokens, limit_tokens in *. destruct (bool_decide (OrderBy r = "")) eqn:E1; [|cbn in Hend; discriminate].
        destruct (bool_decide (Limit r = 0) && bool_decide (Offset r = 0)) eqn:E2; [|cbn in Hend; discriminate].
        apply bool_decide_eq_true in E1. apply andb_prop in E2 as [E2 E3]. apply bool_decide_eq_true in E2, E3.
        apply negb_true_iff in Ho. done. }
      destruct r. cbn in H1, H2, H3, H4, Ew |- *. subst. tok.
    + rewrite decide_False by (destruct Hhd as [-> |[-> | ->]]; done).
      apply peeked_before in Hb. ret_bind. subst rest. rewrite <- Ew. by apply clauses_gives.
Qed.

(** *** Every printed token can be read back *)

Abbreviation all_ok := (forallb token_ok).

Lemma all_ok_app l1 l2 : all_ok (l1 ++ l2) = all_ok l1 && all_ok l2.
Proof. apply forallb_app. Qed.

Lemma all_ok_commas l : forallb all_ok l = true → all_ok (commas l) = true.
Proof.
  induction l as [|x l IH]; [done|]. cbn [forallb]. intros [Hx Hl]%andb_prop. destruct l as [|y l]; [done|].
  rewrite commas_cons, all_ok_app, Hx by done. cbn [forallb andb]. by rewrite IH.
Qed.

Lemma name_token n : name_ok n = true → token_ok n = true.
Proof. by intros [? _]%andb_prop. Qed.

Lemma names_tokens l : forallb name_ok l = true → all_ok l = true.
Proof. induction l as [|n l IH]; [done|]. cbn. intros [Hn Hl]%andb_prop. by rewrite (name_token n), IH. Qed.

Lemma digits_token n : 0 ≤ n < 2 ^ 63 → token_ok (Uint64ToStr n) = true.
Proof.
  intros Hn. pose proof (ParseUint_FormatUint 64 n ltac:(lia) ltac:(lia)) as Hp. unfold Uint64ToStr.
  unfold strconv_ParseUint in Hp. destruct (str_bytes (strconv_FormatUint n)) as [|b l] eqn:E; [done|].
  unfold token_ok. apply andb_true_intro. split.
  - apply negb_true_iff, bool_decide_eq_false. intros E'. by rewrite E' in E.
  - apply orb_true_intro. left. unfold has. rewrite E. clear E. apply negb_true_iff.
    revert Hp. generalize 0. generalize (b :: l). clear. intros l. induction l as [|b l IH]; intros m; [done|].
    cbn [parse_digits existsb]. destruct (digit_of b) as [d|] eqn:Ed; [|done]. cbv zeta. case_decide; [done|].
    intros Hp. rewrite (IH _ Hp), orb_false_r. apply bool_decide_eq_false. intros ->. vm_compute in Ed. discriminate.
Qed.

Lemma exp_all_ok e : exp_ok e = true → all_ok (exp_tokens e) = true.
Proof.
  destruct e as [f op v]. unfold exp_ok, exp_tokens. cbn [Exp_Field CmpOp Exp_Value].
  intros [[[Hf%name_token Hc]%andb_prop Hv]%andb_prop _]%andb_prop. cbn [forallb]. rewrite Hf, all_ok_app.
  cbn [forallb]. rewrite Hv. assert (Hop : all_ok (op_tokens op) = true); [|by rewrite Hop].
  unfold isCmpOp in Hc. unfold op_tokens. repeat case_bool_decide; simplify_eq; done.
Qed.

Lemma where_all_ok w : where_ok w = true → all_ok (where_tokens w) = true.
Proof.
  destruct w as [e1 op [e2|]]; unfold where_ok, where_tokens; cbn [SingleExp1 SingleExp2 LogicOp];
    intros [H1%exp_all_ok H2]%andb_prop; cbn [forallb]; rewrite all_ok_app, H1; [|done].
  apply andb_prop in H2 as [Hop He2%exp_all_ok]. cbn [forallb]. rewrite He2, andb_true_r.
  unfold isLogicOp in Hop. repeat case_bool_decide; simplify_eq; done.
Qed.

Lemma item_all_ok i : item_ok i = true → all_ok (item_tokens i) = true.
Proof.
  destruct i as [f|[fn arg]]; cbn.
  - intros [Hf%name_token _]%andb_prop. by rewrite Hf.
  - unfold agg_ok. cbn. intros [Hf Ha]%andb_prop.
    assert (token_ok fn = true) as ->.
    { unfold isAggFunc in Hf. repeat case_bool_decide; simplify_eq; done. }
    assert (token_ok arg = true) as ->; [|done].
    apply orb_prop in Ha as [Ha|[_ Ha]%andb_prop]; [by apply name_token|]. by apply bool_decide_eq_true in Ha as ->.
Qed.

Lemma columns_all_ok names types :
  forallb name_ok names = true → forallb isType types = true → all_ok (column_list names types) = true.
Proof.
  intros Hn Ht. apply all_ok_commas. revert types Ht. induction names as [|f names IH]; intros [|t types] Ht; try done.
  cbn in *. apply andb_prop in Hn as [Hf%name_token Hn]. apply andb_prop in Ht as [Ht Hts]. rewrite Hf, (IH Hn _ Hts).
  unfold isType in Ht. repeat case_bool_decide; simplify_eq; done.
Qed.

Lemma rows_all_ok rows : forallb (forallb value_ok) rows = true → all_ok (commas (row_tokens <$> rows)) = true.
Proof.
  intros H. apply all_ok_commas. induction rows as [|row rows IH]; [done|]. cbn in *. apply andb_prop in H as [Hr H].
  rewrite (IH H), andb_true_r. rewrite all_ok_app. cbn. rewrite andb_true_r. apply all_ok_commas. clear -Hr.
  induction row as [|v row IH]; [done|]. cbn in *. apply andb_prop in Hr as [Hv Hr]. rewrite (IH Hr).
  unfold value_ok in Hv. by destruct (token_ok v).
Qed.

Lemma limit_all_ok limit offset :
  0 ≤ limit < 2 ^ 63 → 0 ≤ offset < 2 ^ 63 → all_ok (limit_tokens limit offset) = true.
Proof.
  intros Hl Ho. unfold limit_tokens. destruct (bool_decide (limit = 0) && bool_decide (offset = 0)); [done|].
  cbn [forallb]. rewrite digits_token by done. destruct (bool_decide (offset = 0)); [done|].
  cbn [forallb]. by rewrite digits_token.
Qed.

Lemma read_all_ok r : statement_ok (SRead r) = true → all_ok (statement_tokens (SRead r)) = true.
Proof.
  intros [[[[[Hn%name_token Hfs]%andb_prop Hw]%andb_prop Ho]%andb_prop Hl%bool_decide_eq_true]%andb_prop
    Hoff%bool_decide_eq_true]%andb_prop. cbn [statement_tokens]. rewrite items_tokens. fold (read_items r).
  cbn [forallb]. rewrite !all_ok_app. cbn [forallb]. rewrite Hn.
  assert (Hi : all_ok (commas (item_tokens <$> read_items r)) = true).
  { destruct r as [t fs ags w o d li off]. unfold read_items. cbn [Fields Aggregates] in *. apply orb_prop in Hfs as [Hfs|Hfs].
    - apply andb_prop in Hfs as [H1 H2]. apply bool_decide_eq_true in H1 as ->, H2 as ->. done.
    - apply andb_prop in Hfs as [[Hf Ha]%andb_prop _]. apply all_ok_commas. rewrite fmap_app, forallb_app.
      apply andb_true_intro. split.
      + clear -Hf. induction fs as [|f fs IH]; [done|]. cbn in *. apply andb_prop in Hf as [Hf Hfs].
        rewrite (IH Hfs). apply andb_prop in Hf as [Hf%name_token _]. by rewrite Hf.
      + clear -Ha. induction ags as [|a ags IH]; [done|]. cbn [forallb fmap list_fmap] in *. apply andb_prop in Ha as [Ha Hags].
        rewrite (IH Hags). by rewrite (item_all_ok (inr a)). }
  rewrite Hi. assert (Hwt : all_ok match Read_Where r with Some w => where_tokens w | None => [] end = true).
  { destruct (Read_Where r); [|done]. apply andb_prop in Hw as [Hw _]. by apply where_all_ok. }
  rewrite Hwt, limit_all_ok by done. unfold order_tokens. destruct (bool_decide (OrderBy r = "")); [done|].
  cbn [forallb]. rewrite (name_token _ Ho). by destruct (OrderDesc r).
Qed.

Lemma tokens_ok d : statement_ok d = true → all_ok (statement_tokens d) = true.
Proof.
  destruct d as [[[]]| | |[t]| |c|[t f v w]|[t w]|i|r]; try done; [..|apply read_all_ok]; cbn [statement_ok].
  - cbn. intros H%name_token. by rewrite H.
  - destruct c as [t names types index]. cbn [Create_TableName Create_FieldName Create_FieldType Create_Index].
    intros [[[[Hn%name_token _]%andb_prop Hns]%andb_prop Hts]%andb_prop His%names_tokens]%andb_prop.
    cbn [statement_tokens Create_TableName Create_FieldName Create_FieldType Create_Index]. cbn [forallb app]. rewrite Hn.
    fold (column_list names types). rewrite all_ok_app, columns_all_ok by done.
    destruct (bool_decide (index = []) && negb (bool_decide (names = []))); [done|]. cbn [forallb]. rewrite all_ok_app, His. done.
  - cbn. intros [[[Ht Hf]%andb_prop Hv]%andb_prop Hw]%andb_prop. rewrite Ht, Hf, Hv. destruct w; [|done].
    by rewrite where_all_ok.
  - cbn. intros [Hn%name_token Hw]%andb_prop. rewrite Hn. destruct w; [|done]. by rewrite where_all_ok.
  - destruct i as [t vs [|row rows]]; cbn [Insert_TableName Values ValuesList]; intros [Hn%name_token Hv]%andb_prop;
      cbn [statement_tokens forallb app Insert_TableName Values ValuesList]; rewrite Hn.
    + destruct vs as [|v vs]; [done|]. by apply andb_prop in Hv as [_ Hv].
    + apply andb_prop in Hv as [_ Hv]. by rewrite rows_all_ok.
Qed.

(** C17: Every statement of the language, printed as tokens with blanks between
    them (words and symbols as they are, other tokens in quotes), is parsed
    back to itself. *)
Theorem Parse_print d : statement_ok d = true → Parse (render (statement_tokens d)) = Ret d.
Proof.
  intros Hok. assert (Hp : parsed d).
  { destruct d; [apply begin_parsed|with_parser; cbn in Hb; unfold parseCommit; do 2 tok
      |with_parser; cbn in Hb; unfold parseAbort; do 2 tok|by apply drop_parsed
      |with_parser; cbn in Hb; unfold parseShow; do 2 tok|by apply create_parsed
      |by apply update_parsed|by apply delete_parsed|by apply insert_parsed|by apply read_parsed]. }
  destruct Hp as (parser & Hd & Hrun). pose proof (fresh_new _ (tokens_ok d Hok)) as Hb.
  unfold Parse, parse_statement. destruct (Peek_gives _ _ Hb) as (tk1 & E1 & H1). rewrite (M_bind_run _ _ _ _ _ E1).
  destruct (Pop_gives _ _ H1) as (tk2 & E2 & H2). rewrite (M_bind_run _ _ _ _ _ E2). rewrite Hd.
  destruct (Hrun tk2 H2) as (tk3 & E3 & H3). unfold check_rest. rewrite E3.
  destruct (Peek_gives _ _ H3) as (tk4 & E4 & _). by rewrite E4.
Qed.

Lemma Parse_print_witness :
  let d := SRead (mkRead "student" ["name"; "id"] [mkAgg "count" "*"]
    (Some (mkWhere (mkExp "id" ">=" "Zhang") "" None)) "id" true 10 20) in
  render (statement_tokens d) =
    str_bytes "read name , id , count ( * ) from student where id > = Zhang order by id desc limit 10 offset 20 " ∧
  Parse (render (statement_tokens d)) = Ret d.
Proof. split; [vm_compute; reflexivity|]. apply Parse_print. vm_compute. reflexivity. Defined.

(** * Two texts of note *)

(** An empty quoted string is the empty token, which stands for the end of the
    statement: the values after it are dropped without an error. *)
Lemma empty_string_ends_statement :
  Parse (str_bytes "insert into t values 1 '' 2") = Ret (SInsert (mkInsert "t" ["1"] [])).
Proof. vm_compute. reflexivity. Qed.

(** An [order by] after a condition of two comparisons is rejected, although
    the message of the error says it comes after the condition. *)
Lemma order_after_two_comparisons :
  match Parse (str_bytes "read a from t where a > 1 and a < 4 order by a") with Err (ErrMsg _) => True | _ => False end.
Proof. vm_compute. exact I. Qed.
