(* ===== verification/Transporter.v ===== *)
(** Package [transporter]: the wire protocol ([wire.go], [wire_protocoler.go],
    [wire_transporter.go]), the older one-byte protocol over hexadecimal lines
    ([protocoler.go], [transporter.go]) and the packager ([packager.go]).

    A connection is the bytes the peer sends before it closes and the bytes
    written so far; errors inside packages are their texts. *)
From S2P Require Import Prelude.
From S2P Require Import Codec.
Local Open Scope Z_scope.

(** * Packages and connections *)

Record Package := mkPkg { Data : list byte; Err_ : option (list byte) }.
Definition NewPackage := mkPkg.

#[export] Instance Package_eq_dec : EqDecision Package.
Proof. solve_decision. Defined.

Record conn := mkConn { c_in : list byte; c_out : list byte }.

(** [io.ReadFull(conn, make([]byte, n))] *)
Definition ReadFull (n : Z) : M conn (list byte) := λ c,
  if decide (n ≤ zlen (c_in c)) then
    (mkConn (drop (Z.to_nat n) (c_in c)) (c_out c), Ret (take (Z.to_nat n) (c_in c)))
  else (mkConn [] (c_out c), Err (if decide (c_in c = []) then ErrEOF else ErrUnexpectedEOF)).

Definition conn_Write (data : list byte) : M conn unit := modify (λ c, mkConn (c_in c) (c_out c ++ data)).

(** * wire.go *)

Definition WireMagic : Z := 0x57495344.
Definition WireVersion : byte := Byte.x01.
Definition WireTypeRequest : byte := Byte.x01.
Definition WireTypeResponse : byte := Byte.x02.
Definition WireFlagOK : byte := Byte.x00.
Definition WireFlagError : byte := Byte.x01.
Definition wireReqHeaderLen : Z := 14.
Definition wireRespHeaderLen : Z := 15.

(** * wire_transporter.go *)

Definition wireTransporter_Send (data : list byte) : M conn unit := conn_Write data.

(** The rest of a frame: [hdr] bytes of header that end with the body length,
    then the body.  The size of the frame is computed in 32 bits. *)
Definition receive_rest (prefix : list byte) (hdr : Z) : M conn (list byte) :=
  rest ← ReadFull hdr;
  lenraw ← lift (slice rest (hdr - 4) hdr);
  bodyLen ← lift (ParseUint32 lenraw);
  body ← ReadFull bodyLen;
  let frame := make_bytes (u32 (6 + hdr + bodyLen)) in
  _ ← lift (slice frame 0 6);
  let frame := copy_at frame 0 prefix in
  _ ← lift (slice frame 6 (6 + hdr));
  let frame := copy_at frame 6 rest in
  _ ← lift (slice_from frame (6 + hdr));
  mret (copy_at frame (6 + hdr) body).

Definition wireTransporter_Receive : M conn (list byte) :=
  prefix ← ReadFull 6;
  raw ← lift (slice prefix 0 4);
  magic ← lift (ParseUint32 raw);
  if decide (magic ≠ WireMagic) then fail ErrWireBadMagic
  else
    version ← lift (idx prefix 4);
    if decide (version ≠ WireVersion) then fail ErrWireBadVersion
    else
      frameType ← lift (idx prefix 5);
      if decide (frameType = WireTypeRequest) then receive_rest prefix 8
      else if decide (frameType = WireTypeResponse) then receive_rest prefix 9
      else fail ErrWireBadType.

(** * wire_protocoler.go *)

Record wireProtocoler := mkWP { nextID : Z; isServer : bool; lastRequestID : Z }.

Definition NewWireProtocoler : wireProtocoler := mkWP 0 false 0.
Definition NewWireServerProtocoler : wireProtocoler := mkWP 0 true 0.

(** [frame[i] = b] *)
Definition set_byte (i : Z) (b : byte) (frame : list byte) : outcome (list byte) :=
  if decide (0 ≤ i < zlen frame) then Ret (copy_at frame i [b]) else Panic.

(** [binary.BigEndian.PutUint32(frame[i:i+4], v)] *)
Definition put32 (i v : Z) (frame : list byte) : outcome (list byte) :=
  _ ← slice frame i (i + 4);
  Ret (copy_at frame i (Uint32ToRaw v)).

Definition encodeRequest (pkg : Package) : M wireProtocoler (list byte) :=
  _ ← modify (λ p, mkWP (u32 (nextID p + 1)) (isServer p) (lastRequestID p));
  p ← get;
  let reqID := nextID p in
  let payload := Data pkg in
  let bodyLen := u32 (zlen payload) in
  let frame := make_bytes (u32 (wireReqHeaderLen + bodyLen)) in
  lift (frame ← put32 0 WireMagic frame;
        frame ← set_byte 4 WireVersion frame;
        frame ← set_byte 5 WireTypeRequest frame;
        frame ← put32 6 reqID frame;
        frame ← put32 10 bodyLen frame;
        _ ← slice_from frame 14;
        Ret (copy_at frame 14 payload)).

Definition encodeResponse (pkg : Package) : M wireProtocoler (list byte) :=
  p ← get;
  let reqID := lastRequestID p in
  let '(flag, payload) := match Err_ pkg with
                          | Some err => (WireFlagError, err)
                          | None => (WireFlagOK, Data pkg)
                          end in
  let bodyLen := u32 (zlen payload) in
  let frame := make_bytes (u32 (wireRespHeaderLen + bodyLen)) in
  lift (frame ← put32 0 WireMagic frame;
        frame ← set_byte 4 WireVersion frame;
        frame ← set_byte 5 WireTypeResponse frame;
        frame ← put32 6 reqID frame;
        frame ← set_byte 10 flag frame;
        frame ← put32 11 bodyLen frame;
        _ ← slice_from frame 15;
        Ret (copy_at frame 15 payload)).

Definition wireProtocoler_Encode (pkg : Package) : M wireProtocoler (list byte) :=
  p ← get;
  if isServer p then encodeResponse pkg else encodeRequest pkg.

(** [binary.BigEndian.Uint32(data[a:b])] *)
Definition get32 (data : list byte) (a b : Z) : outcome Z := raw ← slice data a b; ParseUint32 raw.

Definition wireProtocoler_Decode (data : list byte) : M wireProtocoler Package :=
  if decide (zlen data < 6) then fail ErrInvalidPkgData
  else
    frameType ← lift (idx data 5);
    if decide (frameType = WireTypeRequest) then
      if decide (zlen data < wireReqHeaderLen) then fail ErrInvalidPkgData
      else
        reqID ← lift (get32 data 6 10);
        bodyLen ← lift (get32 data 10 14);
        if decide (u32 (zlen data) < u32 (wireReqHeaderLen + bodyLen)) then fail ErrInvalidPkgData
        else
          _ ← modify (λ p, mkWP (nextID p) (isServer p) reqID);
          payload ← lift (slice data wireReqHeaderLen (u32 (wireReqHeaderLen + bodyLen)));
          mret (NewPackage payload None)
    else if decide (frameType = WireTypeResponse) then
      if decide (zlen data < wireRespHeaderLen) then fail ErrInvalidPkgData
      else
        flag ← lift (idx data 10);
        bodyLen ← lift (get32 data 11 15);
        if decide (u32 (zlen data) < u32 (wireRespHeaderLen + bodyLen)) then fail ErrInvalidPkgData
        else
          payload ← lift (slice data wireRespHeaderLen (u32 (wireRespHeaderLen + bodyLen)));
          if decide (flag = WireFlagError) then mret (NewPackage [] (Some payload))
          else mret (NewPackage payload None)
    else fail ErrWireBadType.

(** * protocoler.go *)

Definition protocoler_Decode (data : list byte) : outcome Package :=
  if decide (zlen data < 1) then Err ErrInvalidPkgData
  else
    b ← idx data 0;
    if decide (b = Byte.x00) then d ← slice_from data 1; Ret (NewPackage d None)
    else if decide (b = Byte.x01) then d ← slice_from data 1; Ret (NewPackage [] (Some d))
    else Err ErrInvalidPkgData.

Definition protocoler_Encode (pkg : Package) : list byte :=
  match Err_ pkg with
  | Some err => copy_at (copy_at (make_bytes (zlen err + 1)) 0 [Byte.x01]) 1 err
  | None => copy_at (copy_at (make_bytes (zlen (Data pkg) + 1)) 0 [Byte.x00]) 1 (Data pkg)
  end.

(** * transporter.go *)

(** ** encoding/hex (standard library) *)

Definition hex_digit (n : Z) : byte := byte.of_Z (if decide (n < 10) then 48 + n else 87 + n).

Definition hex_value (b : byte) : option Z :=
  let c := byte.unsigned b in
  if decide (48 ≤ c ≤ 57) then Some (c - 48)
  else if decide (97 ≤ c ≤ 102) then Some (c - 87)
  else if decide (65 ≤ c ≤ 70) then Some (c - 55)
  else None.

Definition hex_Encode (buf : list byte) : list byte :=
  mjoin ((λ b, [hex_digit (Z.shiftr (byte.unsigned b) 4); hex_digit (Z.land (byte.unsigned b) 15)]) <$> buf).

Fixpoint hex_Decode (buf : list byte) : option (list byte) :=
  match buf with
  | a :: b :: buf' =>
      x ← hex_value a; y ← hex_value b; l ← hex_Decode buf';
      Some (byte.of_Z (Z.lor (Z.shiftl x 4) y) :: l)
  | _ => Some []
  end.

Definition newline : byte := Byte.x0a.

Definition hexEncode (buf : list byte) : list byte :=
  let n := zlen buf in
  let ret := make_bytes (n * 2 + 1) in
  copy_at (copy_at ret 0 (hex_Encode buf)) (n * 2) [newline].

Definition hexDecode (buf : list byte) : outcome (list byte) :=
  let n := zlen buf / 2 in
  src ← slice buf 0 (n * 2);
  match hex_Decode src with Some ret => Ret ret | None => Panic end.

(** [bufio.Reader.ReadBytes]: up to and with the delimiter. *)
Fixpoint read_bytes (delim : byte) (l : list byte) : option (list byte * list byte) :=
  match l with
  | [] => None
  | b :: l' => if decide (b = delim) then Some ([b], l') else '(x, r) ← read_bytes delim l'; Some (b :: x, r)
  end.

Definition hexTransporter_Send (data : list byte) : M conn unit := conn_Write (hexEncode data).

Definition hexTransporter_Receive : M conn (list byte) :=
  c ← get;
  match read_bytes newline (c_in c) with
  | None => _ ← put (mkConn [] (c_out c)); fail ErrEOF
  | Some (data, rest) => _ ← put (mkConn rest (c_out c)); lift (hexDecode data)
  end.

(** * packager.go *)

Class Transporter (C : Type) := {
  t_Send : list byte → M C unit;
  t_Receive : M C (list byte)
}.

Class Protocoler (P : Type) := {
  p_Encode : Package → M P (list byte);
  p_Decode : list byte → M P Package
}.

#[export] Instance wireProtocoler_impl : Protocoler wireProtocoler := {|
  p_Encode := wireProtocoler_Encode; p_Decode := wireProtocoler_Decode |}.

(** The two transporters, over a connection each. *)
Record wire := mkWire { wire_conn : conn }.
Record hexLine := mkHex { hex_conn : conn }.
Definition on_wire {A} : M conn A → M wire A := zoom wire_conn (λ c _, mkWire c).
Definition on_hex {A} : M conn A → M hexLine A := zoom hex_conn (λ c _, mkHex c).

#[export] Instance wireTransporter_impl : Transporter wire := {|
  t_Send data := on_wire (wireTransporter_Send data); t_Receive := on_wire wireTransporter_Receive |}.
#[export] Instance hexTransporter_impl : Transporter hexLine := {|
  t_Send data := on_hex (hexTransporter_Send data); t_Receive := on_hex hexTransporter_Receive |}.
#[export] Instance protocoler_impl : Protocoler unit := {|
  p_Encode pkg := mret (protocoler_Encode pkg); p_Decode data := lift (protocoler_Decode data) |}.

Section Packager.
Context {C P : Type} `{!Transporter C} `{!Protocoler P}.

Record packager := mkPackager { transporter : C; protocoler : P }.

Definition on_t {A} : M C A → M packager A := zoom transporter (λ c p, mkPackager c (protocoler p)).
Definition on_p {A} : M P A → M packager A := zoom protocoler (λ x p, mkPackager (transporter p) x).

Definition packager_Send (pkg : Package) : M packager unit :=
  data ← on_p (p_Encode pkg);
  on_t (t_Send data).

Definition packager_Receive : M packager Package :=
  data ← on_t t_Receive;
  on_p (p_Decode data).
End Packager.
Arguments packager C P : clear implicits.

(** * Frames *)

Definition req_frame (id : Z) (d : list byte) : list byte :=
  Uint32ToRaw WireMagic ++ [WireVersion] ++ [WireTypeRequest] ++ Uint32ToRaw id ++ Uint32ToRaw (zlen d) ++ d.

Definition resp_frame (id : Z) (flag : byte) (d : list byte) : list byte :=
  Uint32ToRaw WireMagic ++ [WireVersion] ++ [WireTypeResponse] ++ Uint32ToRaw id ++ [flag] ++ Uint32ToRaw (zlen d) ++ d.


Lemma zlen_one {A} (x : A) : zlen [x] = 1.
Proof. done. Qed.

Ltac frame_lia := unfold req_frame, resp_frame in *; rewrite ?zlen_app, ?zlen_raw32, ?zlen_one in *; lia.

Lemma put32_fill pre i v n :
  zlen pre = i → 4 ≤ n → put32 i v (pre ++ make_bytes n) = Ret ((pre ++ Uint32ToRaw v) ++ make_bytes (n - 4)).
Proof.
  intros Hi Hn. pose proof (zlen_nonneg pre). unfold put32.
  rewrite slice_Ret by (rewrite ?zlen_app, ?zlen_make_bytes; lia). cbn [mbind outcome_bind]. f_equal.
  by rewrite copy_at_fill by (rewrite ?zlen_raw32; lia).
Qed.

Lemma set_byte_fill pre i b n :
  zlen pre = i → 1 ≤ n → set_byte i b (pre ++ make_bytes n) = Ret ((pre ++ [b]) ++ make_bytes (n - 1)).
Proof.
  intros Hi Hn. pose proof (zlen_nonneg pre). unfold set_byte.
  rewrite decide_True by (rewrite zlen_app, zlen_make_bytes; lia). f_equal. by rewrite copy_at_fill by (rewrite ?zlen_one; lia).
Qed.

Lemma payload_fill pre i d n :
  zlen pre = i → n = zlen d → (_ ← slice_from (pre ++ make_bytes n) i; Ret (copy_at (pre ++ make_bytes n) i d)) = Ret (pre ++ d).
Proof.
  intros Hi ->. pose proof (zlen_nonneg d). rewrite (slice_from_at _ pre (make_bytes (zlen d))) by done.
  cbn [mbind outcome_bind]. rewrite copy_at_fill by (done || lia). rewrite Z.sub_diag. cbn. by rewrite app_nil_r.
Qed.

Lemma encodeRequest_run pkg p :
  zlen (Data pkg) < 2 ^ 32 - 14 →
  let id := u32 (nextID p + 1) in
  encodeRequest pkg p = (mkWP id (isServer p) (lastRequestID p), Ret (req_frame id (Data pkg))).
Proof.
  intros Hl id. pose proof (zlen_nonneg (Data pkg)). unfold encodeRequest, modify, get, lift, mbind, M_bind.
  cbn [nextID isServer lastRequestID]. unfold wireReqHeaderLen. rewrite (u32_id (zlen _)), (u32_id (14 + _)) by lia.
  f_equal. change (make_bytes (14 + zlen (Data pkg))) with ([] ++ make_bytes (14 + zlen (Data pkg))).
  rewrite put32_fill by (done || lia). cbn [mbind outcome_bind app].
  rewrite set_byte_fill by (frame_lia). cbn [mbind outcome_bind].
  rewrite set_byte_fill by (frame_lia). cbn [mbind outcome_bind].
  rewrite put32_fill by (frame_lia). cbn [mbind outcome_bind].
  rewrite put32_fill by (frame_lia). cbn [mbind outcome_bind].
  rewrite payload_fill by (frame_lia). unfold req_frame. by rewrite <- !app_assoc.
Qed.

Lemma encodeResponse_run pkg p :
  let '(flag, payload) := match Err_ pkg with Some err => (WireFlagError, err) | None => (WireFlagOK, Data pkg) end in
  zlen payload < 2 ^ 32 - 15 →
  encodeResponse pkg p = (p, Ret (resp_frame (lastRequestID p) flag payload)).
Proof.
  unfold encodeResponse. rewrite M_get_bind. destruct (match Err_ pkg with Some _ => _ | None => _ end) as [flag d].
  intros Hl. pose proof (zlen_nonneg d). unfold lift, wireRespHeaderLen.
  rewrite (u32_id (zlen _)), (u32_id (15 + _)) by lia. f_equal.
  change (make_bytes (15 + zlen d)) with ([] ++ make_bytes (15 + zlen d)).
  rewrite put32_fill by (done || lia). cbn [mbind outcome_bind app].
  rewrite set_byte_fill by (frame_lia). cbn [mbind outcome_bind].
  rewrite set_byte_fill by (frame_lia). cbn [mbind outcome_bind].
  rewrite put32_fill by (frame_lia). cbn [mbind outcome_bind].
  rewrite set_byte_fill by (frame_lia). cbn [mbind outcome_bind].
  rewrite put32_fill by (frame_lia). cbn [mbind outcome_bind].
  rewrite payload_fill by (frame_lia). unfold resp_frame. by rewrite <- !app_assoc.
Qed.

Lemma ReadFull_app n a b out : zlen a = n → ReadFull n (mkConn (a ++ b) out) = (mkConn b out, Ret a).
Proof.
  intros <-. unfold ReadFull. cbn [c_in c_out]. pose proof (zlen_nonneg b).
  rewrite decide_True by (rewrite zlen_app; lia). unfold zlen. by rewrite Nat2Z.id, drop_app_length, take_app_length.
Qed.

(** Two pieces of header, then as many bytes of body as the header says. *)
Lemma receive_rest_run (prefix pre d rest out : list byte) hdr :
  zlen prefix = 6 → zlen pre = hdr - 4 → 4 ≤ hdr ≤ 9 → zlen d < 2 ^ 32 - 15 →
  receive_rest prefix hdr (mkConn ((pre ++ Uint32ToRaw (zlen d)) ++ d ++ rest) out) =
    (mkConn rest out, Ret (prefix ++ pre ++ Uint32ToRaw (zlen d) ++ d)).
Proof.
  intros Hp Hpre Hh Hd. pose proof (zlen_nonneg d). unfold receive_rest.
  assert (Hlen : zlen (pre ++ Uint32ToRaw (zlen d)) = hdr) by frame_lia.
  rewrite (M_bind_run _ _ _ _ _ (ReadFull_app hdr _ _ out Hlen)).
  rewrite (slice_at _ pre (Uint32ToRaw (zlen d)) [] _ hdr) by (rewrite ?app_nil_r; frame_lia || done).
  rewrite M_lift_bind. unfold ParseUint32, GetUint32, Uint32ToRaw. rewrite get_be_exact by lia. rewrite M_lift_bind.
  rewrite (M_bind_run _ _ _ _ _ (ReadFull_app (zlen d) d rest out eq_refl)).
  rewrite u32_id by lia. fold (Uint32ToRaw (zlen d)).
  replace (6 + hdr + zlen d) with (6 + (hdr + zlen d)) by lia.
  rewrite (slice_at (make_bytes _) [] (make_bytes 6) (make_bytes (hdr + zlen d))) by (rewrite ?make_bytes_split by lia; done).
  rewrite M_lift_bind. change (make_bytes (6 + (hdr + zlen d))) with ([] ++ make_bytes (6 + (hdr + zlen d))).
  rewrite copy_at_fill by (done || lia). rewrite Hp, app_nil_l. replace (6 + (hdr + zlen d) - 6) with (hdr + zlen d) by lia.
  rewrite (slice_at _ prefix (make_bytes hdr) (make_bytes (zlen d))) by (rewrite ?make_bytes_split by lia; done || rewrite ?zlen_make_bytes; lia).
  rewrite M_lift_bind, copy_at_fill by lia. rewrite Hlen. replace (hdr + zlen d - hdr) with (zlen d) by lia.
  rewrite (slice_from_at _ (prefix ++ pre ++ Uint32ToRaw (zlen d)) (make_bytes (zlen d))) by (done || frame_lia).
  rewrite M_lift_bind, copy_at_fill by frame_lia. rewrite Z.sub_diag. cbn [make_bytes Z.to_nat replicate].
  rewrite app_nil_r, <- !app_assoc. done.
Qed.

Lemma Receive_run (type : byte) hdr (pre d rest out : list byte) :
  type = WireTypeRequest ∧ hdr = 8 ∨ type = WireTypeResponse ∧ hdr = 9 →
  zlen pre = hdr - 4 → zlen d < 2 ^ 32 - 15 →
  let frame := Uint32ToRaw WireMagic ++ [WireVersion] ++ [type] ++ pre ++ Uint32ToRaw (zlen d) ++ d in
  wireTransporter_Receive (mkConn (frame ++ rest) out) = (mkConn rest out, Ret frame).
Proof.
  intros Ht Hpre Hd frame. unfold wireTransporter_Receive.
  set (prefix := Uint32ToRaw WireMagic ++ [WireVersion] ++ [type]).
  assert (E : frame ++ rest = prefix ++ (pre ++ Uint32ToRaw (zlen d)) ++ d ++ rest).
  { unfold frame, prefix. by rewrite <- !app_assoc. }
  rewrite E. assert (Hp : zlen prefix = 6) by done. rewrite (M_bind_run _ _ _ _ _ (ReadFull_app 6 _ _ out Hp)).
  rewrite (slice_at prefix [] (Uint32ToRaw WireMagic) [WireVersion; type]) by done. rewrite M_lift_bind.
  assert (Hm : ParseUint32 (Uint32ToRaw WireMagic) = Ret WireMagic) by (vm_compute; reflexivity). rewrite Hm, M_lift_bind.
  rewrite decide_False by (intros H; by apply H).
  rewrite (idx_at prefix (Uint32ToRaw WireMagic) WireVersion [type] 4) by done. rewrite M_lift_bind.
  rewrite decide_False by (intros H; by apply H).
  rewrite (idx_at prefix (Uint32ToRaw WireMagic ++ [WireVersion]) type [] 5) by done. rewrite M_lift_bind.
  assert (Efr : frame = prefix ++ pre ++ Uint32ToRaw (zlen d) ++ d) by (unfold frame, prefix; by rewrite <- !app_assoc).
  rewrite Efr. destruct Ht as [[-> ->]|[-> ->]].
  - rewrite decide_True by done. apply receive_rest_run; done || lia.
  - rewrite decide_False by done. rewrite decide_True by done. apply receive_rest_run; done || lia.
Qed.

Lemma get32_at l a v c i : l = a ++ Uint32ToRaw v ++ c → zlen a = i → 0 ≤ v < 2 ^ 32 → get32 l i (i + 4) = Ret v.
Proof.
  intros Hl Hi Hv. unfold get32. rewrite (slice_at l a (Uint32ToRaw v) c) by (done || frame_lia).
  cbn [mbind outcome_bind]. by apply get_be_exact.
Qed.

Lemma Decode_req id d p :
  zlen d < 2 ^ 32 - 15 → 0 ≤ id < 2 ^ 32 →
  wireProtocoler_Decode (req_frame id d) p = (mkWP (nextID p) (isServer p) id, Ret (mkPkg d None)).
Proof.
  intros Hd Hid. pose proof (zlen_nonneg d). assert (Hl : zlen (req_frame id d) = 14 + zlen d) by frame_lia.
  unfold wireProtocoler_Decode. rewrite Hl, decide_False by lia.
  rewrite (idx_at _ (Uint32ToRaw WireMagic ++ [WireVersion]) WireTypeRequest (Uint32ToRaw id ++ Uint32ToRaw (zlen d) ++ d) 5) by done.
  rewrite M_lift_bind, decide_True by done. unfold wireReqHeaderLen. rewrite decide_False by lia.
  rewrite (get32_at _ (Uint32ToRaw WireMagic ++ [WireVersion] ++ [WireTypeRequest]) id (Uint32ToRaw (zlen d) ++ d) 6) by done.
  rewrite M_lift_bind.
  rewrite (get32_at _ (Uint32ToRaw WireMagic ++ [WireVersion] ++ [WireTypeRequest] ++ Uint32ToRaw id) (zlen d) d 10) by (done || lia).
  rewrite M_lift_bind, decide_False by (rewrite !u32_id; lia). unfold modify, lift, mbind, M_bind.
  rewrite (slice_at _ (Uint32ToRaw WireMagic ++ [WireVersion] ++ [WireTypeRequest] ++ Uint32ToRaw id ++ Uint32ToRaw (zlen d)) d [])
    by (unfold req_frame; rewrite ?app_nil_r, <- ?app_assoc; done || (rewrite u32_id; frame_lia)). done.
Qed.

Lemma Decode_resp id flag d p :
  zlen d < 2 ^ 32 - 15 → 0 ≤ id < 2 ^ 32 →
  wireProtocoler_Decode (resp_frame id flag d) p =
    (p, Ret (if decide (flag = WireFlagError) then mkPkg [] (Some d) else mkPkg d None)).
Proof.
  intros Hd Hid. pose proof (zlen_nonneg d). assert (Hl : zlen (resp_frame id flag d) = 15 + zlen d) by frame_lia.
  unfold wireProtocoler_Decode. rewrite Hl, decide_False by lia.
  rewrite (idx_at _ (Uint32ToRaw WireMagic ++ [WireVersion]) WireTypeResponse (Uint32ToRaw id ++ [flag] ++ Uint32ToRaw (zlen d) ++ d) 5) by done.
  rewrite M_lift_bind, decide_False by done. rewrite decide_True by done. unfold wireRespHeaderLen. rewrite decide_False by lia.
  rewrite (idx_at _ (Uint32ToRaw WireMagic ++ [WireVersion] ++ [WireTypeResponse] ++ Uint32ToRaw id) flag (Uint32ToRaw (zlen d) ++ d) 10) by done.
  rewrite M_lift_bind.
  rewrite (get32_at _ (Uint32ToRaw WireMagic ++ [WireVersion] ++ [WireTypeResponse] ++ Uint32ToRaw id ++ [flag]) (zlen d) d 11) by (done || lia).
  rewrite M_lift_bind, decide_False by (rewrite !u32_id; lia).
  rewrite (slice_at _ (Uint32ToRaw WireMagic ++ [WireVersion] ++ [WireTypeResponse] ++ Uint32ToRaw id ++ [flag] ++ Uint32ToRaw (zlen d)) d [])
    by (unfold resp_frame; rewrite ?app_nil_r, <- ?app_assoc; done || (rewrite u32_id; frame_lia)).
  rewrite M_lift_bind. by case_decide.
Qed.

(** * Properties *)

Definition wire_packager := packager wire wireProtocoler.
Definition pk_conn (k : wire_packager) : conn := wire_conn (transporter k).

(** What a receiver can tell of a package. *)
Definition visible_pkg (pkg : Package) : Package :=
  match Err_ pkg with Some err => mkPkg [] (Some err) | None => mkPkg (Data pkg) None end.
Definition payload_of (pkg : Package) : list byte := match Err_ pkg with Some err => err | None => Data pkg end.

Definition MAX_PAYLOAD : Z := 2 ^ 32 - 15.

Lemma client_Send_run pkg (k : wire_packager) :
  isServer (protocoler k) = false → zlen (Data pkg) < MAX_PAYLOAD →
  let id := u32 (nextID (protocoler k) + 1) in
  packager_Send pkg k =
    (mkPackager (mkWire (mkConn (c_in (pk_conn k)) (c_out (pk_conn k) ++ req_frame id (Data pkg))))
       (mkWP id false (lastRequestID (protocoler k))), Ret tt).
Proof.
  intros Hs Hl. destruct k as [[[ci co]] [n sv lr]]. cbn in Hs. subst sv. unfold packager_Send, on_p, on_t, zoom. cbn.
  unfold wireProtocoler_Encode, mbind, M_bind, get. cbn [isServer protocoler]. unfold MAX_PAYLOAD in *.
  rewrite encodeRequest_run by lia. done.
Qed.

Lemma packager_Receive_two (k : wire_packager) c data p r :
  wireTransporter_Receive (pk_conn k) = (c, Ret data) → wireProtocoler_Decode data (protocoler k) = (p, r) →
  packager_Receive k = (mkPackager (mkWire c) p, r).
Proof.
  intros H1 H2. unfold packager_Receive. erewrite M_bind_run.
  2: { unfold on_t, zoom. cbn [t_Receive wireTransporter_impl]. unfold on_wire, zoom. fold (pk_conn k). by rewrite H1. }
  unfold on_p, zoom. cbn [protocoler p_Decode wireProtocoler_impl]. by rewrite H2.
Qed.

Lemma server_Receive_run (k : wire_packager) id d rest :
  c_in (pk_conn k) = req_frame id d ++ rest → zlen d < MAX_PAYLOAD → 0 ≤ id < 2 ^ 32 →
  packager_Receive k =
    (mkPackager (mkWire (mkConn rest (c_out (pk_conn k)))) (mkWP (nextID (protocoler k)) (isServer (protocoler k)) id),
     Ret (mkPkg d None)).
Proof.
  intros Hin Hd Hid. eapply packager_Receive_two; [|by apply Decode_req].
  destruct (pk_conn k) as [ci co] eqn:Ek. cbn in Hin |- *. rewrite Hin.
  by apply (Receive_run WireTypeRequest 8 (Uint32ToRaw id) d rest co); [left|..].
Qed.

Lemma server_Send_run pkg (k : wire_packager) :
  isServer (protocoler k) = true → zlen (payload_of pkg) < MAX_PAYLOAD →
  let flag := match Err_ pkg with Some _ => WireFlagError | None => WireFlagOK end in
  packager_Send pkg k =
    (mkPackager (mkWire (mkConn (c_in (pk_conn k))
       (c_out (pk_conn k) ++ resp_frame (lastRequestID (protocoler k)) flag (payload_of pkg)))) (protocoler k), Ret tt).
Proof.
  intros Hs Hl. destruct k as [[[ci co]] [n sv lr]]. cbn in Hs. subst sv. unfold packager_Send, on_p, on_t, zoom. cbn.
  unfold wireProtocoler_Encode, mbind, M_bind, get. cbn [isServer protocoler].
  pose proof (encodeResponse_run pkg (mkWP n true lr)) as He. unfold payload_of, MAX_PAYLOAD in *.
  destruct (Err_ pkg); rewrite He by lia; done.
Qed.

Lemma client_Receive_run (k : wire_packager) id flag d rest :
  c_in (pk_conn k) = resp_frame id flag d ++ rest → zlen d < MAX_PAYLOAD → 0 ≤ id < 2 ^ 32 →
  packager_Receive k =
    (mkPackager (mkWire (mkConn rest (c_out (pk_conn k)))) (protocoler k),
     Ret (if decide (flag = WireFlagError) then mkPkg [] (Some d) else mkPkg d None)).
Proof.
  intros Hin Hd Hid. eapply packager_Receive_two; [|by apply Decode_resp].
  destruct (pk_conn k) as [ci co] eqn:Ek. cbn [c_in c_out] in Hin |- *. rewrite Hin.
  pose proof (Receive_run WireTypeResponse 9 (Uint32ToRaw id ++ [flag]) d rest co) as Hr. cbn zeta in Hr.
  rewrite <- !(app_assoc (Uint32ToRaw id)) in Hr. apply Hr; [by right|done|done].
Qed.

(** Sending a list of requests and receiving that many. *)
Fixpoint send_all (pkgs : list Package) : M wire_packager unit :=
  match pkgs with [] => mret tt | p :: pkgs => _ ← packager_Send p; send_all pkgs end.

Fixpoint receive_n (n : nat) : M wire_packager (list Package) :=
  match n with O => mret [] | S n => p ← packager_Receive; l ← receive_n n; mret (p :: l) end.

(** Requests sent one after the other, without waiting for answers, are
    received in the same order with the same bytes, whatever follows them on
    the connection is left for the next reads, and the server holds the
    identifier of the last one. *)
Theorem wire_pipeline (cl sv : wire_packager) pkgs rest :
  isServer (protocoler cl) = false → Forall (λ p, zlen (Data p) < MAX_PAYLOAD) pkgs → pkgs ≠ [] →
  ∃ cl' sent, send_all pkgs cl = (cl', Ret tt) ∧ c_out (pk_conn cl') = c_out (pk_conn cl) ++ sent ∧
    (c_in (pk_conn sv) = sent ++ rest →
     ∃ sv', receive_n (length pkgs) sv = (sv', Ret ((λ p, mkPkg (Data p) None) <$> pkgs)) ∧
       c_in (pk_conn sv') = rest ∧ c_out (pk_conn sv') = c_out (pk_conn sv) ∧
       lastRequestID (protocoler sv') = nextID (protocoler cl')).
Proof.
  intros Hcl Hall Hne. revert cl sv Hcl. induction pkgs as [|p pkgs IH]; intros cl sv Hcl; [done|].
  apply Forall_cons in Hall as [Hp Hall]. cbn [send_all receive_n length].
  rewrite (M_bind_run _ _ _ _ _ (client_Send_run p cl Hcl Hp)).
  set (id := u32 (nextID (protocoler cl) + 1)). set (cl1 := mkPackager _ _).
  assert (Hid : 0 ≤ id < 2 ^ 32) by apply u32_range.
  destruct (decide (pkgs = [])) as [->|Hni].
  - exists cl1, (req_frame id (Data p)). split_and!; [done..|]. intros Hin.
    rewrite (M_bind_run _ _ _ _ _ (server_Receive_run sv id (Data p) rest Hin Hp Hid)). eexists. by split_and!.
  - set (sv1 := λ r, mkPackager (mkWire (mkConn r (c_out (pk_conn sv))))
      (mkWP (nextID (protocoler sv)) (isServer (protocoler sv)) id) : wire_packager).
    destruct (IH Hall Hni cl1 (sv1 (drop (length (req_frame id (Data p))) (c_in (pk_conn sv)))) eq_refl)
      as (cl' & sent & Hsend & Hout & Hrecv).
    exists cl', (req_frame id (Data p) ++ sent). split_and!; [done|by rewrite Hout; cbn; rewrite <- app_assoc|].
    intros Hin. rewrite <- app_assoc in Hin.
    rewrite (M_bind_run _ _ _ _ _ (server_Receive_run sv id (Data p) _ Hin Hp Hid)).
    assert (Hdrop : drop (length (req_frame id (Data p))) (c_in (pk_conn sv)) = sent ++ rest)
      by (by rewrite Hin, drop_app_length).
    rewrite Hdrop in Hrecv. destruct (Hrecv eq_refl) as (sv' & Hr & H1 & H2 & H3).
    exists sv'. unfold sv1 in Hr. by rewrite (M_bind_run _ _ _ _ _ Hr).
Qed.

(** The answer to a request carries its identifier, and the client gets
    back the data, or the text of the error, that the server sent. *)
Theorem wire_response (cl sv : wire_packager) pkg rest :
  isServer (protocoler sv) = true → zlen (payload_of pkg) < MAX_PAYLOAD → 0 ≤ lastRequestID (protocoler sv) < 2 ^ 32 →
  ∃ sv' sent, packager_Send pkg sv = (sv', Ret tt) ∧ c_out (pk_conn sv') = c_out (pk_conn sv) ++ sent ∧
    get32 sent 6 10 = Ret (lastRequestID (protocoler sv)) ∧
    (c_in (pk_conn cl) = sent ++ rest →
     ∃ cl', packager_Receive cl = (cl', Ret (visible_pkg pkg)) ∧ c_in (pk_conn cl') = rest).
Proof.
  intros Hs Hl Hid. eexists _, _. split_and!; [by apply server_Send_run|done|..].
  - eapply (get32_at _ (Uint32ToRaw WireMagic ++ [WireVersion] ++ [WireTypeResponse]) _ _ 6); [|done|done].
    unfold resp_frame. by rewrite <- !app_assoc.
  - intros Hin. rewrite (client_Receive_run cl _ _ _ rest Hin) by done. eexists. split; [f_equal|done].
    unfold visible_pkg, payload_of. by destruct (Err_ pkg).
Qed.

(** Reading what is there. *)
Lemma ReadFull_cases n c :
  0 ≤ n →
  (∃ a b, c_in c = a ++ b ∧ zlen a = n ∧ ReadFull n c = (mkConn b (c_out c), Ret a)) ∨
  ∃ c' e, ReadFull n c = (c', Err e).
Proof.
  intros Hn. unfold ReadFull. case_decide as H; [left|right; eauto].
  exists (take (Z.to_nat n) (c_in c)), (drop (Z.to_nat n) (c_in c)). split_and!; [by rewrite take_drop| |done].
  unfold zlen in *. rewrite length_take. lia.
Qed.

Definition no_crash {A} (o : outcome A) : Prop := match o with Ret _ | Err _ => True | _ => False end.

Lemma raw32_of l : zlen l = 4 → ParseUint32 l = Ret (be_value l) ∧ l = Uint32ToRaw (be_value l) ∧ 0 ≤ be_value l < 2 ^ 32.
Proof.
  intros Hl. assert (length l = 4%nat) as Hn by (unfold zlen in Hl; lia). split; [|split].
  - unfold ParseUint32, GetUint32. rewrite get_be_ge by lia. by rewrite take_ge by lia.
  - unfold Uint32ToRaw. rewrite <- Hn. symmetry. apply be_bytes_be_value.
  - pose proof (be_value_range l) as Hr. rewrite Hl in Hr. exact Hr.
Qed.

Lemma split_at (l : list byte) n : 0 ≤ n ≤ zlen l → ∃ a b, l = a ++ b ∧ zlen a = n.
Proof.
  intros Hn. exists (take (Z.to_nat n) l), (drop (Z.to_nat n) l). rewrite take_drop. split; [done|].
  unfold zlen in *. rewrite length_take. lia.
Qed.

(** Everything after a good prefix, on any input: an error, or a whole frame. *)
Lemma Receive_cases c :
  zlen (c_in c) < MAX_PAYLOAD →
  (∃ c' e, wireTransporter_Receive c = (c', Err e)) ∨
  (∃ id d rest, c_in c = req_frame id d ++ rest ∧ zlen d < MAX_PAYLOAD ∧ 0 ≤ id < 2 ^ 32) ∨
  (∃ id flag d rest, c_in c = resp_frame id flag d ++ rest ∧ zlen d < MAX_PAYLOAD ∧ 0 ≤ id < 2 ^ 32).
Proof.
  intros Hmax. unfold wireTransporter_Receive.
  destruct (ReadFull_cases 6 c ltac:(lia)) as [(prefix & r1 & Hin & Hp & E1)|(c' & e & E1)].
  2: { left. exists c', e. by apply M_bind_err. }
  rewrite (M_bind_run _ _ _ _ _ E1). clear E1.
  destruct (split_at prefix 4 ltac:(lia)) as (m & vt & -> & Hm). rewrite zlen_app in Hp.
  destruct (split_at vt 1 ltac:(lia)) as (v & t & -> & Hv). rewrite zlen_app in Hp.
  destruct v as [|v [|]]; try (unfold zlen in Hv; cbn in Hv; lia).
  destruct t as [|t [|]]; try (unfold zlen in Hp, Hm, Hv; cbn in Hp, Hm, Hv; lia).
  rewrite (slice_at _ [] m ([v] ++ [t])) by (done || lia). destruct (raw32_of m Hm) as (Hpm & Hmr & _). rewrite M_lift_bind, Hpm, M_lift_bind.
  case_decide as Hmagic; [left; by eexists _, _|]. rewrite Hmagic in Hmr.
  rewrite (idx_at _ m v [t] 4), M_lift_bind by done. case_decide as Hver; [left; by eexists _, _|]. subst v.
  rewrite (idx_at _ (m ++ [WireVersion]) t [] 5) by (rewrite <- ?app_assoc, ?zlen_app; done || lia). rewrite M_lift_bind.
  assert (Hrest : ∀ hdr, 4 ≤ hdr →
    (∃ c' e, receive_rest (m ++ [WireVersion] ++ [t]) hdr (mkConn r1 (c_out c)) = (c', Err e)) ∨
    ∃ pre d rest, r1 = pre ++ Uint32ToRaw (zlen d) ++ d ++ rest ∧ zlen pre = hdr - 4).
  { intros hdr Hh. unfold receive_rest.
    destruct (ReadFull_cases hdr (mkConn r1 (c_out c)) ltac:(lia)) as [(h & r2 & Hin2 & Hhl & E2)|(c' & e & E2)].
    2: { left. exists c', e. by apply M_bind_err. }
    cbn in Hin2. rewrite (M_bind_run _ _ _ _ _ E2). clear E2.
    destruct (split_at h (hdr - 4) ltac:(lia)) as (pre & lraw & -> & Hpre). rewrite zlen_app in Hhl.
    rewrite (slice_at _ pre lraw []) by (rewrite ?app_nil_r; done || lia).
    destruct (raw32_of lraw ltac:(lia)) as (Hpl & Hlr & Hlrange). rewrite M_lift_bind, Hpl, M_lift_bind.
    destruct (ReadFull_cases (be_value lraw) (mkConn r2 (c_out c)) ltac:(lia)) as [(d & r3 & Hin3 & Hdl & E3)|(c' & e & E3)].
    2: { left. exists c', e. by apply M_bind_err. }
    right. cbn in Hin3. exists pre, d, r3. subst. rewrite Hdl, <- Hlr, <- app_assoc. done. }
  case_decide as Ht; [|case_decide as Ht2]; [| |left; by eexists _, _].
  - destruct (Hrest 8 ltac:(lia)) as [Herr|(pre & d & rest & -> & Hpre)]; [by left|]. right. left.
    destruct (raw32_of pre Hpre) as (_ & Hpr & Hid). exists (be_value pre), d, rest.
    assert (E : c_in c = req_frame (be_value pre) d ++ rest).
    { rewrite Hin, Hmr, Ht. unfold req_frame. rewrite <- Hpr, <- !app_assoc. done. }
    split; [done|split; [|done]]. rewrite E, zlen_app in Hmax. pose proof (zlen_nonneg rest).
    assert (zlen (req_frame (be_value pre) d) = 14 + zlen d) by frame_lia. lia.
  - destruct (Hrest 9 ltac:(lia)) as [Herr|(pre & d & rest & -> & Hpre)]; [by left|]. right. right.
    destruct (split_at pre 4 ltac:(lia)) as (i & f & -> & Hi). rewrite zlen_app in Hpre.
    destruct f as [|f [|]]; try (unfold zlen in *; cbn in *; lia).
    destruct (raw32_of i Hi) as (_ & Hpr & Hid). exists (be_value i), f, d, rest.
    assert (E : c_in c = resp_frame (be_value i) f d ++ rest).
    { rewrite Hin, Hmr, Ht2. unfold resp_frame. rewrite <- Hpr, <- !app_assoc. done. }
    split; [done|split; [|done]]. rewrite E, zlen_app in Hmax. pose proof (zlen_nonneg rest).
    assert (zlen (resp_frame (be_value i) f d) = 15 + zlen d) by frame_lia. lia.
Qed.

(** C19: No input below 4 GiB crashes the receiving side: reading and decoding
    a frame gives a package or an error, never an index out of range. *)
Theorem wire_input_safe (k : wire_packager) :
  zlen (c_in (pk_conn k)) < MAX_PAYLOAD → no_crash (packager_Receive k).2.
Proof.
  intros Hmax. destruct (Receive_cases (pk_conn k) Hmax) as [(c' & e & E)|[(id & d & rest & E & Hd & Hid)|(id & flag & d & rest & E & Hd & Hid)]].
  - unfold packager_Receive. erewrite M_bind_err; [done|].
    unfold on_t, zoom. cbn [t_Receive wireTransporter_impl]. unfold on_wire, zoom. fold (pk_conn k). by rewrite E.
  - by rewrite (server_Receive_run k id d rest).
  - rewrite (client_Receive_run k id flag d rest) by done. done.
Qed.

(** A request that announces (and sends) a body of [2^32 - 14] bytes or a
    little more stops the process: the size of the frame is added up in 32
    bits, so the buffer is too short for the header that is copied into it. *)
Theorem oversized_frame_panics id d out :
  2 ^ 32 - 14 ≤ zlen d < 2 ^ 32 - 8 →
  (wireTransporter_Receive (mkConn (req_frame id d) out)).2 = Panic.
Proof.
  intros Hd. unfold wireTransporter_Receive.
  set (prefix := Uint32ToRaw WireMagic ++ [WireVersion] ++ [WireTypeRequest]).
  assert (E : req_frame id d = prefix ++ (Uint32ToRaw id ++ Uint32ToRaw (zlen d)) ++ d ++ []).
  { unfold req_frame, prefix. by rewrite app_nil_r, <- !app_assoc. }
  rewrite E. assert (Hp : zlen prefix = 6) by done. rewrite (M_bind_run _ _ _ _ _ (ReadFull_app 6 _ _ out Hp)).
  rewrite (slice_at prefix [] (Uint32ToRaw WireMagic) [WireVersion; WireTypeRequest]) by done. rewrite M_lift_bind.
  assert (Hm : ParseUint32 (Uint32ToRaw WireMagic) = Ret WireMagic) by (vm_compute; reflexivity). rewrite Hm, M_lift_bind.
  rewrite decide_False by (intros H; by apply H).
  rewrite (idx_at prefix (Uint32ToRaw WireMagic) WireVersion [WireTypeRequest] 4) by done. rewrite M_lift_bind.
  rewrite decide_False by (intros H; by apply H).
  rewrite (idx_at prefix (Uint32ToRaw WireMagic ++ [WireVersion]) WireTypeRequest [] 5) by done.
  rewrite M_lift_bind, decide_True by done. unfold receive_rest.
  rewrite (M_bind_run _ _ _ _ _ (ReadFull_app 8 (Uint32ToRaw id ++ Uint32ToRaw (zlen d)) _ out eq_refl)).
  rewrite (slice_at _ (Uint32ToRaw id) (Uint32ToRaw (zlen d)) []) by (rewrite ?app_nil_r; done).
  unfold ParseUint32, GetUint32, Uint32ToRaw. rewrite M_lift_bind, get_be_exact by lia. rewrite M_lift_bind.
  rewrite (M_bind_run _ _ _ _ _ (ReadFull_app (zlen d) d [] out eq_refl)).
  assert (Hw : u32 (6 + 8 + zlen d) = zlen d - (2 ^ 32 - 14)).
  { unfold u32. rewrite <- (Z_mod_plus_full (6 + 8 + zlen d) (-1)). rewrite Z.mod_small; lia. }
  assert (Hs : slice (make_bytes (zlen d - (2 ^ 32 - 14))) 0 6 = Panic).
  { unfold slice. rewrite decide_False; [done|]. rewrite zlen_make_bytes by lia. lia. }
  by rewrite Hw, Hs.
Qed.

Definition demo_client : wire_packager := mkPackager (mkWire (mkConn [] [])) NewWireProtocoler.
Definition demo_server (input : list byte) : wire_packager := mkPackager (mkWire (mkConn input [])) NewWireServerProtocoler.
Definition demo_pkgs : list Package := [mkPkg (str_bytes "begin") None; mkPkg (str_bytes "show") None].

Lemma wire_pipeline_witness :
  ∃ cl' sent, send_all demo_pkgs demo_client = (cl', Ret tt) ∧ c_out (pk_conn cl') = [] ++ sent ∧
    (c_in (pk_conn (demo_server (c_out (pk_conn (send_all demo_pkgs demo_client).1)))) = sent ++ [] →
     ∃ sv', receive_n 2 (demo_server (c_out (pk_conn (send_all demo_pkgs demo_client).1))) =
         (sv', Ret ((λ p, mkPkg (Data p) None) <$> demo_pkgs)) ∧
       c_in (pk_conn sv') = [] ∧ c_out (pk_conn sv') = [] ∧ lastRequestID (protocoler sv') = nextID (protocoler cl')).
Proof.
  apply (wire_pipeline demo_client (demo_server (c_out (pk_conn (send_all demo_pkgs demo_client).1))) demo_pkgs []);
    [done|repeat constructor; done|done].
Defined.

Lemma wire_response_witness :
  ∃ sv' sent, packager_Send (mkPkg [] (Some (str_bytes "no"))) (demo_server []) = (sv', Ret tt) ∧
    c_out (pk_conn sv') = [] ++ sent ∧ get32 sent 6 10 = Ret 0 ∧
    (c_in (pk_conn demo_client) = sent ++ [] →
     ∃ cl', packager_Receive demo_client = (cl', Ret (mkPkg [] (Some (str_bytes "no")))) ∧ c_in (pk_conn cl') = []).
Proof. by apply (wire_response demo_client (demo_server []) (mkPkg [] (Some (str_bytes "no"))) []). Defined.

Lemma wire_input_safe_witness : no_crash (packager_Receive (demo_server (str_bytes "WISD garbage of some length"))).2.
Proof. apply wire_input_safe. vm_compute. reflexivity. Defined.

Lemma oversized_frame_panics_witness :
  (wireTransporter_Receive (mkConn (req_frame 1 (make_bytes (2 ^ 32 - 14))) [])).2 = Panic.
Proof. apply oversized_frame_panics. rewrite zlen_make_bytes; lia. Defined.

(** * The hexadecimal lines *)

(** Every byte survives its two digits, and no digit is a newline. *)
Definition hex_ok (b : byte) : bool :=
  let x := hex_digit (Z.shiftr (byte.unsigned b) 4) in
  let y := hex_digit (Z.land (byte.unsigned b) 15) in
  negb (bool_decide (x = newline)) && negb (bool_decide (y = newline)) &&
  match hex_value x, hex_value y with
  | Some u, Some v => bool_decide (byte.of_Z (Z.lor (Z.shiftl u 4) v) = b)
  | _, _ => false
  end.

Lemma hex_byte b : hex_ok b = true.
Proof. destruct b; vm_compute; reflexivity. Qed.

Lemma hex_Encode_cons b buf :
  hex_Encode (b :: buf) =
    hex_digit (Z.shiftr (byte.unsigned b) 4) :: hex_digit (Z.land (byte.unsigned b) 15) :: hex_Encode buf.
Proof. done. Qed.

Lemma hex_Decode_Encode buf : hex_Decode (hex_Encode buf) = Some buf.
Proof.
  induction buf as [|b buf IH]; [done|]. rewrite hex_Encode_cons. cbn [hex_Decode]. pose proof (hex_byte b) as Hb. unfold hex_ok in Hb.
  apply andb_prop in Hb as [_ Hb]. destruct (hex_value _) as [u|]; [|done]. destruct (hex_value _) as [v|]; [|done].
  apply bool_decide_eq_true in Hb. cbn. by rewrite IH, Hb.
Qed.

Lemma zlen_hex_Encode buf : zlen (hex_Encode buf) = zlen buf * 2.
Proof.
  induction buf as [|b buf IH]; [done|]. rewrite hex_Encode_cons, !zlen_cons, IH. lia.
Qed.

Lemma read_hex_line buf rest :
  read_bytes newline (hex_Encode buf ++ newline :: rest) = Some (hex_Encode buf ++ [newline], rest).
Proof.
  induction buf as [|b buf IH]; [done|]. rewrite hex_Encode_cons. cbn [app read_bytes].
  pose proof (hex_byte b) as Hb. unfold hex_ok in Hb. apply andb_prop in Hb as [Hb _]. apply andb_prop in Hb as [H1 H2].
  apply negb_true_iff, bool_decide_eq_false in H1, H2. rewrite !decide_False by done. by rewrite IH.
Qed.

Lemma hexEncode_line buf : hexEncode buf = hex_Encode buf ++ [newline].
Proof.
  unfold hexEncode. pose proof (zlen_nonneg buf).
  change (make_bytes (zlen buf * 2 + 1)) with ([] ++ make_bytes (zlen buf * 2 + 1)).
  rewrite copy_at_fill by (rewrite ?zlen_hex_Encode; done || lia). rewrite zlen_hex_Encode.
  replace (zlen buf * 2 + 1 - zlen buf * 2) with 1 by lia. rewrite app_nil_l.
  rewrite copy_at_fill by (rewrite ?zlen_hex_Encode; done || lia). cbn. by rewrite app_nil_r.
Qed.

Lemma hexDecode_line buf : hexDecode (hex_Encode buf ++ [newline]) = Ret buf.
Proof.
  pose proof (zlen_nonneg buf). unfold hexDecode. rewrite zlen_app, zlen_hex_Encode. change (zlen [newline]) with 1.
  replace ((zlen buf * 2 + 1) / 2) with (zlen buf) by (rewrite Z.add_comm, Z.div_add by lia; reflexivity).
  rewrite (slice_at _ [] (hex_Encode buf) [newline]) by (rewrite ?zlen_hex_Encode; done || lia).
  cbn [mbind outcome_bind]. by rewrite hex_Decode_Encode.
Qed.

(** The older protocol: a package sent as a line of hexadecimal digits is
    received as the same data or error text, and the line ends exactly at its
    newline whatever bytes the package holds. *)
Theorem hex_line_round_trip (a b : packager hexLine unit) pkg rest :
  ∃ a' sent, packager_Send pkg a = (a', Ret tt) ∧
    c_out (hex_conn (transporter a')) = c_out (hex_conn (transporter a)) ++ sent ∧
    (c_in (hex_conn (transporter b)) = sent ++ rest →
     ∃ b', packager_Receive b = (b', Ret (visible_pkg pkg)) ∧ c_in (hex_conn (transporter b')) = rest).
Proof.
  eexists _, _. split; [done|]. split; [done|]. rewrite hexEncode_line, <- app_assoc. cbn [app].
  intros Hin. destruct b as [[[ci co]] []]. cbn in Hin. subst ci. unfold packager_Receive. erewrite M_bind_run.
  2: { unfold on_t, zoom. cbn [transporter t_Receive hexTransporter_impl]. unfold on_hex, zoom, hexTransporter_Receive.
       cbn [hex_conn]. rewrite M_get_bind. cbn [c_in]. rewrite read_hex_line. cbn. rewrite hexDecode_line. done. }
  exists (mkPackager (mkHex (mkConn rest co)) tt). split; [|done]. unfold on_p, zoom. cbn [protocoler p_Decode protocoler_impl lift]. f_equal.
  unfold protocoler_Encode, visible_pkg, protocoler_Decode.
  assert (Henc : ∀ (t : byte) d, copy_at (copy_at (make_bytes (zlen d + 1)) 0 [t]) 1 d = t :: d).
  { intros t d. pose proof (zlen_nonneg d). change (make_bytes (zlen d + 1)) with ([] ++ make_bytes (zlen d + 1)).
    rewrite copy_at_fill by (change (zlen [t]) with 1; done || lia). change (zlen [t]) with 1.
    rewrite copy_at_fill by (done || lia). replace (zlen d + 1 - 1 - zlen d) with 0 by lia. cbn. by rewrite app_nil_r. }
  destruct (Err_ pkg) as [err|]; rewrite Henc, zlen_cons.
  - pose proof (zlen_nonneg err). rewrite decide_False by lia. rewrite (idx_at _ [] Byte.x01 err 0) by done.
    cbn [mbind outcome_bind]. rewrite decide_False by done. rewrite decide_True by done.
    by rewrite (slice_from_at _ [Byte.x01] err).
  - pose proof (zlen_nonneg (Data pkg)). rewrite decide_False by lia. rewrite (idx_at _ [] Byte.x00 (Data pkg) 0) by done.
    cbn [mbind outcome_bind]. rewrite decide_True by done. by rewrite (slice_from_at _ [Byte.x00] (Data pkg)).
Qed.

Lemma hex_line_round_trip_witness :
  let a := mkPackager (mkHex (mkConn [] [])) tt in
  ∃ a' sent, packager_Send (mkPkg [Byte.x0a] None) a = (a', Ret tt) ∧ c_out (hex_conn (transporter a')) = [] ++ sent ∧
    (str_bytes "000a" ++ [newline] ++ str_bytes "rest" = sent ++ str_bytes "rest" →
     ∃ b', packager_Receive (mkPackager (mkHex (mkConn (str_bytes "000a" ++ [newline] ++ str_bytes "rest") [])) tt) =
         (b', Ret (mkPkg [Byte.x0a] None)) ∧ c_in (hex_conn (transporter b')) = str_bytes "rest").
Proof.
  exact (hex_line_round_trip (mkPackager (mkHex (mkConn [] [])) tt)
    (mkPackager (mkHex (mkConn (str_bytes "000a" ++ [newline] ++ str_bytes "rest") [])) tt) (mkPkg [Byte.x0a] None) (str_bytes "rest")).
Defined.
