(* ===== verification/Field.v ===== *)
(** Package [tbm]: the fields of a table ([field.go]): their values, the range
    of keys a comparison stands for, and their records.

    The index of an indexed field is a B+ tree over the data manager the
    serializability manager uses; [field] keeps its boot item. *)
From S2P Require Import Prelude.
From S2P Require Import Codec.
From S2P Require Import Tm.
From S2P Require Import DmI.
From S2P Require Import Tree.
From S2P Require Import LockTable.
From S2P Require Import Sm.
From S2P Require Import Parser.
Local Open Scope Z_scope.

(** * Values *)

(** [interface{}]: what a field of a row holds, [VNil] for nil. *)
Inductive value :=
| VNil
| VUint32 (n : Z)
| VUint64 (n : Z)
| VString (s : string).
#[export] Instance value_eq_dec : EqDecision value.
Proof. solve_decision. Defined.

(** [v.(uint32)], [v.(uint64)], [v.(string)]: other values panic. *)
Definition as_uint32 (v : value) : outcome Z := match v with VUint32 n => Ret n | _ => Panic end.
Definition as_uint64 (v : value) : outcome Z := match v with VUint64 n => Ret n | _ => Panic end.
Definition as_string (v : value) : outcome string := match v with VString s => Ret s | _ => Panic end.

Record field := mkField {
  f_SelfUUID : UUID;
  FName : string;
  FType : string;
  f_index : UUID
}.

Definition typeCheck (ftype : string) : outcome unit :=
  if decide (ftype ≠ "uint32"%string ∧ ftype ≠ "uint64"%string ∧ ftype ≠ "string"%string) then Err ErrInvalidFieldType else Ret tt.

Definition IsIndexed (f : field) : bool := bool_decide (f_index f ≠ NilUUID).

(** [switch f.FType] with the cases ["uint32"], ["uint64"] and ["string"]. *)
Definition by_type {A} (f : field) (u32 u64 str other : A) : A :=
  if decide (FType f = "uint32"%string) then u32
  else if decide (FType f = "uint64"%string) then u64
  else if decide (FType f = "string"%string) then str
  else other.

Definition StrToValue (f : field) (valStr : string) : outcome value :=
  by_type f (VUint32 <$> StrToUint32 valStr) (VUint64 <$> StrToUint64 valStr) (Ret (VString valStr)) (Ret VNil).

Definition ValueToRaw (f : field) (v : value) : outcome (list byte) :=
  by_type f (Uint32ToRaw <$> as_uint32 v) (Uint64ToRaw <$> as_uint64 v) (VarStrToRaw <$> as_string v) (Ret []).

Definition ParseValue (f : field) (raw : list byte) : outcome (value * Z) :=
  by_type f
    (n ← ParseUint32 raw; Ret (VUint32 n, 4))
    (n ← ParseUint64 raw; Ret (VUint64 n, 8))
    ('(s, shift) ← ParseVarStr raw; Ret (VString s, shift))
    (Ret (VNil, 0)).

Definition ValueToUUID (f : field) (v : value) : outcome UUID :=
  by_type f (u64 <$> as_uint32 v) (as_uint64 v) (StrToUUID <$> as_string v) (Ret 0).

Definition ValuePrint (f : field) (v : value) : outcome string :=
  by_type f (Uint32ToStr <$> as_uint32 v) (Uint64ToStr <$> as_uint64 v) (as_string v) (Ret ""%string).

(** [if va < vb { return -1 }; if va > vb { return 1 }; return 0] *)
Definition compare3 {A} (lt : A → A → bool) (va vb : A) : Z := if lt va vb then -1 else if lt vb va then 1 else 0.

(** [<] of the language: on strings, byte by byte. *)
Definition Z_ltb' (a b : Z) : bool := bool_decide (a < b).
Definition string_ltb (a b : string) : bool := match String.compare a b with Lt => true | _ => false end.

Definition valueCompare (f : field) (a b : value) : outcome Z :=
  by_type f
    (va ← as_uint32 a; vb ← as_uint32 b; Ret (compare3 Z_ltb' va vb))
    (va ← as_uint64 a; vb ← as_uint64 b; Ret (compare3 Z_ltb' va vb))
    (va ← as_string a; vb ← as_string b; Ret (compare3 string_ltb va vb))
    (Ret 0).

(** The keys a comparison selects, an interval; [left > right] when empty. *)
Definition CalExp (f : field) (exp : SingleExp) : outcome (UUID * UUID) :=
  if decide (CmpOp exp = "<"%string) then
    v ← StrToValue f (Exp_Value exp);
    right ← ValueToUUID f v;
    if decide (0 < right) then Ret (0, u64 (right - 1)) else Ret (1, 0)
  else if decide (CmpOp exp = "="%string) then
    v ← StrToValue f (Exp_Value exp);
    left ← ValueToUUID f v;
    Ret (left, left)
  else if decide (CmpOp exp = ">"%string) then
    v ← StrToValue f (Exp_Value exp);
    left ← ValueToUUID f v;
    let left := u64 (left + 1) in
    if decide (left = 0) then Ret (1, 0) else Ret (left, INF)
  else Ret (0, 0).

Definition field_Print (f : field) : string :=
  ("(" +:+ FName f +:+ ("," +:+ FType f) +:+ (if IsIndexed f then ", Index" else ", NoIndex") +:+ ")")%string.

(** * Records and indexes *)

Definition field_raw (f : field) : list byte := VarStrToRaw (FName f) ++ VarStrToRaw (FType f) ++ UUIDToRaw (f_index f).

(** [parseSelf] but for the loading of the index. *)
Definition field_parse (uuid : UUID) (raw : list byte) : outcome field :=
  '(name, shift) ← ParseVarStr raw;
  let pos := shift in
  rest ← slice_from raw pos;
  '(tp, shift) ← ParseVarStr rest;
  let pos := pos + shift in
  rest ← slice_from raw pos;
  index ← ParseUUID rest;
  Ret (mkField uuid name tp index).

Section Field.
Context {T : Type} `{!TransactionManager T} {D : Type} `{!DataManager D}.
(** Fuel for the recursions of the B+ tree. *)
Context (fuel : nat).
Notation SM := (serializabilityManager T D).

(** [if err != nil { panic(err) }] *)
Definition or_panic {S A} (m : M S A) : M S A := catch m mret (λ _, crash).

Definition field_parseSelf (uuid : UUID) (raw : list byte) : M SM field :=
  f ← lift (field_parse uuid raw);
  if decide (f_index f ≠ NilUUID) then _ ← or_panic (on_DM (Tree.Load (f_index f))); mret f else mret f.

(** [utils.Assert(ok)] comes before the error is looked at. *)
Definition LoadField (uuid : UUID) : M SM field :=
  r ← or_panic (sm_Read SUPER_XID uuid);
  match r with Some raw => field_parseSelf uuid raw | None => crash end.

Definition field_persistSelf (xid : XID) (f : field) : M SM field :=
  self ← sm_Insert xid (field_raw f);
  mret (mkField self (FName f) (FType f) (f_index f)).

Definition CreateField (xid : XID) (fname ftype : string) (indexed : bool) : M SM field :=
  _ ← lift (typeCheck ftype);
  index ← (if indexed then index ← on_DM Tree.Create; on_DM (Tree.Load index) else mret NilUUID);
  field_persistSelf xid (mkField 0 fname ftype index).

(** [f.bt] is nil for a field without an index. *)
Definition field_Insert (f : field) (key : value) (uuid : UUID) : M SM unit :=
  ukey ← lift (ValueToUUID f key);
  if IsIndexed f then on_DM (Tree.Insert fuel (f_index f) ukey uuid) else crash.

Definition field_Search (f : field) (left right : UUID) : M SM (list UUID) :=
  if IsIndexed f then on_DM (Tree.SearchRange fuel (f_index f) left right) else crash.
End Field.
