(* ===== verification/Table.v ===== *)
(** Package [tbm]: the tables ([table.go]) and their statements, over the
    serializability manager and the indexes.

    A row is a map from field names to values.  [sort.Slice] of the standard
    library is an argument: it may order rows with equal keys as it likes. *)
From S2P Require Import Prelude.
From S2P Require Import Codec.
From S2P Require Import Tm.
From S2P Require Import DmI.
From S2P Require Import Tree.
From S2P Require Import LockTable.
From S2P Require Import Sm.
From S2P Require Import Parser.
From S2P Require Import Field.
Local Open Scope Z_scope.

(** [type entry map[string]interface{}] *)
Notation row := (gmap string value).

(** [e[name]]: nil when the key is missing. *)
Definition row_get (e : row) (name : string) : value := default VNil (e !! name).

Record table := mkTable {
  tb_SelfUUID : UUID;
  tb_Name : string;
  tb_status : byte;
  tb_Next : UUID;
  tb_fields : list field;
  tb_rowIndex : UUID
}.

Definition set_Self uuid t := mkTable uuid (tb_Name t) (tb_status t) (tb_Next t) (tb_fields t) (tb_rowIndex t).
Definition set_Next next t := mkTable (tb_SelfUUID t) (tb_Name t) (tb_status t) next (tb_fields t) (tb_rowIndex t).
Definition set_rowIndex idx t := mkTable (tb_SelfUUID t) (tb_Name t) (tb_status t) (tb_Next t) (tb_fields t) idx.

(** The first field with the name. *)
Definition find_field (t : table) (name : string) : option field := snd <$> list_find (λ f, FName f = name) (tb_fields t).

(** * Rows *)

Definition strToEntry (t : table) (values : list string) : outcome row :=
  if decide (zlen values ≠ zlen (tb_fields t)) then Err ErrInvalidValues
  else foldl (λ acc fv, e ← acc; v ← StrToValue fv.1 fv.2; Ret (<[FName fv.1 := v]> e)) (Ret ∅) (zip (tb_fields t) values).

Definition entryToRaw (t : table) (e : row) : outcome (list byte) :=
  foldl (λ acc f, raw ← acc; piece ← ValueToRaw f (row_get e (FName f)); Ret (raw ++ piece)) (Ret []) (tb_fields t).

Fixpoint parseFields (fields : list field) (raw : list byte) (pos : Z) (e : row) : outcome row :=
  match fields with
  | [] => Ret e
  | f :: fields =>
      rest ← slice_from raw pos;
      '(v, shift) ← ParseValue f rest;
      parseFields fields raw (pos + shift) (<[FName f := v]> e)
  end.
Definition parseEntry (t : table) (raw : list byte) : outcome row := parseFields (tb_fields t) raw 0 ∅.

Fixpoint printFields (fields : list field) (e : row) : outcome string :=
  match fields with
  | [] => Ret ""%string
  | f :: fields =>
      str ← ValuePrint f (row_get e (FName f));
      rest ← printFields fields e;
      Ret (str +:+ (if decide (fields = []) then "]" else ", ") +:+ rest)%string
  end.
Definition entryPrint (t : table) (e : row) : outcome string := str ← printFields (tb_fields t) e; Ret ("[" +:+ str)%string.

(** * Comparisons *)

(** [switch exp.CmpOp] on the result of [valueCompare]. *)
Definition match_op (op : string) (cmp : Z) : bool :=
  if decide (op = "="%string) then bool_decide (cmp = 0)
  else if decide (op = "!="%string) then bool_decide (cmp ≠ 0)
  else if decide (op = "<"%string) then bool_decide (cmp < 0)
  else if decide (op = "<="%string) then bool_decide (cmp ≤ 0)
  else if decide (op = ">"%string) then bool_decide (0 < cmp)
  else if decide (op = ">="%string) then bool_decide (0 ≤ cmp)
  else false.

Definition matchSingleExp (t : table) (e : row) (exp : SingleExp) : outcome bool :=
  match e !! Exp_Field exp with
  | None => Ret false
  | Some v =>
      match find_field t (Exp_Field exp) with
      | None => Ret false
      | Some fd =>
          match StrToValue fd (Exp_Value exp) with
          | Ret target => cmp ← valueCompare fd v target; Ret (match_op (CmpOp exp) cmp)
          | _ => Ret false
          end
      end
  end.

(** [where.SingleExp2] is a nil pointer unless there is a second comparison. *)
Definition second (w : Where) : outcome SingleExp := match SingleExp2 w with Some exp => Ret exp | None => Panic end.

Definition evaluateWhere (t : table) (e : row) (w : option Where) : outcome bool :=
  match w with
  | None => Ret true
  | Some w =>
      ok1 ← matchSingleExp t e (SingleExp1 w);
      if decide (LogicOp w = ""%string) then Ret ok1
      else
        exp2 ← second w;
        ok2 ← matchSingleExp t e exp2;
        if decide (LogicOp w = "and"%string) then Ret (ok1 && ok2) else Ret (ok1 || ok2)
  end.

(** The intervals, the second one unless [single]. *)
Definition calWhere (fd : field) (w : Where) : outcome ((UUID * UUID) * (UUID * UUID) * bool) :=
  if decide (LogicOp w = ""%string) then
    i0 ← CalExp fd (SingleExp1 w); Ret (i0, (0, 0), true)
  else if decide (LogicOp w = "or"%string) then
    i0 ← CalExp fd (SingleExp1 w);
    exp2 ← second w;
    i1 ← CalExp fd exp2;
    Ret (i0, i1, false)
  else if decide (LogicOp w = "and"%string) then
    '(l0, r0) ← CalExp fd (SingleExp1 w);
    exp2 ← second w;
    '(l1, r1) ← CalExp fd exp2;
    Ret ((if decide (l0 < l1) then l1 else l0, if decide (r1 < r0) then r1 else r0), (l1, r1), true)
  else Err ErrInvalidLogOP.

(** * Results of read *)

Definition limitEntries (entries : list row) (limit offset : Z) : outcome (list row) :=
  if decide (zlen entries ≤ offset) then Ret []
  else
    let stop := i64 (offset + limit) in
    let stop := if decide (zlen entries < stop) then zlen entries else stop in
    slice entries offset stop.

(** [switch v := v.(type)]: the number in the cell, if it is one. *)
Definition number_in (e : row) (name : string) : option Z :=
  match row_get e name with VUint32 n => Some (u64 n) | VUint64 n => Some n | _ => None end.

Definition total (entries : list row) (name : string) : Z :=
  foldl (λ acc e, match number_in e name with Some v => u64 (acc + v) | None => acc end) 0 entries.
Definition minVal (entries : list row) (name : string) : Z :=
  foldl (λ acc e, match number_in e name with Some v => if decide (v < acc) then v else acc | None => acc end) (2 ^ 64 - 1) entries.
Definition maxVal (entries : list row) (name : string) : Z :=
  foldl (λ acc e, match number_in e name with Some v => if decide (acc < v) then v else acc | None => acc end) 0 entries.

(** [fmt.Sprintf("%s(%s)=%d", f, name, n)] *)
Definition agg_text (f name : string) (n : Z) : string := (f +:+ "(" +:+ name +:+ ")=" +:+ Uint64ToStr n)%string.

Definition aggregate (entries : list row) (agg : Aggregate) : list string :=
  let name := Agg_Field agg in
  if decide (Func agg = "count"%string) then
    if decide (name = "*"%string) then [agg_text "count" "*" (zlen entries)] else []
  else if decide (Func agg = "sum"%string) then [agg_text "sum" name (total entries name)]
  else if decide (Func agg = "avg"%string) then
    [agg_text "avg" name (if decide (0 < zlen entries) then total entries name / zlen entries else 0)]
  else if decide (Func agg = "min"%string) then [agg_text "min" name (if decide (zlen entries = 0) then 0 else minVal entries name)]
  else if decide (Func agg = "max"%string) then [agg_text "max" name (if decide (zlen entries = 0) then 0 else maxVal entries name)]
  else [].

(** [strings.Join(parts, " ")] *)
Fixpoint join_blank (parts : list string) : string :=
  match parts with
  | [] => ""%string
  | [part] => part
  | part :: parts => (part +:+ " " +:+ join_blank parts)%string
  end.
Definition computeAggregates (entries : list row) (aggs : list Aggregate) : string := join_blank (aggs ≫= aggregate entries).

Definition tb_Print (t : table) : string :=
  ("{" +:+ tb_Name t +:+ ": " +:+
   (fix go (fields : list field) : string :=
      match fields with
      | [] => ""
      | f :: fields => field_Print f +:+ (if decide (fields = []) then "}" else ", ") +:+ go fields
      end) (tb_fields t))%string.

(** * The record of a table *)

Definition table_raw (t : table) : list byte :=
  VarStrToRaw (tb_Name t) ++ [tb_status t] ++ UUIDToRaw (tb_Next t) ++ [byte.of_Z (zlen (tb_fields t))] ++
  mjoin ((λ f, UUIDToRaw (f_SelfUUID f)) <$> tb_fields t) ++ UUIDToRaw (tb_rowIndex t).

(** The UUIDs of the fields and the position behind them. *)
Fixpoint parseUUIDs (n : nat) (raw : list byte) (pos : Z) : outcome (list UUID * Z) :=
  match n with
  | O => Ret ([], pos)
  | S n =>
      rest ← slice_from raw pos;
      uuid ← ParseUUID rest;
      '(uuids, pos) ← parseUUIDs n raw (pos + LEN_UUID);
      Ret (uuid :: uuids, pos)
  end.

(** What [parseSelf] reads from [raw] itself: the table without its fields, and
    their UUIDs. *)
Definition table_parse (uuid : UUID) (raw : list byte) : outcome (table * list UUID) :=
  '(name, shift) ← ParseVarStr raw;
  let pos := shift in
  status ← idx raw pos;
  let pos := pos + 1 in
  rest ← slice_from raw pos;
  next ← ParseUUID rest;
  let pos := pos + LEN_UUID in
  count ← idx raw pos;
  let pos := pos + 1 in
  '(uuids, pos) ← parseUUIDs (Z.to_nat (byte.unsigned count)) raw pos;
  rowIndex ← (if decide (pos + LEN_UUID ≤ zlen raw) then rest ← slice_from raw pos; ParseUUID rest else Ret NilUUID);
  Ret (mkTable uuid name status next [] rowIndex, uuids).

(** "\n" *)
Definition newline : string := bytes_str [Byte.x0a].

(** * Operations *)

Section Table.
Context {T : Type} `{!TransactionManager T} {D : Type} `{!DataManager D}.
(** Fuel for the B+ tree, the order of the lock table's map, [sort.Slice]. *)
Context (fuel : nat) (order : list XID) (sort_Slice : (row → row → outcome bool) → list row → outcome (list row)).
Notation SM := (serializabilityManager T D).

Definition rowIndex_Insert (t : table) (key uuid : UUID) : M SM unit := on_DM (Tree.Insert fuel (tb_rowIndex t) key uuid).
Definition rowIndex_SearchRange (t : table) (l r : UUID) : M SM (list UUID) := on_DM (Tree.SearchRange fuel (tb_rowIndex t) l r).

Definition table_persistSelf (xid : XID) (t : table) : M SM table :=
  self ← sm_Insert xid (table_raw t); mret (set_Self self t).

Fixpoint loadFields (uuids : list UUID) : M SM (list field) :=
  match uuids with
  | [] => mret []
  | uuid :: uuids => f ← LoadField uuid; fs ← loadFields uuids; mret (f :: fs)
  end.

Definition table_parseSelf (uuid : UUID) (raw : list byte) : M SM table :=
  '(t, uuids) ← lift (table_parse uuid raw);
  fields ← loadFields uuids;
  mret (mkTable (tb_SelfUUID t) (tb_Name t) (tb_status t) (tb_Next t) fields (tb_rowIndex t)).

Definition LoadTable (uuid : UUID) : M SM table :=
  r ← or_panic (sm_Read SUPER_XID uuid);
  match r with
  | None => crash
  | Some raw =>
      t ← table_parseSelf uuid raw;
      t ← (if decide (tb_rowIndex t = NilUUID) then
             index ← or_panic (on_DM Tree.Create);
             or_panic (table_persistSelf SUPER_XID (set_rowIndex index t))
           else mret t);
      _ ← or_panic (on_DM (Tree.Load (tb_rowIndex t)));
      mret t
  end.

Fixpoint createFields (create : Parser.Create) (names types : list string) : M SM (list field) :=
  match names, types with
  | fname :: names, ftype :: types =>
      let indexed := bool_decide (fname ∈ Create_Index create) in
      f ← CreateField SUPER_XID fname ftype indexed;
      fs ← createFields create names types;
      mret (f :: fs)
  | [], _ => mret []
  | _ :: _, [] => crash
  end.

Definition CreateTable (next : UUID) (create : Parser.Create) : M SM table :=
  fields ← createFields create (Create_FieldName create) (Create_FieldType create);
  rowIdx ← on_DM Tree.Create;
  _ ← on_DM (Tree.Load rowIdx);
  table_persistSelf SUPER_XID (mkTable 0 (Create_TableName create) Byte.x00 next fields rowIdx).

(** The loop of [fullScanFilter]. *)
Fixpoint filterRows (t : table) (xid : XID) (w : Where) (uuids : list UUID) : M SM (list UUID) :=
  match uuids with
  | [] => mret []
  | uuid :: uuids =>
      r ← sm_Read xid uuid;
      keep ← match r with
             | None => mret false
             | Some raw => e ← lift (parseEntry t raw); lift (evaluateWhere t e (Some w))
             end;
      rest ← filterRows t xid w uuids;
      mret (if (keep : bool) then uuid :: rest else rest)
  end.
Definition fullScanFilter (t : table) (xid : XID) (w : Where) : M SM (list UUID) :=
  allUUIDs ← rowIndex_SearchRange t 0 INF; filterRows t xid w allUUIDs.

Definition table_parseWhere (t : table) (xid : XID) (w : option Where) : M SM (list UUID) :=
  match w with
  | None => rowIndex_SearchRange t 0 INF
  | Some w =>
      match find_field t (Exp_Field (SingleExp1 w)) with
      | None => fail ErrNoThatField
      | Some fd =>
          if negb (IsIndexed fd) then fullScanFilter t xid w
          else
            '(i0, i1, single) ← lift (calWhere fd w);
            uuids ← field_Search fuel fd i0.1 i0.2;
            if (single : bool) then mret uuids
            else tmp ← field_Search fuel fd i1.1 i1.2; mret (uuids ++ tmp)
      end
  end.

(** The indexed fields of a new row. *)
Fixpoint insertKeys (fields : list field) (e : row) (uuid : UUID) : M SM unit :=
  match fields with
  | [] => mret tt
  | f :: fields =>
      _ ← (if IsIndexed f then field_Insert fuel f (row_get e (FName f)) uuid else mret tt);
      insertKeys fields e uuid
  end.

Fixpoint insertRows (t : table) (xid : XID) (rows : list (list string)) : M SM unit :=
  match rows with
  | [] => mret tt
  | values :: rows =>
      e ← lift (strToEntry t values);
      raw ← lift (entryToRaw t e);
      uuid ← sm_Insert xid raw;
      _ ← insertKeys (tb_fields t) e uuid;
      _ ← rowIndex_Insert t uuid uuid;
      insertRows t xid rows
  end.
Definition table_Insert (t : table) (xid : XID) (ins : Parser.Insert) : M SM unit :=
  let rows := ValuesList ins in
  let rows := if decide (zlen rows = 0 ∧ 0 < zlen (Values ins)) then [Values ins] else rows in
  insertRows t xid rows.

Fixpoint deleteRows (xid : XID) (uuids : list UUID) : M SM Z :=
  match uuids with
  | [] => mret 0
  | uuid :: uuids =>
      ok ← sm_Delete order xid uuid;
      count ← deleteRows xid uuids;
      mret (if (ok : bool) then count + 1 else count)
  end.
Definition table_Delete (t : table) (xid : XID) (del : Parser.Delete) : M SM Z :=
  uuids ← table_parseWhere t xid (Delete_Where del); deleteRows xid uuids.

(** The result of [SM.Delete] other than an error is not looked at. *)
Fixpoint updateRows (t : table) (xid : XID) (fd : field) (v : value) (uuids : list UUID) : M SM Z :=
  match uuids with
  | [] => mret 0
  | uuid :: uuids =>
      r ← sm_Read xid uuid;
      match r with
      | None => updateRows t xid fd v uuids
      | Some raw =>
          _ ← sm_Delete order xid uuid;
          e ← lift (parseEntry t raw);
          let e := <[FName fd := v]> e in
          raw ← lift (entryToRaw t e);
          uuid ← sm_Insert xid raw;
          _ ← rowIndex_Insert t uuid uuid;
          _ ← insertKeys (tb_fields t) e uuid;
          count ← updateRows t xid fd v uuids;
          mret (count + 1)
      end
  end.
Definition table_Update (t : table) (xid : XID) (upd : Parser.Update) : M SM Z :=
  uuids ← table_parseWhere t xid (Update_Where upd);
  match find_field t (Update_FieldName upd) with
  | None => fail ErrNoThatField
  | Some fd =>
      v ← lift (StrToValue fd (Update_Value upd));
      updateRows t xid fd v uuids
  end.

(** The visible rows among [uuids]. *)
Fixpoint readRows (t : table) (xid : XID) (uuids : list UUID) : M SM (list row) :=
  match uuids with
  | [] => mret []
  | uuid :: uuids =>
      r ← sm_Read xid uuid;
      match r with
      | None => readRows t xid uuids
      | Some raw => e ← lift (parseEntry t raw); es ← readRows t xid uuids; mret (e :: es)
      end
  end.

Definition sortEntries (t : table) (entries : list row) (fieldName : string) (desc : bool) : outcome (list row) :=
  match find_field t fieldName with
  | None => Ret entries
  | Some fd =>
      sort_Slice (λ ei ej,
        cmp ← valueCompare fd (row_get ei fieldName) (row_get ej fieldName);
        Ret (if desc then bool_decide (0 < cmp) else bool_decide (cmp < 0))) entries
  end.

Fixpoint printRows (t : table) (entries : list row) : outcome string :=
  match entries with
  | [] => Ret ""%string
  | e :: entries => str ← entryPrint t e; rest ← printRows t entries; Ret (str +:+ newline +:+ rest)%string
  end.

(** The result of [read]: [read.Fields] is not used. *)
Definition renderRows (t : table) (read : Parser.Read) (entries : list row) : outcome string :=
  entries ← (if decide (OrderBy read ≠ ""%string) then sortEntries t entries (OrderBy read) (OrderDesc read) else Ret entries);
  entries ← (if decide (0 < Limit read) then limitEntries entries (Limit read) (Offset read) else Ret entries);
  if decide (0 < zlen (Aggregates read)) then Ret (computeAggregates entries (Aggregates read))
  else printRows t entries.

Definition table_Read (t : table) (xid : XID) (read : Parser.Read) : M SM string :=
  uuids ← table_parseWhere t xid (Read_Where read);
  entries ← readRows t xid uuids;
  lift (renderRows t read entries).
End Table.
