(* ===== verification/TableData.v ===== *)
(** Package [tbm]: rows, records and comparisons.  A row and the records of
    fields and tables are read back as they were written; the keys an indexed
    field searches for are those of the rows the comparison selects; what
    [limit] and [offset] do on every input. *)
From S2P Require Import Prelude.
From S2P Require Import Codec.
From S2P Require Import Tm.
From S2P Require Import DmI.
From S2P Require Import Sm.
From S2P Require Import Parser.
From S2P Require Import Field.
From S2P Require Import Table.
Local Open Scope Z_scope.

Lemma Ret_bind {A B} (a : A) (k : A → outcome B) : (Ret a ≫= k) = k a.
Proof. done. Qed.

(** * Values *)

(** The values a field holds. *)
Definition value_ok (f : field) (v : value) : Prop :=
  by_type f (∃ n, v = VUint32 n ∧ 0 ≤ n < 2 ^ 32) (∃ n, v = VUint64 n ∧ 0 ≤ n < 2 ^ 64)
    (∃ s, v = VString s ∧ zlen (str_bytes s) < 2 ^ 32) False.

Definition numeric (f : field) : Prop := FType f = "uint32"%string ∨ FType f = "uint64"%string.

(** A row of the table: a value for every field, and nothing else. *)
Definition row_ok (t : table) (e : row) : Prop :=
  dom e = list_to_set (FName <$> tb_fields t) ∧ ∀ f, f ∈ tb_fields t → value_ok f (row_get e (FName f)).

(** Statement text whose strings are not too long for their length field. *)
Definition text_ok (s : string) : Prop := zlen (str_bytes s) < 2 ^ 32.

Definition other_type (f : field) : Prop := FType f ≠ "uint32"%string ∧ FType f ≠ "uint64"%string ∧ FType f ≠ "string"%string.

Lemma by_type_cases f : FType f = "uint32"%string ∨ FType f = "uint64"%string ∨ FType f = "string"%string ∨ other_type f.
Proof.
  destruct (decide (FType f = "uint32"%string)); [by left|]. destruct (decide (FType f = "uint64"%string)); [by right; left|].
  destruct (decide (FType f = "string"%string)); [by right; right; left|]. by right; right; right.
Qed.

Lemma by_type_u32 f : FType f = "uint32"%string → ∀ A (a b c d : A), by_type f a b c d = a.
Proof. intros H A a b c d. unfold by_type. by rewrite decide_True. Qed.
Lemma by_type_u64 f : FType f = "uint64"%string → ∀ A (a b c d : A), by_type f a b c d = b.
Proof. intros H A a b c d. unfold by_type. rewrite decide_False by (by rewrite H). by rewrite decide_True. Qed.
Lemma by_type_str f : FType f = "string"%string → ∀ A (a b c d : A), by_type f a b c d = c.
Proof. intros H A a b c d. unfold by_type. rewrite !decide_False by (by rewrite H). by rewrite decide_True. Qed.

Lemma by_type_other f : other_type f → ∀ A (a b c d : A), by_type f a b c d = d.
Proof. intros (? & ? & ?) A a b c d. unfold by_type. by rewrite !decide_False. Qed.

(** What the type of a field makes of a lemma about values. *)
Ltac on_type f H :=
  destruct (by_type_cases f) as [H|[H|[H|H]]];
  rewrite ?(by_type_u32 f H), ?(by_type_u64 f H), ?(by_type_str f H), ?(by_type_other f H) in *.

Lemma StrToValue_ok f s v : text_ok s → typeCheck (FType f) = Ret tt → StrToValue f s = Ret v → value_ok f v.
Proof.
  intros Hs Ht. unfold StrToValue, value_ok. on_type f Hf.
  - unfold StrToUint32, strconv_ParseUint. destruct (str_bytes s) as [|b l]; [done|]. destruct (parse_digits _ _ _) as [n|e| |] eqn:Hp; try done.
    apply parse_digits_range in Hp; [|lia]. intros [= <-]. exists (u32 n). split; [done|]. rewrite u32_id by lia. lia.
  - unfold StrToUint64, strconv_ParseUint. destruct (str_bytes s) as [|b l]; [done|]. destruct (parse_digits _ _ _) as [n|e| |] eqn:Hp; try done.
    apply parse_digits_range in Hp; [|lia]. intros [= <-]. exists n. split; [done|]. lia.
  - intros [= <-]. by exists s.
  - unfold typeCheck in Ht. by rewrite decide_True in Ht.
Qed.

(** A value is written and read back. *)
Lemma value_round_trip f v rest : value_ok f v →
  ∃ raw, ValueToRaw f v = Ret raw ∧ ParseValue f (raw ++ rest) = Ret (v, zlen raw).
Proof.
  unfold value_ok, ValueToRaw, ParseValue. on_type f Hf.
  - intros (n & -> & Hn). eexists. split; [done|]. rewrite (by_type_u32 f Hf). unfold ParseUint32, GetUint32, Uint32ToRaw. rewrite get_be_app by done. cbn [mbind outcome_bind]. by rewrite zlen_be_bytes.
  - intros (n & -> & Hn). eexists. split; [done|]. rewrite (by_type_u64 f Hf). unfold ParseUint64, GetUint64, Uint64ToRaw. rewrite get_be_app by done. cbn [mbind outcome_bind]. by rewrite zlen_be_bytes.
  - intros (s & -> & Hs). eexists. split; [done|]. rewrite (by_type_str f Hf), ParseVarStr_VarStrToRaw by done. cbn [mbind outcome_bind]. do 2 f_equal.
    unfold VarStrToRaw, Uint32ToRaw. rewrite zlen_app, zlen_be_bytes. done.
  - done.
Qed.

(** * Rows *)

Lemma entryToRaw_foldl fields e raw0 : 
  foldl (λ acc f, raw ← acc; piece ← ValueToRaw f (row_get e (FName f)); Ret (raw ++ piece)) (Ret raw0) fields =
  match foldl (λ acc f, raw ← acc; piece ← ValueToRaw f (row_get e (FName f)); Ret (raw ++ piece)) (Ret []) fields with
  | Ret raw => Ret (raw0 ++ raw) | o => o end.
Proof.
  assert (Hstuck : ∀ (o : outcome (list byte)) fs, (∀ r, o ≠ Ret r) →
    foldl (λ acc f, raw ← acc; piece ← ValueToRaw f (row_get e (FName f)); Ret (raw ++ piece)) o fs = o).
  { intros o fs Ho. induction fs as [|f fs IH]; [done|]. cbn. destruct o as [r| | |]; [by destruct (Ho r)|done..]. }
  revert raw0. induction fields as [|f fields IH]; intros raw0; cbn [foldl]; [by rewrite app_nil_r|].
  cbn [mbind outcome_bind]. destruct (ValueToRaw f _) as [p|er| |]; cbn [mbind outcome_bind]; [|by rewrite !Hstuck..].
  rewrite IH, (IH ([] ++ p)). destruct (foldl _ _ fields) as [r|er| |]; [|done..]. cbn [app]. by rewrite app_assoc.
Qed.

Lemma parseFields_run e : ∀ fields pre rest e0,
  NoDup (FName <$> fields) → (∀ f, f ∈ fields → value_ok f (row_get e (FName f))) →
  ∃ raw, foldl (λ acc f, raw ← acc; piece ← ValueToRaw f (row_get e (FName f)); Ret (raw ++ piece)) (Ret []) fields = Ret raw ∧
    parseFields fields (pre ++ raw ++ rest) (zlen pre) e0 = Ret (foldr (λ f e1, <[FName f := row_get e (FName f)]> e1) e0 fields).
Proof.
  induction fields as [|f fields IH]; intros pre rest e0 Hnd Hok; [by exists []|]. cbn [fmap list_fmap] in Hnd. apply NoDup_cons in Hnd as [Hf Hnd].
  cbn [foldl mbind outcome_bind].
  destruct (value_round_trip f (row_get e (FName f)) [] (Hok f ltac:(by left))) as (p & Hp & _). rewrite Hp. cbn [mbind outcome_bind app].
  destruct (IH (pre ++ p) rest (<[FName f := row_get e (FName f)]> e0) Hnd) as (raw & Hraw & Hparse); [intros; apply Hok; by right|].
  exists (p ++ raw). rewrite entryToRaw_foldl, Hraw. split; [done|]. cbn [parseFields foldr].
  rewrite (slice_from_at _ pre ((p ++ raw) ++ rest)) by done. cbn [mbind outcome_bind].
  destruct (value_round_trip f (row_get e (FName f)) (raw ++ rest) (Hok f ltac:(by left))) as (p' & Hp' & Hpv). rewrite Hp in Hp'. injection Hp' as <-.
  rewrite <- app_assoc, Hpv. cbn [mbind outcome_bind]. rewrite <- zlen_app, app_assoc, Hparse. f_equal. clear -Hf.
  induction fields as [|g fields IH]; [done|]. cbn [fmap list_fmap foldr] in *. rewrite IH by (intros ?; apply Hf; by right). apply insert_insert_ne.
  intros Heq. apply Hf. rewrite Heq. by left.
Qed.

Lemma foldr_row (e : row) : ∀ fields (e0 : row) name,
  foldr (λ f e1, <[FName f := row_get e (FName f)]> e1) e0 fields !! name =
    if decide (name ∈ FName <$> fields) then Some (row_get e name) else e0 !! name.
Proof.
  induction fields as [|f fields IH]; intros e0 name; cbn; [by rewrite decide_False by apply not_elem_of_nil|].
  destruct (decide (name = FName f)) as [->|Hne].
  - rewrite lookup_insert_eq, decide_True; [done|by left].
  - rewrite lookup_insert_ne by done. rewrite IH. destruct (decide (name ∈ FName <$> fields)) as [Hin|Hin].
    + rewrite decide_True; [done|by right].
    + rewrite decide_False; [done|]. by intros [?|?]%elem_of_cons.
Qed.

Lemma row_read_back t e rest : NoDup (FName <$> tb_fields t) → row_ok t e →
  ∃ raw, entryToRaw t e = Ret raw ∧ parseEntry t (raw ++ rest) = Ret e.
Proof.
  intros Hnd [Hdom Hok]. destruct (parseFields_run e (tb_fields t) [] rest ∅ Hnd Hok) as (raw & Hraw & Hparse).
  exists raw. split; [done|]. unfold parseEntry. cbn [app] in Hparse. change (zlen []) with 0 in Hparse. rewrite Hparse. f_equal. apply map_eq. intros name.
  rewrite foldr_row. case_decide as Hin.
  - unfold row_get. destruct (e !! name) eqn:He; [done|]. apply not_elem_of_dom_2 in He. rewrite Hdom in He. set_solver.
  - rewrite lookup_empty. symmetry. apply not_elem_of_dom. rewrite Hdom. set_solver.
Qed.

Lemma strToEntry_foldl : ∀ fields values e0 e,
  foldl (λ acc fv, e ← acc; v ← StrToValue fv.1 fv.2; Ret (<[FName fv.1 := v]> e)) (Ret e0) (zip fields values) = Ret e →
  length values = length fields → NoDup (FName <$> fields) → Forall (λ f, typeCheck (FType f) = Ret tt) fields → Forall text_ok values →
  dom e = dom e0 ∪ list_to_set (FName <$> fields) ∧ (∀ f, f ∈ fields → value_ok f (row_get e (FName f))) ∧
  ∀ name, name ∉ FName <$> fields → e !! name = e0 !! name.
Proof.
  assert (Hstuck : ∀ (o : outcome row) l, (∀ r, o ≠ Ret r) →
    foldl (λ acc (fv : field * string), e ← acc; v ← StrToValue fv.1 fv.2; Ret (<[FName fv.1 := v]> e)) o l = o).
  { intros o l Ho. induction l as [|x l IH]; [done|]. cbn. destruct o as [r| | |]; [by destruct (Ho r)|done..]. }
  induction fields as [|f fields IH]; intros [|v values] e0 e; cbn [zip zip_with foldl length]; intros Hrun Hl Hnd Hty Htx; try done.
  - injection Hrun as ->. split; [set_solver|]. split; [by intros ? ?%elem_of_nil|done].
  - cbn [mbind outcome_bind fst snd] in Hrun. cbn [fmap list_fmap] in *. apply NoDup_cons in Hnd as [Hf Hnd].
    apply Forall_cons in Hty as [Hft Hty]. apply Forall_cons in Htx as [Hvt Htx].
    destruct (StrToValue f v) as [x|er| |] eqn:Hx; cbn [mbind outcome_bind] in Hrun; try (by rewrite Hstuck in Hrun).
    destruct (IH values (<[FName f := x]> e0) e Hrun ltac:(lia) Hnd Hty Htx) as (Hdom & Hok & Hout). split; [|split].
    + rewrite Hdom, dom_insert_L. cbn. set_solver.
    + intros g [->|Hg]%elem_of_cons; [|by apply Hok]. unfold row_get. rewrite Hout, lookup_insert_eq by done. by eapply StrToValue_ok.
    + intros name Hn. rewrite Hout by (intros ?; apply Hn; by right). apply lookup_insert_ne. intros <-. apply Hn. by left.
Qed.

Lemma strToEntry_ok t values e : strToEntry t values = Ret e → NoDup (FName <$> tb_fields t) →
  Forall (λ f, typeCheck (FType f) = Ret tt) (tb_fields t) → Forall text_ok values → row_ok t e.
Proof.
  unfold strToEntry. case_decide as Hl; [done|]. intros Hrun Hnd Hty Htx.
  destruct (strToEntry_foldl _ _ _ _ Hrun) as (Hdom & Hok & _); [unfold zlen in Hl; lia|done..|]. split; [|done]. rewrite Hdom. set_solver.
Qed.

(** * Records *)

Lemma ParseUUID_app u rest : is_u64 u → ParseUUID (UUIDToRaw u ++ rest) = Ret u.
Proof. intros Hu. apply (get_be_app 8). replace (8 * Z.of_nat 8) with 64 by done. exact Hu. Qed.
Lemma ParseUUID_raw u : is_u64 u → ParseUUID (UUIDToRaw u) = Ret u.
Proof. intros Hu. rewrite <- (app_nil_r (UUIDToRaw u)). by apply ParseUUID_app. Qed.

Lemma field_parse_raw uuid f : text_ok (FName f) → text_ok (FType f) → is_u64 (f_index f) →
  field_parse uuid (field_raw f) = Ret (mkField uuid (FName f) (FType f) (f_index f)).
Proof.
  intros Hn Ht Hi. unfold field_parse, field_raw. rewrite ParseVarStr_VarStrToRaw by done. rewrite Ret_bind.
  assert (Hz : ∀ s, zlen (VarStrToRaw s) = 4 + zlen (str_bytes s)).
  { intros s. unfold VarStrToRaw, Uint32ToRaw. rewrite zlen_app, zlen_be_bytes. lia. }
  rewrite (slice_from_at _ (VarStrToRaw (FName f)) (VarStrToRaw (FType f) ++ UUIDToRaw (f_index f))) by (by rewrite ?Hz).
  rewrite Ret_bind. rewrite ParseVarStr_VarStrToRaw by done. rewrite Ret_bind.
  rewrite (slice_from_at _ (VarStrToRaw (FName f) ++ VarStrToRaw (FType f)) (UUIDToRaw (f_index f))); [|by rewrite app_assoc|by rewrite zlen_app, !Hz].
  rewrite Ret_bind. by rewrite ParseUUID_raw.
Qed.

Lemma parseUUIDs_run uuids : ∀ pre rest, Forall is_u64 uuids →
  parseUUIDs (length uuids) (pre ++ mjoin (UUIDToRaw <$> uuids) ++ rest) (zlen pre) = Ret (uuids, zlen pre + 8 * zlen uuids).
Proof.
  induction uuids as [|u uuids IH]; intros pre rest Hall; [cbn [length parseUUIDs]; do 2 f_equal; change (zlen (@nil UUID)) with 0; lia|]. apply Forall_cons in Hall as [Hu Hall].
  cbn [parseUUIDs length]. change (mjoin (UUIDToRaw <$> u :: uuids)) with (UUIDToRaw u ++ mjoin (UUIDToRaw <$> uuids)). rewrite (slice_from_at _ pre ((UUIDToRaw u ++ mjoin (UUIDToRaw <$> uuids)) ++ rest)) by done.
  rewrite Ret_bind, <- !(app_assoc (UUIDToRaw u)), ParseUUID_app, Ret_bind by done. assert (Hz : zlen (UUIDToRaw u) = 8) by apply zlen_be_bytes.
  replace (zlen pre + LEN_UUID) with (zlen (pre ++ UUIDToRaw u)) by (rewrite zlen_app, Hz; done).
  rewrite (app_assoc pre). rewrite (IH (pre ++ UUIDToRaw u) rest Hall). cbn [mbind outcome_bind]. do 2 f_equal.
  rewrite zlen_app, zlen_cons, Hz. lia.
Qed.

(** The count of the fields is one byte. *)
Lemma table_parse_raw uuid t : text_ok (tb_Name t) → is_u64 (tb_Next t) → is_u64 (tb_rowIndex t) →
  Forall is_u64 (f_SelfUUID <$> tb_fields t) → (length (tb_fields t) < 256)%nat →
  table_parse uuid (table_raw t) = Ret (mkTable uuid (tb_Name t) (tb_status t) (tb_Next t) [] (tb_rowIndex t), f_SelfUUID <$> tb_fields t).
Proof.
  intros Hn Hx Hr Hf Hl. unfold table_parse, table_raw. rewrite ParseVarStr_VarStrToRaw, Ret_bind by done. cbv zeta.
  set (N := VarStrToRaw (tb_Name t)). assert (Hz : zlen N = 4 + zlen (str_bytes (tb_Name t))).
  { unfold N, VarStrToRaw, Uint32ToRaw. rewrite zlen_app, zlen_be_bytes. lia. }
  assert (Hu : ∀ u, zlen (UUIDToRaw u) = 8) by (intros; apply zlen_be_bytes).
  set (U := mjoin _). set (X := UUIDToRaw (tb_Next t)). set (R := UUIDToRaw (tb_rowIndex t)). cbn [app]. set (cnt := byte.of_Z _).
  set (raw := N ++ tb_status t :: X ++ cnt :: U ++ R). rewrite (idx_at raw N (tb_status t) (X ++ cnt :: U ++ R) _ eq_refl Hz). rewrite Ret_bind.
  rewrite (slice_from_at raw (N ++ [tb_status t]) (X ++ cnt :: U ++ R)); [|unfold raw; by rewrite <- app_assoc|rewrite zlen_app, Hz; done].
  rewrite Ret_bind. unfold X at 1. rewrite ParseUUID_app by done. rewrite Ret_bind.
  rewrite (idx_at raw (N ++ tb_status t :: X) cnt (U ++ R)); [|unfold raw; by rewrite <- app_assoc|rewrite zlen_app, zlen_cons, Hz; unfold X; rewrite Hu; unfold LEN_UUID; lia].
  rewrite Ret_bind. assert (Hc : Z.to_nat (byte.unsigned cnt) = length (f_SelfUUID <$> tb_fields t)).
  { unfold cnt. rewrite byte.unsigned_of_Z. unfold byte.wrap. rewrite Z.mod_small by (unfold zlen; lia). rewrite length_fmap. unfold zlen. lia. }
  rewrite Hc. assert (HU : U = mjoin (UUIDToRaw <$> (f_SelfUUID <$> tb_fields t))) by (unfold U; by rewrite <- list_fmap_compose).
  pose proof (parseUUIDs_run (f_SelfUUID <$> tb_fields t) (N ++ tb_status t :: X ++ [cnt]) R Hf) as Hp. rewrite <- HU in Hp.
  assert (Hpre : zlen (N ++ tb_status t :: X ++ [cnt]) = 4 + zlen (str_bytes (tb_Name t)) + 1 + LEN_UUID + 1).
  { rewrite zlen_app, zlen_cons, zlen_app, Hz. unfold X. rewrite Hu. change (zlen [cnt]) with 1. unfold LEN_UUID. lia. }
  rewrite Hpre in Hp. replace ((N ++ tb_status t :: X ++ [cnt]) ++ U ++ R) with raw in Hp by (unfold raw; rewrite <- app_assoc; cbn [app]; by rewrite <- app_assoc).
  rewrite Hp. rewrite Ret_bind. set (k := f_SelfUUID <$> tb_fields t) in *.
  assert (HzU : zlen U = 8 * zlen k).
  { rewrite HU. clear -Hu. induction k as [|u k IH]; [done|]. change (mjoin (UUIDToRaw <$> u :: k)) with (UUIDToRaw u ++ mjoin (UUIDToRaw <$> k)). rewrite zlen_app, Hu, zlen_cons, IH. lia. }
  assert (Hraw : zlen raw = 4 + zlen (str_bytes (tb_Name t)) + 1 + LEN_UUID + 1 + 8 * zlen k + LEN_UUID).
  { unfold raw. rewrite !zlen_app, zlen_cons, zlen_app, zlen_cons, zlen_app, Hz, HzU. unfold X, R. rewrite !Hu. unfold LEN_UUID. lia. }
  rewrite decide_True by lia. rewrite (slice_from_at raw (N ++ tb_status t :: X ++ cnt :: U) R).
  - rewrite Ret_bind. unfold R. by rewrite ParseUUID_raw.
  - unfold raw. rewrite <- app_assoc. cbn [app]. rewrite <- app_assoc. done.
  - rewrite zlen_app, zlen_cons, zlen_app, zlen_cons, Hz, HzU. unfold X. rewrite Hu. unfold LEN_UUID. lia.
Qed.

(** * Comparisons and intervals *)

(** [v] is the number [n], as a value of the field. *)
Definition num (f : field) (v : value) (n : Z) : Prop :=
  (FType f = "uint32"%string ∧ v = VUint32 n ∧ 0 ≤ n < 2 ^ 32) ∨ (FType f = "uint64"%string ∧ v = VUint64 n ∧ 0 ≤ n < 2 ^ 64).

Lemma num_range f v n : num f v n → 0 ≤ n < 2 ^ 64.
Proof. intros [(_ & _ & ?)|(_ & _ & ?)]; lia. Qed.

Lemma num_ok f v : numeric f → value_ok f v → ∃ n, num f v n.
Proof.
  unfold value_ok, num. intros [Hf|Hf].
  - rewrite (by_type_u32 f Hf). intros (n & -> & ?). exists n. by left.
  - rewrite (by_type_u64 f Hf). intros (n & -> & ?). exists n. by right.
Qed.

Lemma ValueToUUID_num f v n : num f v n → ValueToUUID f v = Ret n.
Proof.
  unfold ValueToUUID. intros [(Hf & -> & Hn)|(Hf & -> & _)].
  - rewrite (by_type_u32 f Hf). cbn. rewrite u64_id by lia. done.
  - by rewrite (by_type_u64 f Hf).
Qed.

Lemma valueCompare_num f v w n m : num f v n → num f w m → valueCompare f v w = Ret (compare3 Z_ltb' n m).
Proof.
  unfold valueCompare. intros [(Hf & -> & _)|(Hf & -> & _)] [(Hg & -> & _)|(Hg & -> & _)]; try congruence.
  - by rewrite (by_type_u32 f Hf).
  - by rewrite (by_type_u64 f Hf).
Qed.

Lemma StrToValue_num f s v : numeric f → StrToValue f s = Ret v → ∃ n, num f v n.
Proof.
  unfold StrToValue, StrToUint32, StrToUint64, num. intros [Hf|Hf].
  - rewrite (by_type_u32 f Hf). destruct (strconv_ParseUint s 32) as [n| | |] eqn:Hp; try done. apply ParseUint_range in Hp; [|done].
    cbn. rewrite u32_id by done. intros [= <-]. exists n. by left.
  - rewrite (by_type_u64 f Hf). destruct (strconv_ParseUint s 64) as [n| | |] eqn:Hp; try done. apply ParseUint_range in Hp; [|done].
    intros [= <-]. exists n. by right.
Qed.

(** The three comparisons of the statements. *)
Definition comparison_ok (f : field) (exp : SingleExp) : Prop :=
  (CmpOp exp = "<" ∨ CmpOp exp = "=" ∨ CmpOp exp = ">")%string ∧ ∃ target, StrToValue f (Exp_Value exp) = Ret target.

Lemma match_op_num op n m : (op = "<" ∨ op = "=" ∨ op = ">")%string →
  match_op op (compare3 Z_ltb' n m) = true ↔ (op = "<"%string ∧ n < m ∨ op = "="%string ∧ n = m ∨ op = ">"%string ∧ m < n).
Proof.
  unfold match_op, compare3, Z_ltb'. intros [-> | [-> | ->]]; cbn; repeat case_bool_decide; cbn; split; intros; try done; try lia; naive_solver lia.
Qed.

Lemma CalExp_num f exp : numeric f → comparison_ok f exp →
  ∃ i target m, CalExp f exp = Ret i ∧ StrToValue f (Exp_Value exp) = Ret target ∧ num f target m ∧
    ∀ n, 0 ≤ n < 2 ^ 64 → (i.1 ≤ n ≤ i.2 ↔ match_op (CmpOp exp) (compare3 Z_ltb' n m) = true).
Proof.
  intros Hf [Hop [target Ht]]. destruct (StrToValue_num _ _ _ Hf Ht) as [m Hm]. pose proof (num_range _ _ _ Hm) as Hr. pose proof (ValueToUUID_num _ _ _ Hm) as Hu.
  assert (Hgoal : ∃ i, CalExp f exp = Ret i ∧ ∀ n, 0 ≤ n < 2 ^ 64 →
    (i.1 ≤ n ≤ i.2 ↔ CmpOp exp = "<"%string ∧ n < m ∨ CmpOp exp = "="%string ∧ n = m ∨ CmpOp exp = ">"%string ∧ m < n)).
  2: { destruct Hgoal as (i & Hi & Hn). exists i, target, m. split_and!; [done..|]. intros n Hnr. rewrite Hn, match_op_num by done. done. }
  unfold CalExp. rewrite Ht. destruct Hop as [-> | [-> | ->]].
  - rewrite decide_True, Ret_bind, Hu, Ret_bind by done. destruct (decide (0 < m)) as [H0|H0].
    + rewrite u64_id by lia. eexists. split; [done|]. cbn. intros n Hn. split; [left; split; [done|lia]|]. intros [[_ HH]|[[? _]|[? _]]]; [lia|done..].
    + eexists. split; [done|]. cbn. intros n Hn. split; [lia|]. intros [[_ HH]|[[? _]|[? _]]]; [lia|done..].
  - rewrite decide_False, decide_True, Ret_bind, Hu, Ret_bind by done. eexists. split; [done|]. cbn. intros n Hn.
    split; [right; left; split; [done|lia]|]. intros [[? _]|[[_ HH]|[? _]]]; [done|lia|done].
  - rewrite decide_False, decide_False, decide_True, Ret_bind, Hu, Ret_bind by done. cbv zeta. unfold u64. destruct (decide (m = 2 ^ 64 - 1)) as [->|Hlt].
    + eexists. split; [done|]. cbn. intros n Hn. split; [lia|]. intros [[? _]|[[? _]|[_ HH]]]; [done..|lia].
    + rewrite Z.mod_small by lia. rewrite decide_False by lia. eexists. split; [done|]. unfold INF. cbn [fst snd]. intros n Hn.
      split; [right; right; split; [done|lia]|]. intros [[? _]|[[? _]|[_ HH]]]; [done..|lia].
Qed.

(** One comparison, or two on the same field. *)
Definition where_ok (f : field) (w : Where) : Prop :=
  comparison_ok f (SingleExp1 w) ∧
  (LogicOp w = ""%string ∨ (LogicOp w = "and" ∨ LogicOp w = "or")%string ∧
     ∃ exp2, SingleExp2 w = Some exp2 ∧ Exp_Field exp2 = Exp_Field (SingleExp1 w) ∧ comparison_ok f exp2).

Lemma matchSingleExp_num t e exp fd v n target m :
  find_field t (Exp_Field exp) = Some fd → e !! Exp_Field exp = Some v → num fd v n → StrToValue fd (Exp_Value exp) = Ret target → num fd target m →
  matchSingleExp t e exp = Ret (match_op (CmpOp exp) (compare3 Z_ltb' n m)).
Proof. intros Hf He Hv Ht Hm. unfold matchSingleExp. by rewrite He, Hf, Ht, (valueCompare_num _ _ _ _ _ Hv Hm). Qed.

Lemma evaluateWhere_num t fd e w v n :
  find_field t (Exp_Field (SingleExp1 w)) = Some fd → e !! Exp_Field (SingleExp1 w) = Some v → num fd v n → where_ok fd w →
  ∃ i0 i1 single b, calWhere fd w = Ret (i0, i1, single) ∧ evaluateWhere t e (Some w) = Ret b ∧
    (b = true ↔ i0.1 ≤ n ≤ i0.2 ∨ single = false ∧ i1.1 ≤ n ≤ i1.2).
Proof.
  intros Hf He Hv [Hc1 Hw]. assert (Hnf : numeric fd) by (destruct Hv as [(? & _)|(? & _)]; [by left|by right]). pose proof (num_range _ _ _ Hv) as Hn.
  destruct (CalExp_num fd _ Hnf Hc1) as (i0 & t0 & m0 & Hi0 & Ht0 & Hm0 & Hin0).
  pose proof (matchSingleExp_num t e _ fd v n t0 m0 Hf He Hv Ht0 Hm0) as Hmatch0. specialize (Hin0 n Hn).
  unfold calWhere, evaluateWhere. rewrite Hi0, Hmatch0, !Ret_bind. destruct Hw as [Hop|(Hop & exp2 & H2 & Hfe & Hc2)].
  - rewrite !(decide_True _ _ Hop). eexists _, _, _, _. split; [done|]. split; [done|]. rewrite Hin0. naive_solver.
  - rewrite <- Hfe in Hf, He. destruct (CalExp_num fd _ Hnf Hc2) as (i1 & t1 & m1 & Hi1 & Ht1 & Hm1 & Hin1).
    pose proof (matchSingleExp_num t e _ fd v n t1 m1 Hf He Hv Ht1 Hm1) as Hmatch1. specialize (Hin1 n Hn).
    destruct i0 as [l0 r0], i1 as [l1 r1]. cbn [fst snd] in *. unfold second. rewrite H2. destruct Hop as [Hop|Hop]; rewrite Hop; cbn [decide decide_rel].
    + rewrite !(decide_False (P := "and"%string = ""%string)), (decide_False (P := "and"%string = "or"%string)) by done.
      rewrite (decide_True (P := "and"%string = "and"%string)) by done.
      rewrite !Ret_bind, Hi1, Hmatch1, !Ret_bind, ?(decide_True (P := "and"%string = "and"%string)) by done. eexists _, _, _, _. split; [done|]. split; [done|].
      rewrite andb_true_iff, <- Hin0, <- Hin1. cbn [fst snd]. repeat case_decide; split; try lia; intros [?|[? _]]; try done; lia.
    + rewrite !(decide_False (P := "or"%string = ""%string)), (decide_True (P := "or"%string = "or"%string)) by done.
      rewrite !Ret_bind, Hi1, Hmatch1, !Ret_bind, (decide_False (P := "or"%string = "and"%string)) by done. eexists _, _, _, _. split; [done|]. split; [done|].
      rewrite orb_true_iff, <- Hin0, <- Hin1. cbn [fst snd]. naive_solver.
Qed.

(** * limit and offset *)

Lemma limitEntries_run entries limit offset : 0 < limit < 2 ^ 63 → - 2 ^ 63 ≤ offset < 2 ^ 63 →
  limitEntries entries limit offset =
    if decide (zlen entries ≤ offset) then Ret []
    else if decide (offset < 0 ∨ 2 ^ 63 ≤ offset + limit) then Panic
    else Ret (take (Z.to_nat limit) (drop (Z.to_nat offset) entries)).
Proof.
  intros Hl Ho. unfold limitEntries. case_decide as Hlen; [done|]. cbv zeta. pose proof (zlen_nonneg entries).
  destruct (decide (offset < 0 ∨ 2 ^ 63 ≤ offset + limit)) as [Hbad|Hgood].
  - unfold slice. rewrite decide_False; [done|]. destruct Hbad as [?|Hov]; [lia|].
    assert (Hi : i64 (offset + limit) < 0).
    { unfold i64. replace (offset + limit + 2 ^ 63) with ((offset + limit - 2 ^ 63) + 1 * 2 ^ 64) by lia.
      rewrite Z.mod_add by lia. rewrite Z.mod_small by lia. lia. }
    rewrite decide_False by lia. lia.
  - rewrite i64_id by lia. unfold slice. destruct (decide (zlen entries < offset + limit)); rewrite decide_True by lia; f_equal; unfold sub.
    + rewrite !take_ge by (rewrite length_drop; unfold zlen in *; lia). done.
    + f_equal. lia.
Qed.
