(* ===== verification/TableRep.v ===== *)
(** Package [tbm]: what the tables promise, over the contracts of the data
    manager and the B+ tree.

    [table_db t items R] relates the items of the data manager to a table and
    all its rows [R], also the dead ones: the row index and the index of every
    indexed field list exactly these rows, and no two of them share an item. *)
From S2P Require Import Prelude.
From S2P Require Import Codec.
From S2P Require Import Tm.
From S2P Require Import DmI.
From S2P Require Import Node.
From S2P Require Import Tree.
From S2P Require Import TreeRep.
From S2P Require Import Sm.
From S2P Require Import Parser.
From S2P Require Import Field.
From S2P Require Import Table.
From S2P Require Import TableData.
From Stdlib Require Import Sorting.Sorted.
Local Open Scope Z_scope.

(** * A tree among other items *)

(** The tree with the boot item [boot], stored at the addresses [us]. *)
Definition tree_at (items : gmap UUID (list byte)) (boot : UUID) (us : list UUID) (A : list ent) : Prop :=
  ∃ inner leaves, laid ∅ boot (tree_root inner leaves) (chain_nodes false inner 0 ++ chain_nodes true leaves 0) items ∧
    tree_shape inner leaves A ∧ us = boot :: (chain_nodes false inner 0 ++ chain_nodes true leaves 0).*1.

Lemma tree_at_present items boot us A v : tree_at items boot us A → v ∈ us → is_Some (items !! v).
Proof.
  intros (inner & leaves & [_ _ _ Hr Ha] & _ & ->) [->|Hv]%elem_of_cons; [by eexists|].
  apply list_elem_of_fmap in Hv as (p & -> & Hp). rewrite Forall_forall in Ha. destruct (Ha _ Hp) as (_ & raw & ? & _). by eexists.
Qed.

Lemma tree_at_nodup items boot us A : tree_at items boot us A → NoDup us.
Proof. by intros (inner & leaves & [_ Hn _ _ _] & _ & ->). Qed.

Lemma tree_at_agree items items' boot us A :
  (∀ v, v ∈ us → items' !! v = items !! v) → tree_at items boot us A → tree_at items' boot us A.
Proof.
  intros Hag (inner & leaves & [_ Hn Hf Hr Ha] & Hsh & ->). exists inner, leaves. split; [|done]. split; [apply map_empty_subseteq|done|done| |].
  - rewrite Hag; [done|by left].
  - rewrite Forall_forall in *. intros p Hp. destruct (Ha p Hp) as (? & raw & ? & ?). split; [done|]. exists raw. split; [|done].
    rewrite Hag; [done|]. right. by apply list_elem_of_fmap_2.
Qed.

Lemma tree_at_sorted items boot us A : tree_at items boot us A → StronglySorted key_lt A.
Proof. intros (inner & leaves & _ & Hsh & _). exact (leaves_sorted _ _ (shape_leaves _ _ _ Hsh)). Qed.

Section Trees.
Context {D : Type} `{!DataManager D, !DataManagerOk D}.

(** Everything that is not part of the tree is the frame. *)
Definition frame (items : gmap UUID (list byte)) (us : list UUID) : gmap UUID (list byte) := filter (λ p, p.1 ∉ us) items.

Lemma tree_at_rep (d : D) items boot us A : dm_rep d items → tree_at items boot us A → tree_rep (frame items us) boot d A.
Proof.
  intros Hd (inner & leaves & [_ Hn _ Hr Ha] & Hsh & Hus). exists inner, leaves. split; [|done]. exists items. split; [done|]. split; [|done| |done|done].
  - apply map_filter_subseteq.
  - apply Forall_forall. intros v Hv. apply map_lookup_filter_None. right. intros x Hx Hnot. apply Hnot. by rewrite Hus.
Qed.

Lemma tree_at_search (d : D) items boot us A l r fuel : dm_rep d items → tree_at items boot us A → key_ok l → (2 * length A + 3 ≤ fuel)%nat →
  Tree.SearchRange fuel boot l r d = (d, Ret (filter (in_range l r) A).*2).
Proof. intros Hd Ht Hl Hf. eapply SearchRange_run; [by eapply tree_at_rep|done|done]. Qed.

Lemma rep_tree_at base (d : D) boot A : tree_rep base boot d A →
  ∃ items us, dm_rep d items ∧ tree_at items boot us A ∧ base ⊆ items ∧ Forall (λ v, base !! v = None) us.
Proof.
  intros (inner & leaves & (items & Hd & [Hb Hn Hf Hr Ha]) & Hsh). exists items, (boot :: (chain_nodes false inner 0 ++ chain_nodes true leaves 0).*1).
  split; [done|]. split; [|done]. exists inner, leaves. split; [|done]. split; [apply map_empty_subseteq|done| |done|done]. by apply Forall_forall.
Qed.

Lemma tree_at_insert (d : D) items boot us A key uuid fuel m :
  dm_rep d items → tree_at items boot us A → key_ok key → is_uid uuid → key ∉ A.*1 → (2 * length A + 5 ≤ fuel)%nat → has_room d (S (S m)) →
  ∃ d' items' us', Tree.Insert fuel boot key uuid d = (d', Ret tt) ∧ dm_rep d' items' ∧ tree_at items' boot us' (inserted true A key uuid) ∧
    (∀ v x, v ∉ us → items !! v = Some x → items' !! v = Some x) ∧ (∀ v, v ∈ us' → v ∈ us ∨ items !! v = None) ∧ has_room d' m.
Proof.
  intros Hd Ht Hk Hu Hne Hf ([|[|k]] & Hle & Hroom); [lia..|]. pose proof (tree_at_rep d items boot us A Hd Ht) as Hrep.
  destruct (tree_Insert_run _ _ d A key uuid fuel k Hrep Hk Hu Hne Hf Hroom) as (d' & Hrun & Hrep' & k' & Hk' & Hroom').
  destruct (rep_tree_at _ _ _ _ Hrep') as (items' & us' & Hd' & Ht' & Hb & Hfr). exists d', items', us'. split_and!; try done.
  - intros v x Hv Hx. eapply lookup_weaken; [|exact Hb]. by apply map_lookup_filter_Some.
  - intros v Hv. rewrite Forall_forall in Hfr. specialize (Hfr v Hv). destruct (decide (v ∈ us)) as [|Hn]; [by left|right].
    apply map_lookup_filter_None in Hfr as [?|Hx]; [done|]. destruct (items !! v) as [x|] eqn:He; [|done]. by destruct (Hx x eq_refl).
  - exists k'. split; [lia|done].
Qed.

Lemma tree_at_create (d : D) items m : dm_rep d items → has_room d (S (S m)) →
  ∃ d' items' boot us, Tree.Create d = (d', Ret boot) ∧ Tree.Load boot d' = (d', Ret boot) ∧ 0 < boot < INF ∧ dm_rep d' items' ∧ tree_at items' boot us [] ∧
    (∀ v x, items !! v = Some x → items' !! v = Some x) ∧ (∀ v, v ∈ us → items !! v = None) ∧ has_room d' m.
Proof.
  intros Hd ([|[|k]] & Hle & Hroom); [lia..|]. destruct (tree_Create_run d items k Hd Hroom) as (d' & boot & Hc & Hl & Hb0 & Hrep & Hroom').
  destruct (rep_tree_at _ _ _ _ Hrep) as (items' & us & Hd' & Ht & Hb & Hfr). exists d', items', boot, us. split_and!; try done; try apply Hb0.
  - intros v x Hx. by eapply lookup_weaken.
  - by rewrite Forall_forall in Hfr.
  - exists k. split; [lia|done].
Qed.
End Trees.

(** * Several trees *)

Definition tree_t : Type := UUID * list UUID * list ent.
Definition t_boot (t : tree_t) : UUID := t.1.1.
Definition t_uids (t : tree_t) : list UUID := t.1.2.
Definition t_ents (t : tree_t) : list ent := t.2.

(** Trees and other items [P], all apart. *)
Definition forest (items : gmap UUID (list byte)) (ts : list tree_t) (P : list UUID) : Prop :=
  Forall (λ t, tree_at items (t_boot t) (t_uids t) (t_ents t)) ts ∧ NoDup ((ts ≫= t_uids) ++ P) ∧ Forall (λ v, is_Some (items !! v)) P.

Lemma bind_uids_app (a b : list tree_t) : (a ++ b) ≫= t_uids = (a ≫= t_uids) ++ (b ≫= t_uids).
Proof. apply bind_app. Qed.

Lemma forest_perm items ts ts' P : ts ≡ₚ ts' → forest items ts P → forest items ts' P.
Proof. intros Hp (Ha & Hn & Hs). split_and!; [by rewrite <- Hp| |done]. assert (Hb : ts ≫= t_uids ≡ₚ ts' ≫= t_uids) by by rewrite Hp. by rewrite <- Hb. Qed.

Lemma forest_present items ts P v : forest items ts P → v ∈ (ts ≫= t_uids) ++ P → is_Some (items !! v).
Proof.
  intros (Ha & _ & Hs) [Hv|Hv]%elem_of_app; [|by rewrite Forall_forall in Hs; apply Hs].
  apply list_elem_of_bind in Hv as (t & Hv & Ht). rewrite Forall_forall in Ha. by eapply tree_at_present; [apply Ha|].
Qed.

Lemma forest_tail items b us A ts P v : forest items ((b, us, A) :: ts) P → v ∈ (ts ≫= t_uids) ++ P → is_Some (items !! v).
Proof.
  intros Hfo Hv. eapply (forest_present _ _ _ v Hfo). change (((b, us, A) :: ts) ≫= t_uids) with (us ++ (ts ≫= t_uids)).
  rewrite <- app_assoc. apply elem_of_app. by right.
Qed.

(** A new item joins [P]. *)
Lemma forest_new items ts P v raw : forest items ts P → items !! v = None → forest (<[v := raw]> items) ts (v :: P).
Proof.
  intros Hfo Hv. pose proof Hfo as (Ha & Hn & Hs). assert (Hnot : v ∉ (ts ≫= t_uids) ++ P).
  { intros Hin. destruct (forest_present _ _ _ _ Hfo Hin). congruence. }
  split_and!.
  - rewrite Forall_forall in *. intros t Ht. eapply tree_at_agree; [|by apply Ha]. intros w Hw. apply lookup_insert_ne. intros <-. apply Hnot.
    apply elem_of_app. left. apply list_elem_of_bind. by exists t.
  - rewrite <- Permutation_middle. by apply NoDup_cons.
  - apply Forall_cons. split; [rewrite lookup_insert_eq; by eexists|]. eapply Forall_impl; [exact Hs|]. intros w Hw.
    destruct (decide (v = w)) as [->|]; [rewrite lookup_insert_eq; by eexists|by rewrite lookup_insert_ne].
Qed.

Section Forest.
Context {D : Type} `{!DataManager D, !DataManagerOk D}.

Lemma forest_insert (d : D) items boot us A ts P key uuid fuel m :
  dm_rep d items → forest items ((boot, us, A) :: ts) P → key_ok key → is_uid uuid → key ∉ A.*1 → (2 * length A + 5 ≤ fuel)%nat → has_room d (S (S m)) →
  ∃ d' items' us', Tree.Insert fuel boot key uuid d = (d', Ret tt) ∧ dm_rep d' items' ∧
    forest items' ((boot, us', inserted true A key uuid) :: ts) P ∧ (∀ v, v ∈ P → items' !! v = items !! v) ∧ has_room d' m.
Proof.
  intros Hd Hfo Hk Hu Hne Hf Hroom. pose proof Hfo as (Ha & Hn & Hs). apply Forall_cons in Ha as [Ht Ha].
  destruct (tree_at_insert d items boot us A key uuid fuel m Hd Ht Hk Hu Hne Hf Hroom) as (d' & items' & us' & Hrun & Hd' & Ht' & Hag & Hus & Hroom').
  cbn [t_uids fst snd mbind list_bind] in Hn. cbn [t_uids fst snd] in *.
  change (((boot, us, A) :: ts) ≫= t_uids) with (us ++ (ts ≫= t_uids)) in Hn. rewrite <- app_assoc in Hn. apply NoDup_app in Hn as (_ & Hdis & Hn).
  assert (Hout : ∀ v, v ∈ (ts ≫= t_uids) ++ P → items' !! v = items !! v).
  { intros v Hv. assert (Hvu : v ∉ us) by (intros ?; by eapply Hdis).
    destruct (forest_tail _ _ _ _ _ _ v Hfo Hv) as [x Hx]. rewrite Hx. by apply Hag. }
  exists d', items', us'. split_and!; try done.
  - split_and!.
    + apply Forall_cons. split; [done|]. rewrite Forall_forall in *. intros t Hin. eapply tree_at_agree; [|by apply Ha]. intros v Hv. apply Hout.
      apply elem_of_app. left. apply list_elem_of_bind. by exists t.
    + change (((boot, us', inserted true A key uuid) :: ts) ≫= t_uids) with (us' ++ (ts ≫= t_uids)). rewrite <- app_assoc.
      apply NoDup_app. split; [by eapply tree_at_nodup|]. split; [|done]. intros v Hv Hin.
      destruct (Hus v Hv) as [Hv'|Hv']; [by eapply Hdis|]. destruct (forest_tail _ _ _ _ _ _ v Hfo Hin) as [x Hx]. congruence.
    + rewrite Forall_forall in *. intros v Hv. rewrite Hout; [by apply Hs|]. apply elem_of_app. by right.
  - intros v Hv. apply Hout. apply elem_of_app. by right.
Qed.
End Forest.

(** * A table and its rows *)

(** A row as it is stored: its address, its two transactions, its values. *)
Record srow := mkRow { s_uuid : UUID; s_xmin : XID; s_xmax : XID; s_row : row; s_raw : list byte }.

Definition key_of (f : field) (e : row) : UUID :=
  match ValueToUUID f (row_get e (FName f)) with Ret k => k | _ => 0 end.

Definition index_fields (t : table) : list field := filter (λ f, IsIndexed f = true) (tb_fields t).

Record table_wf (t : table) : Prop := {
  wf_names : NoDup (FName <$> tb_fields t);
  wf_types : Forall (λ f, typeCheck (FType f) = Ret tt) (tb_fields t)
}.

Definition row_stored (t : table) (items : gmap UUID (list byte)) (r : srow) : Prop :=
  items !! s_uuid r = (Some (mk_entry (s_xmin r) (s_xmax r) (s_raw r)) : option (list byte)) ∧ is_u64 (s_xmin r) ∧ is_u64 (s_xmax r) ∧
  0 < s_uuid r < INF ∧ row_ok t (s_row r) ∧ entryToRaw t (s_row r) = Ret (s_raw r).

(** The entries of an index over the rows. *)
Definition index_ents (key : srow → UUID) (R : list srow) : list ent := (λ r, (key r, s_uuid r)) <$> R.
Definition index_of (f : field) (R : list srow) (tree : tree_t) : Prop :=
  t_boot tree = f_index f ∧ t_ents tree ≡ₚ index_ents (λ r, key_of f (s_row r)) R.

Record table_db (t : table) (items : gmap UUID (list byte)) (R : list srow) (ts : list tree_t) (tr : tree_t) : Prop := {
  db_trees : Forall (λ t, tree_at items (t_boot t) (t_uids t) (t_ents t)) (tr :: ts);
  db_index : Forall2 (λ f tree, index_of f R tree) (index_fields t) ts;
  db_boot : t_boot tr = tb_rowIndex t;
  db_ents : t_ents tr ≡ₚ index_ents s_uuid R;
  db_stored : Forall (row_stored t items) R;
  db_wf : table_wf t
}.

Lemma key_of_ok f e : value_ok f (row_get e (FName f)) → ValueToUUID f (row_get e (FName f)) = Ret (key_of f e).
Proof.
  unfold key_of, value_ok, ValueToUUID. on_type f Hf.
  - by intros (n & -> & _).
  - by intros (n & -> & _).
  - by intros (s & -> & _).
  - done.
Qed.

Lemma find_field_Some t name f : find_field t name = Some f → f ∈ tb_fields t ∧ FName f = name.
Proof.
  unfold find_field. destruct (list_find _ _) as [[i g]|] eqn:Hf; [|done]. intros [= <-]. apply list_find_Some in Hf as (Hi & <- & _).
  split; [by eapply list_elem_of_lookup_2|done].
Qed.

(** The rows an index lists for a range of keys. *)
Lemma index_range key R l r A : A ≡ₚ index_ents key R →
  (filter (in_range l r) A).*2 ≡ₚ s_uuid <$> filter (λ x, l ≤ key x ≤ r) R.
Proof.
  intros ->. unfold index_ents. induction R as [|x R IH]; [done|]. cbn [fmap list_fmap]. destruct (decide (l ≤ key x ≤ r)) as [Hx|Hx].
  - rewrite (filter_cons_True (in_range l r)), (filter_cons_True (λ x, l ≤ key x ≤ r)) by exact Hx. cbn [fmap list_fmap]. by rewrite IH.
  - by rewrite (filter_cons_False (in_range l r)), (filter_cons_False (λ x, l ≤ key x ≤ r)) by exact Hx.
Qed.

(** What [where] says about a row. *)
Definition matches (t : table) (w : option Where) (e : row) : bool :=
  match evaluateWhere t e w with Ret b => b | _ => false end.

Lemma matchSingleExp_total t e exp : row_ok t e → Forall (λ f, typeCheck (FType f) = Ret tt) (tb_fields t) → ∃ b, matchSingleExp t e exp = Ret b.
Proof.
  intros [_ Hok] Hty. unfold matchSingleExp. destruct (e !! Exp_Field exp) as [v|] eqn:Hv; [|by eexists].
  destruct (find_field t (Exp_Field exp)) as [fd|] eqn:Hfd; [|by eexists]. apply find_field_Some in Hfd as [Hin Hname].
  specialize (Hok fd Hin). unfold row_get in Hok. rewrite Hname, Hv in Hok. cbn in Hok. rewrite Forall_forall in Hty. specialize (Hty fd Hin).
  unfold StrToValue, valueCompare, value_ok in *. on_type fd Hf.
  - destruct Hok as (n & -> & _). destruct (StrToUint32 _); cbn; rewrite ?(by_type_u32 fd Hf); cbn; by eexists.
  - destruct Hok as (n & -> & _). destruct (StrToUint64 _); cbn; rewrite ?(by_type_u64 fd Hf); cbn; by eexists.
  - destruct Hok as (s & -> & _). cbn. rewrite ?(by_type_str fd Hf). cbn. by eexists.
  - done.
Qed.

Lemma evaluateWhere_total t e w : row_ok t e → table_wf t → (LogicOp w = ""%string ∨ is_Some (SingleExp2 w)) →
  evaluateWhere t e (Some w) = Ret (matches t (Some w) e).
Proof.
  intros Hok [_ Hty] Hw. unfold matches. assert (Hb : ∃ b, evaluateWhere t e (Some w) = Ret b); [|by destruct Hb as [b ->]].
  unfold evaluateWhere. destruct (matchSingleExp_total t e (SingleExp1 w) Hok Hty) as [b1 ->]. rewrite Ret_bind.
  case_decide as Hop; [by eexists|]. destruct Hw as [?|[exp2 H2]]; [done|]. unfold second. rewrite H2, Ret_bind.
  destruct (matchSingleExp_total t e exp2 Hok Hty) as [b2 ->]. rewrite Ret_bind. case_decide; by eexists.
Qed.

(** The conditions that are answered right: none; one or two comparisons, when
    the first is on a field without an index; and, when it is on a numeric
    field with an index, one comparison with [<], [=] or [>], or two of the same
    field joined by [and], whose values are numbers and whose range of keys
    does not start at 2^64 - 1. *)
Definition where_supported (t : table) (w : option Where) : Prop :=
  match w with
  | None => True
  | Some w => ∃ fd, find_field t (Exp_Field (SingleExp1 w)) = Some fd ∧
      if IsIndexed fd then
        numeric fd ∧ where_ok fd w ∧ LogicOp w ≠ "or"%string ∧
        ∃ l r i1 single, calWhere fd w = Ret ((l, r), i1, single) ∧ 0 ≤ l < INF
      else LogicOp w = ""%string ∨ is_Some (SingleExp2 w)
  end.

Lemma uuids_of (R : list srow) uids (P : srow → Prop) `{!∀ r, Decision (P r)} : uids ≡ₚ s_uuid <$> filter P R →
  ∃ R', uids = s_uuid <$> R' ∧ R' ≡ₚ filter P R.
Proof.
  intros Hp. destruct (Permutation_map_inv s_uuid (filter P R) Hp) as (R' & -> & HR'). exists R'. split; [done|]. by symmetry.
Qed.

Section Selecting.
Context {T : Type} `{!TransactionManager T} {D : Type} `{!DataManager D, !DataManagerOk D}.
Context (fuel : nat).
Notation SM := (serializabilityManager T D).
Implicit Types (s : SM) (t : table) (R : list srow).


(** The row is visible to the transaction. *)
Definition alive_row (s : SM) (tx : transaction) (r : srow) : Prop := alive (sm_TM s) tx (s_xmin r) (s_xmax r) = true.
#[export] Instance alive_row_dec s tx r : Decision (alive_row s tx r).
Proof. unfold alive_row. apply _. Defined.

Lemma on_DM_same {A} (m : M D A) s a : m (sm_DM s) = (sm_DM s, Ret a) → on_DM m s = (s, Ret a).
Proof. intros Hm. unfold on_DM, zoom. rewrite Hm. by destruct s. Qed.

Lemma read_row t items s xid tx r : dm_rep (sm_DM s) items → row_stored t items r → working s xid tx → own_row tx (s_xmin r) (s_xmax r) →
  sm_Read xid (s_uuid r) s = (s, Ret (if decide (alive_row s tx r) then Some (s_raw r) else None)).
Proof.
  intros Hd (Hi & Hu1 & Hu2 & _) Hw Hown. rewrite (sm_Read_run s xid tx _ (s_xmin r) (s_xmax r) (s_raw r) Hw); [|split; [by eapply dm_Read_ok|done]|done].
  destruct (decide (alive_row s tx r)) as [Ha|Ha]; unfold alive_row in Ha; [by rewrite Ha|by apply not_true_is_false in Ha as ->].
Qed.

Lemma parse_row t items r : table_wf t → row_stored t items r → parseEntry t (s_raw r) = Ret (s_row r).
Proof.
  intros [Hn _] (_ & _ & _ & _ & Hok & Hraw). destruct (row_read_back t (s_row r) [] Hn Hok) as (raw & Hraw' & Hp).
  rewrite Hraw in Hraw'. injection Hraw' as <-. by rewrite app_nil_r in Hp.
Qed.

Section Rows.
Context (t : table) (items : gmap UUID (list byte)) (s : SM) (xid : XID) (tx : transaction).
Context (Hd : dm_rep (sm_DM s) items) (Hw : working s xid tx) (Hwf : table_wf t).

Lemma readRows_run R : Forall (row_stored t items) R → Forall (λ r, own_row tx (s_xmin r) (s_xmax r)) R →
  readRows t xid (s_uuid <$> R) s = (s, Ret (s_row <$> filter (alive_row s tx) R)).
Proof.
  induction R as [|r R IH]; [done|]. intros [Hr HR]%Forall_cons [Ho HO]%Forall_cons. cbn [fmap list_fmap readRows].
  rewrite (M_bind_run _ _ _ _ _ (read_row t items s xid tx r Hd Hr Hw Ho)). destruct (decide (alive_row s tx r)) as [Ha|Ha].
  - rewrite (parse_row t items r Hwf Hr), M_lift_bind, (M_bind_run _ _ _ _ _ (IH HR HO)), filter_cons_True by done. done.
  - rewrite filter_cons_False by done. by apply IH.
Qed.

Lemma filterRows_run w R : Forall (row_stored t items) R → Forall (λ r, own_row tx (s_xmin r) (s_xmax r)) R →
  (LogicOp w = ""%string ∨ is_Some (SingleExp2 w)) →
  filterRows t xid w (s_uuid <$> R) s = (s, Ret (s_uuid <$> filter (λ r, alive_row s tx r ∧ matches t (Some w) (s_row r) = true) R)).
Proof.
  intros HR HO Hlw. induction R as [|r R IH]; [done|]. apply Forall_cons in HR as [Hr HR]. apply Forall_cons in HO as [Ho HO]. cbn [fmap list_fmap filterRows].
  rewrite (M_bind_run _ _ _ _ _ (read_row t items s xid tx r Hd Hr Hw Ho)). pose proof Hr as (_ & _ & _ & _ & Hok & _).
  set (keep := if decide (alive_row s tx r) then matches t (Some w) (s_row r) else false).
  rewrite (M_bind_run _ _ s s keep).
  - rewrite (M_bind_run _ _ _ _ _ (IH HR HO)). run_M. unfold keep. destruct (decide (alive_row s tx r)) as [Ha|Ha].
    + destruct (matches t (Some w) (s_row r)) eqn:Hm; [by rewrite filter_cons_True|by rewrite filter_cons_False by (intros [_ ?]; congruence)].
    + by rewrite filter_cons_False by (intros [? _]; done).
  - unfold keep. destruct (decide (alive_row s tx r)) as [Ha|Ha]; [|done].
    by rewrite (parse_row t items r Hwf Hr), M_lift_bind, (evaluateWhere_total t _ w Hok Hwf Hlw).
Qed.

Lemma calWhere_single fd w l u i1 single : where_ok fd w → LogicOp w ≠ "or"%string → calWhere fd w = Ret ((l, u), i1, single) → single = true.
Proof.
  intros [_ Hop] Hor. unfold calWhere. case_decide as H1; [destruct (CalExp _ _); cbn; congruence|]. rewrite decide_False by done.
  case_decide; [|done]. destruct (CalExp fd (SingleExp1 w)) as [[]| | |]; cbn; try done.
  destruct (second w) as [exp2| | |]; cbn; try done. destruct (CalExp fd exp2) as [[]| | |]; cbn; congruence.
Qed.

Lemma matches_keys fd w r l u i1 single : 
  find_field t (Exp_Field (SingleExp1 w)) = Some fd → numeric fd → where_ok fd w → LogicOp w ≠ "or"%string →
  calWhere fd w = Ret ((l, u), i1, single) → row_stored t items r →
  matches t (Some w) (s_row r) = true ↔ l ≤ key_of fd (s_row r) ≤ u.
Proof.
  intros Hf Hn Hwo Hor Hcal (_ & _ & _ & _ & [Hdom Hok] & _). pose proof (find_field_Some _ _ _ Hf) as [Hin Hname].
  pose proof (Hok fd Hin) as Hv. destruct (num_ok _ _ Hn Hv) as [n Hnum]. pose proof (key_of_ok _ _ Hv) as Hkey.
  rewrite (ValueToUUID_num _ _ _ Hnum) in Hkey. injection Hkey as <-.
  assert (He : s_row r !! Exp_Field (SingleExp1 w) = Some (row_get (s_row r) (FName fd))).
  { unfold row_get. rewrite <- Hname. destruct (s_row r !! FName fd) eqn:He; [done|]. apply not_elem_of_dom_2 in He. rewrite Hdom in He.
    destruct He. apply elem_of_list_to_set, list_elem_of_fmap. by exists fd. }
  destruct (evaluateWhere_num t fd (s_row r) w _ n Hf He Hnum Hwo) as (i0 & i1' & single' & b & Hcal' & Hev & Hb).
  rewrite Hcal in Hcal'. injection Hcal' as <- <- <-. unfold matches. rewrite Hev. rewrite Hb. cbn [fst snd]. split; [|by left].
  intros [?|[Hs _]]; [done|]. rewrite (calWhere_single _ _ _ _ _ _ Hwo Hor Hcal) in Hs. done.
Qed.
End Rows.

Lemma Forall_filter {A} (P Q : A → Prop) `{!∀ x, Decision (Q x)} (l : list A) : Forall P l → Forall P (filter Q l).
Proof. rewrite !Forall_forall. intros Hl x [_ Hx]%list_elem_of_filter. by apply Hl. Qed.

Lemma filter_agree {A} (P Q : A → Prop) `{!∀ x, Decision (P x), !∀ x, Decision (Q x)} (l : list A) :
  Forall (λ x, P x ↔ Q x) l → filter P l = filter Q l.
Proof.
  induction 1 as [|x l Hx _ IH]; [done|]. destruct (decide (P x)) as [HP|HP].
  - rewrite !filter_cons_True by tauto. by rewrite IH.
  - rewrite !filter_cons_False by tauto. done.
Qed.

Lemma filter_everything {A} (P : A → Prop) `{!∀ x, Decision (P x)} (l : list A) : Forall P l → filter P l = l.
Proof. induction 1 as [|x l Hx _ IH]; [done|]. by rewrite filter_cons_True, IH. Qed.

Lemma filter_nothing {A} (P : A → Prop) `{!∀ x, Decision (P x)} (l : list A) : Forall (λ x, ¬ P x) l → filter P l = [].
Proof. induction 1 as [|x l Hx _ IH]; [done|]. by rewrite filter_cons_False. Qed.

Lemma filter_image {A B} (f : A → B) (P : B → Prop) `{!∀ x, Decision (P x)} (l : list A) : filter P (f <$> l) = f <$> filter (λ x, P (f x)) l.
Proof.
  induction l as [|x l IH]; [done|]. cbn [fmap list_fmap]. destruct (decide (P (f x))) as [Hx|Hx].
  - by rewrite (filter_cons_True P), (filter_cons_True (λ x, P (f x))), IH by done.
  - by rewrite (filter_cons_False P), (filter_cons_False (λ x, P (f x))) by done.
Qed.

Lemma index_search t items R ts tr s f l u : dm_rep (sm_DM s) items → table_db t items R ts tr → f ∈ tb_fields t → IsIndexed f = true → key_ok l →
  (2 * length R + 3 ≤ fuel)%nat →
  ∃ uids, field_Search fuel f l u s = (s, Ret uids) ∧ uids ≡ₚ s_uuid <$> filter (λ r, l ≤ key_of f (s_row r) ≤ u) R.
Proof.
  intros Hd [Ha Hix _ _ _ _] Hf Hi Hl Hfuel.
  assert (Hfi : f ∈ index_fields t) by (apply list_elem_of_filter; by split). apply list_elem_of_lookup in Hfi as [k Hk].
  destruct (Forall2_lookup_l _ _ _ _ _ Hix Hk) as (tree & Htree & Hboot & Hents).
  assert (Htr : tree_at items (t_boot tree) (t_uids tree) (t_ents tree)).
  { rewrite Forall_forall in Ha. apply Ha. right. by eapply list_elem_of_lookup_2. }
  exists (filter (in_range l u) (t_ents tree)).*2. split; [|by apply index_range].
  unfold field_Search. rewrite Hi. apply on_DM_same. rewrite <- Hboot. eapply tree_at_search; [done|exact Htr|done|].
  rewrite Hents. unfold index_ents. by rewrite length_fmap.
Qed.

Lemma scan_rows t items R ts tr s : dm_rep (sm_DM s) items → table_db t items R ts tr → (2 * length R + 3 ≤ fuel)%nat →
  ∃ uids, rowIndex_SearchRange fuel t 0 INF s = (s, Ret uids) ∧ uids ≡ₚ s_uuid <$> R.
Proof.
  intros Hd [Ha _ Hboot Hents Hst _] Hfuel. apply Forall_cons in Ha as [Htr _].
  exists (filter (in_range 0 INF) (t_ents tr)).*2. split.
  - apply on_DM_same. rewrite <- Hboot. eapply tree_at_search; [done|exact Htr|done|]. rewrite Hents. unfold index_ents. by rewrite length_fmap.
  - rewrite (index_range _ _ _ _ _ Hents). rewrite filter_everything; [done|]. eapply Forall_impl; [exact Hst|]. intros r (_ & _ & _ & ? & _). lia.
Qed.

Lemma where_rows t R s xid tx w items ts tr : dm_rep (sm_DM s) items → table_db t items R ts tr → working s xid tx →
  Forall (λ r, own_row tx (s_xmin r) (s_xmax r)) R → where_supported t w → (2 * length R + 3 ≤ fuel)%nat →
  ∃ R', table_parseWhere fuel t xid w s = (s, Ret (s_uuid <$> R')) ∧ R' ⊆+ R ∧ Forall (row_stored t items) R' ∧ Forall (λ r, own_row tx (s_xmin r) (s_xmax r)) R' ∧
    filter (alive_row s tx) R' ≡ₚ filter (λ r, alive_row s tx r ∧ matches t w (s_row r) = true) R.
Proof.
  intros Hd Hdb Hw Hown Hsup Hf. pose proof (db_stored _ _ _ _ _ Hdb) as Hst. pose proof (db_wf _ _ _ _ _ Hdb) as Hwf.
  destruct w as [w|]; cbn [where_supported table_parseWhere] in *.
  - destruct Hsup as (fd & Hfd & Hsup). rewrite Hfd. destruct (IsIndexed fd) eqn:Hix; cbn [negb].
    + destruct Hsup as (Hn & Hwo & Hor & l & u & i1 & single & Hcal & Hl). pose proof (find_field_Some _ _ _ Hfd) as [Hin _].
      destruct (index_search t items R ts tr s fd l u Hd Hdb Hin Hix Hl Hf) as (uids & Hrun & Hp). apply uuids_of in Hp as (R' & -> & Hp).
      exists R'. pose proof (calWhere_single _ _ _ _ _ _ Hwo Hor Hcal) as ->. rewrite Hcal, M_lift_bind. cbn [fst snd].
      split; [by rewrite (M_bind_run _ _ _ _ _ Hrun)|]. split; [rewrite Hp; apply sublist_submseteq, sublist_filter|]. split; [rewrite Hp; by apply Forall_filter|]. split; [rewrite Hp; by apply Forall_filter|].
      rewrite Hp, list_filter_filter. erewrite filter_agree; [done|]. eapply Forall_impl; [exact Hst|]. intros r Hr.
      rewrite (matches_keys t items fd w r l u i1 true) by done. done.
    + destruct (scan_rows t items R ts tr s Hd Hdb Hf) as (uids & Hrun & Hp). destruct (Permutation_map_inv s_uuid R Hp) as (R0 & -> & HR0).
      unfold fullScanFilter. rewrite (M_bind_run _ _ _ _ _ Hrun). setoid_rewrite (filterRows_run t items s xid tx Hd Hw Hwf w R0); [|by rewrite <- HR0..|done].
      eexists. split; [done|]. split; [rewrite HR0; apply sublist_submseteq, sublist_filter|]. split; [apply Forall_filter; by rewrite <- HR0|]. split; [apply Forall_filter; by rewrite <- HR0|].
      rewrite list_filter_filter, HR0. erewrite filter_agree; [done|]. apply Forall_true. tauto.
  - destruct (scan_rows t items R ts tr s Hd Hdb Hf) as (uids & Hrun & Hp). destruct (Permutation_map_inv s_uuid R Hp) as (R0 & -> & HR0).
    exists R0. split; [done|]. split; [by rewrite HR0|]. split; [by rewrite <- HR0|]. split; [by rewrite <- HR0|]. rewrite HR0. erewrite filter_agree; [done|]. apply Forall_true.
    intros r. unfold matches. cbn. naive_solver.
Qed.
End Selecting.

(** * Inserting rows *)

Section Inserting.
Context {T : Type} `{!TransactionManager T} {D : Type} `{!DataManager D, !DataManagerOk D}.
Context (fuel : nat).
Notation SM := (serializabilityManager T D).
Implicit Types (s : SM) (t : table) (R : list srow).

Lemma on_DM_run {A} (m : M D A) s d a : m (sm_DM s) = (d, Ret a) → on_DM m s = (set_DM d s, Ret a).
Proof. intros Hm. unfold on_DM, zoom. by rewrite Hm. Qed.

(** A transaction that may write. *)
Definition writer (xid : XID) : Prop := is_u64 xid ∧ dm_writer (D := D) xid.

Lemma sm_Insert_run s xid tx data items m : working s xid tx → writer xid → dm_rep (sm_DM s) items → zlen data ≤ 8140 → has_room (sm_DM s) (S m) →
  ∃ d uuid, sm_Insert xid data s = (set_DM d s, Ret uuid) ∧ items !! uuid = None ∧ 0 < uuid < INF ∧
    dm_rep d (<[uuid := mk_entry xid 0 data]> items) ∧ has_room d m.
Proof.
  intros Hw [Hx Hwr] Hd Hl ([|k] & Hle & Hroom); [lia|]. unfold sm_Insert. rewrite (M_bind_run _ _ _ _ _ (cached_working _ _ _ Hw)).
  destruct Hw as (_ & _ & _ & ->). rewrite WrapEntryRaw_mk_entry.
  destruct (dm_Insert_ok _ items xid (mk_entry xid 0 data) k Hd Hwr) as (d & uuid & Hrun & Hf & Hu & Hd' & Hroom'); [rewrite zlen_mk_entry; unfold ITEM_LIMIT; lia|done|].
  exists d, uuid. split; [by apply on_DM_run|]. split_and!; try done; try apply Hu. exists k. split; [lia|done].
Qed.

(** Every index of an indexed field gets the key of the row. *)
Definition takes_key (e : row) (f : field) (tree : tree_t) : Prop :=
  t_boot tree = f_index f ∧ key_ok (key_of f e) ∧ key_of f e ∉ (t_ents tree).*1 ∧ (2 * length (t_ents tree) + 5 ≤ fuel)%nat.
Definition took_key (e : row) (uuid : UUID) (f : field) (tree tree' : tree_t) : Prop :=
  t_boot tree' = t_boot tree ∧ t_ents tree' = inserted true (t_ents tree) (key_of f e) uuid.

Lemma insertKeys_run e uuid P fs : ∀ other ts s items m,
  dm_rep (sm_DM s) items → forest items (other ++ ts) P → Forall2 (takes_key e) (filter (λ f, IsIndexed f = true) fs) ts →
  Forall (λ f, value_ok f (row_get e (FName f))) fs → is_uid uuid → has_room (sm_DM s) (2 * length ts + m) →
  ∃ d items' ts', insertKeys fuel fs e uuid s = (set_DM d s, Ret tt) ∧ dm_rep d items' ∧ forest items' (other ++ ts') P ∧
    Forall3 (took_key e uuid) (filter (λ f, IsIndexed f = true) fs) ts ts' ∧ (∀ v, v ∈ P → items' !! v = items !! v) ∧ has_room d m.
Proof.
  induction fs as [|f fs IH]; intros other ts s items m Hd Hfo Hts Hok Hu Hroom.
  - apply Forall2_nil_inv_l in Hts as ->. exists (sm_DM s), items, []. split; [by destruct s|]. split_and!; try done. constructor.
  - apply Forall_cons in Hok as [Hf Hok]. cbn [insertKeys]. destruct (IsIndexed f) eqn:Hix.
    + rewrite filter_cons_True in Hts |- * by done. apply Forall2_cons_inv_l in Hts as (tree & ts0 & (Hb & Hk & Hne & Hfuel) & Hts & ->).
      destruct tree as [[b us] A]. cbn [t_boot t_ents fst snd] in *. subst b.
      destruct (forest_insert (sm_DM s) items (f_index f) us A (other ++ ts0) P (key_of f e) uuid fuel (2 * length ts0 + m)%nat) as (d1 & items1 & us1 & Hrun & Hd1 & Hfo1 & Hag1 & Hroom1);
        [done|eapply forest_perm; [|exact Hfo]; by rewrite Permutation_middle|done|done|done|done|by cbn [length] in Hroom; replace (S (S (2 * length ts0 + m))) with (2 * S (length ts0) + m)%nat by lia|].
      destruct (IH (other ++ [(f_index f, us1, inserted true A (key_of f e) uuid)]) ts0 (set_DM d1 s) items1 m Hd1) as (d2 & items2 & ts' & Hrun2 & Hd2 & Hfo2 & H3 & Hag2 & Hroom2); try done.
      { eapply forest_perm; [|exact Hfo1]. rewrite <- app_assoc. cbn [app]. by rewrite Permutation_middle. }
      exists d2, items2, ((f_index f, us1, inserted true A (key_of f e) uuid) :: ts'). split_and!; try done.
      * rewrite (M_bind_run _ _ s (set_DM d1 s) tt); [exact Hrun2|]. unfold field_Insert. rewrite (key_of_ok _ _ Hf), M_lift_bind, Hix. by apply on_DM_run.
      * eapply forest_perm; [|exact Hfo2]. by rewrite <- app_assoc.
      * constructor; [done|exact H3].
      * intros v Hv. by rewrite Hag2, Hag1.
    + rewrite filter_cons_False in Hts |- * by (by rewrite Hix). rewrite M_ret_bind. by apply IH.
Qed.

(** What the indexes ask of the keys of new rows. *)
Definition keys_fresh (t : table) (R : list srow) (es : list row) : Prop :=
  Forall (λ f, Forall (λ e, key_ok (key_of f e)) es ∧ NoDup ((key_of f <$> es) ++ ((λ r, key_of f (s_row r)) <$> R))) (index_fields t).

Lemma row_stored_agree t (items items' : gmap UUID (list byte)) r : items' !! s_uuid r = items !! s_uuid r → row_stored t items r → row_stored t items' r.
Proof. intros Hag (Hi & Hrest). split; [|done]. congruence. Qed.

Lemma index_ents_keys key R : (index_ents key R).*1 = key <$> R.
Proof. unfold index_ents. rewrite <- list_fmap_compose. done. Qed.

Lemma Forall2_weaken {A B} (P Q : A → B → Prop) l k : (∀ x y, x ∈ l → P x y → Q x y) → Forall2 P l k → Forall2 Q l k.
Proof.
  intros HPQ. induction 1 as [|x y l k Hxy _ IH]; constructor; [apply HPQ; [by left|done]|]. apply IH. intros. apply HPQ; [by right|done].
Qed.

Definition new_row (xid : XID) (uuid : UUID) (e : row) (raw : list byte) : srow := mkRow uuid xid 0 e raw.

Lemma keys_fresh_cons t R e es xid : keys_fresh t R (e :: es) → keys_fresh t R [e] ∧ ∀ uuid raw, keys_fresh t (new_row xid uuid e raw :: R) es.
Proof.
  intros Hkeys. split; [|intros u rw]; (eapply Forall_impl; [exact Hkeys|]); intros f [Hko Hnd]; apply Forall_cons in Hko as [Hk Hko]; cbn [fmap list_fmap app] in *.
  - split; [by apply Forall_singleton|]. apply NoDup_cons in Hnd as [Hn Hnd]. cbn. apply NoDup_cons. split; [intros ?; apply Hn; apply elem_of_app; by right|].
    by apply NoDup_app in Hnd as (_ & _ & ?).
  - split; [done|]. rewrite <- Permutation_middle. exact Hnd.
Qed.

(** What is true of the trees before a row is added, and what the table is
    afterwards, in whatever order its trees were changed. *)
Lemma takes_keys t R items ts tr e : table_db t items R ts tr → keys_fresh t R [e] → (2 * length R + 5 ≤ fuel)%nat → Forall2 (takes_key e) (index_fields t) ts.
Proof.
  intros [_ Hix _ _ _ _] Hkeys Hfuel. eapply Forall2_weaken; [|exact Hix]. intros f tree Hf [Hb He]. unfold keys_fresh in Hkeys. rewrite Forall_forall in Hkeys.
  destruct (Hkeys f Hf) as [Hko Hnd]. rewrite Forall_singleton in Hko. split_and!; [done|apply Hko|..].
  - rewrite He, index_ents_keys. cbn in Hnd. by apply NoDup_cons in Hnd as [? _].
  - rewrite He. unfold index_ents. by rewrite length_fmap.
Qed.

Lemma takes_uuid t R items ts tr uuid : table_db t items R ts tr → items !! uuid = None → uuid ∉ (t_ents tr).*1.
Proof.
  intros [_ _ _ He Hst _] Hfresh. rewrite He, index_ents_keys. intros Hin. apply list_elem_of_fmap in Hin as (r & -> & Hr).
  rewrite Forall_forall in Hst. destruct (Hst r Hr) as (Hi & _). congruence.
Qed.

Lemma table_db_trees t R items ts tr : table_db t items R ts tr → length ts = length (index_fields t) ∧ length (t_ents tr) = length R.
Proof.
  intros [_ Hix _ He _ _]. split; [symmetry; by eapply Forall2_length|]. rewrite He. unfold index_ents. by rewrite length_fmap.
Qed.

Lemma row_added t R items items' ts ts' tr us' uuid xid e raw ots P : table_db t items R ts tr → forest items ((tr :: ts) ++ ots) ((s_uuid <$> R) ++ P) →
  items !! uuid = None → 0 < uuid < INF → is_u64 xid → row_ok t e → entryToRaw t e = Ret raw →
  Forall3 (took_key e uuid) (index_fields t) ts ts' → 
  forest items' (((t_boot tr, us', inserted true (t_ents tr) uuid uuid) :: ts') ++ ots) (uuid :: (s_uuid <$> R) ++ P) →
  (∀ v, v ∈ uuid :: (s_uuid <$> R) ++ P → items' !! v = (<[uuid := mk_entry xid 0 raw]> items : gmap UUID (list byte)) !! v) →
  table_db t items' (new_row xid uuid e raw :: R) ts' (t_boot tr, us', inserted true (t_ents tr) uuid uuid) ∧ (∀ v, v ∈ P → items' !! v = items !! v).
Proof.
  intros [_ Hix Hboot Hents Hst Hwf] Hfo Hfresh Hu Hx Hok Hraw H3 Hfo' Hag.
  assert (Hold : ∀ v, v ∈ (s_uuid <$> R) ++ P → items' !! v = items !! v).
  { intros v Hv. rewrite Hag by (by right). apply lookup_insert_ne. intros <-.
    destruct (forest_present _ _ _ uuid Hfo) as [x Hx']; [|congruence]. apply elem_of_app. by right. }
  split; [|intros v Hv; apply Hold, elem_of_app; by right].
  split; [by destruct Hfo' as [[? _]%Forall_app _]| |done| | |done].
  - clear -H3 Hix. revert H3 Hix. generalize (index_fields t). intros fs H3.
    induction H3 as [|f tree tree' fs ts ts2 [Hb He] _ IH]; intros Hix; [constructor|]. apply Forall2_cons in Hix as [[Hfb Hfe] Hix].
    constructor; [|by apply IH]. split; [congruence|]. rewrite He, inserted_perm, Hfe. done.
  - cbn [t_ents snd]. rewrite inserted_perm, Hents. done.
  - apply Forall_cons. split.
    + split; [cbn [s_uuid new_row]; rewrite Hag by (by left); by rewrite lookup_insert_eq|].
      cbn [new_row s_xmin s_xmax s_uuid s_row s_raw]. split; [exact Hx|]. split; [by vm_compute|]. done.
    + apply Forall_forall. intros r Hr. rewrite Forall_forall in Hst. eapply row_stored_agree; [|by apply Hst].
      apply Hold. apply elem_of_app. left. by apply list_elem_of_fmap_2.
Qed.

(** What follows the insertion of a row. *)
Lemma then_run {S A C} (ins : M S A) (f g : A → M S unit) (k : A → M S C) st st' a :
  (a ← ins; _ ← f a; _ ← g a; mret a) st = (st', Ret a) → (a ← ins; _ ← f a; _ ← g a; k a) st = k a st'.
Proof.
  unfold mbind, M_bind. destruct (ins st) as [s1 [u|er| |]]; try discriminate. destruct (f u s1) as [s2 [[]|er| |]]; try discriminate.
  destruct (g u s2) as [s3 [[]|er| |]]; try discriminate. by intros [= -> ->].
Qed.

(** One row: its item, then the indexes, then the row index. *)
Lemma insert_row t R s xid tx e raw items ts tr ots P m :
  dm_rep (sm_DM s) items → table_db t items R ts tr → forest items ((tr :: ts) ++ ots) ((s_uuid <$> R) ++ P) → working s xid tx → writer xid →
  row_ok t e → entryToRaw t e = Ret raw → zlen raw ≤ 8140 → keys_fresh t R [e] → (2 * length R + 5 ≤ fuel)%nat →
  has_room (sm_DM s) (2 * length (index_fields t) + 3 + m) →
  ∃ d uuid items' ts' tr', (uuid ← sm_Insert xid raw; _ ← insertKeys fuel (tb_fields t) e uuid; _ ← rowIndex_Insert fuel t uuid uuid; mret uuid) s = (set_DM d s, Ret uuid) ∧
    dm_rep d items' ∧ table_db t items' (new_row xid uuid e raw :: R) ts' tr' ∧
    forest items' ((tr' :: ts') ++ ots) ((s_uuid <$> new_row xid uuid e raw :: R) ++ P) ∧ (∀ v, v ∈ P → items' !! v = items !! v) ∧ has_room d m.
Proof.
  intros Hd Htab Hfo Hw Hx Hok Hraw Hl Hkeys Hfuel Hroom. destruct (table_db_trees _ _ _ _ _ Htab) as [Hlts Hltr].
  destruct (sm_Insert_run s xid tx raw items (2 * length ts + (2 + m))%nat Hw Hx Hd Hl) as (d1 & uuid & Hrun1 & Hfresh & Hu & Hd1 & Hroom1).
  { by replace (S (2 * length ts + (2 + m))) with (2 * length (index_fields t) + 3 + m)%nat by lia. }
  pose proof (forest_new _ _ _ uuid (mk_entry xid 0 raw) Hfo Hfresh) as Hfo1. assert (Huid : is_uid uuid) by (unfold INF in Hu; unfold is_uid; lia).
  assert (Hfo1' : forest (<[uuid := mk_entry xid 0 raw]> items) ((tr :: ots) ++ ts) (uuid :: (s_uuid <$> R) ++ P)).
  { eapply forest_perm; [|exact Hfo1]. cbn [app]. by rewrite (Permutation_app_comm ts). }
  destruct (insertKeys_run e uuid (uuid :: (s_uuid <$> R) ++ P) (tb_fields t) (tr :: ots) ts (set_DM d1 s) _ (2 + m) Hd1 Hfo1') as (d2 & items2 & ts2 & Hrun2 & Hd2 & Hfo2 & H3 & Hag2 & Hroom2);
    [by eapply takes_keys|apply Forall_forall; apply Hok|done|done|].
  destruct tr as [[b us] A] eqn:Htr. pose proof (db_boot _ _ _ _ _ Htab) as Hboot. cbn [t_boot t_ents fst snd] in Hboot, Hltr. subst b.
  destruct (forest_insert d2 items2 (tb_rowIndex t) us A (ots ++ ts2) (uuid :: (s_uuid <$> R) ++ P) uuid uuid fuel m Hd2 Hfo2) as (d3 & items3 & us3 & Hrun3 & Hd3 & Hfo3 & Hag3 & Hroom3);
    [unfold key_ok; lia|done|exact (takes_uuid _ _ _ _ _ _ Htab Hfresh)|by rewrite Hltr|done|].
  assert (Hfo4 : forest items3 (((tb_rowIndex t, us3, inserted true A uuid uuid) :: ts2) ++ ots) (uuid :: (s_uuid <$> R) ++ P)).
  { eapply forest_perm; [|exact Hfo3]. cbn [app]. by rewrite (Permutation_app_comm ots). }
  destruct (row_added _ _ _ _ _ _ _ us3 _ _ _ _ _ _ Htab Hfo Hfresh Hu (proj1 Hx) Hok Hraw H3 Hfo4) as [Htab' Hold].
  { intros v Hv. exact (eq_trans (Hag3 v Hv) (Hag2 v Hv)). }
  exists d3, uuid, items3, ts2, (tb_rowIndex t, us3, inserted true A uuid uuid). split; [|by split_and!].
  rewrite (M_bind_run _ _ _ _ _ Hrun1), (M_bind_run _ _ _ _ _ Hrun2). unfold rowIndex_Insert.
  rewrite (M_bind_run _ _ (set_DM d2 (set_DM d1 s)) (set_DM d3 s) tt); [done|]. exact (on_DM_run _ (set_DM d2 (set_DM d1 s)) d3 tt Hrun3).
Qed.

(** The same when the row index comes first, as an update does it. *)
Lemma insert_row_index_first t R s xid tx e raw items ts tr ots P m :
  dm_rep (sm_DM s) items → table_db t items R ts tr → forest items ((tr :: ts) ++ ots) ((s_uuid <$> R) ++ P) → working s xid tx → writer xid →
  row_ok t e → entryToRaw t e = Ret raw → zlen raw ≤ 8140 → keys_fresh t R [e] → (2 * length R + 5 ≤ fuel)%nat →
  has_room (sm_DM s) (2 * length (index_fields t) + 3 + m) →
  ∃ d uuid items' ts' tr', (uuid ← sm_Insert xid raw; _ ← rowIndex_Insert fuel t uuid uuid; _ ← insertKeys fuel (tb_fields t) e uuid; mret uuid) s = (set_DM d s, Ret uuid) ∧
    dm_rep d items' ∧ table_db t items' (new_row xid uuid e raw :: R) ts' tr' ∧
    forest items' ((tr' :: ts') ++ ots) ((s_uuid <$> new_row xid uuid e raw :: R) ++ P) ∧ (∀ v, v ∈ P → items' !! v = items !! v) ∧ has_room d m.
Proof.
  intros Hd Htab Hfo Hw Hx Hok Hraw Hl Hkeys Hfuel Hroom. destruct (table_db_trees _ _ _ _ _ Htab) as [Hlts Hltr].
  destruct (sm_Insert_run s xid tx raw items (2 + (2 * length ts + m))%nat Hw Hx Hd Hl) as (d1 & uuid & Hrun1 & Hfresh & Hu & Hd1 & Hroom1).
  { by replace (S (2 + (2 * length ts + m))) with (2 * length (index_fields t) + 3 + m)%nat by lia. }
  pose proof (forest_new _ _ _ uuid (mk_entry xid 0 raw) Hfo Hfresh) as Hfo1. assert (Huid : is_uid uuid) by (unfold INF in Hu; unfold is_uid; lia).
  destruct tr as [[b us] A] eqn:Htr. pose proof (db_boot _ _ _ _ _ Htab) as Hboot. cbn [t_boot t_ents fst snd] in Hboot, Hltr. subst b.
  destruct (forest_insert d1 (<[uuid := mk_entry xid 0 raw]> items) (tb_rowIndex t) us A (ts ++ ots) (uuid :: (s_uuid <$> R) ++ P) uuid uuid fuel (2 * length ts + m) Hd1 Hfo1)
    as (d2 & items2 & us2 & Hrun2 & Hd2 & Hfo2 & Hag2 & Hroom2); [unfold key_ok; lia|done|exact (takes_uuid _ _ _ _ _ _ Htab Hfresh)|by rewrite Hltr|done|].
  assert (Hfo2' : forest items2 (((tb_rowIndex t, us2, inserted true A uuid uuid) :: ots) ++ ts) (uuid :: (s_uuid <$> R) ++ P)).
  { eapply forest_perm; [|exact Hfo2]. cbn [app]. by rewrite (Permutation_app_comm ts). }
  destruct (insertKeys_run e uuid (uuid :: (s_uuid <$> R) ++ P) (tb_fields t) ((tb_rowIndex t, us2, inserted true A uuid uuid) :: ots) ts (set_DM d2 s) _ m Hd2 Hfo2')
    as (d3 & items3 & ts3 & Hrun3 & Hd3 & Hfo3 & H3 & Hag3 & Hroom3); [by eapply takes_keys|apply Forall_forall; apply Hok|done|done|].
  assert (Hfo4 : forest items3 (((tb_rowIndex t, us2, inserted true A uuid uuid) :: ts3) ++ ots) (uuid :: (s_uuid <$> R) ++ P)).
  { eapply forest_perm; [|exact Hfo3]. cbn [app]. by rewrite (Permutation_app_comm ots). }
  destruct (row_added _ _ _ _ _ _ _ us2 _ _ _ _ _ _ Htab Hfo Hfresh Hu (proj1 Hx) Hok Hraw H3 Hfo4) as [Htab' Hold].
  { intros v Hv. exact (eq_trans (Hag3 v Hv) (Hag2 v Hv)). }
  exists d3, uuid, items3, ts3, (tb_rowIndex t, us2, inserted true A uuid uuid). split; [|by split_and!].
  rewrite (M_bind_run _ _ _ _ _ Hrun1). unfold rowIndex_Insert.
  rewrite (M_bind_run _ _ (set_DM d1 s) (set_DM d2 s) tt); [|exact (on_DM_run _ (set_DM d1 s) d2 tt Hrun2)]. by rewrite (M_bind_run _ _ _ _ _ Hrun3).
Qed.

(** Several rows of statement text, one after the other. *)
Lemma insertRows_run t xid tx rows es : 
  writer xid → table_wf t → Forall2 (λ values e, strToEntry t values = Ret e ∧ Forall text_ok values) rows es →
  Forall (λ e, ∀ raw, entryToRaw t e = Ret raw → zlen raw ≤ 8140) es →
  ∀ R s items ts tr ots P m, dm_rep (sm_DM s) items → table_db t items R ts tr → forest items ((tr :: ts) ++ ots) ((s_uuid <$> R) ++ P) →
  working s xid tx → keys_fresh t R es → (2 * (length R + length es) + 5 ≤ fuel)%nat →
  has_room (sm_DM s) (length es * (2 * length (index_fields t) + 3) + m) →
  ∃ d new items' ts' tr', insertRows fuel t xid rows s = (set_DM d s, Ret tt) ∧ dm_rep d items' ∧ table_db t items' (new ++ R) ts' tr' ∧
    forest items' ((tr' :: ts') ++ ots) ((s_uuid <$> new ++ R) ++ P) ∧ (∀ v, v ∈ P → items' !! v = items !! v) ∧ has_room d m ∧
    Forall (λ r, s_xmin r = xid ∧ s_xmax r = 0) new ∧ s_row <$> new = reverse es.
Proof.
  intros Hx Hwf Hrows. induction Hrows as [|values e rows es [Hstr Htx] _ IH]; intros Hl R s items ts tr ots P m Hd Htab Hfo Hw Hkeys Hfuel Hroom.
  - exists (sm_DM s), [], items, ts, tr. assert (Hs : set_DM (sm_DM s) s = s) by by destruct s. by rewrite Hs.
  - apply Forall_cons in Hl as [Hle Hl]. pose proof Hwf as [Hnames Htypes]. pose proof (strToEntry_ok t values e Hstr Hnames Htypes Htx) as Hok.
    destruct (row_read_back t e [] Hnames Hok) as (raw & Hraw & _). cbn [length] in *.
    pose proof (keys_fresh_cons _ _ _ _ xid Hkeys) as Hk1.
    destruct Hk1 as [Hk1 Hk2].
    destruct (insert_row t R s xid tx e raw items ts tr ots P (length es * (2 * length (index_fields t) + 3) + m) Hd Htab Hfo Hw Hx Hok Hraw (Hle _ Hraw) Hk1)
      as (d1 & uuid & items1 & ts1 & tr1 & Hrun & Hd1 & Htab1 & Hfo1 & Hag1 & Hroom1);
      [lia|by replace (2 * length (index_fields t) + 3 + (length es * (2 * length (index_fields t) + 3) + m))%nat with (S (length es) * (2 * length (index_fields t) + 3) + m)%nat by lia|].
    destruct (IH Hl (new_row xid uuid e raw :: R) (set_DM d1 s) items1 ts1 tr1 ots P m Hd1 Htab1 Hfo1)
      as (d2 & new & items2 & ts2 & tr2 & Hrun2 & Hd2 & Htab2 & Hfo2 & Hag2 & Hroom2 & Hx2 & Hes2); [done|apply Hk2|cbn [length]; lia|done|].
    exists d2, (new ++ [new_row xid uuid e raw]), items2, ts2, tr2. rewrite <- app_assoc.
    split; [|split; [done|split; [done|split; [done|split; [|split; [done|split]]]]]].
    + cbn [insertRows]. rewrite Hstr, M_lift_bind, Hraw, M_lift_bind. by rewrite (then_run _ _ _ _ _ _ _ Hrun).
    + intros v Hv. by rewrite Hag2, Hag1.
    + apply Forall_app. split; [done|]. by apply Forall_singleton.
    + rewrite fmap_app, Hes2, reverse_cons. done.
Qed.
End Inserting.
