(* ===== verification/TableOps.v ===== *)
(** Package [tbm]: creating a table, loading it again, inserting into it and
    reading from it. *)
From S2P Require Import Prelude.
From S2P Require Import Codec.
From S2P Require Import Tm.
From S2P Require Import DmI.
From S2P Require Import Node.
From S2P Require Import Tree.
From S2P Require Import TreeRep.
From S2P Require Import LockTable.
From S2P Require Import Sm.
From S2P Require Import Parser.
From S2P Require Import Field.
From S2P Require Import Table.
From S2P Require Import TableData.
From S2P Require Import TableRep.
From Stdlib Require Import Sorting.Sorted.
Local Open Scope Z_scope.

(** * Creating a table *)

Section Creating.
Context {T : Type} `{!TransactionManager T} {D : Type} `{!DataManager D, !DataManagerOk D}.
Notation SM := (serializabilityManager T D).
Implicit Types (s : SM).

Lemma forest_create (d : D) items ts P m : dm_rep d items → forest items ts P → has_room d (S (S m)) →
  ∃ d' items' boot us, Tree.Create d = (d', Ret boot) ∧ Tree.Load boot d' = (d', Ret boot) ∧ 0 < boot < INF ∧ dm_rep d' items' ∧
    forest items' ((boot, us, []) :: ts) P ∧ (∀ v, v ∈ P → items' !! v = items !! v) ∧ has_room d' m.
Proof.
  intros Hd Hfo Hroom. destruct (tree_at_create d items m Hd Hroom) as (d' & items' & boot & us & Hc & Hl & Hb & Hd' & Ht & Hag & Hus & Hroom').
  exists d', items', boot, us. split; [exact Hc|]. split; [exact Hl|]. split; [exact Hb|]. split; [exact Hd'|].
  pose proof Hfo as (Ha & Hn & Hs). assert (Hkeep : ∀ v, v ∈ (ts ≫= t_uids) ++ P → items' !! v = items !! v).
  { intros v Hv. destruct (forest_present _ _ _ v Hfo Hv) as [x Hx]. rewrite Hx. by apply Hag. }
  split; [|split; [intros v Hv; apply Hkeep; apply elem_of_app; by right|exact Hroom']]. split_and!.
  - apply Forall_cons. split; [exact Ht|]. rewrite Forall_forall in *. intros t Hin. eapply tree_at_agree; [|by apply Ha]. intros v Hv. apply Hkeep.
    apply elem_of_app. left. apply list_elem_of_bind. by exists t.
  - change (((boot, us, []) :: ts) ≫= t_uids) with (us ++ (ts ≫= t_uids)). rewrite <- app_assoc. apply NoDup_app. split; [by eapply tree_at_nodup|]. split; [|exact Hn].
    intros v Hv Hin. specialize (Hus v Hv). destruct (forest_present _ _ _ v Hfo Hin). congruence.
  - rewrite Forall_forall in *. intros v Hv. rewrite Hkeep; [by apply Hs|]. apply elem_of_app. by right.
Qed.

(** * The records of a table *)

Definition table_uids (t : table) : list UUID := tb_SelfUUID t :: (f_SelfUUID <$> tb_fields t).

Definition is_item (items : gmap UUID (list byte)) (uuid xmin : Z) (raw : list byte) : Prop := items !! uuid = (Some (mk_entry xmin 0 raw) : option (list byte)).

Definition field_recorded (items : gmap UUID (list byte)) (f : field) : Prop :=
  is_item items (f_SelfUUID f) SUPER_XID (field_raw f) ∧ is_u64 (f_SelfUUID f) ∧ is_u64 (f_index f) ∧ text_ok (FName f) ∧ text_ok (FType f).

(** The records of the table, written by [xmin], and of its fields. *)
Record table_recorded (items : gmap UUID (list byte)) (xmin : XID) (t : table) : Prop := {
  rec_self : is_item items (tb_SelfUUID t) xmin (table_raw t);
  rec_uuid : 0 < tb_SelfUUID t < INF;
  rec_name : text_ok (tb_Name t);
  rec_next : is_u64 (tb_Next t);
  rec_rowIndex : 0 < tb_rowIndex t < INF;
  rec_fields : Forall (field_recorded items) (tb_fields t);
  rec_count : (length (tb_fields t) < 256)%nat
}.

Lemma is_item_agree (items items' : gmap UUID (list byte)) uuid xmin raw : items' !! uuid = items !! uuid → is_item items uuid xmin raw → is_item items' uuid xmin raw.
Proof. unfold is_item. congruence. Qed.

Lemma table_recorded_agree items items' xmin t : (∀ v, v ∈ table_uids t → items' !! v = items !! v) → table_recorded items xmin t → table_recorded items' xmin t.
Proof.
  intros Hag [Hs ? ? ? ? Hf ?]. split; try done.
  - eapply is_item_agree; [|exact Hs]. apply Hag. by left.
  - rewrite Forall_forall in *. intros f Hin. destruct (Hf f Hin) as [Hi ?]. split; [|done]. eapply is_item_agree; [|exact Hi].
    apply Hag. right. by apply list_elem_of_fmap_2.
Qed.

(** The super transaction is always in the cache, and sees what [xmin] wrote. *)
Definition super_ok s : Prop := ∃ tx, working s SUPER_XID tx.
Definition super_sees s (xmin : XID) : Prop := ∃ tx, working s SUPER_XID tx ∧ alive (sm_TM s) tx xmin 0 = true.

Lemma super_DM s d : super_ok s → super_ok (set_DM d s).
Proof. intros [tx Hw]. by exists tx. Qed.

Lemma super_own s : super_ok s → super_sees s SUPER_XID.
Proof. intros [tx Hw]. exists tx. split; [done|]. destruct Hw as (_ & _ & Ht & _). unfold alive. by rewrite Ht. Qed.

Lemma super_committed s xid : super_ok s → tm_IsCommitted (sm_TM s) xid = true → (∀ tx, working s SUPER_XID tx → t_Level tx = 0) → super_sees s xid.
Proof.
  intros [tx Hw] Hc Hl. exists tx. split; [done|]. unfold alive, in_view. rewrite Hc, (Hl tx Hw). cbn. by rewrite orb_true_r.
Qed.

Lemma super_read s items uuid xmin raw : super_sees s xmin → dm_rep (sm_DM s) items → is_u64 xmin → is_item items uuid xmin raw →
  sm_Read SUPER_XID uuid s = (s, Ret (Some raw)).
Proof.
  intros (tx & Hw & Ha) Hd Hx Hi. rewrite (sm_Read_run s SUPER_XID tx uuid xmin 0 raw Hw); [by rewrite Ha|split; [by eapply dm_Read_ok|by split]|by left].
Qed.

Lemma super_insert s data items ts P m : super_ok s → dm_rep (sm_DM s) items → forest items ts P → zlen data ≤ 8140 → has_room (sm_DM s) (S m) →
  ∃ d uuid items', sm_Insert SUPER_XID data s = (set_DM d s, Ret uuid) ∧ 0 < uuid < INF ∧ dm_rep d items' ∧ forest items' ts (uuid :: P) ∧
    is_item items' uuid SUPER_XID data ∧ (∀ v, v ∈ P → items' !! v = items !! v) ∧ has_room d m.
Proof.
  intros [tx Hw] Hd Hfo Hl Hroom. destruct (sm_Insert_run s SUPER_XID tx data items m Hw) as (d & uuid & Hrun & Hf & Hu & Hd' & Hroom'); [by split; [by vm_compute|apply dm_writer_super]|done..|].
  exists d, uuid, (<[uuid := mk_entry SUPER_XID 0 data]> items). split; [exact Hrun|]. split; [exact Hu|]. split; [exact Hd'|]. split; [by apply forest_new|].
  split; [apply lookup_insert_eq|]. split; [|exact Hroom']. intros v Hv. apply lookup_insert_ne. intros <-.
  destruct (forest_present _ _ _ uuid Hfo) as [x Hx]; [apply elem_of_app; by right|congruence].
Qed.

Lemma uid_u64 u : 0 < u < INF → is_u64 u.
Proof. unfold INF, is_u64. lia. Qed.
Lemma u64_0 : is_u64 NilUUID.
Proof. by vm_compute. Qed.

(** An acceptable column. *)
Definition column_ok (name tp : string) : Prop := typeCheck tp = Ret tt ∧ zlen (str_bytes name) ≤ 8000.

Lemma typeCheck_short tp : typeCheck tp = Ret tt → zlen (str_bytes tp) = 6.
Proof.
  unfold typeCheck. case_decide as Hn; [done|]. intros _. destruct (decide (tp = "uint32"%string)) as [->|?]; [done|].
  destruct (decide (tp = "uint64"%string)) as [->|?]; [done|]. destruct (decide (tp = "string"%string)) as [->|?]; [done|]. by destruct Hn.
Qed.

Lemma field_raw_short name tp b uuid : column_ok name tp → zlen (field_raw (mkField uuid name tp b)) ≤ 8140.
Proof.
  intros [Hty Hlen]. unfold field_raw, VarStrToRaw, Uint32ToRaw. cbn [FName FType f_index]. rewrite !zlen_app, !zlen_be_bytes, zlen_uid. rewrite (typeCheck_short _ Hty). lia.
Qed.

Definition empty_index (f : field) (tree : tree_t) : Prop := t_boot tree = f_index f ∧ t_ents tree = [].

(** One field: its index, if it has one, and its record. *)
Lemma CreateField_run name tp (ix : bool) s items ts P m : column_ok name tp → super_ok s → dm_rep (sm_DM s) items → forest items ts P → has_room (sm_DM s) (3 + m) →
  ∃ d items' f ts', CreateField SUPER_XID name tp ix s = (set_DM d s, Ret f) ∧ dm_rep d items' ∧ forest items' (ts' ++ ts) (f_SelfUUID f :: P) ∧
    Forall2 empty_index (filter (λ f, IsIndexed f = true) [f]) ts' ∧ FName f = name ∧ FType f = tp ∧ IsIndexed f = ix ∧
    field_recorded items' f ∧ (∀ v, v ∈ P → items' !! v = items !! v) ∧ has_room d m.
Proof.
  intros Hcol Hsu Hd Hfo Hroom. pose proof Hcol as [Hty Hlen]. pose proof (typeCheck_short _ Hty) as Htl. unfold CreateField. rewrite Hty, M_lift_bind.
  assert (Htx : text_ok name ∧ text_ok tp) by (unfold text_ok; lia). destruct ix.
  - destruct (forest_create (sm_DM s) items ts P (S m) Hd Hfo Hroom) as (d1 & items1 & boot & us & Hc & Hl & Hb & Hd1 & Hfo1 & Hag1 & Hroom1).
    destruct (super_insert (set_DM d1 s) (field_raw (mkField 0 name tp boot)) items1 _ P m (super_DM _ _ Hsu) Hd1 Hfo1 (field_raw_short _ _ _ _ Hcol) Hroom1)
      as (d2 & uuid & items2 & Hrun & Hu & Hd2 & Hfo2 & Hi2 & Hag2 & Hroom2).
    exists d2, items2, (mkField uuid name tp boot), [(boot, us, [])]. split.
    { rewrite (M_bind_run _ _ s (set_DM d1 s) boot).
      - unfold field_persistSelf. by rewrite (M_bind_run _ _ _ _ _ Hrun).
      - rewrite (M_bind_run _ _ s (set_DM d1 s) boot); [exact (on_DM_run _ (set_DM d1 s) d1 boot Hl)|by apply on_DM_run]. }
    assert (Hix : IsIndexed (mkField uuid name tp boot) = true) by (apply bool_decide_eq_true; cbn; unfold NilUUID; lia).
    split; [done|]. split; [exact Hfo2|].
    split; [rewrite filter_cons_True by done; by constructor|]. split; [done|]. split; [done|]. split; [done|]. split; [|split; [|done]].
    + split; [exact Hi2|]. exact (conj (uid_u64 _ Hu) (conj (uid_u64 _ Hb) Htx)).
    + intros v Hv. by rewrite Hag2, Hag1.
  - destruct (super_insert s (field_raw (mkField 0 name tp NilUUID)) items ts P (2 + m) Hsu Hd Hfo (field_raw_short _ _ _ _ Hcol) Hroom)
      as (d2 & uuid & items2 & Hrun & Hu & Hd2 & Hfo2 & Hi2 & Hag2 & k & Hk & Hroom2).
    exists d2, items2, (mkField uuid name tp NilUUID), []. split.
    { rewrite M_ret_bind. unfold field_persistSelf. by rewrite (M_bind_run _ _ _ _ _ Hrun). }
    split; [done|]. split; [done|]. split; [rewrite filter_cons_False by done; constructor|]. split; [done|]. split; [done|]. split; [done|].
    split; [|split; [done|exists k; split; [lia|done]]].
    split; [exact Hi2|]. exact (conj (uid_u64 _ Hu) (conj u64_0 Htx)).
Qed.

Lemma createFields_run create names types : Forall2 column_ok names types → ∀ s items ts P m,
  super_ok s → dm_rep (sm_DM s) items → forest items ts P → has_room (sm_DM s) (3 * length names + m) →
  ∃ d items' fs ts', createFields create names types s = (set_DM d s, Ret fs) ∧ dm_rep d items' ∧ forest items' (ts' ++ ts) ((f_SelfUUID <$> fs) ++ P) ∧
    Forall2 empty_index (filter (λ f, IsIndexed f = true) fs) ts' ∧ FName <$> fs = names ∧ FType <$> fs = types ∧
    Forall (λ f, IsIndexed f = bool_decide (FName f ∈ Create_Index create)) fs ∧ Forall (field_recorded items') fs ∧
    (∀ v, v ∈ P → items' !! v = items !! v) ∧ has_room d m.
Proof.
  induction 1 as [|name tp names types Hcol _ IH]; intros s items ts P m Hsu Hd Hfo Hroom.
  - exists (sm_DM s), items, [], []. split; [by destruct s|]. split_and!; try done; constructor.
  - cbn [length] in Hroom. cbn [createFields]. replace (3 * S (length names) + m)%nat with (3 + (3 * length names + m))%nat in Hroom by lia.
    destruct (CreateField_run name tp (bool_decide (name ∈ Create_Index create)) s items ts P _ Hcol Hsu Hd Hfo Hroom)
      as (d1 & items1 & f & ts1 & Hrun1 & Hd1 & Hfo1 & Hts1 & Hfn & Hft & Hfi & Hrec1 & Hag1 & Hroom1).
    destruct (IH (set_DM d1 s) items1 (ts1 ++ ts) (f_SelfUUID f :: P) m (super_DM _ _ Hsu) Hd1 Hfo1 Hroom1)
      as (d2 & items2 & fs & ts2 & Hrun2 & Hd2 & Hfo2 & Hts2 & Hn2 & Ht2 & Hi2 & Hrec2 & Hag2 & Hroom2).
    exists d2, items2, (f :: fs), (ts1 ++ ts2). split; [by rewrite (M_bind_run _ _ _ _ _ Hrun1), (M_bind_run _ _ _ _ _ Hrun2)|]. split; [done|].
    split.
    { destruct Hfo2 as (Ha & Hn & Hs). eapply (forest_perm _ (ts2 ++ ts1 ++ ts)); [by rewrite !app_assoc, (Permutation_app_comm ts2)|].
      cbn [fmap list_fmap app]. split; [done|]. split; [by rewrite <- Permutation_middle in Hn|]. by rewrite <- Permutation_middle in Hs. }
    split; [change (f :: fs) with ([f] ++ fs); rewrite filter_app; by apply Forall2_app|].
    cbn [fmap list_fmap]. split; [congruence|]. split; [congruence|]. split; [apply Forall_cons; split; [by rewrite Hfi, Hfn|done]|].
    split; [apply Forall_cons; split; [|done]|].
    + destruct Hrec1 as [Hi ?]. split; [|done]. eapply is_item_agree; [|exact Hi]. apply Hag2. by left.
    + split; [|done]. intros v Hv. rewrite Hag2 by (by right). by apply Hag1.
Qed.

Definition create_ok (create : Parser.Create) : Prop :=
  Forall2 column_ok (Create_FieldName create) (Create_FieldType create) ∧ NoDup (Create_FieldName create) ∧
  zlen (str_bytes (Create_TableName create)) ≤ 4000 ∧ (length (Create_FieldName create) < 256)%nat.

Lemma table_raw_short t : zlen (str_bytes (tb_Name t)) ≤ 4000 → (length (tb_fields t) < 256)%nat → zlen (table_raw t) ≤ 8140.
Proof.
  intros Hn Hl. unfold table_raw, VarStrToRaw, Uint32ToRaw. rewrite !zlen_app, !zlen_be_bytes, !zlen_uid.
  assert (Hz : ∀ fs, zlen (mjoin ((λ f, UUIDToRaw (f_SelfUUID f)) <$> fs)) = 8 * zlen fs).
  { induction fs as [|f fs IH]; [done|]. change (mjoin _) with (UUIDToRaw (f_SelfUUID f) ++ mjoin ((λ f, UUIDToRaw (f_SelfUUID f)) <$> fs)).
    rewrite zlen_app, zlen_uid, zlen_cons, IH. lia. }
  rewrite Hz. assert (zlen (tb_fields t) ≤ 255) by (unfold zlen; lia). rewrite !zlen_cons. change (zlen []) with 0. lia.
Qed.

Definition same_schema (create : Parser.Create) (t : table) : Prop :=
  tb_Name t = Create_TableName create ∧ FName <$> tb_fields t = Create_FieldName create ∧ FType <$> tb_fields t = Create_FieldType create ∧
  Forall (λ f, IsIndexed f = bool_decide (FName f ∈ Create_Index create)) (tb_fields t).

(** A new table: its indexes, all empty, its record and those of its fields,
    apart from everything stored before. *)
Lemma CreateTable_run s create next items ots P m : super_ok s → dm_rep (sm_DM s) items → forest items ots P → create_ok create → is_u64 next →
  has_room (sm_DM s) (3 * length (Create_FieldName create) + 3 + m) →
  ∃ d t items' ts tr, CreateTable next create s = (set_DM d s, Ret t) ∧ dm_rep d items' ∧ table_db t items' [] ts tr ∧
    forest items' ((tr :: ts) ++ ots) (table_uids t ++ P) ∧ table_recorded items' SUPER_XID t ∧ (∀ v, v ∈ P → items' !! v = items !! v) ∧
    has_room d m ∧ tb_Next t = next ∧ same_schema create t.
Proof.
  intros Hsu Hd Hfo0 (Hcol & Hnd & Htn & Hcount) Hnext Hroom. replace (3 * length (Create_FieldName create) + 3 + m)%nat with (3 * length (Create_FieldName create) + (3 + m))%nat in Hroom by lia.
  destruct (createFields_run create _ _ Hcol s items ots P (3 + m) Hsu Hd Hfo0 Hroom) as (d1 & items1 & fs & ts & Hrun1 & Hd1 & Hfo1 & Hts & Hfn & Hft & Hfi & Hrec1 & Hag1 & Hroom1).
  destruct (forest_create d1 items1 _ _ (S m) Hd1 Hfo1 Hroom1) as (d2 & items2 & boot & us & Hc & Hl & Hb & Hd2 & Hfo2 & Hag2 & Hroom2).
  set (t0 := mkTable 0 (Create_TableName create) Byte.x00 next fs boot).
  assert (Hlen : length fs = length (Create_FieldName create)) by (by rewrite <- Hfn, length_fmap).
  destruct (super_insert (set_DM d2 s) (table_raw t0) items2 _ _ m (super_DM _ _ Hsu) Hd2 Hfo2) as (d3 & uuid & items3 & Hrun3 & Hu3 & Hd3 & Hfo3 & Hi3 & Hag3 & Hroom3);
    [apply table_raw_short; [done|cbn; lia]|done|].
  assert (Hfs : ∀ v, v ∈ (f_SelfUUID <$> fs) ++ P → items3 !! v = items1 !! v) by (intros v Hv; by rewrite Hag3, Hag2).
  exists d3, (set_Self uuid t0), items3, ts, (boot, us, []). split; [|split; [done|split; [|split; [exact Hfo3|split; [|split; [|split; [done|split; [done|by split_and!]]]]]]]].
  - unfold CreateTable. rewrite (M_bind_run _ _ _ _ _ Hrun1). rewrite (M_bind_run _ _ (set_DM d1 s) (set_DM d2 s) boot); [|exact (on_DM_run _ (set_DM d1 s) d2 boot Hc)].
    rewrite (M_bind_run _ _ (set_DM d2 s) (set_DM d2 s) boot); [|exact (on_DM_run _ (set_DM d2 s) d2 boot Hl)].
    unfold table_persistSelf. by rewrite (M_bind_run _ _ _ _ _ Hrun3).
  - split; cbn [set_Self tb_fields tb_rowIndex t0 fmap list_fmap].
    + by destruct Hfo3 as [[? _]%(Forall_app _ (_ :: ts)) _].
    + unfold index_fields. cbn [set_Self tb_fields t0]. eapply Forall2_impl; [exact Hts|]. intros f tree [Hb' He]. split; [done|]. by rewrite He.
    + done.
    + done.
    + done.
    + split; cbn [set_Self tb_fields t0]; [by rewrite Hfn|]. apply Forall_forall. intros f Hf. assert (Hin : FType f ∈ Create_FieldType create) by (rewrite <- Hft; by apply list_elem_of_fmap_2).
      apply list_elem_of_lookup in Hin as [i Hi]. destruct (Forall2_lookup_r _ _ _ _ _ Hcol Hi) as (name & _ & [Hty _]). exact Hty.
  - split; cbn [set_Self tb_fields tb_SelfUUID tb_Name tb_Next tb_rowIndex t0]; try done.
    + unfold text_ok. lia.
    + rewrite Forall_forall in *. intros f Hf. destruct (Hrec1 f Hf) as [Hi ?]. split; [|done]. eapply is_item_agree; [|exact Hi]. apply Hfs.
      apply elem_of_app. left. by apply list_elem_of_fmap_2.
    + lia.
  - intros v Hv. rewrite Hfs by (apply elem_of_app; by right). by apply Hag1.
Qed.

(** * Loading a table *)

(** The boot items of its indexes are all that loading a table needs of them. *)
Definition rooted (items : gmap UUID (list byte)) (t : table) : Prop :=
  is_Some (items !! tb_rowIndex t) ∧ Forall (λ f, IsIndexed f = true → is_Some (items !! f_index f)) (tb_fields t).

Lemma tree_at_boot items boot us A : tree_at items boot us A → is_Some (items !! boot).
Proof. intros Ht. eapply tree_at_present; [exact Ht|]. destruct Ht as (? & ? & _ & _ & ->). by left. Qed.

Lemma index_rooted items fs R ts : Forall2 (λ f tree, index_of f R tree) (filter (λ f, IsIndexed f = true) fs) ts →
  Forall (λ t, tree_at items (t_boot t) (t_uids t) (t_ents t)) ts → Forall (λ f, IsIndexed f = true → is_Some (items !! f_index f)) fs.
Proof.
  revert ts. induction fs as [|f fs IH]; intros ts Hix Hts; [constructor|]. destruct (IsIndexed f) eqn:Hf.
  - rewrite filter_cons_True in Hix by done. apply Forall2_cons_inv_l in Hix as (tree & ts' & [Hb _] & Hix & ->). apply Forall_cons in Hts as [Ht Hts].
    constructor; [|by eapply IH]. intros _. rewrite <- Hb. by eapply tree_at_boot.
  - rewrite filter_cons_False in Hix by (by rewrite Hf). constructor; [congruence|by eapply IH].
Qed.

Lemma table_db_rooted t items R ts tr : table_db t items R ts tr → rooted items t.
Proof.
  intros [Htr Hix Hboot _ _ _]. apply Forall_cons in Htr as [Htr Hts]. split; [rewrite <- Hboot; by eapply tree_at_boot|by eapply index_rooted].
Qed.

Lemma Load_boot (d : D) items boot : dm_rep d items → is_Some (items !! boot) → Tree.Load boot d = (d, Ret boot).
Proof. intros Hd [x Hx]. unfold Tree.Load. rewrite M_get_bind, (dm_Read_ok _ _ _ _ Hd Hx), M_lift_bind. done. Qed.

Lemma or_panic_run {S A} (m : M S A) (s s' : S) a : m s = (s', Ret a) → or_panic m s = (s', Ret a).
Proof. intros Hm. unfold or_panic, catch. by rewrite Hm. Qed.

Lemma LoadField_run s items f : super_ok s → dm_rep (sm_DM s) items → field_recorded items f → (IsIndexed f = true → is_Some (items !! f_index f)) →
  LoadField (f_SelfUUID f) s = (s, Ret f).
Proof.
  intros Hsu Hd (Hi & Hu & Hx & Hn & Ht) Hroot. unfold LoadField.
  rewrite (M_bind_run _ _ s s (Some (field_raw f))); [|apply or_panic_run; eapply super_read; [by apply super_own|done|by vm_compute|exact Hi]].
  unfold field_parseSelf. rewrite (field_parse_raw (f_SelfUUID f) f) by done. rewrite M_lift_bind.
  assert (Hf : mkField (f_SelfUUID f) (FName f) (FType f) (f_index f) = f) by by destruct f. rewrite Hf.
  case_decide as Hne; [|done]. unfold IsIndexed in Hroot. rewrite bool_decide_true in Hroot by done.
  rewrite (M_bind_run _ _ s s (f_index f)); [done|]. apply or_panic_run, on_DM_same. by eapply Load_boot; [|apply Hroot].
Qed.

Lemma loadFields_run s items fs : super_ok s → dm_rep (sm_DM s) items → Forall (field_recorded items) fs →
  Forall (λ f, IsIndexed f = true → is_Some (items !! f_index f)) fs → loadFields (f_SelfUUID <$> fs) s = (s, Ret fs).
Proof.
  intros Hsu Hd. induction 1 as [|f fs Hf Hrec IH]; intros Hroot; [done|]. apply Forall_cons in Hroot as [Hroot Hroots]. cbn [fmap list_fmap loadFields].
  rewrite (M_bind_run _ _ s s f) by (by eapply LoadField_run). by rewrite (M_bind_run _ _ s s fs) by (by apply IH).
Qed.

(** A table comes back from its records as it is in memory. *)
Lemma LoadTable_run s items t xmin : super_sees s xmin → is_u64 xmin → dm_rep (sm_DM s) items → rooted items t → table_recorded items xmin t →
  LoadTable (tb_SelfUUID t) s = (s, Ret t).
Proof.
  intros Hsee Hx Hd [Hroot Hroots] [Hself Hu Hn Hnext Hrow Hfs Hcount].
  assert (Hsu : super_ok s) by (destruct Hsee as (tx & ? & _); by exists tx). unfold LoadTable.
  rewrite (M_bind_run _ _ s s (Some (table_raw t))); [|apply or_panic_run; by eapply super_read].
  unfold INF, is_u64 in *. rewrite (M_bind_run _ _ s s t).
  - unfold NilUUID. rewrite decide_False by lia. rewrite M_ret_bind. rewrite (M_bind_run _ _ s s (tb_rowIndex t)); [done|].
    apply or_panic_run, on_DM_same. by eapply Load_boot.
  - unfold table_parseSelf. rewrite (table_parse_raw (tb_SelfUUID t) t); [|done|unfold is_u64; lia|unfold is_u64; lia| |done].
    + rewrite M_lift_bind. cbn [tb_SelfUUID tb_Name tb_status tb_Next tb_rowIndex].
      rewrite (M_bind_run _ _ s s (tb_fields t)) by (by eapply loadFields_run). by destruct t.
    + apply Forall_fmap. eapply Forall_impl; [exact Hfs|]. intros f (_ & ? & _). done.
Qed.

(** A record that the super transaction does not see ends the program. *)
Lemma LoadTable_unseen s tx items t xmin : working s SUPER_XID tx → alive (sm_TM s) tx xmin 0 = false → is_u64 xmin → dm_rep (sm_DM s) items →
  table_recorded items xmin t → LoadTable (tb_SelfUUID t) s = (s, Panic).
Proof.
  intros Hw Ha Hx Hd [Hself _ _ _ _ _ _]. unfold LoadTable.
  assert (Hread : sm_Read SUPER_XID (tb_SelfUUID t) s = (s, Ret None)).
  { rewrite (sm_Read_run s SUPER_XID tx _ xmin 0 (table_raw t) Hw); [by rewrite Ha|split; [by eapply dm_Read_ok|by split]|by left]. }
  by rewrite (M_bind_run _ _ _ _ _ (or_panic_run _ _ _ _ Hread)).
Qed.
End Creating.
