(* ===== verification/Booter.v ===== *)
(** Package [utils/booter]: the file that holds the UUID of the first table,
    replaced as a whole by writing a temporary file and renaming it.

    The file system is that of the operating system: names for files, files
    that an open handle keeps, and for every file whether its content has
    reached the disk.  [fs_stop] counts the system calls up to the one that
    fails; every failure panics, which is how the process ends. *)
From S2P Require Import Prelude.
Local Open Scope Z_scope.

(** * The file system *)

(** A file and whether its content is safe on the disk. *)
Record inode := mkInode { i_data : list byte; i_synced : bool }.

Record fs := mkFs {
  fs_names : gmap string nat;
  fs_inodes : gmap nat inode;
  fs_stop : option nat
}.

Definition set_names n s := mkFs n (fs_inodes s) (fs_stop s).
Definition set_inodes i s := mkFs (fs_names s) i (fs_stop s).

(** One system call; [panic(err)] when it fails. *)
Definition syscall {A} (m : M fs A) : M fs A := λ s,
  match fs_stop s with
  | None => m s
  | Some O => (s, Panic)
  | Some (S k) => m (mkFs (fs_names s) (fs_inodes s) (Some k))
  end.

(** [os.OpenFile(name, os.O_RDWR, 0600)] *)
Definition os_OpenFile (name : string) : M fs nat := λ s,
  match fs_names s !! name with Some h => (s, Ret h) | None => (s, Panic) end.

(** With [os.O_CREATE|os.O_TRUNC]: the file is empty. *)
Definition os_OpenFile_trunc (name : string) : M fs nat := λ s,
  let h := match fs_names s !! name with Some h => h | None => fresh (dom (fs_inodes s)) end in
  (mkFs (<[name := h]> (fs_names s)) (<[h := mkInode [] false]> (fs_inodes s)) (fs_stop s), Ret h).

(** [f.Write(data)] on a handle just opened on an empty file. *)
Definition f_Write (h : nat) (data : list byte) : M fs unit := modify (λ s,
  set_inodes (alter (λ i, mkInode (data ++ drop (length data) (i_data i)) false) h (fs_inodes s)) s).

Definition f_Sync (h : nat) : M fs unit := modify (λ s,
  set_inodes (alter (λ i, mkInode (i_data i) true) h (fs_inodes s)) s).

Definition f_Close (h : nat) : M fs unit := mret tt.

(** [os.Rename]: atomic. *)
Definition os_Rename (old new : string) : M fs unit := λ s,
  match fs_names s !! old with
  | Some h => (set_names (<[new := h]> (delete old (fs_names s))) s, Ret tt)
  | None => (s, Panic)
  end.

Definition os_Remove (name : string) : M fs unit := modify (λ s, set_names (delete name (fs_names s)) s).

(** [Seek(0, 0)], then [io.ReadAll]. *)
Definition f_ReadAll (h : nat) : M fs (list byte) := λ s,
  match fs_inodes s !! h with Some i => (s, Ret (i_data i)) | None => (s, Panic) end.

(** * booter.go *)

Definition _SUFFIX : string := ".bt".
Definition _SUFFIX_TMP : string := ".bt_tmp".

(** A booter and the file system it works on. *)
Record booter := mkBooter { path : string; bt_file : nat; bt_fs : fs }.

Definition on_fs {A} : M fs A → M booter A := zoom bt_fs (λ s b, mkBooter (path b) (bt_file b) s).
Definition set_file (h : nat) (b : booter) : booter := mkBooter (path b) h (bt_fs b).

(** The result of [os.Remove] is not looked at. *)
Definition removeBadTMP (path : string) : M fs unit := os_Remove (path +:+ _SUFFIX_TMP).

Definition Create (path : string) : M fs nat := _ ← removeBadTMP path; syscall (os_OpenFile_trunc (path +:+ _SUFFIX)).
Definition Open (path : string) : M fs nat := _ ← removeBadTMP path; syscall (os_OpenFile (path +:+ _SUFFIX)).

(** The booter [Create] and [Open] return. *)
Definition with_booter (path : string) (m : M fs nat) (s : fs) : outcome booter :=
  match m s with (s', Ret h) => Ret (mkBooter path h s') | (_, Err e) => Err e | (_, Panic) => Panic | (_, OutOfFuel) => OutOfFuel end.

Definition Load : M booter (list byte) := b ← get; on_fs (syscall (f_ReadAll (bt_file b))).

Definition Update (data : list byte) : M booter unit :=
  b ← get;
  f ← on_fs (syscall (os_OpenFile_trunc (path b +:+ _SUFFIX_TMP)));
  _ ← on_fs (syscall (f_Write f data));
  _ ← on_fs (syscall (f_Sync f));
  _ ← on_fs (syscall (f_Close f));
  _ ← on_fs (syscall (os_Rename (path b +:+ _SUFFIX_TMP) (path b +:+ _SUFFIX)));
  h ← on_fs (syscall (os_OpenFile (path b +:+ _SUFFIX)));
  modify (set_file h).

(** * The interface *)

Class Booter (B : Type) := {
  bt_Load : M B (list byte);
  bt_Update : list byte → M B unit
}.
#[export] Instance booter_impl : Booter booter := {| bt_Load := Load; bt_Update := Update |}.

(** [bt_rep b data]: the booter holds [data]. *)
Class BooterOk (B : Type) `{!Booter B} := {
  bt_rep : B → list byte → Prop;
  bt_Load_ok b data : bt_rep b data → bt_Load b = (b, Ret data);
  bt_Update_ok b old data : bt_rep b old → ∃ b', bt_Update data b = (b', Ret tt) ∧ bt_rep b' data
}.

(** * Properties *)

(** What a crash of the machine leaves: the names, and the content of every
    file that was synced; anything may have become of the others. *)
Definition after_crash (s s' : fs) : Prop :=
  fs_names s' = fs_names s ∧ fs_stop s' = None ∧
  ∀ h i, fs_inodes s !! h = Some i → ∃ i', fs_inodes s' !! h = Some i' ∧ (i_synced i = true → i' = i).

(** The file [name] holds [data], safely. *)
Definition holds (s : fs) (name : string) (data : list byte) : Prop :=
  ∃ h, fs_names s !! name = Some h ∧ fs_inodes s !! h = Some (mkInode data true).

(** No two names for one file. *)
Definition names_apart (s : fs) : Prop := ∀ n m h, fs_names s !! n = Some h → fs_names s !! m = Some h → n = m.

(** Every name leads to a file. *)
Definition fs_ok (s : fs) : Prop := names_apart s ∧ ∀ n h, fs_names s !! n = Some h → is_Some (fs_inodes s !! h).

Definition booter_rep (b : booter) (data : list byte) : Prop :=
  fs_ok (bt_fs b) ∧ fs_names (bt_fs b) !! (path b +:+ _SUFFIX) = Some (bt_file b) ∧
  fs_inodes (bt_fs b) !! bt_file b = Some (mkInode data true).

Lemma suffixes_differ p : p +:+ _SUFFIX_TMP ≠ p +:+ _SUFFIX.
Proof. intros H. by apply (inj (String.app p)) in H. Qed.

Lemma OpenFile_trunc_ok s name : fs_ok s →
  ∃ s' h, os_OpenFile_trunc name s = (s', Ret h) ∧ fs_ok s' ∧ fs_stop s' = fs_stop s ∧ fs_names s' = <[name := h]> (fs_names s) ∧
    fs_inodes s' = <[h := mkInode [] false]> (fs_inodes s) ∧ (∀ n, n ≠ name → fs_names s !! n ≠ Some h).
Proof.
  intros [Hn Hi]. unfold os_OpenFile_trunc. set (h := match _ with Some h => h | None => _ end).
  assert (Hh : ∀ n, n ≠ name → fs_names s !! n ≠ Some h).
  { intros n Hne Hs. unfold h in Hs. destruct (fs_names s !! name) as [h0|] eqn:He; [by apply Hne, (Hn _ _ h0)|].
    destruct (Hi _ _ Hs) as [x Hx]. by apply elem_of_dom_2, is_fresh in Hx. }
  eexists _, h. split; [done|]. split; [|done]. split.
  - intros n m k. cbn [fs_names]. rewrite !lookup_insert_Some. intros [[<- <-]|[? H1]] [[<- H2]|[? H2]]; try done.
    + by destruct (Hh m).
    + subst k. by destruct (Hh n).
    + by eapply Hn.
  - intros n k. cbn [fs_names fs_inodes]. rewrite lookup_insert_Some. intros [[<- <-]|[_ Hs]]; [rewrite lookup_insert_eq; by eexists|].
    destruct (decide (h = k)) as [->|]; [rewrite lookup_insert_eq; by eexists|]. rewrite lookup_insert_ne by done. by eapply Hi.
Qed.

(** A system call runs, or it is the one that fails. *)
Lemma syscall_cases {A} (m : M fs A) s s' a : (∀ k, m (mkFs (fs_names s) (fs_inodes s) k) = (mkFs (fs_names s') (fs_inodes s') k, Ret a)) →
  syscall m s = (s, Panic) ∧ fs_stop s = Some 0%nat ∨
  ∃ k, syscall m s = (mkFs (fs_names s') (fs_inodes s') k, Ret a) ∧ (fs_stop s = None → k = None).
Proof.
  intros Hm. unfold syscall. destruct s as [n i [[|k]|]]; cbn in *; [by left|right..]; rewrite Hm; eexists; split; done.
Qed.

(** The disk during [Update]: the name leads to the old bytes or to the new
    ones, and those are safe. *)
Definition safe_for (p : string) (s : fs) (datas : list (list byte)) : Prop :=
  fs_ok s ∧ ∃ data, data ∈ datas ∧ holds s (p +:+ _SUFFIX) data.

(** One more system call of [Update], from a state in which the old bytes are
    safe. *)
Lemma update_step {A B} (b : booter) (m : M fs A) (k : A → M booter B) s' a (Q : booter * outcome B → Prop) :
  (∀ st, m (mkFs (fs_names (bt_fs b)) (fs_inodes (bt_fs b)) st) = (mkFs (fs_names s') (fs_inodes s') st, Ret a)) →
  (fs_stop (bt_fs b) ≠ None → Q (b, Panic)) →
  (∀ st, (fs_stop (bt_fs b) = None → st = None) → Q (k a (mkBooter (path b) (bt_file b) (mkFs (fs_names s') (fs_inodes s') st)))) →
  Q ((x ← on_fs (syscall m); k x) b).
Proof.
  intros Hm Hp Hk. unfold mbind, M_bind, on_fs, zoom. destruct (syscall_cases m (bt_fs b) s' a Hm) as [[-> Hst]|(st & -> & Hst)].
  - replace (mkBooter (path b) (bt_file b) (bt_fs b)) with b by by destruct b. apply Hp. congruence.
  - by apply Hk.
Qed.

Definition update_result (b : booter) (old data : list byte) (r : booter * outcome unit) : Prop :=
  path r.1 = path b ∧ safe_for (path b) (bt_fs r.1) [old; data] ∧
  (r.2 = Panic ∧ fs_stop (bt_fs b) ≠ None ∨ r.2 = Ret tt ∧ booter_rep r.1 data ∧ (fs_stop (bt_fs b) = None → fs_stop (bt_fs r.1) = None)).

Section Update.
Context (b : booter) (data : list byte) (Hok : fs_ok (bt_fs b)) (Hname : fs_names (bt_fs b) !! (path b +:+ _SUFFIX) = Some (bt_file b)).
Let tmp := path b +:+ _SUFFIX_TMP.
Let bt := path b +:+ _SUFFIX.
Context (h : nat) (Hh : ∀ n, n ≠ tmp → fs_names (bt_fs b) !! n ≠ Some h).

(** While the temporary file [h] is written, and after the rename. *)
Definition writing (i : inode) (st : option nat) : booter :=
  mkBooter (path b) (bt_file b) (mkFs (<[tmp := h]> (fs_names (bt_fs b))) (<[h := i]> (fs_inodes (bt_fs b))) st).
Definition renamed (f : nat) (st : option nat) : booter :=
  mkBooter (path b) f (mkFs (<[bt := h]> (delete tmp (<[tmp := h]> (fs_names (bt_fs b))))) (<[h := mkInode data true]> (fs_inodes (bt_fs b))) st).

Lemma inodes_kept i n k : is_Some (fs_inodes (bt_fs b) !! k) → is_Some ((<[h := i]> (fs_inodes (bt_fs b)) : gmap nat inode) !! n) ∨ n ≠ k.
Proof.
  intros [x Hx]. destruct (decide (n = k)) as [->|]; [left|by right]. destruct (decide (h = k)) as [->|]; [rewrite lookup_insert_eq; by eexists|].
  rewrite lookup_insert_ne by done. by eexists.
Qed.

Lemma writing_safe old i st : fs_inodes (bt_fs b) !! bt_file b = Some (mkInode old true) → safe_for (path b) (bt_fs (writing i st)) [old; data].
Proof.
  intros Hfile. destruct Hok as [Hap Hin]. assert (Hne : tmp ≠ bt) by apply suffixes_differ. assert (Hhb : h ≠ bt_file b) by (intros ->; by apply (Hh bt)). split.
  - split.
    + intros n m k. cbn. rewrite !lookup_insert_Some. intros [[<- Ha]|[? Ha]] [[<- Hb]|[? Hb]]; try done.
      * subst k. by destruct (Hh m).
      * subst k. by destruct (Hh n).
      * by eapply Hap.
    + intros n k. cbn. rewrite lookup_insert_Some. intros [[_ <-]|[_ Ha]]; [rewrite lookup_insert_eq; by eexists|].
      by destruct (inodes_kept i k k (Hin _ _ Ha)).
  - exists old. split; [by left|]. exists (bt_file b). cbn. by rewrite !lookup_insert_ne.
Qed.

Lemma renamed_rep st : booter_rep (renamed h st) data.
Proof.
  destruct Hok as [Hap Hin]. split; [|split; [cbn; apply lookup_insert_eq|cbn; apply lookup_insert_eq]]. split.
  - intros n m k. cbn. rewrite !lookup_insert_Some, !lookup_delete_Some, !lookup_insert_Some.
    intros [[<- Ha]|(? & ? & [[? ?]|[? Ha]])] [[<- Hb]|(? & ? & [[? ?]|[? Hb]])]; try done.
    + subst k. by destruct (Hh m).
    + subst k. by destruct (Hh n).
    + by eapply Hap.
  - intros n k. cbn. rewrite lookup_insert_Some, lookup_delete_Some, lookup_insert_Some.
    intros [[_ <-]|(_ & ? & [[? ?]|[_ Ha]])]; [rewrite lookup_insert_eq; by eexists|done|]. by destruct (inodes_kept (mkInode data true) k k (Hin _ _ Ha)).
Qed.

Lemma renamed_safe old f st : safe_for (path b) (bt_fs (renamed f st)) [old; data].
Proof. destruct (renamed_rep st) as (Hok' & Hb & Hf). split; [exact Hok'|]. exists data. split; [right; by left|]. by exists h. Qed.

(** The calls after the temporary file was opened: one of them fails, or all
    are done. *)
Lemma Update_calls (Q : booter * outcome unit → Prop) st :
  (∀ i st', (st = None → st' = None) → st' ≠ None → Q (writing i st', Panic)) → (∀ st', (st = None → st' = None) → st' ≠ None → Q (renamed (bt_file b) st', Panic)) →
  (∀ st', (st = None → st' = None) → Q (renamed h st', Ret tt)) →
  Q ((_ ← on_fs (syscall (f_Write h data)); _ ← on_fs (syscall (f_Sync h)); _ ← on_fs (syscall (f_Close h)); _ ← on_fs (syscall (os_Rename tmp bt));
    f ← on_fs (syscall (os_OpenFile bt)); modify (set_file f)) (writing (mkInode [] false) st)).
Proof.
  intros Hw Hr Hdone. assert (Halter : ∀ (f : inode → inode) i, alter f h (<[h := i]> (fs_inodes (bt_fs b))) = <[h := f i]> (fs_inodes (bt_fs b))).
  { intros f i. rewrite (alter_insert_Some _ _ _ i) by apply lookup_insert_eq. apply insert_insert_eq. }
  apply (update_step _ (f_Write h data) _ (bt_fs (writing (mkInode data false) st)) tt); [|intros; by apply Hw|].
  { intros st0. unfold f_Write, modify, set_inodes, writing. cbn [fs_names fs_inodes bt_fs fs_stop]. rewrite Halter. cbn [i_data]. by rewrite drop_nil, app_nil_r. }
  intros st2 H2. apply (update_step (writing (mkInode data false) st2) (f_Sync h) _ (bt_fs (writing (mkInode data true) st2)) tt); [|intros; by apply Hw|].
  { intros st0. unfold f_Sync, modify, set_inodes, writing. cbn [fs_names fs_inodes bt_fs fs_stop]. by rewrite Halter. }
  intros st3 H3. apply (update_step (writing (mkInode data true) st3) (f_Close h) _ (bt_fs (writing (mkInode data true) st3)) tt); [done|intros; apply Hw; cbn in *; naive_solver|].
  intros st4 H4. apply (update_step (writing (mkInode data true) st4) (os_Rename tmp bt) _ (bt_fs (renamed (bt_file b) st4)) tt); [|intros; apply Hw; cbn in *; naive_solver|].
  { intros st0. unfold os_Rename. cbn. by rewrite lookup_insert_eq. }
  intros st5 H5. apply (update_step (renamed (bt_file b) st5) (os_OpenFile bt) _ (bt_fs (renamed h st5)) h).
  { intros st0. unfold os_OpenFile. cbn. by rewrite lookup_insert_eq. }
  { intros Hs. apply Hr; cbn in *; naive_solver. }
  intros st6 H6. apply Hdone. cbn in *. naive_solver.
Qed.

Lemma Update_rest old st : fs_inodes (bt_fs b) !! bt_file b = Some (mkInode old true) → (fs_stop (bt_fs b) = None → st = None) → update_result b old data
  ((_ ← on_fs (syscall (f_Write h data)); _ ← on_fs (syscall (f_Sync h)); _ ← on_fs (syscall (f_Close h)); _ ← on_fs (syscall (os_Rename tmp bt));
    f ← on_fs (syscall (os_OpenFile bt)); modify (set_file f)) (writing (mkInode [] false) st)).
Proof.
  intros Hfile Hst. apply Update_calls.
  - intros i st' Hn Hs. split; [done|]. split; [by apply writing_safe|]. left. split; [done|]. naive_solver.
  - intros st' Hn Hs. split; [done|]. split; [apply renamed_safe|]. left. split; [done|]. naive_solver.
  - intros st' Hn. split; [done|]. split; [apply (renamed_safe old h)|]. right. split; [done|]. split; [apply renamed_rep|]. cbn. naive_solver.
Qed.
End Update.

Lemma Update_run (b : booter) old data : booter_rep b old → update_result b old data (Update data b).
Proof.
  intros Hrep. pose proof Hrep as (Hok & Hname & Hfile). unfold Update. rewrite M_get_bind.
  destruct (OpenFile_trunc_ok (bt_fs b) (path b +:+ _SUFFIX_TMP) Hok) as (s1 & h & Hrun1 & Hok1 & _ & Hn1 & Hi1 & Hh).
  apply (update_step b _ _ s1 h).
  - intros st. unfold os_OpenFile_trunc in *. cbn [fs_names fs_inodes] in *. rewrite Hn1, Hi1. injection Hrun1 as <- Hh1. cbn [fs_names fs_inodes fs_stop] in *. by rewrite Hh1.
  - intros Hst. split; [done|]. split; [|by left]. split; [done|]. exists old. split; [by left|]. by exists (bt_file b).
  - intros st Hst. rewrite Hn1, Hi1. by apply Update_rest.
Qed.

(** On a file that was just created: its old content is not safe, and need not
    be. *)
Lemma Update_created (b : booter) data : fs_ok (bt_fs b) → fs_names (bt_fs b) !! (path b +:+ _SUFFIX) = Some (bt_file b) → fs_stop (bt_fs b) = None →
  ∃ b', Update data b = (b', Ret tt) ∧ path b' = path b ∧ booter_rep b' data ∧ fs_stop (bt_fs b') = None.
Proof.
  intros Hok Hname Hst. destruct (OpenFile_trunc_ok (bt_fs b) (path b +:+ _SUFFIX_TMP) Hok) as (s1 & h & Hrun1 & _ & Hst1 & Hn1 & Hi1 & Hh).
  assert (Hq : ∃ st, Update data b = (renamed b data h h st, Ret tt) ∧ st = None).
  { unfold Update. rewrite M_get_bind. apply (update_step b _ _ s1 h (λ r : booter * outcome unit, ∃ st, r = (renamed b data h h st, Ret tt) ∧ st = None)); [|done|].
    - intros st. unfold os_OpenFile_trunc in *. cbn [fs_names fs_inodes] in *. rewrite Hn1, Hi1. injection Hrun1 as <- Hh1. cbn [fs_names fs_inodes fs_stop] in *. by rewrite Hh1.
    - intros st Hs. rewrite Hn1, Hi1. apply (Update_calls b data h (λ r : booter * outcome unit, ∃ st, r = (renamed b data h h st, Ret tt) ∧ st = None)); [naive_solver..|].
      intros st' Hs'. exists st'. naive_solver. }
  destruct Hq as (st & Hrun & ->). exists (renamed b data h h None). split; [done|]. split; [done|]. split; [by apply renamed_rep|done].
Qed.

Lemma booter_Create_run (s : fs) p : fs_ok s → fs_stop s = None → ∃ b, with_booter p (Create p) s = Ret b ∧ path b = p ∧ fs_ok (bt_fs b) ∧
  fs_names (bt_fs b) !! (path b +:+ _SUFFIX) = Some (bt_file b) ∧ fs_stop (bt_fs b) = None.
Proof.
  intros [Hap Hin] Hst. set (s0 := set_names (delete (p +:+ _SUFFIX_TMP) (fs_names s)) s).
  assert (Hok0 : fs_ok s0).
  { split; [intros n m h; cbn; rewrite !lookup_delete_Some; intros [_ ?] [_ ?]; by eapply Hap|]. intros n h. cbn. rewrite lookup_delete_Some. intros [_ ?]. by eapply Hin. }
  destruct (OpenFile_trunc_ok s0 (p +:+ _SUFFIX) Hok0) as (s1 & h & Hrun & Hok1 & Hst1 & Hn1 & _).
  exists (mkBooter p h s1). split; [|split; [done|split; [done|split; [cbn; by rewrite Hn1, lookup_insert_eq|cbn; by rewrite Hst1]]]].
  unfold with_booter, Create, removeBadTMP. rewrite (M_bind_run _ _ _ s0 tt) by done.
  unfold syscall. replace (fs_stop s0) with (@None nat) by done. by rewrite Hrun.
Qed.

(** A later process finds what was safe. *)
Lemma booter_Open_run (b : booter) data (s' : fs) : booter_rep b data → after_crash (bt_fs b) s' →
  ∃ b', with_booter (path b) (Open (path b)) s' = Ret b' ∧ path b' = path b ∧ booter_rep b' data ∧ fs_stop (bt_fs b') = None.
Proof.
  intros ([Hap Hin] & Hn & Hi) (Hnames & Hstop & Hino). destruct (Hino _ _ Hi) as (i' & Hi' & Heq). rewrite (Heq eq_refl) in Hi'.
  assert (Hne := suffixes_differ (path b)). destruct s' as [names inodes stop]. cbn [fs_names fs_inodes fs_stop] in *. subst.
  exists (mkBooter (path b) (bt_file b) (mkFs (delete (path b +:+ _SUFFIX_TMP) (fs_names (bt_fs b))) inodes None)). split; [|split; [done|split; [|done]]].
  - unfold with_booter, Open, removeBadTMP. rewrite (M_bind_run _ _ _ (mkFs (delete (path b +:+ _SUFFIX_TMP) (fs_names (bt_fs b))) inodes None) tt) by done.
    unfold syscall, os_OpenFile. cbn [fs_names fs_stop]. by rewrite lookup_delete_ne, Hn.
  - split; [split|split; [cbn; by rewrite lookup_delete_ne|done]].
    + intros n m h. cbn. rewrite !lookup_delete_Some. intros [_ ?] [_ ?]. by eapply Hap.
    + intros n h. cbn. rewrite lookup_delete_Some. intros [_ Hs]. destruct (Hin _ _ Hs) as [x Hx]. destruct (Hino _ _ Hx) as (x' & ? & _). by eexists.
Qed.

(** After a crash the file that was safe is there. *)
Lemma Open_after (s s' : fs) p data : holds s (p +:+ _SUFFIX) data → after_crash s s' →
  ∃ b, with_booter p (Open p) s' = Ret b ∧ bt_Load b = (b, Ret data).
Proof.
  intros (h & Hn & Hi) (Hnames & Hstop & Hino). destruct (Hino _ _ Hi) as (i' & Hi' & Heq). rewrite (Heq eq_refl) in Hi'.
  assert (Hne := suffixes_differ p). destruct s' as [names inodes stop]. cbn [fs_names fs_inodes fs_stop] in *. subst.
  assert (Hopen : Open p (mkFs (fs_names s) inodes None) = (mkFs (delete (p +:+ _SUFFIX_TMP) (fs_names s)) inodes None, Ret h)).
  { unfold Open, removeBadTMP. rewrite (M_bind_run _ _ _ (mkFs (delete (p +:+ _SUFFIX_TMP) (fs_names s)) inodes None) tt) by done.
    unfold syscall, os_OpenFile. cbn [fs_names fs_stop]. by rewrite lookup_delete_ne, Hn. }
  unfold with_booter. rewrite Hopen.
  eexists. split; [done|]. cbn. unfold Load, on_fs, zoom, get, mbind, M_bind, syscall, f_ReadAll. cbn. by rewrite Hi'.
Qed.

(** C27: Replacing the boot file is atomic: wherever [Update] stops - at any of
    its system calls, or not at all - and whatever a crash then does to files
    that were not synced, [Open] finds the file with the old bytes or with the
    new ones, and with the new ones once [Update] has returned. *)
Theorem Update_atomic (b b' : booter) old data o s' :
  booter_rep b old → Update data b = (b', o) → after_crash (bt_fs b') s' →
  ∃ b'' found, with_booter (path b) (Open (path b)) s' = Ret b'' ∧ bt_Load b'' = (b'', Ret found) ∧
    (found = old ∨ found = data) ∧ (o = Ret tt → found = data).
Proof.
  intros Hrep Hrun Hcr. pose proof (Update_run b old data Hrep) as Hres. rewrite Hrun in Hres. destruct Hres as (Hp & (_ & d & Hd & Hh) & Hcase). cbn [fst snd] in *.
  destruct Hcase as [[-> _]|(-> & (_ & Hn & Hi) & _)].
  - destruct (Open_after _ _ _ _ Hh Hcr) as (b'' & Hopen & Hload). exists b'', d. split; [done|]. split; [done|]. split; [|done]. set_solver.
  - assert (Hh' : holds (bt_fs b') (path b +:+ _SUFFIX) data) by (exists (bt_file b'); by rewrite <- Hp).
    destruct (Open_after _ _ _ _ Hh' Hcr) as (b'' & Hopen & Hload). exists b'', data. naive_solver.
Qed.

(** Without failing system calls a booter keeps what it was given last. *)
#[export] Program Instance booter_ok : BooterOk booter := {|
  bt_rep b data := booter_rep b data ∧ fs_stop (bt_fs b) = None
|}.
Next Obligation.
  intros b data [(_ & _ & Hf) Hs]. cbn. unfold Load, on_fs, zoom, get, mbind, M_bind, syscall, f_ReadAll. rewrite Hs, Hf. by destruct b.
Qed.
Next Obligation.
  intros b old data [Hrep Hs]. cbn. pose proof (Update_run b old data Hrep) as (_ & _ & Hcase). destruct (Update data b) as [b' o]. cbn in *.
  destruct Hcase as [[_ ?]|(-> & Hr & Hst)]; [done|]. exists b'. naive_solver.
Qed.

(** The same, of the booter of a given path. *)
Program Definition booter_at (p : string) : BooterOk booter := {|
  bt_rep b data := path b = p ∧ booter_rep b data ∧ fs_stop (bt_fs b) = None
|}.
Next Obligation. intros p b data (_ & Hrep). exact (bt_Load_ok (BooterOk := booter_ok) b data Hrep). Qed.
Next Obligation.
  intros p b old data (Hp & Hrep). destruct (bt_Update_ok (BooterOk := booter_ok) b old data Hrep) as (b' & Hrun & Hrep'). exists b'. split; [exact Hrun|]. split; [|exact Hrep'].
  cbn in Hrun. pose proof (Update_run b old data (proj1 Hrep)) as (Hp' & _). rewrite Hrun in Hp'. by rewrite <- Hp.
Qed.

(** A new boot file, once its first content is written. *)
Definition new_booter (p : string) (data : list byte) : booter :=
  mkBooter p 0 (mkFs {[p +:+ _SUFFIX := 0%nat]} {[0%nat := mkInode data true]} None).

Lemma new_booter_rep p data : booter_rep (new_booter p data) data.
Proof.
  split; [split|split; apply lookup_singleton_eq].
  - intros n m k. cbn. rewrite !lookup_singleton_Some. naive_solver.
  - intros n k. cbn. rewrite !lookup_singleton_Some. intros [_ <-]. rewrite lookup_singleton_eq. by eexists.
Qed.

(** The sixth system call fails after the rename. *)
Definition stopped_booter : booter := mkBooter "db" 0 (mkFs {["db.bt" := 0%nat]} {[0%nat := mkInode [Byte.x01] true]} (Some 5%nat)).

Lemma Update_atomic_witness : let '(b', o) := Update [Byte.x02; Byte.x03] stopped_booter in
  ∃ b'' found, with_booter "db" (Open "db") (mkFs (fs_names (bt_fs b')) (fs_inodes (bt_fs b')) None) = Ret b'' ∧ bt_Load b'' = (b'', Ret found) ∧
    (found = [Byte.x01] ∨ found = [Byte.x02; Byte.x03]) ∧ (o = Ret tt → found = [Byte.x02; Byte.x03]).
Proof.
  destruct (Update [Byte.x02; Byte.x03] stopped_booter) as [b' o] eqn:Hrun.
  apply (Update_atomic stopped_booter b' [Byte.x01] [Byte.x02; Byte.x03] o _).
  - exact (new_booter_rep "db" [Byte.x01]).
  - exact Hrun.
  - split; [done|]. split; [done|]. intros h i Hi. by exists i.
Defined.
