(* ===== verification/TableMgr.v ===== *)
(** Package [tbm]: the manager of the tables ([table_manager.go]).

    The tables form a list through their [Next]; the boot file holds the UUID
    of the first.  The manager owns its serializability manager (and through it
    the data manager) and the booter; every method runs under its lock, or
    takes from it only the table it works on.

    [map_range] is the order in which Go's [range] visits the map of the
    tables.  A table in [xtc] is the one in [tc] with its name; only its name
    and its fields are read there, and those never change. *)
From S2P Require Import Prelude.
From S2P Require Import Codec.
From S2P Require Import Tm.
From S2P Require Import DmI.
From S2P Require Import LockTable.
From S2P Require Import Sm.
From S2P Require Import Parser.
From S2P Require Import Field.
From S2P Require Import Table.
From S2P Require Import Booter.
From stdpp Require Import sorting.
Local Open Scope Z_scope.

(** [sort.Slice] by name, on tables with different names. *)
Definition name_le (a b : table) : Prop := string_ltb (tb_Name b) (tb_Name a) = false.
#[export] Instance name_le_dec a b : Decision (name_le a b).
Proof. unfold name_le. apply _. Defined.

Section TableManager.
Context {T : Type} `{!TransactionManager T} {D : Type} `{!DataManager D} {B : Type} `{!Booter B}.
(** Fuel for the B+ tree, the order of the lock table's map, [sort.Slice] on
    rows, the order of the map of the tables. *)
Context (fuel : nat) (order : list XID) (sort_Slice : (row → row → outcome bool) → list row → outcome (list row)).
Context (map_range : gmap string table → list table).
Notation SM := (serializabilityManager T D).

Record tableManager := mkTBM {
  tbm_SM : SM;
  tbm_booter : B;
  tbm_tc : gmap string table;
  tbm_xtc : gmap XID (list table)
}.
Definition set_SM x m := mkTBM x (tbm_booter m) (tbm_tc m) (tbm_xtc m).
Definition set_booter x m := mkTBM (tbm_SM m) x (tbm_tc m) (tbm_xtc m).
Definition set_tctbl x m := mkTBM (tbm_SM m) (tbm_booter m) x (tbm_xtc m).
Definition set_xtc x m := mkTBM (tbm_SM m) (tbm_booter m) (tbm_tc m) x.

Definition on_SM {A} : M SM A → M tableManager A := zoom tbm_SM set_SM.
Definition on_booter {A} : M B A → M tableManager A := zoom tbm_booter set_booter.

Definition firstTableUUID : M tableManager UUID := raw ← on_booter bt_Load; lift (ParseUUID raw).
Definition updateFirstTableUUID (uuid : UUID) : M tableManager unit := on_booter (bt_Update (UUIDToRaw uuid)).

(** The loop of [loadTables] from [uuid] on; it ends when the list of the
    tables does. *)
Fixpoint loadFrom (n : nat) (uuid : UUID) : M tableManager unit :=
  if decide (uuid ≠ NilUUID) then
    match n with
    | O => λ m, (m, OutOfFuel)
    | S n =>
        tb ← on_SM (LoadTable uuid);
        _ ← modify (λ m, set_tctbl (<[tb_Name tb := tb]> (tbm_tc m)) m);
        loadFrom n (tb_Next tb)
    end
  else mret tt.
Definition loadTables (n : nat) : M tableManager unit := uuid ← firstTableUUID; loadFrom n uuid.

(** [newTableManager], and [Create] and [Open] behind their booters. *)
Definition newTableManager (n : nat) (sm : SM) (b : B) : tableManager * outcome unit := loadTables n (mkTBM sm b ∅ ∅).
Definition tbm_CreateManager (n : nat) (sm : SM) (b : B) : tableManager * outcome unit :=
  match bt_Update (UUIDToRaw NilUUID) b with
  | (b, Ret _) => newTableManager n sm b
  | (b, Err e) => (mkTBM sm b ∅ ∅, Err e)
  | (b, Panic) => (mkTBM sm b ∅ ∅, Panic)
  | (b, OutOfFuel) => (mkTBM sm b ∅ ∅, OutOfFuel)
  end.
Definition tbm_OpenManager (n : nat) (sm : SM) (b : B) : tableManager * outcome unit := newTableManager n sm b.

(** [tb, ok := tbm.tc[name]] and the return when there is none. *)
Definition the_table (name : string) : M tableManager table :=
  m ← get; match tbm_tc m !! name with Some tb => mret tb | None => fail ErrNoThatTable end.

Definition tbm_Read (xid : XID) (read : Parser.Read) : M tableManager (list byte) :=
  tb ← the_table (Read_TableName read);
  result ← on_SM (table_Read fuel sort_Slice tb xid read);
  mret (str_bytes result).

Definition tbm_Update (xid : XID) (update : Parser.Update) : M tableManager (list byte) :=
  tb ← the_table (Update_TableName update);
  count ← on_SM (table_Update fuel order tb xid update);
  mret (str_bytes ("Update " +:+ Uint32ToStr (u32 count))%string).

Definition tbm_Delete (xid : XID) (del : Parser.Delete) : M tableManager (list byte) :=
  tb ← the_table (Delete_TableName del);
  count ← on_SM (table_Delete fuel order tb xid del);
  mret (str_bytes ("Delete " +:+ Uint32ToStr (u32 count))%string).

Definition tbm_Insert (xid : XID) (ins : Parser.Insert) : M tableManager (list byte) :=
  tb ← the_table (Insert_TableName ins);
  _ ← on_SM (table_Insert fuel tb xid ins);
  mret (str_bytes "Insert").

Definition tbm_Create (xid : XID) (create : Parser.Create) : M tableManager (list byte) :=
  m ← get;
  let name := Create_TableName create in
  if decide (is_Some (tbm_tc m !! name)) then fail ErrDuplicatedTable
  else
    first ← firstTableUUID;
    tb ← on_SM (CreateTable first create);
    _ ← updateFirstTableUUID (tb_SelfUUID tb);
    _ ← modify (λ m, set_tctbl (<[name := tb]> (tbm_tc m)) m);
    _ ← modify (λ m, set_xtc (<[xid := default [] (tbm_xtc m !! xid) ++ [tb]]> (tbm_xtc m)) m);
    mret (str_bytes ("create " +:+ name)%string).

(** The loop of [rebuildTableChain], over the tables in reverse order. *)
Fixpoint rebuildLoop (xid : XID) (next : UUID) (tables : list table) : M tableManager UUID :=
  match tables with
  | [] => mret next
  | tb :: tables =>
      let tb := set_Next next tb in
      _ ← modify (λ m, set_tctbl (<[tb_Name tb := tb]> (tbm_tc m)) m);
      tb ← on_SM (table_persistSelf xid tb);
      _ ← modify (λ m, set_tctbl (<[tb_Name tb := tb]> (tbm_tc m)) m);
      rebuildLoop xid (tb_SelfUUID tb) tables
  end.
Definition rebuildTableChain (xid : XID) : M tableManager unit :=
  m ← get;
  let tables := merge_sort name_le (map_range (tbm_tc m)) in
  next ← rebuildLoop xid NilUUID (reverse tables);
  updateFirstTableUUID next.

Definition tbm_Drop (xid : XID) (drop : Parser.Drop) : M tableManager (list byte) :=
  let name := Drop_TableName drop in
  _ ← the_table name;
  _ ← modify (λ m, set_tctbl (delete name (tbm_tc m)) m);
  _ ← modify (λ m, set_xtc (filter (λ tb, tb_Name tb ≠ name) <$> tbm_xtc m) m);
  _ ← rebuildTableChain xid;
  mret (str_bytes ("drop " +:+ name)%string).

Definition tbm_Show (xid : XID) : M tableManager (list byte) :=
  m ← get;
  let own := default [] (tbm_xtc m !! xid) in
  let others := filter (λ tb, tb_Name tb ∉ tb_Name <$> own) (map_range (tbm_tc m)) in
  mret (str_bytes (foldr (λ tb rest, tb_Print tb +:+ newline +:+ rest) ""%string (own ++ others))).

(** [nil] when the transaction manager cannot begin one. *)
Definition tbm_Begin (begin : Parser.Begin) : M tableManager (XID * list byte) :=
  let level := if IsRepeatableRead begin then 1 else 0 in
  catch (on_SM (sm_Begin level)) (λ xid, mret (xid, str_bytes "begin")) (λ _, mret (0, [])).

Definition tbm_Commit (xid : XID) : M tableManager (list byte) :=
  _ ← on_SM (sm_Commit xid); mret (str_bytes "commit").

(** The error of [SM.Abort] is not looked at. *)
Definition tbm_Abort (xid : XID) : M tableManager (list byte) :=
  _ ← catch (on_SM (sm_Abort xid)) mret (λ _, mret tt); mret (str_bytes "abort").
End TableManager.
Arguments tableManager T D B : clear implicits.
