(* ===== verification/Catalog.v ===== *)
(** Package [tbm]: what the manager of the tables promises.

    [catalog m items X] relates a manager to the tables [X] and their rows: the
    boot file leads to the first record, the records form a list, the map [tc]
    has exactly these tables, and no two tables share an item. *)
From S2P Require Import Prelude.
From S2P Require Import Codec.
From S2P Require Import Tm.
From S2P Require Import DmI.
From S2P Require Import Node.
From S2P Require Import Tree.
From S2P Require Import TreeRep.
From S2P Require Import LockTable.
From S2P Require Import Sm.
From S2P Require Import Parser.
From S2P Require Import Field.
From S2P Require Import Table.
From S2P Require Import TableData.
From S2P Require Import TableRep.
From S2P Require Import TableOps.
From S2P Require Import Booter.
From S2P Require Import TableMgr.
Local Open Scope Z_scope.

(** * All tables *)

(** A table with all its rows, its indexes, and who wrote its record. *)
Record tstate := mkTs { ts_table : table; ts_rows : list srow; ts_idx : list tree_t; ts_tree : tree_t; ts_xmin : XID }.

Definition ts_name (x : tstate) : string := tb_Name (ts_table x).
Definition ts_trees (x : tstate) : list tree_t := ts_tree x :: ts_idx x.
Definition ts_items (x : tstate) : list UUID := (s_uuid <$> ts_rows x) ++ table_uids (ts_table x).

Definition tstate_ok (items : gmap UUID (list byte)) (x : tstate) : Prop :=
  table_db (ts_table x) items (ts_rows x) (ts_idx x) (ts_tree x) ∧ table_recorded items (ts_xmin x) (ts_table x) ∧ is_u64 (ts_xmin x).

Definition database (items : gmap UUID (list byte)) (X : list tstate) : Prop :=
  forest items (X ≫= ts_trees) (X ≫= ts_items) ∧ Forall (tstate_ok items) X.

(** The records form a list that starts at [uuid]. *)
Fixpoint chain (uuid : UUID) (ts : list table) : Prop :=
  match ts with
  | [] => uuid = NilUUID
  | t :: ts => tb_SelfUUID t = uuid ∧ chain (tb_Next t) ts
  end.
Definition chained (uuid : UUID) (X : list tstate) : Prop := chain uuid (ts_table <$> X).

(** A table and who wrote its record, of which nothing is asked but what loading
    it needs. *)
Definition recorded (x : tstate) : table * XID := (ts_table x, ts_xmin x).
Record listed (items : gmap UUID (list byte)) (y : table * XID) : Prop := {
  li_record : table_recorded items y.2 y.1;
  li_roots : rooted items y.1;
  li_xmin : is_u64 y.2
}.

Lemma tstate_listed items x : tstate_ok items x → listed items (recorded x).
Proof. intros (Hdb & Hrec & Hx). split; [exact Hrec|by eapply table_db_rooted|exact Hx]. Qed.

Lemma forest_both items ts ts' P P' : ts ≡ₚ ts' → P ≡ₚ P' → forest items ts P → forest items ts' P'.
Proof.
  intros Ht Hp Hf. eapply (forest_perm _ ts); [exact Ht|]. destruct Hf as (Ha & Hn & Hs). split_and!; [done|by rewrite <- Hp|by rewrite <- Hp].
Qed.

Lemma bind_middle {A B} (f : A → list B) X1 x X2 : (X1 ++ x :: X2) ≫= f ≡ₚ f x ++ ((X1 ++ X2) ≫= f).
Proof.
  induction X1 as [|y X1 IH]; [done|]. cbn [app]. change ((y :: (X1 ++ x :: X2)) ≫= f) with (f y ++ ((X1 ++ x :: X2) ≫= f)).
  change ((y :: (X1 ++ X2)) ≫= f) with (f y ++ ((X1 ++ X2) ≫= f)). rewrite IH, !app_assoc. by rewrite (Permutation_app_comm (f y)).
Qed.

(** One table of the database, apart from the others. *)
Lemma database_focus items X1 x X2 : database items (X1 ++ x :: X2) →
  forest items (ts_trees x ++ ((X1 ++ X2) ≫= ts_trees)) (ts_items x ++ ((X1 ++ X2) ≫= ts_items)) ∧ tstate_ok items x ∧ Forall (tstate_ok items) (X1 ++ X2).
Proof.
  intros [Hf Hall]. split; [eapply forest_both; [apply bind_middle..|exact Hf]|]. apply Forall_app in Hall as [H1 H2]. apply Forall_cons in H2 as [Hx H2].
  split; [done|]. by apply Forall_app.
Qed.

(** What the trees of a forest and its other items make of the rest of a table
    that did not change. *)
Lemma tstate_ok_kept items items' x : Forall (λ t, tree_at items' (t_boot t) (t_uids t) (t_ents t)) (ts_trees x) →
  (∀ v, v ∈ ts_items x → items' !! v = items !! v) → tstate_ok items x → tstate_ok items' x.
Proof.
  intros Htr Hag ([_ Hix Hb He Hst Hwf] & Hrec & Hx). split; [split; try done|split; [|done]].
  - apply Forall_forall. intros r Hr. rewrite Forall_forall in Hst. eapply row_stored_agree; [|by apply Hst]. apply Hag, elem_of_app. left. by apply list_elem_of_fmap_2.
  - eapply table_recorded_agree; [|exact Hrec]. intros v Hv. apply Hag, elem_of_app. by right.
Qed.

Lemma others_kept items items' X : Forall (λ t, tree_at items' (t_boot t) (t_uids t) (t_ents t)) (X ≫= ts_trees) →
  (∀ v, v ∈ X ≫= ts_items → items' !! v = items !! v) → Forall (tstate_ok items) X → Forall (tstate_ok items') X.
Proof.
  intros Htr Hag Hall. rewrite Forall_forall in Htr. rewrite Forall_forall in Hall |- *. intros x Hx. apply (tstate_ok_kept items); [| |by apply Hall].
  - apply Forall_forall. intros t Ht. apply Htr, list_elem_of_bind. by exists x.
  - intros v Hv. apply Hag, list_elem_of_bind. by exists x.
Qed.

(** A changed table takes its place among the others. *)
Lemma database_unfocus items items' X1 x X2 : Forall (tstate_ok items) (X1 ++ X2) → tstate_ok items' x →
  forest items' (ts_trees x ++ ((X1 ++ X2) ≫= ts_trees)) (ts_items x ++ ((X1 ++ X2) ≫= ts_items)) →
  (∀ v, v ∈ (X1 ++ X2) ≫= ts_items → items' !! v = items !! v) → database items' (X1 ++ x :: X2).
Proof.
  intros Hall Hx Hf Hag. pose proof Hf as (Ha & _). apply Forall_app in Ha as [_ Ha].
  pose proof (others_kept _ _ _ Ha Hag Hall) as Hall'. apply Forall_app in Hall' as [H1 H2]. split.
  - eapply forest_both; [symmetry; apply bind_middle..|exact Hf].
  - apply Forall_app. split; [done|]. by apply Forall_cons.
Qed.

Section Catalog.
Context {T : Type} `{!TransactionManager T} {D : Type} `{!DataManager D, !DataManagerOk D} {B : Type} `{!Booter B, !BooterOk B}.
Context (fuel : nat) (order : list XID) (sort_Slice : (row → row → outcome bool) → list row → outcome (list row)).
Context (map_range : gmap string table → list table).
Notation SM := (serializabilityManager T D).
Notation TBM := (tableManager T D B).
Implicit Types (m : TBM) (s : SM).

Definition tables_of (X : list tstate) : gmap string table := list_to_map ((λ x, (ts_name x, ts_table x)) <$> X).
Definition table_map (ts : list table) : gmap string table := list_to_map ((λ t, (tb_Name t, t)) <$> ts).

Record catalog m (items : gmap UUID (list byte)) (X : list tstate) : Prop := {
  cat_dm : dm_rep (sm_DM (tbm_SM m)) items;
  cat_db : database items X;
  cat_boot : ∃ first, is_u64 first ∧ bt_rep (tbm_booter m) (UUIDToRaw first) ∧ chained first X;
  cat_tc : tbm_tc m = tables_of X;
  cat_names : NoDup (ts_name <$> X)
}.

(** The tables [Y], with who wrote the record of each, are those of the manager
    and of the boot file; their rows and indexes may be in any state. *)
Record directory m (items : gmap UUID (list byte)) (Y : list (table * XID)) : Prop := {
  dir_dm : dm_rep (sm_DM (tbm_SM m)) items;
  dir_listed : Forall (listed items) Y;
  dir_boot : ∃ first, is_u64 first ∧ bt_rep (tbm_booter m) (UUIDToRaw first) ∧ chain first Y.*1;
  dir_tc : tbm_tc m = table_map Y.*1;
  dir_names : NoDup (tb_Name <$> Y.*1)
}.

Lemma recorded_tables X : (recorded <$> X).*1 = ts_table <$> X.
Proof. by rewrite <- list_fmap_compose. Qed.
Lemma recorded_names X : tb_Name <$> (recorded <$> X).*1 = ts_name <$> X.
Proof. by rewrite recorded_tables, <- list_fmap_compose. Qed.
Lemma tables_of_map X : tables_of X = table_map (recorded <$> X).*1.
Proof. unfold tables_of, table_map. by rewrite recorded_tables, <- list_fmap_compose. Qed.

Lemma catalog_directory m items X : catalog m items X → directory m items (recorded <$> X).
Proof.
  intros [Hd [_ Hall] (first & Hu & Hb & Hch) Htc Hnd]. split; [done| | |by rewrite Htc, tables_of_map|by rewrite recorded_names].
  - apply Forall_fmap. eapply Forall_impl; [exact Hall|]. apply tstate_listed.
  - exists first. by rewrite recorded_tables.
Qed.

(** Another manager with the same boot file and tables has the same rows. *)
Lemma catalog_moved m m' items X : catalog m items X → dm_rep (sm_DM (tbm_SM m')) items → tbm_tc m' = tbm_tc m →
  (∀ raw, bt_rep (tbm_booter m) raw → bt_rep (tbm_booter m') raw) → catalog m' items X.
Proof.
  intros [_ Hdb (first & Hu & Hb & Hch) Htc Hnd] Hd Ht Hbt. split; [done|done| |congruence|done]. exists first. split; [done|]. split; [by apply Hbt|done].
Qed.

Lemma tables_of_lookup X name tb : NoDup (ts_name <$> X) → tables_of X !! name = Some tb ↔ ∃ x, x ∈ X ∧ ts_name x = name ∧ ts_table x = tb.
Proof.
  intros Hn. unfold tables_of. rewrite <- elem_of_list_to_map.
  - rewrite list_elem_of_fmap. split; [intros (x & [= -> ->] & Hx); by exists x|intros (x & Hx & <- & <-); by exists x].
  - rewrite <- list_fmap_compose. exact Hn.
Qed.

Lemma firstTableUUID_run m items X : catalog m items X → ∃ first, firstTableUUID m = (m, Ret first) ∧ is_u64 first ∧ chained first X ∧ bt_rep (tbm_booter m) (UUIDToRaw first).
Proof.
  intros [_ _ (first & Hu & Hb & Hc) _ _]. exists first. split; [|done]. unfold firstTableUUID. rewrite (M_bind_run _ _ m m (UUIDToRaw first)).
  - by rewrite (ParseUUID_raw first Hu).
  - unfold on_booter, zoom. rewrite (bt_Load_ok _ _ Hb). by destruct m.
Qed.

Lemma on_SM_run {A} (f : M SM A) m s a : f (tbm_SM m) = (s, Ret a) → on_SM f m = (set_SM s m, Ret a).
Proof. intros Hf. unfold on_SM, zoom. by rewrite Hf. Qed.

Lemma on_SM_same {A} (f : M SM A) m o : f (tbm_SM m) = (tbm_SM m, o) → on_SM f m = (m, o).
Proof. intros Hf. unfold on_SM, zoom. rewrite Hf. by destruct m. Qed.

(** ** Opening *)

(** The super transaction of a new manager sees the record that [xmin] wrote. *)
Definition settled (tm : T) (xmin : XID) : bool := bool_decide (xmin = SUPER_XID) || tm_IsCommitted tm xmin.

Lemma settled_alive tm xmin : alive tm (newTransaction SUPER_XID 0 ∅) xmin 0 = settled tm xmin.
Proof. unfold alive, in_view, settled. cbn. by rewrite !andb_true_r. Qed.

Lemma new_super (tm : T) (d : D) : working (NewSerializabilityManager tm d) SUPER_XID (newTransaction SUPER_XID 0 ∅).
Proof. split_and!; [by apply elem_of_singleton|apply lookup_singleton_eq|done|done]. Qed.

Lemma loadFrom_run (tm : T) (d : D) items Y : dm_rep d items → Forall (listed items) Y → ∀ n first m, chain first Y.*1 → (length Y ≤ n)%nat →
  tbm_SM m = NewSerializabilityManager tm d →
  ∃ m', loadFrom n first m = (m', if forallb (λ y, settled tm y.2) Y then Ret tt else Panic) ∧
    (forallb (λ y, settled tm y.2) Y = true → m' = set_tctbl (foldl (λ tc t, <[tb_Name t := t]> tc) (tbm_tc m) Y.*1) m).
Proof.
  intros Hd. pose proof (new_super tm d) as Hw. induction 1 as [|[t x] Y [Hrec Hroot Hx] _ IH]; intros n first m Hch Hn Hs; cbn [fmap list_fmap chain fst snd] in *.
  - subst first. exists m. split; [by destruct n|]. by destruct m.
  - destruct Hch as [<- Hch]. cbn [length] in Hn. destruct n as [|n]; [lia|]. cbn [loadFrom forallb snd].
    rewrite decide_True by (pose proof (rec_uuid _ _ _ Hrec); unfold NilUUID; lia). destruct (settled tm x) eqn:Hsee.
    + rewrite (M_bind_run _ _ m m t).
      * rewrite (M_bind_run _ _ m (set_tctbl (<[tb_Name t := t]> (tbm_tc m)) m) tt) by done.
        by destruct (IH n (tb_Next t) (set_tctbl (<[tb_Name t := t]> (tbm_tc m)) m) Hch) as (m' & Hrun & Hm'); [lia|done|]; exists m'.
      * apply on_SM_same. rewrite Hs. eapply LoadTable_run; try done. exists (newTransaction SUPER_XID 0 ∅). split; [exact Hw|]. by rewrite settled_alive.
    + exists m. split; [|done]. unfold mbind, M_bind. rewrite (on_SM_same _ m Panic); [done|]. rewrite Hs. eapply LoadTable_unseen; try done. by rewrite settled_alive.
Qed.

Lemma foldl_tables ts tc : foldl (λ tc t, <[tb_Name t := t]> tc) tc ts = table_map (reverse ts) ∪ tc.
Proof.
  revert tc. induction ts as [|t ts IH]; intros tc; cbn [foldl]; [change (table_map (reverse [])) with (∅ : gmap string table); by rewrite (left_id_L ∅ (∪))|].
  rewrite IH, reverse_cons. unfold table_map. rewrite fmap_app, list_to_map_app. cbn [fmap list_fmap list_to_map].
  rewrite <- (assoc_L (∪)). f_equal. change (<[tb_Name t := t]> ∅) with ({[tb_Name t := t]} : gmap string table). by rewrite insert_union_singleton_l.
Qed.

Lemma table_map_perm ts ts' : NoDup (tb_Name <$> ts) → ts ≡ₚ ts' → table_map ts = table_map ts'.
Proof. intros Hn Hp. unfold table_map. apply list_to_map_proper; [|by rewrite Hp]. rewrite <- list_fmap_compose. exact Hn. Qed.

Lemma tables_of_perm X X' : NoDup (ts_name <$> X) → X ≡ₚ X' → tables_of X = tables_of X'.
Proof.
  intros Hn Hp. unfold tables_of. apply list_to_map_proper; [|by rewrite Hp]. rewrite <- list_fmap_compose. exact Hn.
Qed.

(** Opening loads the tables of the boot file, or ends the program at the first
    record whose writer the super transaction does not see. *)
Lemma OpenManager_run n (tm : T) (d : D) (b : B) items Y first : dm_rep d items → Forall (listed items) Y → NoDup (tb_Name <$> Y.*1) →
  is_u64 first → bt_rep b (UUIDToRaw first) → chain first Y.*1 → (length Y ≤ n)%nat → let s := NewSerializabilityManager tm d in
  ∃ m', tbm_OpenManager n s b = (m', if forallb (λ y, settled tm y.2) Y then Ret tt else Panic) ∧
    (forallb (λ y, settled tm y.2) Y = true → m' = mkTBM s b (table_map Y.*1) ∅).
Proof.
  intros Hd Hl Hnd Hu Hb Hch Hn s. unfold tbm_OpenManager, newTableManager, loadTables.
  rewrite (M_bind_run _ _ (mkTBM s b ∅ ∅) (mkTBM s b ∅ ∅) first).
  - destruct (loadFrom_run tm d items Y Hd Hl n first (mkTBM s b ∅ ∅) Hch Hn eq_refl) as (m' & Hrun & Hm'). exists m'. split; [exact Hrun|]. intros Hall.
    rewrite (Hm' Hall). cbn [tbm_tc]. rewrite foldl_tables, (right_id_L ∅ (∪)), (table_map_perm (reverse Y.*1) Y.*1); [done| |by rewrite reverse_Permutation].
    by rewrite fmap_reverse, reverse_Permutation.
  - unfold firstTableUUID. rewrite (M_bind_run _ _ (mkTBM s b ∅ ∅) (mkTBM s b ∅ ∅) (UUIDToRaw first)).
    + by rewrite (ParseUUID_raw first Hu).
    + unfold on_booter, zoom. cbn [tbm_booter]. by rewrite (bt_Load_ok _ _ Hb).
Qed.

(** ** Creating *)

Lemma updateFirst_run m old first : bt_rep (tbm_booter m) old → ∃ b, updateFirstTableUUID first m = (set_booter b m, Ret tt) ∧ bt_rep b (UUIDToRaw first).
Proof.
  intros Hb. destruct (bt_Update_ok _ _ (UUIDToRaw first) Hb) as (b & Hrun & Hb'). exists b. split; [|done].
  unfold updateFirstTableUUID, on_booter, zoom. by rewrite Hrun.
Qed.

Lemma tbm_Create_run m items X xid create k : catalog m items X → super_ok (tbm_SM m) → create_ok create → tbm_tc m !! Create_TableName create = None →
  has_room (sm_DM (tbm_SM m)) (3 * length (Create_FieldName create) + 3 + k) →
  ∃ m' items' x d, tbm_Create xid create m = (m', Ret (str_bytes ("create " +:+ Create_TableName create)%string)) ∧ catalog m' items' (x :: X) ∧
    tbm_SM m' = set_DM d (tbm_SM m) ∧ has_room d k ∧ same_schema create (ts_table x) ∧ ts_rows x = [] ∧ ts_xmin x = SUPER_XID.
Proof.
  intros Hcat Hsu Hok Hnew Hroom. destruct (firstTableUUID_run _ _ _ Hcat) as (first & Hfirst & Hu & Hch & Hb). pose proof Hcat as [Hd [Hfo Hall] _ Htc Hnd].
  destruct (CreateTable_run (tbm_SM m) create first items _ _ k Hsu Hd Hfo Hok Hu Hroom)
    as (d & t & items' & ts & tr & Hrun & Hd' & Htab & Hfo' & Hrec & Hag & Hroom' & Hnext & Hsch).
  set (x := mkTs t [] ts tr SUPER_XID). set (m1 := set_SM (set_DM d (tbm_SM m)) m).
  destruct (updateFirst_run m1 _ (tb_SelfUUID t) Hb) as (b & Hup & Hb').
  set (m2 := set_tctbl (<[Create_TableName create := t]> (tbm_tc m)) (set_booter b m1)).
  exists (set_xtc (<[xid := default [] (tbm_xtc m !! xid) ++ [t]]> (tbm_xtc m)) m2), items', x, d. split; [|split; [|by split_and!]].
  - unfold tbm_Create. rewrite M_get_bind. cbv zeta. rewrite decide_False by (rewrite Hnew; apply is_Some_None).
    rewrite (M_bind_run _ _ _ _ _ Hfirst), (M_bind_run _ _ _ _ _ (on_SM_run _ _ _ _ Hrun)), (M_bind_run _ _ _ _ _ Hup). done.
  - assert (Hname : ts_name x = Create_TableName create) by apply Hsch. split.
    + done.
    + apply (database_unfocus items items' [] x X Hall); [by split|exact Hfo'|exact Hag].
    + exists (tb_SelfUUID t). split; [|split; [exact Hb'|split; [done|]]].
      * by eapply uid_u64, rec_uuid.
      * cbn [x ts_table]. by rewrite Hnext.
    + cbn [set_xtc m2 set_tctbl tbm_tc]. rewrite <- Hname. unfold tables_of. cbn [fmap list_fmap list_to_map]. by rewrite Htc.
    + cbn [fmap list_fmap]. apply NoDup_cons. split; [|done]. intros Hin. apply list_elem_of_fmap in Hin as (y & Hy & HyX).
      assert (Hlook : tbm_tc m !! Create_TableName create = Some (ts_table y)) by (rewrite Htc; apply tables_of_lookup; [done|]; exists y; by rewrite <- Hname).
      congruence.
Qed.

(** ** Inserting and reading *)

Lemma the_table_run m items X x name : catalog m items X → x ∈ X → ts_name x = name → the_table name m = (m, Ret (ts_table x)).
Proof.
  intros [_ _ _ Htc Hnd] Hx Hn. unfold the_table. rewrite M_get_bind. assert (Hl : tbm_tc m !! name = Some (ts_table x)); [|by rewrite Hl].
  rewrite Htc. apply tables_of_lookup; [done|]. by exists x.
Qed.

Lemma the_table_none m items X name : catalog m items X → name ∉ ts_name <$> X → the_table name m = (m, Err ErrNoThatTable).
Proof.
  intros [_ _ _ Htc Hnd] Hn. unfold the_table. rewrite M_get_bind. destruct (tbm_tc m !! name) as [tb|] eqn:Hl; [|done].
  rewrite Htc in Hl. apply tables_of_lookup in Hl as (x & Hx & <- & _); [|done]. destruct Hn. by apply list_elem_of_fmap_2.
Qed.

(** The rows of an insertion. *)
Definition rows_of (ins : Parser.Insert) : list (list string) :=
  if decide (zlen (ValuesList ins) = 0 ∧ 0 < zlen (Values ins)) then [Values ins] else ValuesList ins.

(** [es] are the rows that [rows] describes, and they fit a page. *)
Definition described (t : table) (rows : list (list string)) (es : list row) : Prop :=
  Forall2 (λ values e, strToEntry t values = Ret e ∧ Forall text_ok values) rows es ∧
  Forall (λ e, ∀ raw, entryToRaw t e = Ret raw → zlen raw ≤ 8140) es.

(** A statement changes the rows and the trees of one table. *)
Lemma catalog_rows m items X1 x X2 s' items' R ts tr : catalog m items (X1 ++ x :: X2) → dm_rep (sm_DM s') items' →
  database items' (X1 ++ mkTs (ts_table x) R ts tr (ts_xmin x) :: X2) → catalog (set_SM s' m) items' (X1 ++ mkTs (ts_table x) R ts tr (ts_xmin x) :: X2).
Proof.
  intros [_ _ (first & Hu & Hb & Hch) Htc Hnd] Hd Hdb. split; [exact Hd|exact Hdb| | |by rewrite fmap_app in Hnd |- *].
  - exists first. split; [done|]. split; [done|]. clear -Hch. revert first Hch.
    induction X1 as [|y X1 IH]; intros first; cbn [app chained]; [done|]. intros [? ?]. split; [done|]. by apply IH.
  - cbn [set_SM tbm_tc]. rewrite Htc. unfold tables_of. by rewrite !fmap_app.
Qed.

Lemma tbm_Insert_run m items X1 x X2 xid tx ins es k : catalog m items (X1 ++ x :: X2) → ts_name x = Insert_TableName ins → working (tbm_SM m) xid tx → writer (D := D) xid →
  described (ts_table x) (rows_of ins) es → keys_fresh (ts_table x) (ts_rows x) es → (2 * (length (ts_rows x) + length es) + 5 ≤ fuel)%nat →
  has_room (sm_DM (tbm_SM m)) (length es * (2 * length (index_fields (ts_table x)) + 3) + k) →
  ∃ d items' new ts tr, let m' := set_SM (set_DM d (tbm_SM m)) m in
    tbm_Insert fuel xid ins m = (m', Ret (str_bytes "Insert")) ∧ catalog m' items' (X1 ++ mkTs (ts_table x) (new ++ ts_rows x) ts tr (ts_xmin x) :: X2) ∧
    Forall (λ r, s_xmin r = xid ∧ s_xmax r = 0) new ∧ s_row <$> new = reverse es ∧ has_room d k.
Proof.
  intros Hcat Hname Hw Hx [Hrows Hsize] Hkeys Hfuel Hroom. pose proof Hcat as [Hd Hdb Hboot Htc Hnd].
  destruct (database_focus _ _ _ _ Hdb) as (Hfo & (Htab & Hrec & Hxm) & Hoth).
  unfold ts_trees at 1, ts_items at 1 in Hfo. rewrite <- app_assoc in Hfo.
  destruct (insertRows_run fuel (ts_table x) xid tx (rows_of ins) es Hx (db_wf _ _ _ _ _ Htab) Hrows Hsize _ (tbm_SM m) items _ _ _ _ k Hd Htab Hfo Hw Hkeys Hfuel Hroom)
    as (d & new & items' & ts & tr & Hrun & Hd' & Htab' & Hfo' & Hag & Hroom' & Hnew & Hes).
  exists d, items', new, ts, tr. cbv zeta. split; [|split; [|by split_and!]].
  - unfold tbm_Insert. rewrite (M_bind_run _ _ m m (ts_table x)); [|eapply the_table_run; [exact Hcat|apply elem_of_app; right; by left|done]].
    rewrite (M_bind_run _ _ m (set_SM (set_DM d (tbm_SM m)) m) tt); [done|]. apply on_SM_run. exact Hrun.
  - apply (catalog_rows m items); [exact Hcat|exact Hd'|]. apply (database_unfocus items items' X1 _ X2 Hoth).
    + split; [exact Htab'|]. split; [|exact Hxm]. eapply table_recorded_agree; [|exact Hrec]. intros v Hv. apply Hag, elem_of_app. by left.
    + unfold ts_trees at 1, ts_items at 1. rewrite <- app_assoc. exact Hfo'.
    + intros v Hv. apply Hag, elem_of_app. by right.
Qed.

(** A row of [x] that the statement of [tx] selects. *)
Definition selected s (tx : transaction) (x : tstate) (w : option Where) (r : srow) : Prop :=
  alive_row s tx r ∧ matches (ts_table x) w (s_row r) = true.
#[export] Instance selected_dec s tx x w r : Decision (selected s tx x w r).
Proof. unfold selected. apply _. Defined.

Definition sees_own (tx : transaction) (x : tstate) : Prop := Forall (λ r, own_row tx (s_xmin r) (s_xmax r)) (ts_rows x).

Lemma tbm_Read_run m items X x xid tx read : catalog m items X → x ∈ X → ts_name x = Read_TableName read → working (tbm_SM m) xid tx → sees_own tx x →
  where_supported (ts_table x) (Read_Where read) → (2 * length (ts_rows x) + 3 ≤ fuel)%nat →
  ∃ es, tbm_Read fuel sort_Slice xid read m = (m, str_bytes <$> renderRows sort_Slice (ts_table x) read es) ∧
    es ≡ₚ s_row <$> filter (selected (tbm_SM m) tx x (Read_Where read)) (ts_rows x).
Proof.
  intros Hcat Hx Hname Hw Hown Hsup Hfuel. pose proof Hcat as [Hd [_ Hall] _ _ _]. rewrite Forall_forall in Hall. destruct (Hall x Hx) as (Htab & _ & _).
  destruct (where_rows fuel (ts_table x) (ts_rows x) (tbm_SM m) xid tx (Read_Where read) items _ _ Hd Htab Hw Hown Hsup Hfuel) as (R' & Hrun & _ & Hst & Hown' & Hp).
  exists (s_row <$> filter (alive_row (tbm_SM m) tx) R'). split.
  - unfold tbm_Read. rewrite (M_bind_run _ _ _ _ _ (the_table_run _ _ _ _ _ Hcat Hx Hname)).
    assert (Hread : table_Read fuel sort_Slice (ts_table x) xid read (tbm_SM m) =
      (tbm_SM m, renderRows sort_Slice (ts_table x) read (s_row <$> filter (alive_row (tbm_SM m) tx) R'))).
    { unfold table_Read. rewrite (M_bind_run _ _ _ _ _ Hrun), (M_bind_run _ _ _ _ _ (readRows_run _ _ _ _ _ Hd Hw (db_wf _ _ _ _ _ Htab) _ Hst Hown')). done. }
    unfold mbind, M_bind. rewrite (on_SM_same _ _ _ Hread). by destruct (renderRows _ _ _ _).
  - apply fmap_Permutation. rewrite Hp. erewrite filter_agree; [done|]. by apply Forall_true.
Qed.

(** * Properties *)

(** C26: Creating a table: an unknown name and acceptable columns give a table
    without rows in front of the list, whose record the boot file now names;
    nothing else changes.  A name that is taken gives an error and no change. *)
Theorem create_adds_table m items X xid create k : catalog m items X → super_ok (tbm_SM m) → create_ok create →
  has_room (sm_DM (tbm_SM m)) (3 * length (Create_FieldName create) + 3 + k) →
  if decide (is_Some (tbm_tc m !! Create_TableName create)) then tbm_Create xid create m = (m, Err ErrDuplicatedTable)
  else ∃ m' items' x, tbm_Create xid create m = (m', Ret (str_bytes ("create " +:+ Create_TableName create)%string)) ∧ catalog m' items' (x :: X) ∧
    same_schema create (ts_table x) ∧ ts_rows x = [] ∧ tbm_tc m' = <[Create_TableName create := ts_table x]> (tbm_tc m) ∧ has_room (sm_DM (tbm_SM m')) k.
Proof.
  intros Hcat Hsu Hok Hroom. case_decide as Hin.
  - unfold tbm_Create. rewrite M_get_bind. by rewrite decide_True.
  - apply eq_None_not_Some in Hin. destruct (tbm_Create_run m items X xid create k Hcat Hsu Hok Hin Hroom) as (m' & items' & x & d & Hrun & Hcat' & Hsm & Hroom' & Hsch & Hrows & _).
    exists m', items', x. split; [done|]. split; [done|]. split; [done|]. split; [done|]. split; [|by rewrite Hsm].
    rewrite (cat_tc _ _ _ Hcat'), (cat_tc _ _ _ Hcat). unfold tables_of. cbn [fmap list_fmap list_to_map]. by rewrite <- (proj1 Hsch).
Qed.

(** The tables survive a restart: over any data manager with the same items,
    and when the transactions that wrote the records are committed, [Open]
    loads from the boot file the tables the manager had, field for field, and
    their rows and indexes are the same. *)
Theorem reopen_finds_tables m items X (tm : T) (d : D) n : catalog m items X → dm_rep d items →
  Forall (λ x, ts_xmin x = SUPER_XID ∨ tm_IsCommitted tm (ts_xmin x) = true) X → (length X ≤ n)%nat →
  ∃ m', tbm_OpenManager n (NewSerializabilityManager tm d) (tbm_booter m) = (m', Ret tt) ∧ tbm_tc m' = tbm_tc m ∧ catalog m' items X.
Proof.
  intros Hcat Hd Hxm Hn. destruct (catalog_directory _ _ _ Hcat) as [_ Hl (first & Hu & Hb & Hch) Htc Hnd].
  destruct (OpenManager_run n tm d (tbm_booter m) items (recorded <$> X) first Hd Hl Hnd Hu Hb Hch) as (m' & Hrun & Hm'); [by rewrite length_fmap|].
  assert (Hall : forallb (λ y, settled tm y.2) (recorded <$> X) = true).
  { apply Is_true_true, forallb_True, Forall_fmap. eapply Forall_impl; [exact Hxm|]. intros x Hx. apply Is_true_true, orb_true_iff. cbn. rewrite bool_decide_eq_true. exact Hx. }
  rewrite Hall in Hrun. rewrite (Hm' Hall) in Hrun. eexists. split; [exact Hrun|]. split; [done|]. by apply (catalog_moved m).
Qed.

(** C23: What [read] returns for a condition that is [where_supported] - none, or
    one that starts with a field without an index, or comparisons of one
    numeric indexed field, not joined by [or] (C36 is about the others): the
    rows of the table that are visible to the transaction and fulfil the
    condition, each once, ordered, cut and printed by [renderRows]; the
    database is left alone.  The database is a [catalog], which includes that
    no two rows of a table, dead ones included, have the same key in an index;
    and no row the transaction created was deleted by another one
    ([sees_own]). *)
Theorem read_selects_rows m items X x xid tx read : catalog m items X → x ∈ X → ts_name x = Read_TableName read →
  working (tbm_SM m) xid tx → sees_own tx x → where_supported (ts_table x) (Read_Where read) → (2 * length (ts_rows x) + 3 ≤ fuel)%nat →
  ∃ es, tbm_Read fuel sort_Slice xid read m = (m, str_bytes <$> renderRows sort_Slice (ts_table x) read es) ∧
    es ≡ₚ s_row <$> filter (selected (tbm_SM m) tx x (Read_Where read)) (ts_rows x).
Proof. apply tbm_Read_run. Qed.

(** C24: Rows whose keys are new to the indexes of their table and differ from
    each other ([keys_fresh]; a key that is there already loses entries, C22)
    and that fit a page are inserted, the table being part of a [catalog] and
    the file having room for them; they
    are what a following [read] of the same transaction, with a condition that
    is [where_supported], finds next to the rows it saw before; other
    transactions see none of them before the first one commits, and the indexes
    and all other tables stay intact. *)
Theorem insert_then_select m items X1 x X2 xid tx ins es k : catalog m items (X1 ++ x :: X2) → ts_name x = Insert_TableName ins →
  working (tbm_SM m) xid tx → writer (D := D) xid → described (ts_table x) (rows_of ins) es → keys_fresh (ts_table x) (ts_rows x) es →
  (2 * (length (ts_rows x) + length es) + 5 ≤ fuel)%nat →
  has_room (sm_DM (tbm_SM m)) (length es * (2 * length (index_fields (ts_table x)) + 3) + k) →
  ∃ m' items' x', tbm_Insert fuel xid ins m = (m', Ret (str_bytes "Insert")) ∧ catalog m' items' (X1 ++ x' :: X2) ∧ ts_table x' = ts_table x ∧
    has_room (sm_DM (tbm_SM m')) k ∧ tbm_tc m' = tbm_tc m ∧
    (∀ read, Read_TableName read = Insert_TableName ins → where_supported (ts_table x) (Read_Where read) →
      (sees_own tx x → ∃ found, tbm_Read fuel sort_Slice xid read m' = (m', str_bytes <$> renderRows sort_Slice (ts_table x) read found) ∧
        found ≡ₚ filter (λ e, matches (ts_table x) (Read_Where read) e = true) es ++ (s_row <$> filter (selected (tbm_SM m) tx x (Read_Where read)) (ts_rows x))) ∧
      (∀ xid' tx', working (tbm_SM m) xid' tx' → xid' ≠ xid → tm_IsCommitted (sm_TM (tbm_SM m)) xid = false → sees_own tx' x →
        ∃ found, tbm_Read fuel sort_Slice xid' read m' = (m', str_bytes <$> renderRows sort_Slice (ts_table x) read found) ∧
          found ≡ₚ s_row <$> filter (selected (tbm_SM m) tx' x (Read_Where read)) (ts_rows x))).
Proof.
  intros Hcat Hname Hw Hx Hdes Hkeys Hfuel Hroom.
  destruct (tbm_Insert_run m items X1 x X2 xid tx ins es k Hcat Hname Hw Hx Hdes Hkeys Hfuel Hroom) as (d & items' & new & ts & tr & Hrun & Hcat' & Hnew & Hes & Hroom').
  set (m' := set_SM (set_DM d (tbm_SM m)) m) in *. set (x' := mkTs (ts_table x) (new ++ ts_rows x) ts tr (ts_xmin x)) in *.
  exists m', items', x'. split; [exact Hrun|]. split; [exact Hcat'|]. split; [done|]. split; [exact Hroom'|]. split; [done|].
  intros read Hrn Hsup. assert (Hlen : (2 * length (ts_rows x') + 3 ≤ fuel)%nat).
  { apply (f_equal length) in Hes. rewrite length_fmap, length_reverse in Hes. cbn [x' ts_rows]. rewrite length_app. lia. }
  assert (Hgo : ∀ xid0 tx0, working (tbm_SM m) xid0 tx0 → sees_own tx0 x → ∃ found,
    tbm_Read fuel sort_Slice xid0 read m' = (m', str_bytes <$> renderRows sort_Slice (ts_table x) read found) ∧
    found ≡ₚ (s_row <$> filter (selected (tbm_SM m) tx0 x (Read_Where read)) new) ++ (s_row <$> filter (selected (tbm_SM m) tx0 x (Read_Where read)) (ts_rows x))).
  { intros xid0 tx0 Hw0 Hown. destruct (tbm_Read_run m' items' (X1 ++ x' :: X2) x' xid0 tx0 read Hcat') as (found & Hrd & Hp);
      [apply elem_of_app; right; by left|by rewrite Hrn|exact Hw0| |exact Hsup|exact Hlen|].
    - apply Forall_app. split; [|exact Hown]. eapply Forall_impl; [exact Hnew|]. intros r [_ Hr0] _. by left.
    - exists found. split; [exact Hrd|]. rewrite Hp. cbn [x' ts_rows]. rewrite filter_app, fmap_app. done. }
  split.
  - intros Hown. destruct (Hgo xid tx Hw Hown) as (found & Hrd & Hp). exists found. split; [exact Hrd|]. rewrite Hp. apply Permutation_app_tail.
    rewrite <- (reverse_Permutation es), <- Hes, filter_image. apply fmap_Permutation. erewrite filter_agree; [done|].
    eapply Forall_impl; [exact Hnew|]. intros r [Hr1 Hr2]. unfold selected, alive_row, alive. rewrite Hr1, Hr2. destruct Hw as (_ & _ & -> & _).
    rewrite bool_decide_true by done. cbn. naive_solver.
  - intros xid' tx' Hw' Hne Hnc Hown. destruct (Hgo xid' tx' Hw' Hown) as (found & Hrd & Hp). exists found. split; [exact Hrd|]. rewrite Hp.
    rewrite (filter_nothing _ new); [done|]. eapply Forall_impl; [exact Hnew|]. intros r [Hr1 Hr2]. unfold selected, alive_row, alive, in_view. rewrite Hr1, Hr2, Hnc. destruct Hw' as (_ & _ & -> & _).
    rewrite bool_decide_false by done. cbn. by intros [? _].
Qed.
End Catalog.

(** * On concrete inputs *)

(** Transaction 5 over an empty database. *)
Definition sample_sm : serializabilityManager MockTranManager memDM :=
  let s := NewSerializabilityManager mkMock (mkMem ∅ 1) in
  set_tc {[SUPER_XID; 5]} (set_txs {[SUPER_XID := newTransaction SUPER_XID 0 ∅; 5 := newTransaction 5 0 ∅]} s).
Definition sample_manager : tableManager MockTranManager memDM booter := mkTBM sample_sm (new_booter "db" (UUIDToRaw NilUUID)) ∅ ∅.
Definition sample_create : Parser.Create := mkCreate "t" ["id"; "name"]%string ["uint32"; "string"]%string ["id"]%string.
Definition sample_insert : Parser.Insert := mkInsert "t" [] [["7"; "seven"]; ["2"; "two"]]%string.
Definition sample_read : Parser.Read := mkRead "t" [] [] (Some (mkWhere (mkExp "id" ">" "5") "" None)) "" false 0 0.

Lemma sample_catalog : catalog sample_manager ∅ [].
Proof.
  split; [done|split; [split_and!; constructor|constructor]| |done|constructor].
  exists NilUUID. split; [by vm_compute|]. split; [|done]. split; [apply new_booter_rep|done].
Qed.

Lemma sample_working : working sample_sm 5 (newTransaction 5 0 ∅) ∧ super_ok sample_sm.
Proof. split; [|eexists; instantiate (1 := newTransaction SUPER_XID 0 ∅)]; (split_and!; [by apply (bool_decide_unpack _)|by vm_compute|done|done]). Qed.

Lemma sample_create_ok : create_ok sample_create.
Proof. split; [|split; [by apply (bool_decide_unpack _)|split; [done|cbn; lia]]]. repeat constructor; done. Qed.

Lemma sample_room (d : memDM) k n : has_room d k → (n ≤ k)%nat → has_room d n.
Proof. intros (j & Hj & Hr) Hn. exists j. split; [lia|done]. Qed.

Lemma create_adds_table_witness :
  if decide (is_Some (tbm_tc sample_manager !! "t"%string)) then tbm_Create 5 sample_create sample_manager = (sample_manager, Err ErrDuplicatedTable)
  else ∃ (m' : tableManager MockTranManager memDM booter) items' x, tbm_Create 5 sample_create sample_manager = (m', Ret (str_bytes "create t")) ∧ catalog m' items' [x] ∧
    same_schema sample_create (ts_table x) ∧ ts_rows x = [] ∧ tbm_tc m' = <["t"%string := ts_table x]> ∅ ∧ has_room (sm_DM (tbm_SM (m' : tableManager MockTranManager memDM booter))) 100.
Proof.
  apply (create_adds_table sample_manager ∅ [] 5 sample_create 100); [apply sample_catalog|apply sample_working|apply sample_create_ok|].
  exists 109%nat. split; [cbn; lia|by vm_compute].
Defined.

(** The table of [sample_create], and what its statements need. *)
Lemma sample_table : ∃ (m : tableManager MockTranManager memDM booter) items x, catalog m items [x] ∧ working (tbm_SM m) 5 (newTransaction 5 0 ∅) ∧ sm_lt (tbm_SM m) = NewLockTable ∧ has_room (sm_DM (tbm_SM m)) 100 ∧ ts_rows x = [] ∧ ts_xmin x = SUPER_XID ∧
  ts_name x = "t"%string ∧ ∃ u1 u2 i1, i1 ≠ NilUUID ∧ tb_fields (ts_table x) = [mkField u1 "id" "uint32" i1; mkField u2 "name" "string" NilUUID].
Proof.
  destruct (tbm_Create_run sample_manager ∅ [] 5 sample_create 100 sample_catalog) as (m & items & x & d & _ & Hcat & Hsm & Hroom & (Hn & Hfn & Hft & Hfi) & Hrows & Hxm);
    [apply sample_working|apply sample_create_ok|done|exists 109%nat; split; [cbn; lia|by vm_compute]|].
  exists m, items, x. split; [exact Hcat|]. rewrite Hsm. split; [apply sample_working|]. split; [done|]. split; [exact Hroom|]. split; [done|]. split; [done|]. split; [done|].
  destruct (tb_fields (ts_table x)) as [|[u1 n1 t1 i1] [|[u2 n2 t2 i2] [|]]]; try discriminate Hfn. cbn in Hfn, Hft. simplify_eq.
  apply Forall_cons in Hfi as [H1 H2]. apply Forall_cons in H2 as [H2 _]. unfold IsIndexed in H1, H2. cbn in H1, H2. apply bool_decide_eq_true in H1. apply bool_decide_eq_false in H2.
  apply dec_stable in H2. rewrite H2. by exists u1, u2, i1.
Qed.

Definition sample_es : list row := [{["id" := VUint32 7; "name" := VString "seven"]}; {["id" := VUint32 2; "name" := VString "two"]}]%string.

Lemma sample_index t u1 u2 i1 : tb_fields t = [mkField u1 "id" "uint32" i1; mkField u2 "name" "string" NilUUID] → i1 ≠ NilUUID → index_fields t = [mkField u1 "id" "uint32" i1].
Proof. intros Hf Hi. unfold index_fields. rewrite Hf, filter_cons_True by (by apply bool_decide_eq_true). by rewrite filter_cons_False by done. Qed.

Lemma sample_described t u1 u2 i1 : tb_fields t = [mkField u1 "id" "uint32" i1; mkField u2 "name" "string" NilUUID] → i1 ≠ NilUUID →
  described t (rows_of sample_insert) sample_es ∧ keys_fresh t [] sample_es ∧ where_supported t (Read_Where sample_read) ∧ length (index_fields t) = 1%nat.
Proof.
  intros Hf Hi. pose proof (sample_index t u1 u2 i1 Hf Hi) as Hx.
  split; [split|split; [|split; [|by rewrite Hx]]].
  - unfold strToEntry. rewrite Hf. repeat constructor; try (by vm_compute).
  - unfold entryToRaw. rewrite Hf. repeat constructor; vm_compute; intros raw [= <-]; done.
  - unfold keys_fresh. rewrite Hx. apply Forall_singleton. split; [repeat constructor; by vm_compute|]. by apply (bool_decide_unpack _).
  - exists (mkField u1 "id" "uint32" i1). split; [unfold find_field; by rewrite Hf|]. unfold IsIndexed. cbn [f_index]. rewrite bool_decide_true by done.
    split; [by left|]. split; [split; [split; [by right; right|by eexists]|by left]|]. split; [done|].
    exists 6, INF, (0, 0), true. split; [by vm_compute|]. by vm_compute.
Qed.

Lemma insert_then_select_witness : ∃ (m : tableManager MockTranManager memDM booter) items x m' items' x',
  catalog m items [x] ∧ tbm_Insert 20 5 sample_insert m = (m', Ret (str_bytes "Insert")) ∧ catalog m' items' [x'] ∧
  ∃ found, tbm_Read 20 (λ _, Ret) 5 sample_read m' = (m', str_bytes <$> renderRows (λ _, Ret) (ts_table x) sample_read found) ∧
    found ≡ₚ filter (λ e, matches (ts_table x) (Read_Where sample_read) e = true) sample_es.
Proof.
  destruct sample_table as (m & items & x & Hcat & Hw & _ & Hroom & Hrows & _ & Hn & u1 & u2 & i1 & Hi & Hf).
  destruct (sample_described (ts_table x) u1 u2 i1 Hf Hi) as (Hdes & Hkeys & Hsup & Hlen).
  destruct (insert_then_select 20 (λ _, Ret) m items [] x [] 5 (newTransaction 5 0 ∅) sample_insert sample_es 10) as (m' & items' & x' & Hrun & Hcat' & _ & _ & _ & Hread);
    [exact Hcat|exact Hn|exact Hw|by split|exact Hdes|by rewrite Hrows|rewrite Hrows; cbn; lia|eapply sample_room; [exact Hroom|rewrite Hlen; cbn; lia]|].
  exists m, items, x, m', items', x'. split; [exact Hcat|]. split; [exact Hrun|]. split; [exact Hcat'|].
  destruct (Hread sample_read eq_refl Hsup) as [Hown _]. destruct Hown as (found & Hrd & Hp); [unfold sees_own; rewrite Hrows; constructor|].
  exists found. split; [exact Hrd|]. rewrite Hp, Hrows. by rewrite app_nil_r.
Defined.

Lemma read_selects_rows_witness : ∃ (m : tableManager MockTranManager memDM booter) x es, ts_rows x ≠ [] ∧
  tbm_Read 20 (λ _, Ret) 5 sample_read m = (m, str_bytes <$> renderRows (λ _, Ret) (ts_table x) sample_read es) ∧
  es ≡ₚ s_row <$> filter (selected (tbm_SM m) (newTransaction 5 0 ∅) x (Read_Where sample_read)) (ts_rows x).
Proof.
  destruct sample_table as (m & items & x & Hcat & Hw & _ & Hroom & Hrows & _ & Hn & u1 & u2 & i1 & Hi & Hf).
  destruct (sample_described (ts_table x) u1 u2 i1 Hf Hi) as (Hdes & Hkeys & Hsup & Hlen).
  destruct (tbm_Insert_run 20 m items [] x [] 5 (newTransaction 5 0 ∅) sample_insert sample_es 10) as (d & items' & new & ts & tr & _ & Hcat' & Hnew & Hes & _);
    [exact Hcat|exact Hn|exact Hw|by split|exact Hdes|by rewrite Hrows|rewrite Hrows; cbn; lia|eapply sample_room; [exact Hroom|rewrite Hlen; cbn; lia]|].
  rewrite Hrows, app_nil_r in Hcat'. set (x' := mkTs (ts_table x) new ts tr (ts_xmin x)) in *. apply (f_equal length) in Hes. rewrite length_fmap, length_reverse in Hes. cbn in Hes.
  destruct (read_selects_rows 20 (λ _, Ret) _ items' [x'] x' 5 (newTransaction 5 0 ∅) sample_read Hcat') as (es & Hrun & Hp);
    [by left|exact Hn|exact Hw| |exact Hsup|cbn [x' ts_rows]; lia|].
  - eapply Forall_impl; [exact Hnew|]. intros r [_ Hr0] _. by left.
  - eexists _, x', es. split; [|split; [exact Hrun|exact Hp]]. cbn [x' ts_rows]. intros Hnil. by rewrite Hnil in Hes.
Defined.

Lemma reopen_finds_tables_witness : ∃ (m m' : tableManager MockTranManager memDM booter) items x, catalog m items [x] ∧
  tbm_OpenManager 1 (NewSerializabilityManager mkMock (sm_DM (tbm_SM m))) (tbm_booter m) = (m', Ret tt) ∧ tbm_tc m' = tbm_tc m ∧ catalog m' items [x].
Proof.
  destruct sample_table as (m & items & x & Hcat & _ & _ & _ & _ & Hxm & _).
  destruct (reopen_finds_tables m items [x] mkMock (sm_DM (tbm_SM m)) 1 Hcat) as (m' & Hrun & Htc & Hcat'); [apply Hcat|by apply Forall_singleton; left|cbn; lia|].
  exists m, m', items, x. by split_and!.
Defined.
