(* ===== verification/TableDel.v ===== *)
(** Package [tbm]: deleting rows, when no other transaction holds them. *)
From S2P Require Import Prelude.
From S2P Require Import Codec.
From S2P Require Import Tm.
From S2P Require Import DmI.
From S2P Require Import Node.
From S2P Require Import Tree.
From S2P Require Import TreeRep.
From S2P Require Import LockTable.
From S2P Require Import Sm.
From S2P Require Import Parser.
From S2P Require Import Field.
From S2P Require Import Table.
From S2P Require Import TableData.
From S2P Require Import TableRep.
From S2P Require Import TableOps.
From S2P Require Import Booter.
From S2P Require Import TableMgr.
From S2P Require Import Catalog.
Local Open Scope Z_scope.

(** * Locks that are free *)

(** The transaction holds the row or nobody does. *)
Definition free_for (lt : lockTable) (xid uuid : Z) : Prop := isInList (x2u lt) xid uuid = true ∨ u2x lt !! uuid = None.

Lemma isInList_put (m : gmap UUID (list UUID)) a b x v : isInList m x v = true → isInList (putIntoList m a b) x v = true.
Proof.
  unfold isInList, putIntoList. destruct (decide (a = x)) as [->|Hne]; [|by rewrite lookup_insert_ne].
  rewrite lookup_insert_eq. destruct (m !! x) as [l|]; [|done]. cbn. intros Hl. rewrite existsb_app, Hl. done.
Qed.

Lemma isInList_put_same (m : gmap UUID (list UUID)) x v : isInList (putIntoList m x v) x v = true.
Proof. unfold isInList, putIntoList. rewrite lookup_insert_eq, existsb_app. cbn. by rewrite bool_decide_true, orb_true_r by done. Qed.

Lemma Add_free order xid uuid lt : free_for lt xid uuid →
  ∃ lt' ch, Add order xid uuid lt = (lt', Ret (true, Some ch)) ∧ chans lt' !! ch = Some true ∧ ∀ v, free_for lt xid v → free_for lt' xid v.
Proof.
  intros Hf. unfold Add. rewrite M_get_bind. destruct (isInList (x2u lt) xid uuid) eqn:Hin.
  - unfold grant_now, make_chan, send. unfold mbind, M_bind. cbn. rewrite lookup_insert_eq. cbn. eexists _, _. split; [done|]. split; [apply lookup_insert_eq|done].
  - destruct Hf as [?|Hn]; [congruence|]. rewrite Hn. unfold grant_now, make_chan, send. unfold mbind, M_bind, modify. cbn. rewrite lookup_insert_eq. cbn.
    eexists _, _. split; [done|]. split; [apply lookup_insert_eq|]. intros v Hv. unfold free_for in *. cbn.
    destruct (decide (uuid = v)) as [<-|Hne]; [left; apply isInList_put_same|]. destruct Hv as [Hv|Hv]; [left; by apply isInList_put|right; by rewrite lookup_insert_ne].
Qed.

Section Deleting.
Context {T : Type} `{!TransactionManager T} {D : Type} `{!DataManager D, !DataManagerOk D}.
Notation SM := (serializabilityManager T D).
Implicit Types (s : SM) (r : srow).

(** [Delete] on a row that the transaction does not see, and on one it sees
    and may delete. *)
Definition may_delete s (xid : XID) (tx : transaction) r : Prop :=
  free_for (sm_lt s) xid (s_uuid r) ∧ skipped (sm_TM s) tx (s_xmax r) = false.

Definition row_deleted (xid : XID) r : srow := mkRow (s_uuid r) (s_xmin r) xid (s_row r) (s_raw r).

Lemma Delete_request_run order s xid tx t items r : working s xid tx → dm_rep (sm_DM s) items → row_stored t items r → own_row tx (s_xmin r) (s_xmax r) →
  Delete_request order xid (s_uuid r) s =
    if decide (alive_row s tx r) then
      ('(ok, ch) ← on_lt (LockTable.Add order xid (s_uuid r));
       match ok : bool, ch with true, Some ch => mret (DeleteWait ch) | _, _ => _ ← update_object xid (set_Err ErrCannotSR); mret DeleteConflict end) s
    else (s, Ret (DeleteDone false)).
Proof.
  intros Hw Hd (Hi & Hu1 & Hu2 & _) Hown. unfold Delete_request. rewrite (M_bind_run _ _ _ _ _ (cached_working _ _ _ Hw)). pose proof Hw as (_ & _ & _ & ->).
  assert (Hr : row_at s (s_uuid r) (s_xmin r) (s_xmax r) (s_raw r)) by (split; [by eapply dm_Read_ok|done]).
  rewrite (M_bind_run _ _ _ _ _ (getEntry_row _ _ _ _ _ Hr)), M_get_bind, (IsVisible_alive _ _ _ _ _ Hu1 Hu2 Hown), M_lift_bind.
  destruct (decide (alive_row s tx r)) as [Ha|Ha]; unfold alive_row in Ha; [by rewrite Ha|by apply not_true_is_false in Ha as ->].
Qed.

Lemma alive_other s tx r : alive_row s tx r → s_xmax r ≠ 0 → s_xmax r ≠ t_XID tx.
Proof.
  unfold alive_row, alive. intros [_ Ha]%andb_true_iff Hx He. rewrite He in Ha. rewrite (bool_decide_true (t_XID tx ≠ 0)) in Ha by congruence.
  by rewrite bool_decide_true in Ha by done.
Qed.

Lemma sm_Delete_alive order s xid tx t items r : working s xid tx → 0 < xid → writer (D := D) xid → dm_rep (sm_DM s) items → row_stored t items r → own_row tx (s_xmin r) (s_xmax r) →
  alive_row s tx r → may_delete s xid tx r →
  ∃ d lt, sm_Delete order xid (s_uuid r) s = (set_lt lt (set_DM d s), Ret true) ∧
    dm_rep d (<[s_uuid r := mk_entry (s_xmin r) xid (s_raw r)]> items) ∧ (∀ n, dm_room (sm_DM s) n → dm_room d n) ∧ (∀ v, free_for (sm_lt s) xid v → free_for lt xid v).
Proof.
  intros Hw H0 [Hx Hwr0] Hd Hst Hown Ha [Hfree Hskip]. unfold is_u64 in Hx. pose proof Hst as (Hi & Hu1 & Hu2 & _).
  destruct (Add_free order xid (s_uuid r) (sm_lt s) Hfree) as (lt & ch & Hadd & Hch & Hmono). set (s1 := set_lt lt s).
  assert (Hw1 : working s1 xid tx) by exact Hw.
  assert (Hr1 : row_at s1 (s_uuid r) (s_xmin r) (s_xmax r) (s_raw r)) by (split; [by eapply dm_Read_ok|done]).
  destruct (dm_Write_ok (sm_DM s) items xid (s_uuid r) _ (mk_entry (s_xmin r) xid (s_raw r)) Hd Hwr0 Hi) as (d & Hwr & Hd' & Hroom); [by rewrite !zlen_mk_entry|].
  exists d, lt. split; [|split; [exact Hd'|split; [exact Hroom|exact Hmono]]].
  unfold sm_Delete. rewrite (M_bind_run _ _ s s1 (DeleteWait ch)).
  2: { rewrite (Delete_request_run order s xid tx t items r Hw Hd Hst Hown), decide_True by done. unfold on_lt, zoom, mbind, M_bind. by rewrite Hadd. }
  rewrite (M_bind_run _ _ s1 s1 tt) by (unfold receive; cbn [s1 set_lt sm_lt]; by rewrite decide_True).
  rewrite (M_bind_run _ _ s1 (set_lt lt (set_DM d s)) (DeleteDone true)); [done|].
  rewrite (Delete_locked_run s1 xid tx (s_uuid r) (s_xmin r) (s_xmax r) (s_raw r) Hw1 Hr1). rewrite decide_False.
  - cbn [s1 set_lt sm_TM sm_DM]. rewrite Hskip, Hwr. done.
  - intros He. apply (alive_other s tx r Ha); [lia|]. destruct Hw as (_ & _ & -> & _). done.
Qed.

Lemma sm_Delete_dead order s xid tx t items r : working s xid tx → dm_rep (sm_DM s) items → row_stored t items r → own_row tx (s_xmin r) (s_xmax r) →
  ¬ alive_row s tx r → sm_Delete order xid (s_uuid r) s = (s, Ret false).
Proof.
  intros Hw Hd Hst Hown Ha. unfold sm_Delete. rewrite (M_bind_run _ _ s s (DeleteDone false)); [done|].
  by rewrite (Delete_request_run order s xid tx t items r Hw Hd Hst Hown), decide_False.
Qed.

(** What the deletion of the rows [R] makes of the items. *)
Record deleted_in (xid : XID) (gone : srow → Prop) (R : list srow) (items items' : gmap UUID (list byte)) : Prop := {
  del_gone : ∀ r, r ∈ R → gone r → items' !! s_uuid r = (Some (mk_entry (s_xmin r) xid (s_raw r)) : option (list byte));
  del_kept : ∀ v, (∀ r, r ∈ R → gone r → s_uuid r ≠ v) → items' !! v = items !! v
}.

Lemma deleteRows_run order xid tx t R : 0 < xid → writer (D := D) xid → NoDup (s_uuid <$> R) → ∀ s items, working s xid tx → dm_rep (sm_DM s) items →
  Forall (row_stored t items) R → Forall (λ r, own_row tx (s_xmin r) (s_xmax r)) R → Forall (λ r, alive_row s tx r → may_delete s xid tx r) R →
  ∃ d lt items', deleteRows order xid (s_uuid <$> R) s = (set_lt lt (set_DM d s), Ret (zlen (filter (alive_row s tx) R))) ∧
    dm_rep d items' ∧ (∀ n, dm_room (sm_DM s) n → dm_room d n) ∧ deleted_in xid (alive_row s tx) R items items'.
Proof.
  intros H0 Hx Hnd. induction R as [|r R IH]; intros s items Hw Hd Hst Hown Hmay.
  - exists (sm_DM s), (sm_lt s), items. split; [by destruct s|]. split_and!; try done. split; [by intros r ?%elem_of_nil|done].
  - cbn [fmap list_fmap] in Hnd |- *. apply NoDup_cons in Hnd as [Hr Hnd]. apply Forall_cons in Hst as [Hsr Hst]. apply Forall_cons in Hown as [Hor Hown]. apply Forall_cons in Hmay as [Hmr Hmay].
    assert (Hne : ∀ r', r' ∈ R → s_uuid r' ≠ s_uuid r) by (intros r' Hr' He; apply Hr; rewrite <- He; by apply list_elem_of_fmap_2).
    cbn [deleteRows]. destruct (decide (alive_row s tx r)) as [Ha|Ha].
    + destruct (sm_Delete_alive order s xid tx t items r Hw H0 Hx Hd Hsr Hor Ha (Hmr Ha)) as (d1 & lt1 & Hrun1 & Hd1 & Hroom1 & Hmono).
      destruct (IH Hnd (set_lt lt1 (set_DM d1 s)) _ Hw Hd1) as (d2 & lt2 & items' & Hrun2 & Hd2 & Hroom2 & [Hg Hk]).
      * rewrite Forall_forall in *. intros r' Hr'. eapply row_stored_agree; [|by apply Hst]. apply lookup_insert_ne. intros He. by apply (Hne r').
      * done.
      * eapply Forall_impl; [exact Hmay|]. intros r' Hm Ha'. destruct (Hm Ha') as [Hf Hs]. split; [by apply Hmono|done].
      * exists d2, lt2, items'. rewrite (M_bind_run _ _ _ _ _ Hrun1), (M_bind_run _ _ _ _ _ Hrun2). rewrite filter_cons_True by done. split.
        { unfold mret, M_ret. do 2 f_equal. rewrite zlen_cons. apply Z.add_comm. }
        split; [done|]. split; [by eauto|]. split.
        -- intros r' [->|Hr']%elem_of_cons Ha'; [|by apply Hg]. rewrite Hk; [apply lookup_insert_eq|]. intros r' Hr' _. by apply Hne.
        -- intros v Hv. rewrite Hk; [|intros r' Hr'; apply Hv; by right]. apply lookup_insert_ne. apply Hv; [by left|done].
    + destruct (IH Hnd s items Hw Hd Hst Hown Hmay) as (d2 & lt2 & items' & Hrun2 & Hd2 & Hroom2 & [Hg Hk]).
      exists d2, lt2, items'. rewrite (M_bind_run _ _ _ _ _ (sm_Delete_dead order s xid tx t items r Hw Hd Hsr Hor Ha)), (M_bind_run _ _ _ _ _ Hrun2).
      rewrite filter_cons_False by done. split; [done|]. split; [done|]. split; [done|]. split.
      * by intros r' [->|Hr']%elem_of_cons Ha'; [done|apply Hg].
      * intros v Hv. apply Hk. intros r' Hr'. apply Hv. by right.
Qed.
End Deleting.

(** * The statement *)

Lemma forest_agree items items' ts P : (∀ v, v ∈ ts ≫= t_uids → items' !! v = items !! v) → (∀ v, v ∈ P → is_Some (items' !! v)) → forest items ts P → forest items' ts P.
Proof.
  intros Ht HP (Ha & Hn & _). split; [|split; [done|by apply Forall_forall]]. rewrite Forall_forall in *. intros t Hin. eapply tree_at_agree; [|by apply Ha].
  intros v Hv. apply Ht, list_elem_of_bind. by exists t.
Qed.

Lemma NoDup_image_inj {A B} (f : A → B) l x y : NoDup (f <$> l) → x ∈ l → y ∈ l → f x = f y → x = y.
Proof.
  induction l as [|z l IH]; [by intros _ ?%elem_of_nil|]. cbn [fmap list_fmap]. intros [Hz Hn]%NoDup_cons [->|Hx]%elem_of_cons [->|Hy]%elem_of_cons He; try done.
  - destruct Hz. rewrite He. by apply list_elem_of_fmap_2.
  - destruct Hz. rewrite <- He. by apply list_elem_of_fmap_2.
  - by apply IH.
Qed.

Lemma NoDup_submseteq {A} (l k : list A) : l ⊆+ k → NoDup k → NoDup l.
Proof. intros [j Hj]%submseteq_Permutation Hk. rewrite Hj in Hk. by apply NoDup_app in Hk as [? _]. Qed.

Section Statement.
Context {T : Type} `{!TransactionManager T} {D : Type} `{!DataManager D, !DataManagerOk D} {B : Type} `{!Booter B, !BooterOk B}.
Context (fuel : nat) (order : list XID) (sort_Slice : (row → row → outcome bool) → list row → outcome (list row)).
Notation SM := (serializabilityManager T D).
Notation TBM := (tableManager T D B).
Implicit Types (m : TBM) (s : SM).

(** The rows of the table once the selected ones are deleted. *)
Definition gone s (xid : XID) (tx : transaction) (x : tstate) (w : option Where) (r : srow) : srow := if decide (selected s tx x w r) then row_deleted xid r else r.
Definition without s (xid : XID) (tx : transaction) (x : tstate) (w : option Where) : tstate :=
  mkTs (ts_table x) (gone s xid tx x w <$> ts_rows x) (ts_idx x) (ts_tree x) (ts_xmin x).

Lemma gone_uuid s xid tx x w r : s_uuid (gone s xid tx x w r) = s_uuid r ∧ s_row (gone s xid tx x w r) = s_row r.
Proof. unfold gone. by case_decide. Qed.

Lemma gone_uuids s xid tx x w : s_uuid <$> (gone s xid tx x w <$> ts_rows x) = s_uuid <$> ts_rows x.
Proof. rewrite <- list_fmap_compose. apply list_fmap_ext. intros i r _. apply gone_uuid. Qed.

Lemma gone_index s xid tx x w (key : row → UUID) : index_ents (λ r, key (s_row r)) (gone s xid tx x w <$> ts_rows x) = index_ents (λ r, key (s_row r)) (ts_rows x).
Proof. unfold index_ents. rewrite <- list_fmap_compose. apply list_fmap_ext. intros i r _. unfold compose. cbv beta. destruct (gone_uuid s xid tx x w r) as [-> ->]. done. Qed.

Lemma gone_ents s xid tx x w : index_ents s_uuid (gone s xid tx x w <$> ts_rows x) = index_ents s_uuid (ts_rows x).
Proof. unfold index_ents. rewrite <- list_fmap_compose. apply list_fmap_ext. intros i r _. unfold compose. cbv beta. by destruct (gone_uuid s xid tx x w r) as [-> _]. Qed.

(** The items after the deletion of [R], which are the selected rows and others
    that nobody sees. *)
Lemma database_without s xid tx items items' X1 x X2 w R : 0 < xid < 2 ^ 64 → database items (X1 ++ x :: X2) → R ⊆+ ts_rows x →
  filter (alive_row s tx) R ≡ₚ filter (selected s tx x w) (ts_rows x) → deleted_in xid (alive_row s tx) R items items' →
  database items' (X1 ++ without s xid tx x w :: X2).
Proof.
  intros Hx Hdb Hsub Hp [Hg Hk]. destruct (database_focus _ _ _ _ Hdb) as (Hfo & ([Htr Hix Hb He Hst Hwf] & Hrec & Hxm) & Hoth).
  pose proof Hfo as (Ha & Hn & Hs). apply NoDup_app in Hn as (_ & Hdis & Hn). unfold ts_items in Hn, Hdis, Hs. rewrite <- app_assoc in Hn, Hdis, Hs.
  pose proof Hn as Hn'. apply NoDup_app in Hn' as (Hnr & Hdr & _).
  assert (Hsel : ∀ r, r ∈ R → alive_row s tx r → r ∈ ts_rows x ∧ selected s tx x w r).
  { intros r Hr Hal. assert (Hin : r ∈ filter (selected s tx x w) (ts_rows x)) by (rewrite <- Hp; by apply list_elem_of_filter). by apply list_elem_of_filter in Hin as [? ?]. }
  assert (Hrow : ∀ r, r ∈ ts_rows x → items' !! s_uuid r = (Some (mk_entry (s_xmin r) (s_xmax (gone s xid tx x w r)) (s_raw r)) : option (list byte))).
  { intros r Hr. rewrite Forall_forall in Hst. destruct (Hst r Hr) as (Hi & _). unfold gone. case_decide as Hsr.
    - assert (Hin : r ∈ filter (alive_row s tx) R) by (rewrite Hp; by apply list_elem_of_filter). apply list_elem_of_filter in Hin as [Hal Hin]. by apply Hg.
    - rewrite Hk; [done|]. intros r' Hr' Hal' Heq. destruct (Hsel r' Hr' Hal') as [Hr2 Hs2]. by rewrite (NoDup_image_inj s_uuid (ts_rows x) r' r Hnr Hr2 Hr Heq) in Hs2. }
  assert (Hout : ∀ v, v ∉ s_uuid <$> ts_rows x → items' !! v = items !! v).
  { intros v Hv. apply Hk. intros r Hr Hal <-. apply Hv. apply list_elem_of_fmap_2. by apply Hsel. }
  assert (Hfo' : forest items' (ts_trees x ++ ((X1 ++ X2) ≫= ts_trees)) (ts_items x ++ ((X1 ++ X2) ≫= ts_items))).
  { eapply forest_agree; [| |exact Hfo].
    - intros v Hv. apply Hout. intros Hin. apply (Hdis v Hv), elem_of_app. by left.
    - intros v Hv. destruct (decide (v ∈ s_uuid <$> ts_rows x)) as [Hin|Hni].
      + apply list_elem_of_fmap in Hin as (r & -> & Hr). rewrite (Hrow r Hr). by eexists.
      + rewrite Hout by done. rewrite Forall_forall in Hs. apply Hs. unfold ts_items in Hv. by rewrite <- app_assoc in Hv. }
  apply (database_unfocus items items'); [exact Hoth| | |].
  - split; [|split; [|exact Hxm]].
    + split; cbn [without ts_table ts_rows ts_idx ts_tree]; [by destruct Hfo' as [[? _]%Forall_app _]| |done|by rewrite gone_ents| |done].
      * eapply Forall2_impl; [exact Hix|]. intros f tree [Hb' He']. split; [done|]. by rewrite (gone_index s xid tx x w (key_of f)).
      * apply Forall_fmap, Forall_forall. intros r Hr. rewrite Forall_forall in Hst. destruct (Hst r Hr) as (_ & Hu1 & Hu2 & Hrest). specialize (Hrow r Hr).
        unfold compose, gone in *. case_decide; (split; [exact Hrow|]); [|done]. split; [done|]. split; [unfold is_u64; cbn; lia|done].
    + cbn [without ts_table]. eapply table_recorded_agree; [|exact Hrec]. intros v Hv. apply Hout. intros Hin. apply (Hdr v Hin), elem_of_app. by left.
  - unfold ts_items at 1. cbn [without ts_rows ts_table]. rewrite gone_uuids. exact Hfo'.
  - intros v Hv. apply Hout. intros Hin. apply (Hdr v Hin), elem_of_app. by right.
Qed.

Lemma gone_selected s s' xid tx x w w' : t_XID tx = xid → 0 < xid → (∀ r, alive_row s' tx r ↔ alive_row s tx r) →
  s_row <$> filter (selected s' tx (without s xid tx x w) w') (ts_rows (without s xid tx x w)) =
  s_row <$> filter (λ r, selected s tx x w' r ∧ ¬ selected s tx x w r) (ts_rows x).
Proof.
  intros Ht Hx Hal. cbn [without ts_rows]. rewrite filter_image, <- list_fmap_compose.
  rewrite (filter_agree _ (λ r, selected s tx x w' r ∧ ¬ selected s tx x w r)).
  - apply list_fmap_ext. intros i r _. apply gone_uuid.
  - apply Forall_true. intros r. unfold selected at 1. rewrite Hal. cbn [without ts_table]. destruct (gone_uuid s xid tx x w r) as [_ ->].
    unfold gone. case_decide as Hs; [|by split; [intros [? ?]; split; [split|]|intros [[? ?] _]; split]]. split; [|by intros [_ ?]]. intros [Ha _]. exfalso. apply (alive_other s tx (row_deleted xid r) Ha); cbn; lia.
Qed.

(** C28: For a condition that is [where_supported] - none, or one that starts with
    a field without an index, or comparisons of one numeric indexed field, not
    joined by [or]; a condition on an indexed and a second field deletes other
    rows, as C36 shows for [read] - [delete] marks exactly the rows that the
    transaction sees and that fulfil the condition, when no other transaction
    has locked one of them or deleted it meanwhile; it tells how many, the
    transaction does not see them any more, and every other row, index and
    table is as before.  The database is a [catalog] (the keys in an index are
    distinct), and no row the transaction created was deleted by another one. *)
Theorem delete_removes_rows m items X1 x X2 xid tx del : catalog m items (X1 ++ x :: X2) → ts_name x = Delete_TableName del →
  working (tbm_SM m) xid tx → 0 < xid → writer (D := D) xid → sees_own tx x → where_supported (ts_table x) (Delete_Where del) → (2 * length (ts_rows x) + 3 ≤ fuel)%nat →
  Forall (λ r, selected (tbm_SM m) tx x (Delete_Where del) r → may_delete (tbm_SM m) xid tx r) (ts_rows x) →
  let n := zlen (filter (selected (tbm_SM m) tx x (Delete_Where del)) (ts_rows x)) in
  ∃ m' items', tbm_Delete fuel order xid del m = (m', Ret (str_bytes ("Delete " +:+ Uint32ToStr (u32 n))%string)) ∧
    catalog m' items' (X1 ++ without (tbm_SM m) xid tx x (Delete_Where del) :: X2) ∧ tbm_tc m' = tbm_tc m ∧
    ∀ read, Read_TableName read = Delete_TableName del → where_supported (ts_table x) (Read_Where read) →
      ∃ es, tbm_Read fuel sort_Slice xid read m' = (m', str_bytes <$> renderRows sort_Slice (ts_table x) read es) ∧
        es ≡ₚ s_row <$> filter (λ r, selected (tbm_SM m) tx x (Read_Where read) r ∧ ¬ selected (tbm_SM m) tx x (Delete_Where del) r) (ts_rows x).
Proof.
  intros Hcat Hname Hw H0 Hx Hown Hsup Hfuel Hmay n. assert (Hx64 : 0 < xid < 2 ^ 64) by (destruct Hx as [Hx _]; unfold is_u64 in Hx; lia). pose proof Hcat as [Hd Hdb Hboot Htc Hnd]. set (w := Delete_Where del) in *. set (s := tbm_SM m) in *.
  destruct (database_focus _ _ _ _ Hdb) as (Hfo & (Htab & _) & _).
  destruct (where_rows fuel (ts_table x) (ts_rows x) s xid tx w items _ _ Hd Htab Hw Hown Hsup Hfuel) as (R & Hrun & Hsub & Hst & Hown' & Hp).
  assert (Hp' : filter (alive_row s tx) R ≡ₚ filter (selected s tx x w) (ts_rows x)) by (rewrite Hp; erewrite filter_agree; [done|by apply Forall_true]).
  assert (Hndr : NoDup (s_uuid <$> R)).
  { apply (NoDup_submseteq _ (s_uuid <$> ts_rows x)); [by apply fmap_submseteq|]. destruct Hfo as (_ & Hn & _). apply NoDup_app in Hn as (_ & _ & Hn).
    unfold ts_items in Hn. rewrite <- app_assoc in Hn. by apply NoDup_app in Hn as [? _]. }
  assert (Hmay' : Forall (λ r, alive_row s tx r → may_delete s xid tx r) R).
  { apply Forall_forall. intros r Hr Ha. assert (Hin : r ∈ filter (selected s tx x w) (ts_rows x)) by (rewrite <- Hp'; by apply list_elem_of_filter).
    apply list_elem_of_filter in Hin as [Hsel Hin]. rewrite Forall_forall in Hmay. by apply Hmay. }
  destruct (deleteRows_run order xid tx (ts_table x) R H0 Hx Hndr s items Hw Hd Hst Hown' Hmay') as (d & lt & items' & Hdel & Hd' & _ & Hin).
  set (m' := set_SM (set_lt lt (set_DM d s)) m).
  assert (Hcat' : catalog m' items' (X1 ++ without s xid tx x w :: X2)).
  { apply (catalog_rows m items); [exact Hcat|exact Hd'|by eapply database_without]. }
  exists m', items'. split; [|split; [exact Hcat'|split; [done|]]].
  - unfold tbm_Delete. rewrite (M_bind_run _ _ m m (ts_table x)); [|eapply the_table_run; [exact Hcat|apply elem_of_app; right; by left|done]].
    rewrite (M_bind_run _ _ m m' (zlen (filter (alive_row s tx) R))).
    + unfold mret, M_ret, n. do 6 f_equal. unfold zlen. f_equal. by rewrite Hp'.
    + apply on_SM_run. unfold table_Delete. fold w. rewrite (M_bind_run _ _ _ _ _ Hrun). exact Hdel.
  - intros read Hrn Hrs. destruct (tbm_Read_run fuel sort_Slice m' items' _ (without s xid tx x w) xid tx read Hcat') as (es & Hrd & Hes);
      [apply elem_of_app; right; by left|by rewrite Hrn|exact Hw| |exact Hrs|cbn [without ts_rows]; by rewrite length_fmap|].
    + apply Forall_fmap. eapply Forall_impl; [exact Hown|]. intros r Ho. unfold compose, gone. case_decide; [|done]. intros He. right. cbn. by destruct Hw as (_ & _ & -> & _).
    + exists es. split; [exact Hrd|]. rewrite Hes. rewrite (gone_selected s (tbm_SM m') xid tx x w (Read_Where read)); [done|by destruct Hw as (_ & _ & -> & _)|lia|done].
Qed.
End Statement.

(** Two rows, one of which fulfils the condition. *)
Definition sample_delete : Parser.Delete := mkDelete "t" (Some (mkWhere (mkExp "id" ">" "5") "" None)).

Lemma delete_removes_rows_witness : ∃ (m m' : tableManager MockTranManager memDM booter) items x (s : serializabilityManager MockTranManager memDM),
  length (ts_rows x) = 2%nat ∧ catalog m' items [without s 5 (newTransaction 5 0 ∅) x (Delete_Where sample_delete)] ∧
  let n := zlen (filter (selected s (newTransaction 5 0 ∅) x (Delete_Where sample_delete)) (ts_rows x)) in
  tbm_Delete 20 [] 5 sample_delete m = (m', Ret (str_bytes ("Delete " +:+ Uint32ToStr (u32 n))%string)).
Proof.
  destruct sample_table as (m & items & x & Hcat & Hw & Hlt & Hroom & Hrows & _ & Hn & u1 & u2 & i1 & Hi & Hf).
  destruct (sample_described (ts_table x) u1 u2 i1 Hf Hi) as (Hdes & Hkeys & Hsup & Hlen).
  destruct (tbm_Insert_run 20 m items [] x [] 5 (newTransaction 5 0 ∅) sample_insert sample_es 10) as (d & items' & new & ts & tr & _ & Hcat' & Hnew & Hes & _);
    [exact Hcat|exact Hn|exact Hw|by split|exact Hdes|by rewrite Hrows|rewrite Hrows; cbn; lia|eapply sample_room; [exact Hroom|rewrite Hlen; cbn; lia]|].
  rewrite Hrows, app_nil_r in Hcat'. set (x' := mkTs (ts_table x) new ts tr (ts_xmin x)) in *. apply (f_equal length) in Hes. rewrite length_fmap, length_reverse in Hes. cbn in Hes.
  destruct (delete_removes_rows 20 [] (λ _, Ret) (set_SM (set_DM d (tbm_SM m)) m) items' [] x' [] 5 (newTransaction 5 0 ∅) sample_delete Hcat') as (m' & items'' & Hrun & Hcat'' & _);
    [exact Hn|exact Hw|done|by split| |exact Hsup|cbn [x' ts_rows]; lia| |].
  - eapply Forall_impl; [exact Hnew|]. intros r [_ Hr0] _. by left.
  - apply Forall_forall. intros r Hr _. split; [right; cbn; by rewrite Hlt|done].
  - eexists _, m', items'', x', _. split; [exact Hes|]. split; [exact Hcat''|exact Hrun].
Defined.
