(* ===== verification/TableUpd.v ===== *)
(** Package [tbm]: updating rows, when no other transaction holds them.  An
    update deletes the row it finds and inserts a new one, whose keys must be
    new to every index. *)
From S2P Require Import Prelude.
From S2P Require Import Codec.
From S2P Require Import Tm.
From S2P Require Import DmI.
From S2P Require Import Node.
From S2P Require Import Tree.
From S2P Require Import TreeRep.
From S2P Require Import LockTable.
From S2P Require Import Sm.
From S2P Require Import Parser.
From S2P Require Import Field.
From S2P Require Import Table.
From S2P Require Import TableData.
From S2P Require Import TableRep.
From S2P Require Import TableOps.
From S2P Require Import Booter.
From S2P Require Import TableMgr.
From S2P Require Import Catalog.
From S2P Require Import TableDel.
Local Open Scope Z_scope.

(** * A table and one of its rows *)

(** The order of the rows does not matter. *)
Lemma table_db_perm t items R R' ts tr : R ≡ₚ R' → table_db t items R ts tr → table_db t items R' ts tr.
Proof.
  intros Hp [Htr Hix Hb He Hst Hwf]. split; try done.
  - eapply Forall2_impl; [exact Hix|]. intros f tree [? Hent]. split; [done|]. rewrite Hent. unfold index_ents. by rewrite Hp.
  - rewrite He. unfold index_ents. by rewrite Hp.
  - by rewrite <- Hp.
Qed.

Lemma forest_rows items ts R R' P : R ≡ₚ R' → forest items ts ((s_uuid <$> R) ++ P) → forest items ts ((s_uuid <$> R') ++ P).
Proof. intros Hp. apply forest_both; [done|by rewrite Hp]. Qed.

Lemma keys_fresh_perm t R R' es : R ≡ₚ R' → keys_fresh t R es → keys_fresh t R' es.
Proof. intros Hp Hk. eapply Forall_impl; [exact Hk|]. intros f [? Hnd]. split; [done|]. by rewrite <- Hp. Qed.

(** Marking a row as deleted changes its item and nothing else. *)
Lemma row_marked t items r R ts tr ots P xid : table_db t items (r :: R) ts tr → forest items ((tr :: ts) ++ ots) ((s_uuid <$> r :: R) ++ P) → is_u64 xid →
  let items' := <[s_uuid r := mk_entry (s_xmin r) xid (s_raw r)]> items in
  table_db t items' (row_deleted xid r :: R) ts tr ∧ forest items' ((tr :: ts) ++ ots) ((s_uuid <$> r :: R) ++ P) ∧ ∀ v, v ∈ P → items' !! v = items !! v.
Proof.
  intros [Htr Hix Hb He Hst Hwf] Hfo Hx items'. pose proof Hfo as (Ha & Hn & Hs). apply NoDup_app in Hn as (_ & Hdis & Hn).
  cbn [fmap list_fmap app] in Hn, Hdis, Hs. apply NoDup_cons in Hn as [Hr Hn].
  assert (Hne : ∀ v, v ∈ (s_uuid <$> R) ++ P → items' !! v = items !! v) by (intros v Hv; apply lookup_insert_ne; intros <-; done).
  assert (Hfo' : forest items' ((tr :: ts) ++ ots) ((s_uuid <$> r :: R) ++ P)).
  { eapply forest_agree; [| |exact Hfo].
    - intros v Hv. apply lookup_insert_ne. intros <-. apply (Hdis _ Hv). by left.
    - intros v Hv. destruct (decide (s_uuid r = v)) as [<-|Hneq]; [unfold items'; rewrite lookup_insert_eq; by eexists|].
      unfold items'. rewrite lookup_insert_ne by done. rewrite Forall_forall in Hs. by apply Hs. }
  split; [|split; [exact Hfo'|intros v Hv; apply Hne, elem_of_app; by right]].
  apply Forall_cons in Hst as [(Hi & Hu1 & Hu2 & Hrest) Hst]. split; [by destruct Hfo' as [[? _]%Forall_app _]| |done|exact He| |done].
  - eapply Forall2_impl; [exact Hix|]. intros f tree [? Hent]. by split.
  - apply Forall_cons. split; [split; [apply lookup_insert_eq|exact (conj Hu1 (conj Hx Hrest))]|]. apply Forall_forall. intros r' Hr'. rewrite Forall_forall in Hst.
    eapply row_stored_agree; [|by apply Hst]. apply Hne, elem_of_app. left. by apply list_elem_of_fmap_2.
Qed.

(** The row with a new value. *)
Definition changed (fd : field) (v : value) (e : row) : row := <[FName fd := v]> e.

Lemma changed_ok t e fd v : table_wf t → row_ok t e → fd ∈ tb_fields t → value_ok fd v → row_ok t (changed fd v e).
Proof.
  intros [Hnd _] [Hdom Hok] Hin Hv. split.
  - unfold changed. rewrite dom_insert_L, Hdom. assert (Hn : FName fd ∈ FName <$> tb_fields t) by by apply list_elem_of_fmap_2. set_solver.
  - intros f Hf. unfold changed, row_get. destruct (decide (FName fd = FName f)) as [Heq|Hne].
    + rewrite <- Heq, lookup_insert_eq. cbn. by rewrite (NoDup_image_inj FName (tb_fields t) f fd).
    + rewrite lookup_insert_ne by done. by apply Hok.
Qed.

Section Updating.
Context {T : Type} `{!TransactionManager T} {D : Type} `{!DataManager D, !DataManagerOk D}.
Context (fuel : nat) (order : list XID).
Notation SM := (serializabilityManager T D).
Implicit Types (s : SM) (r : srow) (R : list srow).

(** The new values fit a row. *)
Definition rows_fit (t : table) (es : list row) : Prop := Forall (λ e, ∀ raw, entryToRaw t e = Ret raw → zlen raw ≤ 8140) es.

(** One row that is visible. *)
Lemma update_row s xid tx t r R items ts tr ots P fd v m : working s xid tx → 0 < xid → writer (D := D) xid → dm_rep (sm_DM s) items →
  table_db t items (r :: R) ts tr → forest items ((tr :: ts) ++ ots) ((s_uuid <$> r :: R) ++ P) → own_row tx (s_xmin r) (s_xmax r) →
  alive_row s tx r → may_delete s xid tx r → fd ∈ tb_fields t → value_ok fd v → let e := changed fd v (s_row r) in
  rows_fit t [e] → keys_fresh t (r :: R) [e] → (2 * S (length R) + 5 ≤ fuel)%nat → has_room (sm_DM s) (2 * length (index_fields t) + 3 + m) →
  ∃ d lt uuid raw items' ts' tr', let s' := set_lt lt (set_DM d s) in
    (∀ uuids, updateRows fuel order t xid fd v (s_uuid r :: uuids) s = (count ← updateRows fuel order t xid fd v uuids; mret (count + 1)) s') ∧
    dm_rep d items' ∧ table_db t items' (new_row xid uuid e raw :: row_deleted xid r :: R) ts' tr' ∧
    forest items' ((tr' :: ts') ++ ots) ((s_uuid <$> new_row xid uuid e raw :: row_deleted xid r :: R) ++ P) ∧
    (∀ v, v ∈ P → items' !! v = items !! v) ∧ has_room d m ∧ (∀ v, free_for (sm_lt s) xid v → free_for lt xid v).
Proof.
  intros Hw H0 Hx Hd Htab Hfo Hown Hal Hmay Hfd Hv e Hfit Hkeys Hfuel (k & Hk & Hkr). pose proof (db_wf _ _ _ _ _ Htab) as Hwf.
  pose proof (db_stored _ _ _ _ _ Htab) as Hst. apply Forall_cons in Hst as [Hsr _]. pose proof Hsr as (_ & _ & _ & _ & Hok & _).
  destruct (sm_Delete_alive order s xid tx t items r Hw H0 Hx Hd Hsr Hown Hal Hmay) as (d1 & lt & Hdel & Hd1 & Hroom1 & Hmono).
  destruct (row_marked _ _ _ _ _ _ _ _ xid Htab Hfo (proj1 Hx)) as (Htab1 & Hfo1 & Hag1). set (s1 := set_lt lt (set_DM d1 s)) in *.
  pose proof (changed_ok t (s_row r) fd v Hwf Hok Hfd Hv) as Hok'. destruct (row_read_back t e [] (wf_names _ Hwf) Hok') as (raw & Hraw & _).
  destruct (insert_row_index_first fuel t (row_deleted xid r :: R) s1 xid tx e raw _ ts tr ots P m Hd1 Htab1 Hfo1 Hw Hx Hok' Hraw) as (d2 & uuid & items2 & ts2 & tr2 & Hrun & Hd2 & Htab2 & Hfo2 & Hag2 & Hroom2);
    [exact (proj1 (Forall_singleton _ _) Hfit _ Hraw)|exact Hkeys|exact Hfuel|exists k; split; [exact Hk|by apply Hroom1]|].
  exists d2, lt, uuid, raw, items2, ts2, tr2. cbv zeta. split; [|split; [exact Hd2|split; [exact Htab2|split; [exact Hfo2|split; [|split; [exact Hroom2|exact Hmono]]]]]].
  - intros uuids. cbn [updateRows]. rewrite (M_bind_run _ _ _ _ _ (read_row t items s xid tx r Hd Hsr Hw Hown)), decide_True by exact Hal.
    rewrite (M_bind_run _ _ _ _ _ Hdel). fold s1. rewrite (parse_row t items r Hwf Hsr), M_lift_bind. cbv zeta.
    change (<[FName fd := v]> (s_row r)) with e. rewrite Hraw, M_lift_bind. by rewrite (then_run _ _ _ _ _ _ _ Hrun).
  - intros w Hp. by rewrite Hag2, Hag1.
Qed.

(** What the loop makes of the rows: the new ones, the old ones marked, and the
    others as they were. *)
Definition updated (xid : XID) (new A B : list srow) : list srow := new ++ (row_deleted xid <$> A) ++ B.

Lemma updateRows_run xid tx t fd v Q : 0 < xid → writer (D := D) xid → fd ∈ tb_fields t → value_ok fd v → ∀ R s items ts tr ots P m,
  working s xid tx → dm_rep (sm_DM s) items → table_db t items (Q ++ R) ts tr → forest items ((tr :: ts) ++ ots) ((s_uuid <$> Q ++ R) ++ P) →
  Forall (λ r, own_row tx (s_xmin r) (s_xmax r)) Q → Forall (λ r, alive_row s tx r → may_delete s xid tx r) Q →
  let A := filter (alive_row s tx) Q in let es := changed fd v <$> (s_row <$> A) in
  rows_fit t es → keys_fresh t (Q ++ R) es → (2 * (length (Q ++ R) + length A) + 5 ≤ fuel)%nat →
  has_room (sm_DM s) (length A * (2 * length (index_fields t) + 3) + m) →
  ∃ d lt items' ts' tr' new, updateRows fuel order t xid fd v (s_uuid <$> Q) s = (set_lt lt (set_DM d s), Ret (zlen A)) ∧ dm_rep d items' ∧
    table_db t items' (updated xid new A (filter (λ r, ¬ alive_row s tx r) Q ++ R)) ts' tr' ∧
    forest items' ((tr' :: ts') ++ ots) ((s_uuid <$> updated xid new A (filter (λ r, ¬ alive_row s tx r) Q ++ R)) ++ P) ∧
    (∀ v, v ∈ P → items' !! v = items !! v) ∧ has_room d m ∧ Forall (λ r, s_xmin r = xid ∧ s_xmax r = 0) new ∧ s_row <$> new = reverse es.
Proof.
  intros H0 Hx Hfd Hv. induction Q as [|r Q IH]; intros R s items ts tr ots P m Hw Hd Htab Hfo Hown Hmay A es Hfit Hkeys Hfuel Hroom.
  - exists (sm_DM s), (sm_lt s), items, ts, tr, []. split; [by destruct s|]. by split_and!.
  - apply Forall_cons in Hown as [Ho Hown]. apply Forall_cons in Hmay as [Hm Hmay]. subst A es. cbn [fmap list_fmap]. destruct (decide (alive_row s tx r)) as [Ha|Ha].
    + rewrite (filter_cons_True (alive_row s tx)) in Hfit, Hkeys, Hfuel, Hroom by done. cbn [fmap list_fmap length app] in Hfit, Hkeys, Hfuel, Hroom, Htab, Hfo.
      apply Forall_cons in Hfit as [Hfit1 Hfit]. destruct (keys_fresh_cons _ _ _ _ xid Hkeys) as [Hk1 Hk2].
      set (A := filter (alive_row s tx) Q) in *. set (ix := length (index_fields t)) in *.
      destruct (update_row s xid tx t r (Q ++ R) items ts tr ots P fd v (length A * (2 * ix + 3) + m) Hw H0 Hx Hd Htab Hfo Ho Ha (Hm Ha) Hfd Hv)
        as (d1 & lt1 & uuid & raw & items1 & ts1 & tr1 & Hrun1 & Hd1 & Htab1 & Hfo1 & Hag1 & Hroom1 & Hmono);
        [by apply Forall_singleton|exact Hk1|lia|fold ix; by replace (2 * ix + 3 + (length A * (2 * ix + 3) + m))%nat with (S (length A) * (2 * ix + 3) + m)%nat by lia|].
      set (N := new_row xid uuid _ raw) in *. assert (Hp : N :: row_deleted xid r :: Q ++ R ≡ₚ Q ++ N :: row_deleted xid r :: R) by (by rewrite <- !Permutation_middle).
      destruct (IH (N :: row_deleted xid r :: R) (set_lt lt1 (set_DM d1 s)) items1 ts1 tr1 ots P m) as (d2 & lt2 & items2 & ts2 & tr2 & new & Hrun2 & Hd2 & Htab2 & Hfo2 & Hag2 & Hroom2 & Hnew & Hes);
        [exact Hw|exact Hd1|by eapply table_db_perm|eapply forest_rows; [exact Hp|exact Hfo1]|exact Hown| |exact Hfit| | |exact Hroom1|].
      { eapply Forall_impl; [exact Hmay|]. intros r' Hm' Ha'. destruct (Hm' Ha') as [Hf Hs]. split; [by apply Hmono|exact Hs]. }
      { eapply keys_fresh_perm; [exact Hp|]. exact (Hk2 uuid raw). }
      { fold A. rewrite <- Hp. cbn [length]. change (filter (alive_row (set_lt lt1 (set_DM d1 s)) tx) Q) with A. lia. }
      assert (Hp2 : updated xid new A (filter (λ r, ¬ alive_row s tx r) Q ++ N :: row_deleted xid r :: R) ≡ₚ updated xid (new ++ [N]) (r :: A) (filter (λ r, ¬ alive_row s tx r) Q ++ R)).
      { unfold updated. cbn [fmap list_fmap]. rewrite <- !app_assoc. apply Permutation_app_head. cbn [app]. rewrite <- !Permutation_middle. done. }
      exists d2, lt2, items2, ts2, tr2, (new ++ [N]). rewrite (filter_cons_True (alive_row s tx)), (filter_cons_False (λ r, ¬ alive_row s tx r)) by tauto. fold A.
      split; [|split; [exact Hd2|split; [by eapply table_db_perm|split; [eapply forest_rows; [exact Hp2|exact Hfo2]|split; [|split; [exact Hroom2|split]]]]]].
      * rewrite Hrun1, (M_bind_run _ _ _ _ _ Hrun2). unfold mret, M_ret. do 2 f_equal. rewrite zlen_cons. change (filter (alive_row (set_lt lt1 (set_DM d1 s)) tx) Q) with A. lia.
      * intros w Hp'. by rewrite Hag2, Hag1.
      * apply Forall_app. split; [done|]. by apply Forall_singleton.
      * rewrite fmap_app, Hes. cbn [fmap list_fmap]. by rewrite reverse_cons.
    + rewrite (filter_cons_False (alive_row s tx)) in Hfit, Hkeys, Hfuel, Hroom by done. set (A := filter (alive_row s tx) Q) in *. pose proof (db_stored _ _ _ _ _ Htab) as Hst. apply Forall_cons in Hst as [Hsr _].
      assert (Hp : (r :: Q) ++ R ≡ₚ Q ++ r :: R) by (cbn; by rewrite Permutation_middle).
      destruct (IH (r :: R) s items ts tr ots P m) as (d2 & lt2 & items2 & ts2 & tr2 & new & Hrun2 & Hd2 & Htab2 & Hfo2 & Hag2 & Hroom2 & Hnew & Hes);
        [exact Hw|exact Hd|by eapply table_db_perm|eapply forest_rows; [exact Hp|exact Hfo]|exact Hown|exact Hmay|exact Hfit|by eapply keys_fresh_perm|by rewrite <- Hp|exact Hroom|].
      assert (Hp2 : updated xid new A (filter (λ r, ¬ alive_row s tx r) Q ++ r :: R) ≡ₚ updated xid new A ((r :: filter (λ r, ¬ alive_row s tx r) Q) ++ R)).
      { unfold updated. do 2 apply Permutation_app_head. cbn. by rewrite Permutation_middle. }
      exists d2, lt2, items2, ts2, tr2, new. rewrite (filter_cons_False (alive_row s tx)), (filter_cons_True (λ r, ¬ alive_row s tx r)) by tauto. fold A.
      split; [|split; [exact Hd2|split; [by eapply table_db_perm|split; [eapply forest_rows; [exact Hp2|exact Hfo2]|by split_and!]]]].
      cbn [updateRows]. rewrite (M_bind_run _ _ _ _ _ (read_row t items s xid tx r Hd Hsr Hw Ho)), decide_False by exact Ha. exact Hrun2.
Qed.
End Updating.

(** * The statement *)

Lemma keys_fresh_es_perm t R es es' : es ≡ₚ es' → keys_fresh t R es → keys_fresh t R es'.
Proof. intros Hp Hk. eapply Forall_impl; [exact Hk|]. intros f [Hk1 Hnd]. split; [by rewrite <- Hp|by rewrite <- Hp]. Qed.

Lemma rows_fit_perm t es es' : es ≡ₚ es' → rows_fit t es → rows_fit t es'.
Proof. unfold rows_fit. by intros ->. Qed.

Section Statement.
Context {T : Type} `{!TransactionManager T} {D : Type} `{!DataManager D, !DataManagerOk D} {B : Type} `{!Booter B, !BooterOk B}.
Context (fuel : nat) (order : list XID) (sort_Slice : (row → row → outcome bool) → list row → outcome (list row)).
Notation SM := (serializabilityManager T D).
Notation TBM := (tableManager T D B).
Implicit Types (m : TBM) (s : SM).

(** The rows that [where_rows] finds, and what is left of the table. *)
Lemma split_rows s tx x w Q : Q ⊆+ ts_rows x → filter (alive_row s tx) Q ≡ₚ filter (selected s tx x w) (ts_rows x) →
  ∃ R, ts_rows x ≡ₚ Q ++ R ∧ filter (λ r, ¬ alive_row s tx r) Q ++ R ≡ₚ filter (λ r, ¬ selected s tx x w r) (ts_rows x).
Proof.
  intros Hsub Hp. apply submseteq_Permutation in Hsub as [R HR]. exists R. split; [exact HR|].
  apply (Permutation_app_inv_l (filter (selected s tx x w) (ts_rows x))). rewrite (filter_app_complement (selected s tx x w)), <- Hp, app_assoc, (filter_app_complement (alive_row s tx)). by symmetry.
Qed.

Lemma updated_perm xid new A A' Q Q' : A ≡ₚ A' → Q ≡ₚ Q' → updated xid new A Q ≡ₚ updated xid new A' Q'.
Proof. intros HA HQ. unfold updated. by rewrite HA, HQ. Qed.

(** The rows that are selected afterwards. *)
Lemma updated_selected s s' xid tx x x' w w' new : t_XID tx = xid → 0 < xid → (∀ r, alive_row s' tx r ↔ alive_row s tx r) → ts_table x' = ts_table x →
  Forall (λ r, s_xmin r = xid ∧ s_xmax r = 0) new →
  ts_rows x' ≡ₚ updated xid new (filter (selected s tx x w) (ts_rows x)) (filter (λ r, ¬ selected s tx x w r) (ts_rows x)) →
  s_row <$> filter (selected s' tx x' w') (ts_rows x') ≡ₚ
    filter (λ e, matches (ts_table x) w' e = true) (s_row <$> new) ++ (s_row <$> filter (λ r, selected s tx x w' r ∧ ¬ selected s tx x w r) (ts_rows x)).
Proof.
  intros Ht H0 Hal Htab Hnew ->. unfold updated. rewrite !filter_app, !fmap_app, (filter_image s_row), list_filter_filter.
  assert (Hsel : ∀ r, selected s' tx x' w' r ↔ selected s tx x w' r) by (intros r; unfold selected; by rewrite Hal, Htab).
  rewrite (filter_agree (selected s' tx x' w') (λ r, matches (ts_table x) w' (s_row r) = true) new).
  2: { eapply Forall_impl; [exact Hnew|]. intros r [Hr1 Hr2]. rewrite Hsel. unfold selected, alive_row, alive. rewrite Hr1, Hr2, bool_decide_true by done. cbn. tauto. }
  rewrite (filter_nothing _ (row_deleted xid <$> _)).
  2: { apply Forall_fmap, Forall_true. intros r. unfold compose. rewrite Hsel. intros [Ha _]. apply (alive_other s tx (row_deleted xid r) Ha); cbn; lia. }
  cbn [fmap list_fmap app]. rewrite (filter_agree _ (λ r, selected s tx x w' r ∧ ¬ selected s tx x w r) (ts_rows x)); [done|]. apply Forall_true. intros r. by rewrite Hsel.
Qed.

(** C29: For a condition that is [where_supported] - none, or one that starts with
    a field without an index, or comparisons of one numeric indexed field, not
    joined by [or]; a condition on an indexed and a second field changes other
    rows, as C36 shows for [read] - [update] replaces every row that the
    transaction sees and that fulfils the condition by one with the new value,
    when no other transaction has locked one of them or deleted it meanwhile,
    the new value is of the field's type, the new rows fit a page and the file
    has room for them, and the keys of the new rows are new to the indexes - as
    always for a table whose only index is that of the rows; an update that keeps
    the key of an indexed field loses entries (C22).  It tells how many; the transaction
    sees the new rows instead of the old ones, and every other row and table is
    as before.  The database is a [catalog] (the keys in an index are
    distinct), and no row the transaction created was deleted by another one. *)
Theorem update_changes_rows m items X1 x X2 xid tx upd fd v k : catalog m items (X1 ++ x :: X2) → ts_name x = Update_TableName upd →
  working (tbm_SM m) xid tx → 0 < xid → writer (D := D) xid → sees_own tx x → where_supported (ts_table x) (Update_Where upd) →
  find_field (ts_table x) (Update_FieldName upd) = Some fd → StrToValue fd (Update_Value upd) = Ret v → text_ok (Update_Value upd) →
  let hit := filter (selected (tbm_SM m) tx x (Update_Where upd)) (ts_rows x) in let es := changed fd v <$> (s_row <$> hit) in
  Forall (may_delete (tbm_SM m) xid tx) hit → rows_fit (ts_table x) es → keys_fresh (ts_table x) (ts_rows x) es →
  (2 * (length (ts_rows x) + length hit) + 5 ≤ fuel)%nat → has_room (sm_DM (tbm_SM m)) (length hit * (2 * length (index_fields (ts_table x)) + 3) + k) →
  ∃ m' items' x' new, tbm_Update fuel order xid upd m = (m', Ret (str_bytes ("Update " +:+ Uint32ToStr (u32 (zlen hit)))%string)) ∧
    catalog m' items' (X1 ++ x' :: X2) ∧ ts_table x' = ts_table x ∧
    ts_rows x' ≡ₚ updated xid new hit (filter (λ r, ¬ selected (tbm_SM m) tx x (Update_Where upd) r) (ts_rows x)) ∧
    s_row <$> new ≡ₚ es ∧ Forall (λ r, s_xmin r = xid ∧ s_xmax r = 0) new ∧ tbm_tc m' = tbm_tc m ∧ has_room (sm_DM (tbm_SM m')) k ∧
    ∀ read, Read_TableName read = Update_TableName upd → where_supported (ts_table x) (Read_Where read) →
      ∃ found, tbm_Read fuel sort_Slice xid read m' = (m', str_bytes <$> renderRows sort_Slice (ts_table x) read found) ∧
        found ≡ₚ filter (λ e, matches (ts_table x) (Read_Where read) e = true) es ++
          (s_row <$> filter (λ r, selected (tbm_SM m) tx x (Read_Where read) r ∧ ¬ selected (tbm_SM m) tx x (Update_Where upd) r) (ts_rows x)).
Proof.
  intros Hcat Hname Hw H0 Hx Hown Hsup Hfd Hv Htx hit es Hmay Hfit Hkeys Hfuel Hroom. set (w := Update_Where upd) in *. set (s := tbm_SM m) in *.
  pose proof Hcat as [Hd Hdb _ _ _]. destruct (database_focus _ _ _ _ Hdb) as (Hfo & (Htab & Hrec & Hxm) & Hoth). pose proof (db_wf _ _ _ _ _ Htab) as Hwf.
  destruct (where_rows fuel (ts_table x) (ts_rows x) s xid tx w items _ _ Hd Htab Hw Hown Hsup ltac:(lia)) as (Q & Hrun & Hsub & _ & HownQ & Hp).
  assert (Hp' : filter (alive_row s tx) Q ≡ₚ hit) by (rewrite Hp; unfold hit; erewrite filter_agree; [done|by apply Forall_true]).
  unfold ts_trees at 1, ts_items at 1 in Hfo. rewrite <- app_assoc in Hfo.
  destruct (split_rows s tx x w Q Hsub Hp') as (R & HR & HQR). pose proof (find_field_Some _ _ _ Hfd) as [Hin _].
  assert (Hes : changed fd v <$> (s_row <$> filter (alive_row s tx) Q) ≡ₚ es) by (unfold es; by rewrite Hp').
  assert (Hvo : value_ok fd v). { destruct Hwf as [_ Hty]. rewrite Forall_forall in Hty. eapply StrToValue_ok; [exact Htx|by apply Hty|exact Hv]. }
  destruct (updateRows_run fuel order xid tx (ts_table x) fd v Q H0 Hx Hin Hvo R s items (ts_idx x) (ts_tree x) _ _ k Hw Hd
      (table_db_perm _ _ _ _ _ _ HR Htab) (forest_rows _ _ _ _ _ HR Hfo) HownQ) as (d & lt & items' & ts & tr & new & Hupd & Hd' & Htab' & Hfo' & Hag & Hroom' & Hnew & Hnes);
    [|eapply rows_fit_perm; [symmetry; exact Hes|exact Hfit]|eapply keys_fresh_perm, keys_fresh_es_perm; [exact HR|symmetry; exact Hes|exact Hkeys]| | |].
  { apply Forall_forall. intros r Hr Ha. rewrite Forall_forall in Hmay. apply Hmay. rewrite <- Hp'. by apply list_elem_of_filter. }
  { rewrite <- HR, Hp'. exact Hfuel. }
  { rewrite Hp'. exact Hroom. }
  set (A := filter (alive_row s tx) Q) in *. set (rows := updated xid new A (filter (λ r, ¬ alive_row s tx r) Q ++ R)) in *.
  set (m' := set_SM (set_lt lt (set_DM d s)) m). set (x' := mkTs (ts_table x) rows ts tr (ts_xmin x)).
  assert (Hcat' : catalog m' items' (X1 ++ x' :: X2)).
  { apply (catalog_rows m items); [exact Hcat|exact Hd'|]. apply (database_unfocus items items' X1 _ X2 Hoth).
    - split; [exact Htab'|]. split; [|exact Hxm]. eapply table_recorded_agree; [|exact Hrec]. intros u Hu. apply Hag, elem_of_app. by left.
    - unfold ts_trees at 1, ts_items at 1. rewrite <- app_assoc. exact Hfo'.
    - intros u Hu. apply Hag, elem_of_app. by right. }
  pose proof Hw as (_ & _ & Ht & _). assert (Hrows : rows ≡ₚ updated xid new hit (filter (λ r, ¬ selected s tx x w r) (ts_rows x))) by (by apply updated_perm).
  assert (Hnes' : s_row <$> new ≡ₚ es) by (by rewrite Hnes, reverse_Permutation).
  exists m', items', x', new. split; [|split; [exact Hcat'|split; [done|split; [exact Hrows|split; [exact Hnes'|split; [exact Hnew|split; [done|split; [exact Hroom'|]]]]]]]].
  - unfold tbm_Update. rewrite (M_bind_run _ _ m m (ts_table x)); [|eapply the_table_run; [exact Hcat|apply elem_of_app; right; by left|done]].
    rewrite (M_bind_run _ _ m m' (zlen A)); [|].
    + unfold mret, M_ret. do 6 f_equal. unfold zlen. f_equal. by rewrite Hp'.
    + apply on_SM_run. unfold table_Update. fold w. rewrite (M_bind_run _ _ _ _ _ Hrun), Hfd, Hv, M_lift_bind. exact Hupd.
  - intros read Hrn Hrs. destruct (tbm_Read_run fuel sort_Slice m' items' _ x' xid tx read Hcat') as (found & Hrd & Hf);
      [apply elem_of_app; right; by left|by rewrite Hrn|exact Hw| |exact Hrs| |].
    + unfold sees_own in Hown |- *. cbn [x' ts_rows]. rewrite Hrows. unfold updated. apply Forall_app. split; [|apply Forall_app; split; [|by apply Forall_filter]].
      * eapply Forall_impl; [exact Hnew|]. intros r [_ Hr0] _. by left.
      * apply Forall_fmap, Forall_true. intros r _. right. cbn. done.
    + cbn [x' ts_rows]. rewrite Hrows. pose proof (Permutation_length Hnes') as Hl. unfold es in Hl. pose proof (Permutation_length (filter_app_complement (selected s tx x w) (ts_rows x))) as Hl'.
      unfold updated. rewrite !length_app, !length_fmap in *. fold hit in Hl'. lia.
    + exists found. split; [exact Hrd|]. rewrite Hf, (updated_selected s (tbm_SM m') xid tx x x' w (Read_Where read) new) by done. by rewrite Hnes'.
Qed.
End Statement.

(** The row whose number is greater than five gets the number nine. *)
Definition sample_update : Parser.Update := mkUpdate "t" "id" "9" (Some (mkWhere (mkExp "id" ">" "5") "" None)).

(** Both rows are visible to the transaction that has inserted them, and one
    fulfils the condition. *)
Lemma sample_hit (s : serializabilityManager MockTranManager memDM) x u1 u2 i1 :
  tb_fields (ts_table x) = [mkField u1 "id" "uint32" i1; mkField u2 "name" "string" NilUUID] →
  Forall (λ r, s_xmin r = 5 ∧ s_xmax r = 0) (ts_rows x) → s_row <$> ts_rows x = reverse sample_es →
  s_row <$> filter (selected s (newTransaction 5 0 ∅) x (Update_Where sample_update)) (ts_rows x) = [{["id" := VUint32 7; "name" := VString "seven"]}]%string.
Proof.
  intros Hf Hnew Hes. rewrite (filter_agree _ (λ r, matches (ts_table x) (Update_Where sample_update) (s_row r) = true)).
  - etrans; [symmetry; exact (filter_image s_row (λ e, matches (ts_table x) (Update_Where sample_update) e = true) (ts_rows x))|]. rewrite Hes. unfold sample_es, reverse. cbn [rev_append].
    assert (Hm : Forall2 (λ e b, matches (ts_table x) (Update_Where sample_update) e = b) sample_es [true; false]).
    { unfold matches, evaluateWhere, matchSingleExp, find_field. cbn [Update_Where sample_update]. rewrite Hf. repeat constructor; by vm_compute. }
    apply Forall2_cons in Hm as [H7 Hm]. apply Forall2_cons in Hm as [H2 _]. rewrite filter_cons_False, filter_cons_True by (by rewrite ?H2, ?H7). done.
  - eapply Forall_impl; [exact Hnew|]. intros r [H1 H2]. unfold selected, alive_row, alive. rewrite H1, H2. cbn. tauto.
Qed.

Lemma update_changes_rows_witness : ∃ (m m' : tableManager MockTranManager memDM booter) items x,
  length (ts_rows x) = 3%nat ∧ tbm_Update 20 [] 5 sample_update m = (m', Ret (str_bytes ("Update " +:+ Uint32ToStr 1)%string)) ∧ catalog m' items [x].
Proof.
  destruct sample_table as (m & items & x & Hcat & Hw & Hlt & Hroom & Hrows & _ & Hn & u1 & u2 & i1 & Hi & Hf).
  destruct (sample_described (ts_table x) u1 u2 i1 Hf Hi) as (Hdes & Hkeys & Hsup & Hlen).
  destruct (tbm_Insert_run 20 m items [] x [] 5 (newTransaction 5 0 ∅) sample_insert sample_es 50) as (d & items' & new & ts & tr & _ & Hcat' & Hnew & Hes & Hroom');
    [exact Hcat|exact Hn|exact Hw|by split|exact Hdes|by rewrite Hrows|rewrite Hrows; cbn; lia|eapply sample_room; [exact Hroom|rewrite Hlen; cbn; lia]|].
  rewrite Hrows, app_nil_r in Hcat'. set (x' := mkTs (ts_table x) new ts tr (ts_xmin x)) in *. pose proof (sample_hit (tbm_SM (set_SM (set_DM d (tbm_SM m)) m)) x' u1 u2 i1 Hf Hnew Hes) as Hhit.
  pose proof (f_equal length Hhit) as Hl. rewrite length_fmap in Hl. change (length [_]) with 1%nat in Hl. pose proof (f_equal length Hes) as Hln. rewrite length_fmap, length_reverse in Hln. cbn in Hln.
  destruct (update_changes_rows 20 [] (λ _, Ret) (set_SM (set_DM d (tbm_SM m)) m) items' [] x' [] 5 (newTransaction 5 0 ∅) sample_update (mkField u1 "id" "uint32" i1) (VUint32 9) 10 Hcat')
    as (m' & items'' & x'' & new' & Hrun & Hcat'' & _ & Hp & Hnew' & _);
    [exact Hn|exact Hw|done|by split| |exact Hsup|unfold find_field; cbn [x' ts_table]; by rewrite Hf|by vm_compute|by vm_compute| | | | | |].
  - eapply Forall_impl; [exact Hnew|]. intros r [_ Hr0] _. by left.
  - apply Forall_filter. eapply Forall_impl; [exact Hnew|]. intros r [_ Hr0]. split; [right; cbn; by rewrite Hlt|]. by rewrite Hr0.
  - rewrite Hhit. apply Forall_singleton. unfold entryToRaw. cbn [x' ts_table]. rewrite Hf. by vm_compute; intros raw [= <-].
  - rewrite Hhit. unfold keys_fresh. cbn [x' ts_table ts_rows]. rewrite (sample_index _ u1 u2 i1 Hf Hi). apply Forall_singleton. split; [apply Forall_singleton; by vm_compute|].
    replace ((λ r, key_of (mkField u1 "id" "uint32" i1) (s_row r)) <$> new) with (key_of (mkField u1 "id" "uint32" i1) <$> (s_row <$> new)) by (by rewrite <- list_fmap_compose).
    rewrite Hes. by apply (bool_decide_unpack _).
  - rewrite Hl. cbn [x' ts_rows]. lia.
  - eapply sample_room; [exact Hroom'|]. rewrite Hl. cbn [x' ts_table]. rewrite Hlen. cbn. lia.
  - exists (set_SM (set_DM d (tbm_SM m)) m), m', items'', x''. split; [|split; [|exact Hcat'']].
    + rewrite Hp. unfold updated. pose proof (Permutation_length (filter_app_complement (selected (tbm_SM (set_SM (set_DM d (tbm_SM m)) m)) (newTransaction 5 0 ∅) x' (Update_Where sample_update)) (ts_rows x'))) as Hc.
      apply Permutation_length in Hnew'. rewrite !length_app, !length_fmap, Hl in *. change (length (ts_rows x')) with (length new) in Hc. lia.
    + rewrite Hrun. unfold zlen. rewrite Hl. done.
Defined.
