(* ===== verification/TableDrop.v ===== *)
(** Package [tbm]: dropping a table.  The records of the tables that stay are
    written again, as a list in the order of their names. *)
From S2P Require Import Prelude.
From S2P Require Import Codec.
From S2P Require Import Tm.
From S2P Require Import DmI.
From S2P Require Import Node.
From S2P Require Import Tree.
From S2P Require Import TreeRep.
From S2P Require Import LockTable.
From S2P Require Import Sm.
From S2P Require Import Parser.
From S2P Require Import Field.
From S2P Require Import Table.
From S2P Require Import TableData.
From S2P Require Import TableRep.
From S2P Require Import TableOps.
From S2P Require Import Booter.
From S2P Require Import TableMgr.
From S2P Require Import Catalog.
From stdpp Require Import sorting.
Local Open Scope Z_scope.

(** * Fewer items *)

Lemma forest_fewer items ts ts' P P' : ts' ⊆+ ts → P' ⊆+ P → forest items ts P → forest items ts' P'.
Proof.
  intros [kt Ht]%submseteq_Permutation [kp Hp]%submseteq_Permutation Hfo. eapply forest_both in Hfo as (Ha & Hn & Hs); [|exact Ht|exact Hp].
  apply Forall_app in Ha as [Ha _]. apply Forall_app in Hs as [Hs _]. split; [exact Ha|]. split; [|exact Hs]. rewrite bind_uids_app in Hn.
  assert (Hp2 : ((ts' ≫= t_uids) ++ kt ≫= t_uids) ++ P' ++ kp ≡ₚ ((ts' ≫= t_uids) ++ P') ++ (kt ≫= t_uids) ++ kp).
  { rewrite <- !app_assoc. apply Permutation_app_head. by rewrite !app_assoc, (Permutation_app_comm P'). }
  rewrite Hp2 in Hn. by apply NoDup_app in Hn as [? _].
Qed.

(** The other tables, when one is not looked at any more. *)
Lemma database_without_table items X1 x X2 : database items (X1 ++ x :: X2) → database items (X1 ++ X2).
Proof.
  intros Hdb. destruct (database_focus _ _ _ _ Hdb) as (Hfo & _ & Hall). split; [|exact Hall].
  eapply forest_fewer; [| |exact Hfo]; by apply submseteq_inserts_l.
Qed.

Lemma database_perm items X X' : X ≡ₚ X' → database items X → database items X'.
Proof. intros Hp [Hfo Hall]. split; [eapply forest_both; [| |exact Hfo]; by rewrite Hp|by rewrite <- Hp]. Qed.

(** * The order of the names *)

#[export] Instance name_le_total : Total name_le.
Proof.
  intros a b. unfold name_le, string_ltb. rewrite (String.compare_antisym (tb_Name a) (tb_Name b)). destruct (String.compare (tb_Name b) (tb_Name a)); cbn; by auto.
Qed.

(** * A record that is written again *)

(** The table with a new record, written by [xid]. *)
Definition rerecorded (xid : XID) (self next : UUID) (x : tstate) : tstate :=
  mkTs (set_Self self (set_Next next (ts_table x))) (ts_rows x) (ts_idx x) (ts_tree x) xid.

(** The same table, up to where its record is and what follows it. *)
Definition same_table (xid : XID) (x x' : tstate) : Prop := ∃ self next, x' = rerecorded xid self next x.

Lemma rerecorded_db items xid self next x : table_db (ts_table x) items (ts_rows x) (ts_idx x) (ts_tree x) →
  table_db (ts_table (rerecorded xid self next x)) items (ts_rows x) (ts_idx x) (ts_tree x).
Proof. intros [Htr Hix Hb He Hst Hwf]. split; [exact Htr|exact Hix|exact Hb|exact He|exact Hst|by destruct Hwf]. Qed.

(** Printing looks at the fields only. *)
Lemma printRows_rerecorded xid self next x es : printRows (ts_table (rerecorded xid self next x)) es = printRows (ts_table x) es.
Proof. induction es as [|e es IH]; [done|]. cbn [printRows]. rewrite IH. done. Qed.

Lemma renderRows_rerecorded sort_Slice xid self next x read es :
  renderRows sort_Slice (ts_table (rerecorded xid self next x)) read es = renderRows sort_Slice (ts_table x) read es.
Proof.
  unfold renderRows. change (sortEntries sort_Slice (ts_table (rerecorded xid self next x)) es) with (sortEntries sort_Slice (ts_table x) es).
  destruct (if decide (OrderBy read ≠ ""%string) then _ else _) as [es1|e| |]; [|done..]. cbn [mbind outcome_bind].
  destruct (if decide (0 < Limit read) then _ else _) as [es2|e| |]; [|done..]. cbn [mbind outcome_bind]. by rewrite printRows_rerecorded.
Qed.

Section Dropping.
Context {T : Type} `{!TransactionManager T} {D : Type} `{!DataManager D, !DataManagerOk D} {B : Type} `{!Booter B, !BooterOk B}.
Context (map_range : gmap string table → list table).
Notation SM := (serializabilityManager T D).
Notation TBM := (tableManager T D B).
Implicit Types (m : TBM) (s : SM).

(** Tables whose records fit an item. *)
Definition record_fits (x : tstate) : Prop := zlen (str_bytes (ts_name x)) ≤ 4000.

Lemma persist_run s xid tx items x X next k : working s xid tx → writer (D := D) xid → dm_rep (sm_DM s) items → database items (x :: X) →
  record_fits x → is_u64 next → has_room (sm_DM s) (S k) →
  ∃ d self items', table_persistSelf xid (set_Next next (ts_table x)) s = (set_DM d s, Ret (ts_table (rerecorded xid self next x))) ∧ dm_rep d items' ∧
    database items' (rerecorded xid self next x :: X) ∧ is_u64 self ∧ has_room d k.
Proof.
  intros Hw Hx Hd Hdb Hname Hnext Hroom. destruct (database_focus _ [] _ _ Hdb) as (Hfo & (Htab & Hrec & _) & Hall). cbn [app] in Hfo, Hall.
  pose proof Hrec as [_ _ _ _ _ _ Hcount].
  destruct (sm_Insert_run s xid tx (table_raw (set_Next next (ts_table x))) items k Hw Hx Hd) as (d & self & Hrun & Hfresh & Hself & Hd' & Hroom'); [by apply table_raw_short|done|].
  set (items' := <[self := _]> items) in Hd'. pose proof (forest_new _ _ _ _ (mk_entry xid 0 (table_raw (set_Next next (ts_table x)))) Hfo Hfresh) as Hfo'. fold items' in Hfo'.
  assert (Hag : ∀ v, v ∈ ts_items x ++ (X ≫= ts_items) → items' !! v = items !! v).
  { intros v Hv. apply lookup_insert_ne. intros <-. destruct (forest_present _ _ _ self Hfo) as [y Hy]; [apply elem_of_app; by right|congruence]. }
  exists d, self, items'. split; [unfold table_persistSelf; by rewrite (M_bind_run _ _ _ _ _ Hrun)|]. split; [exact Hd'|]. split; [|split; [by apply uid_u64|exact Hroom']].
  assert (Hfo2 : forest items' (ts_trees x ++ (X ≫= ts_trees)) (ts_items (rerecorded xid self next x) ++ (X ≫= ts_items))).
  { eapply forest_fewer; [reflexivity| |exact Hfo']. set (Q := (s_uuid <$> ts_rows x) ++ (f_SelfUUID <$> tb_fields (ts_table x))).
    assert (Hold : ts_items x ≡ₚ tb_SelfUUID (ts_table x) :: Q) by (unfold ts_items, table_uids; by rewrite <- Permutation_middle).
    assert (Hnew : ts_items (rerecorded xid self next x) ≡ₚ self :: Q) by (unfold ts_items, table_uids; cbn [rerecorded ts_rows ts_table set_Self set_Next tb_SelfUUID tb_fields]; by rewrite <- Permutation_middle).
    rewrite Hold, Hnew. apply submseteq_skip. cbn [app]. by apply submseteq_cons. }
  apply (database_unfocus items items' [] (rerecorded xid self next x) X Hall); [|exact Hfo2|intros v Hv; apply Hag, elem_of_app; by right].
  split; [|split; [|by destruct Hx as [? _]]].
  - destruct (tstate_ok_kept items items' x) as (Htab' & _); [|intros v Hv; apply Hag, elem_of_app; by left| |exact (rerecorded_db _ xid self next x Htab')].
    + destruct Hfo2 as [Ha _]. by apply Forall_app in Ha as [? _].
    + destruct Hdb as [_ Hok]. by apply Forall_cons in Hok as [? _].
  - destruct Hrec as [_ Hu Htn _ Hri Hfs _]. split; cbn [rerecorded ts_table ts_xmin set_Self set_Next tb_SelfUUID tb_Name tb_Next tb_rowIndex tb_fields]; try done; [by apply lookup_insert_eq|].
    rewrite Forall_forall in *. intros f Hf. destruct (Hfs f Hf) as [Hi ?]. split; [|done]. eapply is_item_agree; [|exact Hi].
    apply Hag, elem_of_app. left. unfold ts_items, table_uids. apply elem_of_app. right. right. by apply list_elem_of_fmap_2.
Qed.

Lemma tables_of_insert x x' W Z : NoDup (ts_name <$> x :: W ++ Z) → ts_name x' = ts_name x → ∀ tb,
  <[ts_name x := ts_table x']> (<[ts_name x := tb]> (tables_of (x :: W ++ Z))) = tables_of (W ++ x' :: Z).
Proof.
  intros Hnd Hn tb. rewrite (insert_insert_eq (tables_of (x :: W ++ Z))), (tables_of_perm (W ++ x' :: Z) (x' :: W ++ Z)).
  - unfold tables_of. cbn [fmap list_fmap]. by rewrite !list_to_map_cons, insert_insert_eq, Hn.
  - rewrite fmap_app. cbn [fmap list_fmap]. rewrite <- Permutation_middle, Hn, <- fmap_app. exact Hnd.
  - by rewrite Permutation_middle.
Qed.

(** The loop over the tables [W], the last one first, in front of the list of
    those that are done. *)
Lemma rebuildLoop_run xid tx : writer (D := D) xid → ∀ W m items Z next k, working (tbm_SM m) xid tx → dm_rep (sm_DM (tbm_SM m)) items → database items (W ++ Z) →
  Forall record_fits W → chained next Z → is_u64 next → tbm_tc m = tables_of (W ++ Z) → NoDup (ts_name <$> W ++ Z) → has_room (sm_DM (tbm_SM m)) (length W + k) →
  ∃ d items' W' first, rebuildLoop xid next (ts_table <$> W) m = (set_tctbl (tables_of (reverse W' ++ Z)) (set_SM (set_DM d (tbm_SM m)) m), Ret first) ∧
    dm_rep d items' ∧ database items' (reverse W' ++ Z) ∧ Forall2 (same_table xid) W W' ∧ chained first (reverse W' ++ Z) ∧ is_u64 first ∧ has_room d k.
Proof.
  intros Hx. induction W as [|x W IH]; intros m items Z next k Hw Hd Hdb Hfits Hch Hnext Htc Hnd Hroom.
  - exists (sm_DM (tbm_SM m)), items, [], next. cbn [app reverse rev_append] in *. split; [|by split_and!]. cbn [fmap list_fmap rebuildLoop]. rewrite <- Htc. by destruct m as [[] ? ? ?].
  - apply Forall_cons in Hfits as [Hfit Hfits]. cbn [app] in *.
    destruct (persist_run (tbm_SM m) xid tx items x (W ++ Z) next (length W + k) Hw Hx Hd Hdb Hfit Hnext Hroom) as (d & self & items1 & Hrun & Hd1 & Hdb1 & Hself & Hroom1).
    set (x' := rerecorded xid self next x) in *.
    set (m2 := set_tctbl (tables_of (W ++ x' :: Z)) (set_SM (set_DM d (tbm_SM m)) m)).
    destruct (IH m2 items1 (x' :: Z) self k) as (d2 & items2 & W' & first & Hrun2 & Hd2 & Hdb2 & HW & Hch2 & Hfirst & Hroom2);
      [exact Hw|exact Hd1|eapply database_perm; [|exact Hdb1]; by rewrite Permutation_middle|exact Hfits|by split|exact Hself|done| |exact Hroom1|].
    { rewrite fmap_app. cbn [fmap list_fmap]. rewrite <- Permutation_middle, <- fmap_app. exact Hnd. }
    exists d2, items2, (x' :: W'), first. rewrite reverse_cons, <- app_assoc. split; [|split; [exact Hd2|split; [exact Hdb2|split; [|by split_and!]]]].
    + cbn [fmap list_fmap rebuildLoop]. cbv zeta. unfold modify at 1.
      rewrite (M_bind_run _ _ m (set_tctbl (<[ts_name x := set_Next next (ts_table x)]> (tbm_tc m)) m) tt) by done.
      rewrite (M_bind_run _ _ _ _ _ (on_SM_run _ (set_tctbl (<[ts_name x := set_Next next (ts_table x)]> (tbm_tc m)) m) _ _ Hrun)).
      rewrite (M_bind_run _ _ _ m2 tt); [exact Hrun2|]. unfold modify, m2. cbn [set_SM set_tctbl tbm_tc tbm_booter tbm_xtc tbm_SM].
      rewrite Htc. pose proof (tables_of_insert x x' W Z Hnd eq_refl (set_Next next (ts_table x))) as Heq. unfold set_tctbl, set_SM. cbn [tbm_tc tbm_booter tbm_xtc tbm_SM]. rewrite <- Heq. done.
    + constructor; [by exists self, next|exact HW].
Qed.

(** ** The map of the tables *)

Lemma tables_of_delete X1 x X2 : NoDup (ts_name <$> X1 ++ x :: X2) → delete (ts_name x) (tables_of (X1 ++ x :: X2)) = tables_of (X1 ++ X2).
Proof.
  intros Hnd. assert (Hnd' : NoDup (ts_name <$> x :: X1 ++ X2)) by (by rewrite Permutation_middle).
  rewrite (tables_of_perm _ (x :: X1 ++ X2) Hnd) by (by rewrite Permutation_middle). unfold tables_of at 1. cbn [fmap list_fmap] in Hnd' |- *. rewrite list_to_map_cons.
  apply NoDup_cons in Hnd' as [Hni Hnd']. apply delete_insert_id. fold (tables_of (X1 ++ X2)).
  destruct (tables_of (X1 ++ X2) !! ts_name x) as [tb|] eqn:Hl; [|done]. apply tables_of_lookup in Hl as (y & Hy & Hn & _); [|done].
  destruct Hni. rewrite <- Hn. by apply list_elem_of_fmap_2.
Qed.

Lemma tables_of_values X : NoDup (ts_name <$> X) → (map_to_list (tables_of X)).*2 ≡ₚ ts_table <$> X.
Proof.
  intros Hnd. unfold tables_of. rewrite map_to_list_to_map; [|by rewrite <- list_fmap_compose]. by rewrite <- list_fmap_compose.
Qed.

Lemma same_names xid Y Y' : Forall2 (same_table xid) Y Y' → ts_name <$> Y' = ts_name <$> Y.
Proof. induction 1 as [|y y' Y Y' (self & next & ->) _ IH]; [done|]. cbn [fmap list_fmap]. by rewrite IH. Qed.

Lemma rebuild_run m items X xid tx k : working (tbm_SM m) xid tx → writer (D := D) xid → dm_rep (sm_DM (tbm_SM m)) items → database items X →
  Forall record_fits X → tbm_tc m = tables_of X → NoDup (ts_name <$> X) → map_range (tbm_tc m) ≡ₚ (map_to_list (tbm_tc m)).*2 → (∃ raw, bt_rep (tbm_booter m) raw) →
  has_room (sm_DM (tbm_SM m)) (length X + k) →
  ∃ m' items' Y Y' d, rebuildTableChain map_range xid m = (m', Ret tt) ∧ catalog m' items' Y' ∧ Y ≡ₚ X ∧ Sorted name_le (ts_table <$> Y) ∧
    Forall2 (same_table xid) Y Y' ∧ tbm_SM m' = set_DM d (tbm_SM m) ∧ has_room d k.
Proof.
  intros Hw Hx Hd Hdb Hfits Htc Hnd Hrange [old Hb] Hroom. set (L := merge_sort name_le (map_range (tbm_tc m))).
  assert (HL : L ≡ₚ ts_table <$> X) by (unfold L; by rewrite merge_sort_Permutation, Hrange, Htc, tables_of_values).
  destruct (Permutation_map_inv ts_table X HL) as (Y & HY & HXY). assert (HLY : L = ts_table <$> Y) by exact HY.
  destruct (rebuildLoop_run xid tx Hx (reverse Y) m items [] NilUUID k) as (d & items' & W' & first & Hrun & Hd' & Hdb' & HW & Hch & Hfirst & Hroom').
  - exact Hw.
  - exact Hd.
  - rewrite app_nil_r. eapply database_perm; [|exact Hdb]. by rewrite reverse_Permutation.
  - rewrite reverse_Permutation, <- HXY. exact Hfits.
  - done.
  - apply u64_0.
  - rewrite app_nil_r, Htc. apply tables_of_perm; [done|]. by rewrite reverse_Permutation.
  - rewrite app_nil_r, reverse_Permutation, <- HXY. exact Hnd.
  - rewrite length_reverse, <- (Permutation_length HXY). exact Hroom.
  - rewrite app_nil_r in *. set (m1 := set_tctbl (tables_of (reverse W')) (set_SM (set_DM d (tbm_SM m)) m)).
    destruct (updateFirst_run m1 old first Hb) as (b & Hup & Hb'). apply Forall2_reverse in HW. rewrite reverse_involutive in HW.
    exists (set_booter b m1), items', Y, (reverse W'), d. split; [|split; [|split; [by rewrite HXY|split; [rewrite <- HLY; apply Sorted_merge_sort; apply _|split; [exact HW|by split]]]]].
    + unfold rebuildTableChain. rewrite M_get_bind. fold L. cbv zeta. rewrite HLY, <- fmap_reverse. by rewrite (M_bind_run _ _ _ _ _ Hrun).
    + split; [exact Hd'|exact Hdb'|exists first; by split_and!|done|]. rewrite (same_names _ _ _ HW), <- HXY. exact Hnd.
Qed.
End Dropping.

(** * The statement *)

Section Statement.
Context {T : Type} `{!TransactionManager T} {D : Type} `{!DataManager D, !DataManagerOk D} {B : Type} `{!Booter B, !BooterOk B}.
Context (fuel : nat) (sort_Slice : (row → row → outcome bool) → list row → outcome (list row)) (map_range : gmap string table → list table).
Notation SM := (serializabilityManager T D).
Notation TBM := (tableManager T D B).
Implicit Types (m : TBM) (s : SM).

(** What the statement does. *)
Lemma drop_run m items X xid tx drop k : catalog m items X → working (tbm_SM m) xid tx → writer (D := D) xid →
  Forall record_fits X → (∀ tc, map_range tc ≡ₚ (map_to_list tc).*2) → has_room (sm_DM (tbm_SM m)) (length X + k) → Drop_TableName drop ∈ ts_name <$> X →
  ∃ m' items' Y Y' d, tbm_Drop map_range xid drop m = (m', Ret (str_bytes ("drop " +:+ Drop_TableName drop)%string)) ∧ catalog m' items' Y' ∧
    Y ≡ₚ filter (λ x, ts_name x ≠ Drop_TableName drop) X ∧ Sorted name_le (ts_table <$> Y) ∧ Forall2 (same_table xid) Y Y' ∧ tbm_SM m' = set_DM d (tbm_SM m) ∧ has_room d k.
Proof.
  intros Hcat Hw Hx Hfits Hrange Hroom Hin.
  pose proof Hcat as [Hd Hdb (first & _ & Hb & _) Htc Hnd]. apply list_elem_of_fmap in Hin as (x & Hn & Hx'). pose proof (the_table_run m items X x _ Hcat Hx' (eq_sym Hn)) as Hthe.
  apply list_elem_of_split in Hx' as (X1 & X2 & ->). rewrite Hn in *.
  set (m1 := set_xtc (filter (λ tb, tb_Name tb ≠ ts_name x) <$> tbm_xtc m) (set_tctbl (delete (ts_name x) (tbm_tc m)) m)).
  assert (Htc1 : tbm_tc m1 = tables_of (X1 ++ X2)) by (cbn [m1 set_xtc set_tctbl tbm_tc]; by rewrite Htc, tables_of_delete).
  assert (Hnd' : NoDup (ts_name <$> x :: X1 ++ X2)) by (by rewrite Permutation_middle). cbn [fmap list_fmap] in Hnd'. apply NoDup_cons in Hnd' as [Hni Hnd1].
  assert (Hfil : filter (λ y, ts_name y ≠ ts_name x) (X1 ++ x :: X2) ≡ₚ X1 ++ X2).
  { rewrite <- Permutation_middle, filter_cons_False by (by intros []). rewrite filter_everything; [done|]. apply Forall_forall. intros y Hy He. apply Hni. rewrite <- He. by apply list_elem_of_fmap_2. }
  destruct (rebuild_run map_range m1 items (X1 ++ X2) xid tx k) as (m' & items' & Y & Y' & d & Hrun & Hcat' & HY & Hsort & Hsame & Hsm & Hroom');
    [exact Hw|exact Hx|exact Hd|by eapply database_without_table|by rewrite <- Permutation_middle in Hfits; apply Forall_cons in Hfits as [_ ?]|exact Htc1|exact Hnd1|apply Hrange|by eexists| |].
  { destruct Hroom as (j & Hj & Hr). exists j. split; [|exact Hr]. rewrite !length_app in *. cbn [length] in Hj. lia. }
  exists m', items', Y, Y', d. split; [|split; [exact Hcat'|split; [by rewrite Hfil|by split_and!]]].
  unfold tbm_Drop. cbv zeta. rewrite Hn. rewrite (M_bind_run _ _ _ _ _ Hthe). unfold modify, mbind at 1 2, M_bind at 1 2. fold m1. by rewrite (M_bind_run _ _ _ _ _ Hrun).
Qed.

(** C30: [drop] takes a table out of the catalog, and a name that is not there
    gives an error and no change.  The tables that stay form a list in the
    order of their names, every one with a new record that the transaction of
    the statement has written; their rows and indexes are as before, so that
    every statement reads from them what it would have read, and a statement on
    the table that is gone finds no such table. *)
Theorem drop_removes_table m items X xid tx drop k : catalog m items X → working (tbm_SM m) xid tx → writer (D := D) xid →
  Forall record_fits X → (∀ tc, map_range tc ≡ₚ (map_to_list tc).*2) → has_room (sm_DM (tbm_SM m)) (length X + k) →
  if decide (Drop_TableName drop ∈ ts_name <$> X) then
    ∃ m' items' Y Y', tbm_Drop map_range xid drop m = (m', Ret (str_bytes ("drop " +:+ Drop_TableName drop)%string)) ∧ catalog m' items' Y' ∧
      Y ≡ₚ filter (λ x, ts_name x ≠ Drop_TableName drop) X ∧ Sorted name_le (ts_table <$> Y) ∧ Forall2 (same_table xid) Y Y' ∧ has_room (sm_DM (tbm_SM m')) k ∧
      (∀ y xid' tx' read, y ∈ Y → ts_name y = Read_TableName read → working (tbm_SM m) xid' tx' → sees_own tx' y → where_supported (ts_table y) (Read_Where read) →
        (2 * length (ts_rows y) + 3 ≤ fuel)%nat → ∃ es, tbm_Read fuel sort_Slice xid' read m' = (m', str_bytes <$> renderRows sort_Slice (ts_table y) read es) ∧
          es ≡ₚ s_row <$> filter (selected (tbm_SM m) tx' y (Read_Where read)) (ts_rows y)) ∧
      ∀ xid' read, Read_TableName read = Drop_TableName drop → tbm_Read fuel sort_Slice xid' read m' = (m', Err ErrNoThatTable)
  else tbm_Drop map_range xid drop m = (m, Err ErrNoThatTable).
Proof.
  intros Hcat Hw Hx Hfits Hrange Hroom. case_decide as Hin.
  2: { unfold tbm_Drop. cbv zeta. by rewrite (M_bind_err _ _ _ _ _ (the_table_none _ _ _ _ Hcat Hin)). }
  destruct (drop_run m items X xid tx drop k Hcat Hw Hx Hfits Hrange Hroom Hin) as (m' & items' & Y & Y' & d & Hrun & Hcat' & HY & Hsort & Hsame & Hsm & Hroom').
  exists m', items', Y, Y'. split; [exact Hrun|split; [exact Hcat'|split; [exact HY|split; [exact Hsort|split; [exact Hsame|split; [by rewrite Hsm|split]]]]]].
  - intros y xid' tx' read Hy Hyn Hw' Hown Hsup Hfuel. apply list_elem_of_lookup in Hy as [i Hi]. destruct (Forall2_lookup_l _ _ _ _ _ Hsame Hi) as (y' & Hi' & self & next & ->).
    destruct (tbm_Read_run fuel sort_Slice m' items' Y' (rerecorded xid self next y) xid' tx' read Hcat') as (es & Hrd & Hes);
      [by eapply list_elem_of_lookup_2|exact Hyn|by rewrite Hsm|exact Hown|exact Hsup|exact Hfuel|].
    exists es. split; [by rewrite renderRows_rerecorded in Hrd|]. rewrite Hes. rewrite (filter_agree _ (selected (tbm_SM m) tx' y (Read_Where read)) (ts_rows y)); [done|].
    apply Forall_true. intros r. unfold selected. by rewrite Hsm.
  - intros xid' read Hrn. unfold tbm_Read. rewrite Hrn. erewrite M_bind_err; [done|]. eapply the_table_none; [exact Hcat'|].
    rewrite (same_names _ _ _ Hsame), HY. intros (y & Hy & Hin')%list_elem_of_fmap. apply list_elem_of_filter in Hin' as [Hny _]. by apply Hny.
Qed.

(** A list of tables whose first record nobody sees cannot be loaded. *)
Lemma unseen_record_panics m items x X (tm : T) (d : D) n : catalog m items (x :: X) → dm_rep d items → ts_xmin x ≠ SUPER_XID → tm_IsCommitted tm (ts_xmin x) = false → (0 < n)%nat →
  ∃ m', tbm_OpenManager n (NewSerializabilityManager tm d) (tbm_booter m) = (m', Panic).
Proof.
  intros [_ [_ Hall] (first & Hu & Hb & Hself & _) _ _] Hd Hs Hc Hn. apply Forall_cons in Hall as [(_ & [Hi Hself' _ _ _ _ _] & Hx) _]. set (s := NewSerializabilityManager tm d).
  assert (Hw : working s SUPER_XID (newTransaction SUPER_XID 0 ∅)) by (split_and!; [by apply elem_of_singleton|apply lookup_singleton_eq|done|done]).
  assert (Hread : sm_Read SUPER_XID first s = (s, Ret None)).
  { rewrite (sm_Read_run s SUPER_XID (newTransaction SUPER_XID 0 ∅) first (ts_xmin x) 0 (table_raw (ts_table x)) Hw); [|split; [eapply dm_Read_ok; [exact Hd|]; by rewrite <- Hself|by split]|by left].
    unfold alive, in_view. cbn [t_XID t_Level newTransaction]. rewrite (bool_decide_false (ts_xmin x = SUPER_XID)) by done. cbn [NewSerializabilityManager sm_TM s]. by rewrite Hc. }
  unfold tbm_OpenManager, newTableManager, loadTables. fold s.
  rewrite (M_bind_run _ _ (mkTBM s (tbm_booter m) ∅ ∅) (mkTBM s (tbm_booter m) ∅ ∅) first).
  - destruct n as [|n]; [lia|]. cbn [loadFrom]. rewrite decide_True by (unfold NilUUID; lia). eexists. unfold LoadTable, on_SM, zoom, mbind, M_bind. cbn [tbm_SM].
    unfold or_panic, catch at 1. rewrite Hread. done.
  - unfold firstTableUUID. rewrite (M_bind_run _ _ (mkTBM s (tbm_booter m) ∅ ∅) (mkTBM s (tbm_booter m) ∅ ∅) (UUIDToRaw first)); [by rewrite (ParseUUID_raw first Hu)|].
    unfold on_booter, zoom. cbn [tbm_booter]. by rewrite (bt_Load_ok _ _ Hb).
Qed.

(** The boot file is replaced when the statement runs and not when its
    transaction ends: until then, and for good when it aborts, the tables that
    stay cannot be loaded again. *)
Theorem drop_unfinished m items X xid tx drop k : catalog m items X → working (tbm_SM m) xid tx → writer (D := D) xid → xid ≠ SUPER_XID →
  Forall record_fits X → (∀ tc, map_range tc ≡ₚ (map_to_list tc).*2) → has_room (sm_DM (tbm_SM m)) (length X + k) →
  Drop_TableName drop ∈ ts_name <$> X → filter (λ x, ts_name x ≠ Drop_TableName drop) X ≠ [] →
  ∃ m' items', tbm_Drop map_range xid drop m = (m', Ret (str_bytes ("drop " +:+ Drop_TableName drop)%string)) ∧ dm_rep (sm_DM (tbm_SM m')) items' ∧
    ∀ (tm : T) (d : D) n, dm_rep d items' → tm_IsCommitted tm xid = false → (0 < n)%nat → ∃ m2, tbm_OpenManager n (NewSerializabilityManager tm d) (tbm_booter m') = (m2, Panic).
Proof.
  intros Hcat Hw Hx Hs Hfits Hrange Hroom Hin Hne.
  destruct (drop_run m items X xid tx drop k Hcat Hw Hx Hfits Hrange Hroom Hin) as (m' & items' & Y & Y' & d' & Hrun & Hcat' & HY & _ & Hsame & _).
  exists m', items'. split; [exact Hrun|]. split; [apply Hcat'|]. intros tm d n Hd Hc Hn. clear Hrun. destruct Hsame as [|y y' Y Y' (self & next & ->) _].
  - destruct Hne. apply Permutation_nil. exact HY.
  - by eapply (unseen_record_panics m' items' (rerecorded xid self next y)).
Qed.
End Statement.

(** * Two tables, one of which is dropped *)

Definition sample_create2 : Parser.Create := mkCreate "u" ["key"]%string ["uint64"]%string ["key"]%string.
Definition sample_drop : Parser.Drop := mkDrop "t".
Definition sample_range (tc : gmap string table) : list table := (map_to_list tc).*2.

Lemma sample_tables : ∃ (m : tableManager MockTranManager memDM booter) items x y, catalog m items [y; x] ∧ working (tbm_SM m) 5 (newTransaction 5 0 ∅) ∧
  has_room (sm_DM (tbm_SM m)) 10 ∧ ts_name x = "t"%string ∧ ts_name y = "u"%string ∧ Forall record_fits [y; x].
Proof.
  destruct (tbm_Create_run sample_manager ∅ [] 5 sample_create 100 sample_catalog) as (m & items & x & d & _ & Hcat & Hsm & Hroom & (Hn & _) & _);
    [apply sample_working|apply sample_create_ok|done|exists 109%nat; split; [cbn; lia|by vm_compute]|].
  assert (Hsu : super_ok (tbm_SM m)) by (rewrite Hsm; apply super_DM, sample_working).
  destruct (tbm_Create_run m items [x] 5 sample_create2 10 Hcat Hsu) as (m2 & items2 & y & d2 & _ & Hcat2 & Hsm2 & Hroom2 & (Hn2 & _) & _).
  - split; [|split; [by apply (bool_decide_unpack _)|split; [done|cbn; lia]]]. by repeat constructor.
  - rewrite (cat_tc _ _ _ Hcat). apply not_elem_of_list_to_map. cbn [fmap list_fmap]. unfold ts_name. rewrite Hn. by apply (bool_decide_unpack _).
  - rewrite Hsm. eapply sample_room; [exact Hroom|cbn; lia].
  - exists m2, items2, x, y. split; [exact Hcat2|]. split; [rewrite Hsm2, Hsm; apply sample_working|]. split; [by rewrite Hsm2|]. split; [done|]. split; [done|].
    apply Forall_cons. split; [|apply Forall_singleton]; unfold record_fits, ts_name; [by rewrite Hn2|by rewrite Hn].
Qed.

Lemma drop_removes_table_witness : ∃ (m m' : tableManager MockTranManager memDM booter) items y y', tbm_Drop sample_range 5 sample_drop m = (m', Ret (str_bytes "drop t")) ∧
  catalog m' items [y'] ∧ same_table 5 y y' ∧ ts_name y' = "u"%string.
Proof.
  destruct sample_tables as (m & items & x & y & Hcat & Hw & Hroom & Hn & Hn2 & Hfits).
  pose proof (drop_removes_table 20 (λ _, Ret) sample_range m items [y; x] 5 (newTransaction 5 0 ∅) sample_drop 5 Hcat Hw) as H. cbn [fmap list_fmap] in H. rewrite Hn, Hn2 in H.
  destruct H as (m' & items' & Y & Y' & Hrun & Hcat' & HY & _ & Hsame & _);
    [by split|exact Hfits|done|eapply sample_room; [exact Hroom|cbn; lia]|].
  rewrite filter_cons_True in HY by by rewrite Hn2. rewrite filter_cons_False in HY by (rewrite Hn; intros Hne; by apply Hne). apply Permutation_singleton_r in HY as ->.
  apply Forall2_cons_inv_l in Hsame as (y' & Y1 & Hy & Hnil & ->). apply Forall2_nil_inv_l in Hnil as ->.
  exists m, m', items', y, y'. split; [exact Hrun|]. split; [exact Hcat'|]. split; [exact Hy|]. by destruct Hy as (self & next & ->).
Defined.

Lemma drop_unfinished_witness : ∃ (m m' m2 : tableManager MockTranManager memDM booter) d, tbm_Drop sample_range 5 sample_drop m = (m', Ret (str_bytes "drop t")) ∧
  tbm_OpenManager 10 (NewSerializabilityManager mkMock d) (tbm_booter m') = (m2, Panic).
Proof.
  destruct sample_tables as (m & items & x & y & Hcat & Hw & Hroom & Hn & Hn2 & Hfits).
  destruct (drop_unfinished sample_range m items [y; x] 5 (newTransaction 5 0 ∅) sample_drop 5 Hcat Hw) as (m' & items' & Hrun & Hd & Hopen);
    [by split|done|exact Hfits|done|eapply sample_room; [exact Hroom|cbn; lia]|cbn; rewrite Hn; by right; left| |].
  - by rewrite filter_cons_True by by rewrite Hn2.
  - destruct (Hopen mkMock _ 10%nat Hd) as [m2 Hm2]; [done|lia|]. by exists m, m', m2, (sm_DM (tbm_SM m')).
Defined.
