(* ===== verification/TableFacts.v ===== *)
(** Package [tbm]: rows keep the types of their table, what the aggregates
    compute, and what undone rows do to a table. *)
From S2P Require Import Prelude.
From S2P Require Import Codec.
From S2P Require Import Tm.
From S2P Require Import DmI.
From S2P Require Import Node.
From S2P Require Import Tree.
From S2P Require Import TreeRep.
From S2P Require Import LockTable.
From S2P Require Import Sm.
From S2P Require Import Parser.
From S2P Require Import Field.
From S2P Require Import Table.
From S2P Require Import TableData.
From S2P Require Import TableRep.
From S2P Require Import TableOps.
From S2P Require Import Booter.
From S2P Require Import TableMgr.
From S2P Require Import Catalog.
From S2P Require Import TableDel.
Local Open Scope Z_scope.

(** * Types *)

Lemma ValuePrint_ok f v : value_ok f v → ∃ str, ValuePrint f v = Ret str.
Proof. unfold value_ok, ValuePrint. on_type f Hf; [intros (n & -> & _)|intros (n & -> & _)|intros (s & -> & _)|done]; by eexists. Qed.

Lemma valueCompare_ok f v w : value_ok f v → value_ok f w → ∃ c, valueCompare f v w = Ret c ∧ -1 ≤ c ≤ 1.
Proof.
  unfold value_ok, valueCompare. on_type f Hf; [intros (n & -> & _) (n' & -> & _)|intros (n & -> & _) (n' & -> & _)|intros (s & -> & _) (s' & -> & _)|done];
    (eexists; split; [done|]; unfold compare3; repeat case_match; lia).
Qed.

Lemma printFields_ok fields e : (∀ f, f ∈ fields → value_ok f (row_get e (FName f))) → ∃ str, printFields fields e = Ret str.
Proof.
  induction fields as [|f fields IH]; intros Hok; [by eexists|]. cbn [printFields].
  destruct (ValuePrint_ok f _ (Hok f ltac:(by left))) as [str ->]. rewrite Ret_bind. destruct IH as [rest ->]; [intros; apply Hok; by right|]. rewrite Ret_bind. by eexists.
Qed.

(** C31: Rows keep their types, in a table whose columns have distinct names and
    types the code knows ([table_wf]; [create] does not check the names): the
    values of a statement, each below 4 GiB, that are accepted make a row with a
    value of its type in every column; such a row is written and read back as it
    is, whatever follows it; and printing it, comparing it with another row,
    finding its keys and testing any condition of the parser on it never meets a
    value of another type, so that no type assertion panics. *)
Theorem rows_well_typed t values e : table_wf t → Forall text_ok values → strToEntry t values = Ret e →
  row_ok t e ∧ (∃ raw, entryToRaw t e = Ret raw ∧ ∀ rest, parseEntry t (raw ++ rest) = Ret e) ∧ (∃ str, entryPrint t e = Ret str) ∧
  (∀ f, f ∈ tb_fields t → is_Ret (ValueToUUID f (row_get e (FName f))) = true ∧ ∀ e', row_ok t e' → is_Ret (valueCompare f (row_get e (FName f)) (row_get e' (FName f))) = true) ∧
  (∀ w, LogicOp w = ""%string ∨ is_Some (SingleExp2 w) → is_Ret (evaluateWhere t e (Some w)) = true).
Proof.
  intros Hwf Hval He. pose proof Hwf as [Hn Ht]. pose proof (strToEntry_ok t values e He Hn Ht Hval) as Hok. split; [exact Hok|]. destruct (Hok) as [_ Hv].
  split; [|split; [|split]].
  - destruct (row_read_back t e [] Hn Hok) as (raw & Hraw & _). exists raw. split; [done|]. intros rest.
    destruct (row_read_back t e rest Hn Hok) as (raw' & Hraw' & Hp). rewrite Hraw in Hraw'. by injection Hraw' as <-.
  - unfold entryPrint. destruct (printFields_ok (tb_fields t) e Hv) as [str ->]. rewrite Ret_bind. by eexists.
  - intros f Hf. split; [by rewrite (key_of_ok f e (Hv f Hf))|]. intros e' [_ Hv']. by destruct (valueCompare_ok f _ _ (Hv f Hf) (Hv' f Hf)) as (c & -> & _).
  - intros w Hw. by rewrite (evaluateWhere_total t e w Hok Hwf Hw).
Qed.

Definition sample_t : table := mkTable 9 "t" Byte.x00 0 [mkField 1 "id" "uint32" 5; mkField 2 "name" "string" 0] 7.

Lemma sample_wf : table_wf sample_t.
Proof. split; [by apply (bool_decide_unpack _)|repeat constructor; by vm_compute]. Qed.

Lemma rows_well_typed_witness : let e := {["id" := VUint32 7; "name" := VString "seven"]}%string in
  row_ok sample_t e ∧ (∃ raw, entryToRaw sample_t e = Ret raw ∧ ∀ rest, parseEntry sample_t (raw ++ rest) = Ret e).
Proof.
  intros e. destruct (rows_well_typed sample_t ["7"; "seven"]%string e) as (Hok & Hraw & _); [apply sample_wf|repeat constructor; by vm_compute|by vm_compute|by split].
Defined.

(** * Aggregates *)

(** The numbers in a column. *)
Definition column (entries : list row) (name : string) : list Z := omap (λ e, number_in e name) entries.

Definition sum (l : list Z) : Z := foldr Z.add 0 l.

Lemma total_sum entries name : total entries name = u64 (sum (column entries name)).
Proof.
  unfold total, column. assert (Hgen : ∀ acc, foldl (λ acc e, match number_in e name with Some v => u64 (acc + v) | None => acc end) (u64 acc) entries = u64 (acc + sum (omap (λ e, number_in e name) entries))).
  { induction entries as [|e entries IH]; intros acc; cbn [foldl omap list_omap]; [unfold sum; cbn; by rewrite Z.add_0_r|].
    destruct (number_in e name) as [v|]; [|apply IH]. change (sum (v :: omap (λ e, number_in e name) entries)) with (v + sum (omap (λ e, number_in e name) entries)).
    rewrite Z.add_assoc, <- IH. f_equal. unfold u64. by rewrite Zplus_mod_idemp_l. }
  apply (Hgen 0).
Qed.

Lemma min_foldl entries name acc : foldl (λ acc e, match number_in e name with Some v => if decide (v < acc) then v else acc | None => acc end) acc entries = foldr Z.min acc (column entries name).
Proof.
  revert acc. unfold column. induction entries as [|e entries IH]; intros acc; [done|]. cbn [foldl omap list_omap]. destruct (number_in e name) as [v|]; [|apply IH].
  rewrite IH. cbn [foldr]. clear IH. generalize (omap (λ e, number_in e name) entries). intros l. revert acc. induction l as [|x l IH]; intros acc; cbn [foldr]; [case_decide; lia|].
  rewrite IH. lia.
Qed.

Lemma max_foldl entries name acc : foldl (λ acc e, match number_in e name with Some v => if decide (acc < v) then v else acc | None => acc end) acc entries = foldr Z.max acc (column entries name).
Proof.
  revert acc. unfold column. induction entries as [|e entries IH]; intros acc; [done|]. cbn [foldl omap list_omap]. destruct (number_in e name) as [v|]; [|apply IH].
  rewrite IH. cbn [foldr]. clear IH. generalize (omap (λ e, number_in e name) entries). intros l. revert acc. induction l as [|x l IH]; intros acc; cbn [foldr]; [case_decide; lia|].
  rewrite IH. lia.
Qed.

Lemma foldr_min_in l acc : Forall (λ v, v ≤ acc) l → l ≠ [] → foldr Z.min acc l ∈ l ∧ Forall (λ v, foldr Z.min acc l ≤ v) l.
Proof.
  induction l as [|v l IH]; [done|]. intros [Hv Hl]%Forall_cons _. cbn [foldr]. destruct l as [|v' l]; [cbn; rewrite Z.min_l by done; split; [by left|by apply Forall_singleton]|].
  destruct (IH Hl) as [Hin Hall]; [done|]. generalize dependent (foldr Z.min acc (v' :: l)). intros k _ Hin Hall. destruct (decide (v ≤ k)).
  - rewrite Z.min_l by done. split; [by left|]. apply Forall_cons. split; [done|]. eapply Forall_impl; [exact Hall|cbv beta; intros x Hx; lia].
  - rewrite Z.min_r by lia. split; [by right|]. apply Forall_cons. split; [lia|done].
Qed.

Lemma foldr_max_in l acc : Forall (λ v, acc ≤ v) l → l ≠ [] → foldr Z.max acc l ∈ l ∧ Forall (λ v, v ≤ foldr Z.max acc l) l.
Proof.
  induction l as [|v l IH]; [done|]. intros [Hv Hl]%Forall_cons _. cbn [foldr]. destruct l as [|v' l]; [cbn; rewrite Z.max_l by done; split; [by left|by apply Forall_singleton]|].
  destruct (IH Hl) as [Hin Hall]; [done|]. generalize dependent (foldr Z.max acc (v' :: l)). intros k _ Hin Hall. destruct (decide (k ≤ v)).
  - rewrite Z.max_l by done. split; [by left|]. apply Forall_cons. split; [done|]. eapply Forall_impl; [exact Hall|cbv beta; intros x Hx; lia].
  - rewrite Z.max_r by lia. split; [by right|]. apply Forall_cons. split; [lia|done].
Qed.

(** The numbers of a row are those of its column's type. *)
Lemma column_range t entries name : Forall (row_ok t) entries → Forall (λ v, 0 ≤ v < 2 ^ 64) (column entries name).
Proof.
  unfold column. induction 1 as [|e entries [Hdom Hok] _ IH]; [constructor|]. cbn [omap list_omap]. destruct (number_in e name) as [v|] eqn:Hv; [|done]. constructor; [|done].
  unfold number_in, row_get in Hv. destruct (e !! name) as [x|] eqn:Hx; [|done]. cbn in Hv.
  assert (Hin : name ∈ dom e) by (by apply elem_of_dom_2 in Hx). rewrite Hdom in Hin. apply elem_of_list_to_set, list_elem_of_fmap in Hin as (f & -> & Hf).
  specialize (Hok f Hf). unfold row_get in Hok. rewrite Hx in Hok. cbn in Hok. unfold value_ok in Hok.
  destruct x as [|n|n|str]; try done; injection Hv as <-; revert Hok; (on_type f Ht; [intros (k & [= ->] & Hk)|intros (k & [= ->] & Hk)|intros (k & [=] & _)|done]).
  - rewrite u64_id; lia.
  - done.
Qed.

(** C32: What the aggregates say about the rows of a result: [sum] is the sum of
    the column, modulo 2^64; [avg] is that number divided by the number of the
    rows, rounded down; [min] and [max] are the smallest and the largest number
    of the column; without rows all of them are 0; [count] of [*] counts the
    rows, and [count] of a field prints nothing at all. *)
Theorem aggregates_correct t entries name : Forall (row_ok t) entries →
  aggregate entries (mkAgg "sum" name) = [agg_text "sum" name (sum (column entries name) mod 2 ^ 64)] ∧
  aggregate entries (mkAgg "avg" name) = [agg_text "avg" name (sum (column entries name) mod 2 ^ 64 / Z.max 1 (zlen entries))] ∧
  aggregate entries (mkAgg "count" "*") = [agg_text "count" "*" (zlen entries)] ∧
  (name ≠ "*"%string → aggregate entries (mkAgg "count" name) = []) ∧
  (column entries name ≠ [] → ∃ lo hi, aggregate entries (mkAgg "min" name) = [agg_text "min" name lo] ∧ aggregate entries (mkAgg "max" name) = [agg_text "max" name hi] ∧
    lo ∈ column entries name ∧ hi ∈ column entries name ∧ Forall (λ v, lo ≤ v ≤ hi) (column entries name)) ∧
  (entries = [] → aggregate entries (mkAgg "min" name) = [agg_text "min" name 0] ∧ aggregate entries (mkAgg "max" name) = [agg_text "max" name 0]).
Proof.
  intros Hok. pose proof (zlen_nonneg entries). unfold aggregate. cbn [Func Agg_Field decide decide_rel]. rewrite !total_sum. change (u64 (sum (column entries name))) with (sum (column entries name) mod 2 ^ 64).
  split; [done|]. split; [|split; [done|split; [intros Hname; by rewrite decide_True, decide_False by done|split]]].
  - do 2 (rewrite decide_False by done). rewrite decide_True by done. case_decide; [by rewrite Z.max_r by lia|]. assert (entries = []) as -> by (apply length_zero_iff_nil; unfold zlen in *; lia). done.
  - intros Hc. pose proof (column_range t entries name Hok) as Hr. exists (minVal entries name), (maxVal entries name).
    assert (Hne : zlen entries ≠ 0) by (destruct entries; [done|]; rewrite zlen_cons; pose proof (zlen_nonneg entries); lia).
    split; [do 3 (rewrite decide_False by done); by rewrite decide_True, decide_False by done|].
    split; [do 4 (rewrite decide_False by done); by rewrite decide_True, decide_False by done|]. unfold minVal, maxVal. rewrite min_foldl, max_foldl.
    destruct (foldr_min_in (column entries name) (2 ^ 64 - 1)) as [Hmin Hmin']; [eapply Forall_impl; [exact Hr|cbv beta; intros x Hx; lia]|done|].
    destruct (foldr_max_in (column entries name) 0) as [Hmax Hmax']; [eapply Forall_impl; [exact Hr|cbv beta; intros x Hx; lia]|done|].
    split; [done|]. split; [done|]. rewrite Forall_forall in *. naive_solver.
  - by intros ->.
Qed.

Definition sample_rows : list row := [{["id" := VUint32 7; "name" := VString "seven"]}; {["id" := VUint32 2; "name" := VString "two"]}; {["id" := VUint32 4; "name" := VString "four"]}]%string.

Lemma aggregates_correct_witness : Forall (row_ok sample_t) sample_rows ∧ aggregate sample_rows (mkAgg "avg" "id") = [agg_text "avg" "id" 4] ∧
  aggregate sample_rows (mkAgg "count" "*") = ["count(*)=3"]%string ∧ (∃ lo hi, aggregate sample_rows (mkAgg "min" "id") = [agg_text "min" "id" lo] ∧ aggregate sample_rows (mkAgg "max" "id") = [agg_text "max" "id" hi] ∧ lo ∈ [7; 2; 4] ∧ hi ∈ [7; 2; 4] ∧ Forall (λ v, lo ≤ v ≤ hi) [7; 2; 4]).
Proof.
  assert (Hok : Forall (row_ok sample_t) sample_rows).
  { destruct sample_wf as [Hn Ht]. repeat constructor; [apply (strToEntry_ok sample_t ["7"; "seven"]%string)|apply (strToEntry_ok sample_t ["2"; "two"]%string)|apply (strToEntry_ok sample_t ["4"; "four"]%string)];
      first [exact Hn|exact Ht|by repeat constructor; vm_compute|by vm_compute]. }
  split; [done|]. destruct (aggregates_correct sample_t sample_rows "id" Hok) as (_ & Havg & Hcount & _ & Hmm & _).
  split; [rewrite Havg; by vm_compute|]. split; [rewrite Hcount; by vm_compute|]. assert (Hcol : column sample_rows "id" = [7; 2; 4]) by (by vm_compute). rewrite Hcol in Hmm. by apply Hmm.
Defined.

(** * limit and offset *)

(** C33: What [limit] and [offset] take of the rows: those behind the first
    [offset], [limit] at most; an offset behind the end gives none.  Otherwise
    a negative offset, or a sum of the two that does not fit in 63 bits, is a
    slice out of range, which stops the server. *)
Theorem limit_bounds entries limit offset : 0 < limit < 2 ^ 63 → - 2 ^ 63 ≤ offset < 2 ^ 63 →
  (limitEntries entries limit offset = Panic ↔ offset < zlen entries ∧ (offset < 0 ∨ 2 ^ 63 ≤ offset + limit)) ∧
  (0 ≤ offset → offset + limit < 2 ^ 63 → ∃ page, limitEntries entries limit offset = Ret page ∧ zlen page = Z.max 0 (Z.min limit (zlen entries - offset)) ∧
    ∀ i, 0 ≤ i < zlen page → page !! Z.to_nat i = entries !! Z.to_nat (offset + i)).
Proof.
  intros Hl Ho. rewrite limitEntries_run by done. pose proof (zlen_nonneg entries). split.
  - repeat case_decide; split; try discriminate; try done; lia.
  - intros H0 Hsum. rewrite (decide_False (P := offset < 0 ∨ _)) by lia. case_decide as Hlen; [exists []; split; [done|]; change (zlen (@nil row)) with 0; split; lia|].
    eexists. split; [done|]. unfold zlen in *. rewrite length_take, length_drop. split; [lia|]. intros i Hi. rewrite ?length_take, ?length_drop in Hi.
    rewrite lookup_take_lt by lia. rewrite lookup_drop. f_equal. lia.
Qed.

Lemma limit_bounds_witness : limitEntries sample_rows 1 1 = Ret [{["id" := VUint32 2; "name" := VString "two"]}]%string ∧
  limitEntries sample_rows (2 ^ 63 - 1) 1 = Panic.
Proof.
  split.
  - destruct (limit_bounds sample_rows 1 1 ltac:(lia) ltac:(lia)) as [_ Hpage]. destruct (Hpage ltac:(lia) ltac:(lia)) as (page & -> & Hlen & Hat).
    change (zlen sample_rows) with 3 in Hlen. specialize (Hat 0). destruct page as [|e [|]]; [by vm_compute in Hlen| |unfold zlen in Hlen; cbn [length] in Hlen; lia].
    specialize (Hat ltac:(lia)). cbn in Hat. by injection Hat as ->.
  - apply (limit_bounds sample_rows (2 ^ 63 - 1) 1); [lia|lia|]. change (zlen sample_rows) with 3. lia.
Defined.

(** * Conditions on an indexed field *)

Section ByIndex.
Context {T : Type} `{!TransactionManager T} {D : Type} `{!DataManager D, !DataManagerOk D} {B : Type} `{!Booter B, !BooterOk B}.
Context (fuel : nat) (sort_Slice : (row → row → outcome bool) → list row → outcome (list row)).
Notation TBM := (tableManager T D B).
Notation SM := (serializabilityManager T D).

(** The row is visible to [tx] and its key is in the interval. *)
Definition in_keys (s : SM) (tx : transaction) (fd : field) (i : UUID * UUID) (r : srow) : Prop :=
  alive_row s tx r ∧ i.1 ≤ key_of fd (s_row r) ≤ i.2.
#[export] Instance in_keys_dec s tx fd i r : Decision (in_keys s tx fd i r).
Proof. unfold in_keys. apply _. Defined.

(** The same condition with another field in its second comparison. *)
Definition on_field (name : string) (exp : SingleExp) : SingleExp := mkExp name (CmpOp exp) (Exp_Value exp).
Definition second_on (name : string) (w : Where) : Where := mkWhere (SingleExp1 w) (LogicOp w) (on_field name <$> SingleExp2 w).
Definition read_with (read : Read) (w : option Where) : Read :=
  mkRead (Read_TableName read) (Fields read) (Aggregates read) w (OrderBy read) (OrderDesc read) (Limit read) (Offset read).

Lemma calWhere_second_on fd name w : calWhere fd (second_on name w) = calWhere fd w.
Proof. unfold calWhere, second. cbn. by destruct (SingleExp2 w). Qed.

(** A search by index, as [where_rows] is for the conditions it answers right. *)
Lemma index_rows t R (s : SM) xid tx w items ts tr fd i0 i1 single : dm_rep (sm_DM s) items → table_db t items R ts tr → working s xid tx →
  Forall (λ r, own_row tx (s_xmin r) (s_xmax r)) R → find_field t (Exp_Field (SingleExp1 w)) = Some fd → IsIndexed fd = true →
  calWhere fd w = Ret (i0, i1, single) → key_ok i0.1 → key_ok i1.1 → (2 * length R + 3 ≤ fuel)%nat →
  ∃ R', table_parseWhere fuel t xid (Some w) s = (s, Ret (s_uuid <$> R')) ∧ Forall (row_stored t items) R' ∧ Forall (λ r, own_row tx (s_xmin r) (s_xmax r)) R' ∧
    filter (alive_row s tx) R' ≡ₚ filter (in_keys s tx fd i0) R ++ (if single then [] else filter (in_keys s tx fd i1) R).
Proof.
  intros Hd Hdb Hw Hown Hfd Hix Hcal H0 H1 Hf. pose proof (db_stored _ _ _ _ _ Hdb) as Hst. pose proof (find_field_Some _ _ _ Hfd) as [Hin _].
  destruct (index_search fuel t items R ts tr s fd i0.1 i0.2 Hd Hdb Hin Hix H0 Hf) as (uids0 & Hrun0 & Hp0). apply uuids_of in Hp0 as (R0 & -> & Hp0).
  destruct (index_search fuel t items R ts tr s fd i1.1 i1.2 Hd Hdb Hin Hix H1 Hf) as (uids1 & Hrun1 & Hp1). apply uuids_of in Hp1 as (R1 & -> & Hp1).
  assert (Hkeys : ∀ i : UUID * UUID, filter (alive_row s tx) (filter (λ r, i.1 ≤ key_of fd (s_row r) ≤ i.2) R) = filter (in_keys s tx fd i) R)
    by (intros i; rewrite list_filter_filter; apply filter_agree, Forall_true; intros r; unfold in_keys; tauto).
  exists (R0 ++ if single then [] else R1). split; [|split; [|split]].
  - unfold table_parseWhere. rewrite Hfd, Hix. cbn [negb]. rewrite Hcal, M_lift_bind, (M_bind_run _ _ _ _ _ Hrun0).
    destruct single; [by rewrite app_nil_r|]. rewrite (M_bind_run _ _ _ _ _ Hrun1). by rewrite fmap_app.
  - apply Forall_app. split; [rewrite Hp0; by apply Forall_filter|]. destruct single; [constructor|]. rewrite Hp1. by apply Forall_filter.
  - apply Forall_app. split; [rewrite Hp0; by apply Forall_filter|]. destruct single; [constructor|]. rewrite Hp1. by apply Forall_filter.
  - rewrite filter_app. destruct single; rewrite Hp0, ?Hp1, !Hkeys; done.
Qed.

(** C36: What a condition that starts with an indexed field selects: [calWhere]
    makes one interval of keys of that field out of it, or two for [or], and
    [read] returns the visible rows with a key in it, without a further test of
    the condition; with [or] the rows of both intervals, so that a row in both
    comes twice.  The field of the second comparison does not matter at all:
    with any other name in its place the answer is the same.  So an index
    changes the answer: without one the same condition starts a scan, which
    tests it on every row (C23).  The database is a [catalog] (the keys in an
    index are distinct), no row the transaction created was deleted by another
    one, the values of the condition are of the field's type, and the intervals
    start below the greatest key. *)
Theorem index_changes_answers (m : TBM) items X x xid tx read w fd i0 i1 single : catalog m items X → x ∈ X → ts_name x = Read_TableName read →
  working (tbm_SM m) xid tx → sees_own tx x → Read_Where read = Some w → find_field (ts_table x) (Exp_Field (SingleExp1 w)) = Some fd → IsIndexed fd = true →
  calWhere fd w = Ret (i0, i1, single) → key_ok i0.1 → key_ok i1.1 → (2 * length (ts_rows x) + 3 ≤ fuel)%nat →
  (∃ es, tbm_Read fuel sort_Slice xid read m = (m, str_bytes <$> renderRows sort_Slice (ts_table x) read es) ∧
    es ≡ₚ s_row <$> filter (in_keys (tbm_SM m) tx fd i0) (ts_rows x) ++ (if single then [] else filter (in_keys (tbm_SM m) tx fd i1) (ts_rows x))) ∧
  ∀ name, tbm_Read fuel sort_Slice xid (read_with read (Some (second_on name w))) m = tbm_Read fuel sort_Slice xid read m.
Proof.
  intros Hcat Hx Hname Hw Hown Hwhere Hfd Hix Hcal H0 H1 Hfuel. pose proof Hcat as [Hd [_ Hall] _ _ _]. rewrite Forall_forall in Hall. destruct (Hall x Hx) as (Htab & _ & _).
  split.
  - destruct (index_rows (ts_table x) (ts_rows x) (tbm_SM m) xid tx w items _ _ fd i0 i1 single Hd Htab Hw Hown) as (R' & Hpw & Hst & Hown' & Hp); [done..|].
    exists (s_row <$> filter (alive_row (tbm_SM m) tx) R'). split; [|by apply fmap_Permutation].
    unfold tbm_Read. rewrite (M_bind_run _ _ _ _ _ (the_table_run _ _ _ _ _ Hcat Hx Hname)).
    assert (Hread : table_Read fuel sort_Slice (ts_table x) xid read (tbm_SM m) =
      (tbm_SM m, renderRows sort_Slice (ts_table x) read (s_row <$> filter (alive_row (tbm_SM m) tx) R'))).
    { unfold table_Read. rewrite Hwhere, (M_bind_run _ _ _ _ _ Hpw), (M_bind_run _ _ _ _ _ (readRows_run _ _ _ _ _ Hd Hw (db_wf _ _ _ _ _ Htab) _ Hst Hown')). done. }
    unfold mbind, M_bind. rewrite (on_SM_same _ _ _ Hread). by destruct (renderRows _ _ _ _).
  - intros name. assert (Hpw : table_parseWhere fuel (ts_table x) xid (Some (second_on name w)) = table_parseWhere fuel (ts_table x) xid (Some w) :> M SM _).
    { unfold table_parseWhere. cbn [second_on SingleExp1]. rewrite Hfd, Hix. cbn [negb]. by rewrite calWhere_second_on. }
    unfold tbm_Read. cbn [read_with Read_TableName]. rewrite !(M_bind_run _ _ _ _ _ (the_table_run _ _ _ _ _ Hcat Hx Hname)).
    unfold table_Read. cbn [read_with Read_Where]. by rewrite Hwhere, Hpw.
Qed.
End ByIndex.

(** * After a crash *)

Section Undone.
Context {T : Type} `{!TransactionManager T} {D : Type} `{!DataManager D, !DataManagerOk D} {B : Type} `{!Booter B, !BooterOk B}.
Context (fuel : nat) (sort_Slice : (row → row → outcome bool) → list row → outcome (list row)).
Notation TBM := (tableManager T D B).
Notation SM := (serializabilityManager T D).

(** A row whose data item is gone ends the reading of all of them. *)
Lemma readRows_stuck t (items : gmap UUID (list byte)) (s : SM) xid tx gone R : dm_rep (sm_DM s) items → working s xid tx → table_wf t →
  dm_Read (sm_DM s) gone = Ret None → Forall (λ r, s_uuid r = gone ∨ row_stored t items r ∧ own_row tx (s_xmin r) (s_xmax r)) R →
  gone ∈ s_uuid <$> R → readRows t xid (s_uuid <$> R) s = (s, Err ErrNilEntry).
Proof.
  intros Hd Hw Hwf Hgone HR. induction HR as [|r R Hr HR IH]; [by intros ?%elem_of_nil|]. cbn [fmap list_fmap readRows]. intros Hin.
  destruct (decide (s_uuid r = gone)) as [->|Hne].
  - unfold sm_Read. rewrite M_bind_assoc, (M_bind_run _ _ _ _ _ (cached_working _ _ _ Hw)). destruct Hw as (_ & _ & _ & ->). unfold getEntry, mbind, M_bind. by rewrite Hgone.
  - destruct Hr as [?|[Hst Hown]]; [done|]. rewrite (M_bind_run _ _ _ _ _ (read_row t items s xid tx r Hd Hst Hw Hown)).
    apply elem_of_cons in Hin as [Hin|Hin]; [congruence|]. specialize (IH Hin). destruct (decide (alive_row s tx r)); [|done].
    rewrite (parse_row t items r Hwf Hst), M_lift_bind. unfold mbind, M_bind. by rewrite IH.
Qed.

Lemma sm_Read_gone (s : SM) xid tx uuid : working s xid tx → dm_Read (sm_DM s) uuid = Ret None → sm_Read xid uuid s = (s, Err ErrNilEntry).
Proof.
  intros Hw Hgone. unfold sm_Read. rewrite (M_bind_run _ _ _ _ _ (cached_working _ _ _ Hw)). destruct Hw as (_ & _ & _ & ->).
  unfold getEntry, mbind, M_bind. by rewrite Hgone.
Qed.

(** It ends the search through all of them as well. *)
Lemma filterRows_stuck t (items : gmap UUID (list byte)) (s : SM) xid tx w gone R : dm_rep (sm_DM s) items → working s xid tx → table_wf t →
  dm_Read (sm_DM s) gone = Ret None → Forall (λ r, s_uuid r = gone ∨ row_stored t items r ∧ own_row tx (s_xmin r) (s_xmax r)) R →
  LogicOp w = ""%string ∨ is_Some (SingleExp2 w) → gone ∈ s_uuid <$> R → filterRows t xid w (s_uuid <$> R) s = (s, Err ErrNilEntry).
Proof.
  intros Hd Hw Hwf Hgone HR Hlw. induction HR as [|r R Hr HR IH]; [by intros ?%elem_of_nil|]. cbn [fmap list_fmap filterRows]. intros Hin.
  destruct (decide (s_uuid r = gone)) as [->|Hne]; [by apply M_bind_err, (sm_Read_gone _ _ tx)|].
  destruct Hr as [?|[Hst Hown]]; [done|]. rewrite (M_bind_run _ _ _ _ _ (read_row t items s xid tx r Hd Hst Hw Hown)).
  apply elem_of_cons in Hin as [Hin|Hin]; [congruence|]. specialize (IH Hin). pose proof Hst as (_ & _ & _ & _ & Hok & _).
  set (keep := if decide (alive_row s tx r) then matches t (Some w) (s_row r) else false). rewrite (M_bind_run _ _ s s keep).
  - unfold mbind, M_bind. by rewrite IH.
  - unfold keep. destruct (decide (alive_row s tx r)) as [Ha|Ha]; [|done].
    by rewrite (parse_row t items r Hwf Hst), M_lift_bind, (evaluateWhere_total t _ w Hok Hwf Hlw).
Qed.

(** The statement goes through all rows of the table: it has no condition, or
    the condition starts with a field that has no index. *)
Definition scans (t : table) (w : option Where) : Prop :=
  match w with
  | None => True
  | Some w => ∃ fd, find_field t (Exp_Field (SingleExp1 w)) = Some fd ∧ IsIndexed fd = false ∧ (LogicOp w = ""%string ∨ is_Some (SingleExp2 w))
  end.

(** C34: A row that recovery took back - its data item is gone, the entries of
    the indexes, which belong to the super transaction, are not - makes its
    table unreadable: every [read] that scans the table, without a condition or
    with one of the parser that starts with a field without an index, fails with
    [ErrNilEntry], for every transaction whose own rows nobody else deleted.
    But for that row the table is one of a [catalog]. *)
Theorem undone_row_blocks_table (m : TBM) items X x r xid tx read d : catalog m items X → x ∈ X → ts_name x = Read_TableName read →
  scans (ts_table x) (Read_Where read) → working (tbm_SM m) xid tx → sees_own tx x → (2 * length (ts_rows x) + 3 ≤ fuel)%nat →
  r ∈ ts_rows x → dm_rep d (delete (s_uuid r) items) → dm_Read d (s_uuid r) = Ret None →
  tbm_Read fuel sort_Slice xid read (set_SM (set_DM d (tbm_SM m)) m) = (set_SM (set_DM d (tbm_SM m)) m, Err ErrNilEntry).
Proof.
  intros Hcat Hx Hname Hwhere Hw Hown Hfuel Hr Hd Hgone. pose proof Hcat as [_ [Hforest Hall] _ _ _].
  rewrite Forall_forall in Hall. destruct (Hall x Hx) as ([Htr _ Hboot Hents Hst Hwf] & _ & _).
  set (m' := set_SM (set_DM d (tbm_SM m)) m). set (s := set_DM d (tbm_SM m)).
  assert (Hthe : the_table (Read_TableName read) m' = (m', Ret (ts_table x))).
  { pose proof (the_table_run m items X x _ Hcat Hx Hname) as H1. unfold the_table, mbind, M_bind, get in *. cbn [m' tbm_tc set_SM] in *. by destruct (tbm_tc m !! _) as [tb|]; [injection H1 as ->|]. }
  assert (Htree : tree_at (delete (s_uuid r) items) (t_boot (ts_tree x)) (t_uids (ts_tree x)) (t_ents (ts_tree x))).
  { apply (tree_at_agree items); [|by apply Forall_cons in Htr as [? _]]. intros v Hv. rewrite lookup_delete_ne; [done|]. intros <-.
    destruct Hforest as (_ & Hnd & _). apply NoDup_app in Hnd as (_ & Hdisj & _). apply (Hdisj (s_uuid r)).
    - apply list_elem_of_bind. exists (ts_tree x). split; [done|]. apply list_elem_of_bind. exists x. split; [by left|done].
    - apply list_elem_of_bind. exists x. split; [|done]. unfold ts_items. apply elem_of_app. left. by apply list_elem_of_fmap_2. }
  assert (Hscan : ∃ R, rowIndex_SearchRange fuel (ts_table x) 0 INF s = (s, Ret (s_uuid <$> R)) ∧ R ≡ₚ ts_rows x).
  { pose proof (index_range _ _ 0 INF _ Hents) as Hp. rewrite (filter_everything _ (ts_rows x)) in Hp; [|eapply Forall_impl; [exact Hst|]; cbv beta; intros ? (_ & _ & _ & ? & _); lia].
    destruct (Permutation_map_inv s_uuid (ts_rows x) Hp) as (R & HR & HRp). exists R. split; [|by symmetry]. change (s_uuid <$> R) with (map s_uuid R). rewrite <- HR. apply on_DM_same. rewrite <- Hboot. eapply tree_at_search; [exact Hd|exact Htree|done|].
    rewrite Hents. unfold index_ents. by rewrite length_fmap. }
  destruct Hscan as (R & Hscan & HR).
  assert (Hrows : Forall (λ r', s_uuid r' = s_uuid r ∨ row_stored (ts_table x) (delete (s_uuid r) items) r' ∧ own_row tx (s_xmin r') (s_xmax r')) R).
  { apply Forall_forall. intros r' Hr'. rewrite HR in Hr'. destruct (decide (s_uuid r' = s_uuid r)) as [?|Hne]; [by left|]. right.
    unfold sees_own in Hown. rewrite Forall_forall in Hst, Hown. split; [|by apply Hown]. eapply row_stored_agree; [|by apply Hst]. by rewrite lookup_delete_ne. }
  assert (Hin : s_uuid r ∈ s_uuid <$> R) by (apply list_elem_of_fmap_2; by rewrite HR).
  assert (Hread : table_Read fuel sort_Slice (ts_table x) xid read s = (s, Err ErrNilEntry)).
  { unfold table_Read. destruct (Read_Where read) as [w|]; cbn [scans table_parseWhere] in *.
    - destruct Hwhere as (fd & -> & -> & Hlw). cbn [negb]. unfold fullScanFilter. apply M_bind_err. rewrite (M_bind_run _ _ _ _ _ Hscan).
      by apply (filterRows_stuck (ts_table x) (delete (s_uuid r) items) s xid tx w (s_uuid r) R).
    - rewrite (M_bind_run _ _ _ _ _ Hscan). unfold mbind, M_bind. by rewrite (readRows_stuck (ts_table x) (delete (s_uuid r) items) s xid tx (s_uuid r) R). }
  unfold tbm_Read. rewrite (M_bind_run _ _ _ _ _ Hthe). unfold mbind, M_bind. rewrite (on_SM_same _ m' _ Hread). done.
Qed.
End Undone.

Lemma undone_row_blocks_table_witness : ∃ (m m' : tableManager MockTranManager memDM booter) es,
  tbm_Read 20 (λ _, Ret) 5 (mkRead "t" [] [] None "" false 0 0) m = (m, str_bytes <$> es) ∧
  tbm_Read 20 (λ _, Ret) 5 (mkRead "t" [] [] None "" false 0 0) m' = (m', Err ErrNilEntry) ∧
  tbm_tc m' = tbm_tc m ∧ sm_TM (tbm_SM m') = sm_TM (tbm_SM m).
Proof.
  destruct sample_table as (m & items & x & Hcat & Hw & _ & Hroom & Hrows & _ & Hn & u1 & u2 & i1 & Hi & Hf).
  destruct (sample_described (ts_table x) u1 u2 i1 Hf Hi) as (Hdes & Hkeys & Hsup & Hlen).
  destruct (tbm_Insert_run 20 m items [] x [] 5 (newTransaction 5 0 ∅) sample_insert sample_es 10) as (d & items' & new & ts & tr & _ & Hcat' & Hnew & Hes & _);
    [exact Hcat|exact Hn|exact Hw|by vm_compute|exact Hdes|by rewrite Hrows|rewrite Hrows; cbn; lia|eapply sample_room; [exact Hroom|rewrite Hlen; cbn; lia]|].
  rewrite Hrows, app_nil_r in Hcat'. set (x' := mkTs (ts_table x) new ts tr (ts_xmin x)) in *. apply (f_equal length) in Hes. rewrite length_fmap, length_reverse in Hes. cbn in Hes.
  assert (Hown : sees_own (newTransaction 5 0 ∅) x') by (eapply Forall_impl; [exact Hnew|]; intros r [_ Hr0] _; by left).
  set (m1 := set_SM (set_DM d (tbm_SM m)) m) in *. set (read := mkRead "t" [] [] None "" false 0 0).
  destruct (tbm_Read_run 20 (λ _, Ret) m1 items' [x'] x' 5 (newTransaction 5 0 ∅) read Hcat') as (es & Hrun & _); [by left|exact Hn|exact Hw|exact Hown|done|cbn [x' ts_rows]; lia|].
  destruct new as [|r new]; [done|]. set (d' := mkMem (delete (s_uuid r) items') (mem_next d)).
  pose proof (cat_dm _ _ _ Hcat') as (Hdi & Hdn & Hdf). cbn [m1 tbm_SM set_SM sm_DM set_DM] in Hdn, Hdf.
  exists m1, (set_SM (set_DM d' (tbm_SM m1)) m1), (renderRows (λ _, Ret) (ts_table x') read es). split; [exact Hrun|]. split; [|done].
  eapply (undone_row_blocks_table 20 (λ _, Ret) m1 items' [x'] x' r 5 (newTransaction 5 0 ∅) read d' Hcat');
    [by left|exact Hn|done|exact Hw|exact Hown|cbn [x' ts_rows]; lia|by left| |by (cbn; rewrite lookup_delete_eq)].
  split; [done|]. split; [exact Hdn|]. intros uid Hu. cbn in Hu. rewrite lookup_delete_None. right. by apply Hdf.
Defined.

(** The rows (7, seven) and (2, two) with an index on [id]. *)
Definition sample_reading (w : Where) : Read := mkRead "t" [] [] (Some w) "" false 0 0.
Definition two_fields : Where := mkWhere (mkExp "id" ">" "1") "and" (Some (mkExp "name" "<" "5")).
Definition overlap : Where := mkWhere (mkExp "id" ">" "0") "or" (Some (mkExp "id" "<" "9")).

Lemma sample_filled : ∃ (m : tableManager MockTranManager memDM booter) items x u1 u2 i1, catalog m items [x] ∧ ts_name x = "t"%string ∧
  working (tbm_SM m) 5 (newTransaction 5 0 ∅) ∧ sees_own (newTransaction 5 0 ∅) x ∧ s_row <$> ts_rows x = reverse sample_es ∧
  Forall (alive_row (tbm_SM m) (newTransaction 5 0 ∅)) (ts_rows x) ∧
  tb_fields (ts_table x) = [mkField u1 "id" "uint32" i1; mkField u2 "name" "string" NilUUID] ∧ i1 ≠ NilUUID.
Proof.
  destruct sample_table as (m & items & x & Hcat & Hw & _ & Hroom & Hrows & _ & Hn & u1 & u2 & i1 & Hi & Hf).
  destruct (sample_described (ts_table x) u1 u2 i1 Hf Hi) as (Hdes & Hkeys & Hsup & Hlen).
  destruct (tbm_Insert_run 20 m items [] x [] 5 (newTransaction 5 0 ∅) sample_insert sample_es 10) as (d & items' & new & ts & tr & _ & Hcat' & Hnew & Hes & _);
    [exact Hcat|exact Hn|exact Hw|by vm_compute|exact Hdes|by rewrite Hrows|rewrite Hrows; cbn; lia|eapply sample_room; [exact Hroom|rewrite Hlen; cbn; lia]|].
  rewrite Hrows, app_nil_r in Hcat'. exists (set_SM (set_DM d (tbm_SM m)) m), items', (mkTs (ts_table x) new ts tr (ts_xmin x)), u1, u2, i1.
  split; [exact Hcat'|]. split; [exact Hn|]. split; [exact Hw|].
  split; [eapply Forall_impl; [exact Hnew|]; intros r [_ Hr0] _; by left|]. split; [exact Hes|]. split; [|by split].
  eapply Forall_impl; [exact Hnew|]. intros r [H1 H2]. unfold alive_row, alive. rewrite H1, H2. done.
Qed.

Lemma index_changes_answers_witness : ∃ (m : tableManager MockTranManager memDM booter) x es1 es2,
  tbm_Read 20 (λ _, Ret) 5 (sample_reading two_fields) m = (m, str_bytes <$> renderRows (λ _, Ret) (ts_table x) (sample_reading two_fields) es1) ∧
  es1 = [{["id" := VUint32 2; "name" := VString "two"]}]%string ∧ (λ e, matches (ts_table x) (Some two_fields) e) <$> es1 = [false] ∧
  tbm_Read 20 (λ _, Ret) 5 (sample_reading overlap) m = (m, str_bytes <$> renderRows (λ _, Ret) (ts_table x) (sample_reading overlap) es2) ∧
  es2 ≡ₚ sample_es ++ sample_es.
Proof.
  destruct sample_filled as (m & items & x & u1 & u2 & i1 & Hcat & Hn & Hw & Hown & Hes & Hal & Hf & Hi).
  set (fd := mkField u1 "id" "uint32" i1). set (tx := newTransaction 5 0 ∅) in *.
  assert (Hlen : (2 * length (ts_rows x) + 3 ≤ 20)%nat) by (apply (f_equal length) in Hes; rewrite length_fmap in Hes; rewrite Hes; cbn; lia).
  assert (Hfd : find_field (ts_table x) "id" = Some fd) by (unfold find_field; by rewrite Hf).
  assert (Hix : IsIndexed fd = true) by (by apply bool_decide_eq_true).
  assert (Hkeys : ∀ i, s_row <$> filter (in_keys (tbm_SM m) tx fd i) (ts_rows x) = filter (λ e, i.1 ≤ key_of fd e ≤ i.2) (reverse sample_es)).
  { intros i. rewrite <- Hes, filter_image. f_equal. apply filter_agree. eapply Forall_impl; [exact Hal|]. intros r Hr. unfold in_keys. tauto. }
  destruct (index_changes_answers 20 (λ _, Ret) m items [x] x 5 tx (sample_reading two_fields) two_fields fd (2, 4) (0, 4) true)
    as [(es1 & Hr1 & Hp1) _]; [exact Hcat|by left|exact Hn|exact Hw|exact Hown|done|exact Hfd|exact Hix|by vm_compute|by vm_compute|by vm_compute|exact Hlen|].
  destruct (index_changes_answers 20 (λ _, Ret) m items [x] x 5 tx (sample_reading overlap) overlap fd (1, INF) (0, 8) false)
    as [(es2 & Hr2 & Hp2) _]; [exact Hcat|by left|exact Hn|exact Hw|exact Hown|done|exact Hfd|exact Hix|by vm_compute|by vm_compute|by vm_compute|exact Hlen|].
  exists m, x, es1, es2. rewrite fmap_app, Hkeys in Hp1. rewrite fmap_app, !Hkeys in Hp2.
  assert (He1 : es1 = [{["id" := VUint32 2; "name" := VString "two"]}]%string) by (apply Permutation_singleton_r; rewrite Hp1; by vm_compute).
  split; [exact Hr1|]. split; [exact He1|]. split; [|split; [exact Hr2|]].
  - rewrite He1. cbn [fmap list_fmap]. unfold matches, evaluateWhere, matchSingleExp, find_field. rewrite ?Hf. by vm_compute.
  - rewrite Hp2. transitivity (reverse sample_es ++ reverse sample_es); [|by apply Permutation_app; apply reverse_Permutation].
    apply (eq_ind_r (λ l, l ≡ₚ _) (reflexivity (reverse sample_es ++ reverse sample_es))). by vm_compute.
Defined.
