(* ===== verification/Executor.v ===== *)
(** Package [server]: the executor ([executor.go]), which turns the text of
    statements into calls of the table manager and keeps track of the
    transaction of its client, and the loop of the server ([server.go]) that
    serves one connection.

    The table manager is an interface here; [tableManager_impl] says that the
    manager of package [tbm] implements it.  The executors of all connections
    share one table manager: [exe_tbm] is its state when the executor runs. *)
From S2P Require Import Prelude.
From S2P Require Import Codec.
From S2P Require Import Tm.
From S2P Require Import DmI.
From S2P Require Import LockTable.
From S2P Require Import Sm.
From S2P Require Import Parser.
From S2P Require Import Transporter.
From S2P Require Import Field.
From S2P Require Import Table.
From S2P Require Import Booter.
From S2P Require Import TableMgr.
From stdpp Require Import relations.
Local Open Scope Z_scope.

(** * The interface [tbm.TableManager] *)

Class TableManager (X : Type) := {
  tb_Begin : Parser.Begin → M X (XID * list byte);
  tb_Commit : XID → M X (list byte);
  tb_Abort : XID → M X (list byte);
  tb_Show : XID → M X (list byte);
  tb_Create : XID → Parser.Create → M X (list byte);
  tb_Drop : XID → Parser.Drop → M X (list byte);
  tb_Insert : XID → Parser.Insert → M X (list byte);
  tb_Read : XID → Parser.Read → M X (list byte);
  tb_Update : XID → Parser.Update → M X (list byte);
  tb_Delete : XID → Parser.Delete → M X (list byte)
}.

Definition tableManager_impl {T} `{!TransactionManager T} {D} `{!DataManager D} {B} `{!Booter B} (fuel : nat) (order : list XID)
    (sort_Slice : (row → row → outcome bool) → list row → outcome (list row)) (map_range : gmap string table → list table) : TableManager (tableManager T D B) := {|
  tb_Begin := tbm_Begin; tb_Commit := tbm_Commit; tb_Abort := tbm_Abort; tb_Show := tbm_Show map_range;
  tb_Create := tbm_Create; tb_Drop := tbm_Drop map_range; tb_Insert := tbm_Insert fuel; tb_Read := tbm_Read fuel sort_Slice;
  tb_Update := tbm_Update fuel order; tb_Delete := tbm_Delete fuel order
|}.

(** * executor.go *)

Section Executor.
Context {X : Type} `{!TableManager X}.

Record executor := mkExe { exe_xid : XID; exe_tbm : X }.

Definition NewExecutor (tbm : X) : executor := mkExe 0 tbm.
Definition set_xid (xid : XID) : M executor unit := modify (λ e, mkExe xid (exe_tbm e)).
Definition on_tbm {A} : M X A → M executor A := zoom exe_tbm (λ t e, mkExe (exe_xid e) t).

Definition exe_Close : M executor unit :=
  e ← get; if decide (exe_xid e ≠ 0) then _ ← on_tbm (tb_Abort (exe_xid e)); mret tt else mret tt.

(** [switch st := stat.(type)] of [execute2]; no other statement gets here. *)
Definition operation (stat : Statement) (xid : XID) : M X (list byte) :=
  match stat with
  | SShow => tb_Show xid
  | SCreate st => tb_Create xid st
  | SDrop st => tb_Drop xid st
  | SRead st => tb_Read xid st
  | SInsert st => tb_Insert xid st
  | SDelete st => tb_Delete xid st
  | SUpdate st => tb_Update xid st
  | _ => mret []
  end.

(** The deferred function: [err] is what the operation returned.  The results
    of [execute2] have no names and were set by then, so an error of [Commit]
    only gets printed. *)
Definition deferred (tmpTransaction : bool) (err : option goerror) : M executor unit :=
  if tmpTransaction then
    e ← get;
    _ ← match err with
        | Some _ => _ ← on_tbm (tb_Abort (exe_xid e)); mret tt
        | None => catch (on_tbm (tb_Commit (exe_xid e))) (λ _, mret tt) (λ _, mret tt)
        end;
    set_xid 0
  else mret tt.

(** The transaction of a statement outside of any transaction. *)
Definition implicit_begin : M executor bool :=
  e ← get;
  if decide (exe_xid e = 0) then
    '(xid, _) ← on_tbm (tb_Begin (mkBegin false));
    if decide (xid = 0) then fail (ErrMsg []) else _ ← set_xid xid; mret true
  else mret false.

(** A deferred function runs on every way out of the call: with the error the
    operation returned, and with none when it panicked - [err] was not set -
    before the panic goes on and ends the process. *)
Definition with_deferred {A} (m : M executor A) (d : option goerror → M executor unit) : M executor A := λ e,
  match m e with
  | (e, Ret a) => (_ ← d None; mret a) e
  | (e, Err err) => (_ ← d (Some err); fail err) e
  | (e, Panic) => (_ ← d None; crash) e
  | (e, OutOfFuel) => (e, OutOfFuel)
  end.

Definition execute2 (stat : Statement) : M executor (list byte) :=
  tmpTransaction ← implicit_begin;
  e ← get;
  with_deferred (on_tbm (operation stat (exe_xid e))) (deferred tmpTransaction).

(** [Execute] behind [parser.Parse]. *)
Definition execute_stat (stat : Statement) : M executor (list byte) :=
  e ← get;
  match stat with
  | SBegin st =>
      if decide (exe_xid e ≠ 0) then fail ErrNoNestedTransaction
      else '(xid, result) ← on_tbm (tb_Begin st); _ ← set_xid xid; mret result
  | SCommit =>
      if decide (exe_xid e = 0) then fail ErrNotInAnyTransaction
      else result ← on_tbm (tb_Commit (exe_xid e)); _ ← set_xid 0; mret result
  | SAbort =>
      if decide (exe_xid e = 0) then fail ErrNotInAnyTransaction
      else result ← on_tbm (tb_Abort (exe_xid e)); _ ← set_xid 0; mret result
  | _ => execute2 stat
  end.

Definition Execute (sql : list byte) : M executor (list byte) := stat ← lift (Parse sql); execute_stat stat.
End Executor.
Arguments executor X : clear implicits.

(** * server.go *)

Section Server.
Context {X : Type} `{!TableManager X} {C P : Type} `{!Transporter C} `{!Protocoler P}.
(** [err.Error()] *)
Context (Error : goerror → list byte).

(** A connection: its packager and its executor. *)
Record session := mkSession { ses_pk : packager C P; ses_exe : executor X }.
Definition on_pk {A} : M (packager C P) A → M session A := zoom ses_pk (λ p s, mkSession p (ses_exe s)).
Definition on_exe {A} : M (executor X) A → M session A := zoom ses_exe (λ e s, mkSession (ses_pk s) e).

(** [transporter.NewPackage(exe.Execute(sql))] *)
Definition answer (sql : list byte) : M session Package :=
  catch (on_exe (Execute sql)) (λ result, mret (NewPackage result None)) (λ err, mret (NewPackage [] (Some (Error err)))).

(** The loop of [serve]; an error of the network ends it. *)
Fixpoint serve_loop (n : nat) : M session unit :=
  match n with
  | O => λ s, (s, OutOfFuel)
  | S n =>
      catch (on_pk packager_Receive)
        (λ pkg, reply ← answer (Data pkg); catch (on_pk (packager_Send reply)) (λ _, serve_loop n) (λ _, mret tt))
        (λ _, mret tt)
  end.

(** With its deferred calls, but for the closing of the connection. *)
Definition serve (n : nat) : M session unit := _ ← serve_loop n; on_exe exe_Close.
End Server.
