(* ===== verification/Session.v ===== *)
(** Package [server]: what a connection does with transactions, over any table
    manager, and what the client reads from it. *)
From S2P Require Import Prelude.
From S2P Require Import Codec.
From S2P Require Import GoFile.
From S2P Require Import Tm.
From S2P Require Import DmI.
From S2P Require Import LockTable.
From S2P Require Import Sm.
From S2P Require Import Parser.
From S2P Require Import Transporter.
From S2P Require Import Field.
From S2P Require Import Table.
From S2P Require Import Booter.
From S2P Require Import TableMgr.
From S2P Require Import Executor.
From stdpp Require Import relations.
Local Open Scope Z_scope.

(** * Sessions *)

(** The calls an executor makes, with what came back. *)
Inductive call :=
| CBegin (xid : XID)               (* 0: no transaction *)
| COp (xid : XID) (ok : bool)
| CCommit (xid : XID) (ok : bool)
| CAbort (xid : XID).

(** Where a client stands: in no transaction, in one it began itself, or in the
    one around a single statement. *)
Inductive mode := Idle | Explicit (xid : XID) | Implicit (xid : XID) | Done (xid : XID) (ok : bool).

(** The discipline of transactions: operations only inside of one, one
    transaction at a time.  A step also lists the transaction it leaves behind
    neither committed nor aborted: a single statement whose commit fails drops
    its transaction, while the client's own transaction survives a commit that
    failed. *)
Inductive session_step : mode → call → list XID → mode → Prop :=
| no_begin : session_step Idle (CBegin 0) [] Idle
| begin_explicit xid : xid ≠ 0 → session_step Idle (CBegin xid) [] (Explicit xid)
| op_explicit xid ok : session_step (Explicit xid) (COp xid ok) [] (Explicit xid)
| commit_explicit xid : session_step (Explicit xid) (CCommit xid true) [] Idle
| commit_refused xid : session_step (Explicit xid) (CCommit xid false) [] (Explicit xid)
| abort_explicit xid : session_step (Explicit xid) (CAbort xid) [] Idle
| begin_implicit xid : xid ≠ 0 → session_step Idle (CBegin xid) [] (Implicit xid)
| op_implicit xid ok : session_step (Implicit xid) (COp xid ok) [] (Done xid ok)
| commit_implicit xid : session_step (Done xid true) (CCommit xid true) [] Idle
| commit_lost xid : session_step (Done xid true) (CCommit xid false) [xid] Idle
| abort_implicit xid : session_step (Done xid false) (CAbort xid) [] Idle.

(** The calls of a session, and the transactions it left behind. *)
Inductive session_run : mode → list call → list XID → mode → Prop :=
| run_nil m : session_run m [] [] m
| run_cons m c l1 m1 cs l2 m2 : session_step m c l1 m1 → session_run m1 cs l2 m2 → session_run m (c :: cs) (l1 ++ l2) m2.

Lemma session_run_app m cs l m1 cs' l' m2 : session_run m cs l m1 → session_run m1 cs' l' m2 → session_run m (cs ++ cs') (l ++ l') m2.
Proof. induction 1; [done|]. intros. rewrite <- app_assoc. cbn. econstructor; eauto. Qed.

(** A transaction is left behind by a commit that failed, and by nothing else. *)
Lemma session_run_lost m cs l m' : session_run m cs l m' → Forall (λ xid, CCommit xid false ∈ cs) l.
Proof.
  induction 1 as [|m c l1 m1 cs l2 m2 Hs _ IH]; [constructor|]. apply Forall_app. split.
  - inversion Hs; subst; repeat constructor.
  - eapply Forall_impl; [exact IH|]. intros xid Hin. by right.
Qed.

Create HintDb session.
#[export] Hint Constructors session_step session_run : session.

(** A table manager that notes the calls. *)
Record logged (X : Type) := mkLogged { lg_tbm : X; lg_calls : list call }.
Arguments mkLogged {X} _ _.
Arguments lg_tbm {X} _.
Arguments lg_calls {X} _.

Section Logging.
Context {X : Type} `{!TableManager X}.

Definition log {A} (m : M X A) (c : outcome A → call) : M (logged X) A := λ l,
  let '(x, o) := m (lg_tbm l) in (mkLogged x (lg_calls l ++ [c o]), o).

Definition begun (o : outcome (XID * list byte)) : call := CBegin match o with Ret (xid, _) => xid | _ => 0 end.

#[export] Instance logged_impl : TableManager (logged X) := {|
  tb_Begin b := log (tb_Begin b) begun;
  tb_Commit xid := log (tb_Commit xid) (λ o, CCommit xid (is_Ret o));
  tb_Abort xid := log (tb_Abort xid) (λ _, CAbort xid);
  tb_Show xid := log (tb_Show xid) (λ o, COp xid (is_Ret o));
  tb_Create xid st := log (tb_Create xid st) (λ o, COp xid (is_Ret o));
  tb_Drop xid st := log (tb_Drop xid st) (λ o, COp xid (is_Ret o));
  tb_Insert xid st := log (tb_Insert xid st) (λ o, COp xid (is_Ret o));
  tb_Read xid st := log (tb_Read xid st) (λ o, COp xid (is_Ret o));
  tb_Update xid st := log (tb_Update xid st) (λ o, COp xid (is_Ret o));
  tb_Delete xid st := log (tb_Delete xid st) (λ o, COp xid (is_Ret o))
|}.

(** Noting the calls changes nothing else. *)
Definition unlogged {A} (r : executor (logged X) * outcome A) : executor X * outcome A :=
  (mkExe (exe_xid r.1) (lg_tbm (exe_tbm r.1)), r.2).

Definition mode_of (e : executor (logged X)) : mode := if decide (exe_xid e = 0) then Idle else Explicit (exe_xid e).
Definition calls_of (e : executor (logged X)) : list call := lg_calls (exe_tbm e).

(** The calls an executor made on the way from [e] to [e'] lead from [m] to
    [m']. *)
Definition led (m : mode) (e : executor (logged X)) (m' : mode) (e' : executor (logged X)) : Prop :=
  ∃ cs lost, calls_of e' = calls_of e ++ cs ∧ session_run m cs lost m'.

Lemma led_refl m e : led m e m e.
Proof. exists [], []. rewrite app_nil_r. split; [done|constructor]. Qed.

Lemma led_call m e c l m1 m' (e1 e' : executor (logged X)) : session_step m c l m1 → calls_of e1 = calls_of e ++ [c] → led m1 e1 m' e' → led m e m' e'.
Proof. intros Hs Hc (cs & l' & Hcs & Hr). exists (c :: cs), (l ++ l'). split; [by rewrite Hcs, Hc, <- app_assoc|by econstructor]. Qed.

Lemma led_last m e c l m' (e' : executor (logged X)) : session_step m c l m' → calls_of e' = calls_of e ++ [c] → led m e m' e'.
Proof. intros Hs Hc. eapply led_call; [exact Hs|exact Hc|apply led_refl]. Qed.

(** Statements that [Execute] hands to [execute2]. *)
Definition data_statement (stat : Statement) : Prop := match stat with SBegin _ | SCommit | SAbort => False | _ => True end.

Lemma operation_run stat xid (l : logged X) : data_statement stat →
  ∃ x o, operation stat xid l = (mkLogged x (lg_calls l ++ [COp xid (is_Ret o)]), o) ∧ operation stat xid (lg_tbm l) = (x, o).
Proof.
  intros Hst. destruct (operation stat xid (lg_tbm l)) as [x o] eqn:Hop. exists x, o. split; [|done].
  destruct stat; try done; cbn [operation] in *; cbn [tb_Show tb_Create tb_Drop tb_Insert tb_Read tb_Update tb_Delete logged_impl]; unfold log; by rewrite Hop.
Qed.
End Logging.

(** The statements of a client, one after the other, and what it is told. *)
Section Client.
Context {X : Type} `{!TableManager X}.
Fixpoint Execute_all (sqls : list (list byte)) : M (executor X) (list (outcome (list byte))) :=
  match sqls with
  | [] => mret []
  | sql :: sqls =>
      o ← catch (Execute sql) (λ r, mret (Ret r)) (λ err, mret (Err err));
      os ← Execute_all sqls;
      mret (o :: os)
  end.
End Client.

(** ** Noting the calls changes nothing else *)

Section Transparent.
Context {X : Type} `{!TableManager X}.

Definition plain (e : executor (logged X)) : executor X := mkExe (exe_xid e) (lg_tbm (exe_tbm e)).

Definition same {A} (m : M (executor (logged X)) A) (m' : M (executor X) A) : Prop :=
  ∀ e, m' (plain e) = (plain (m e).1, (m e).2).

Lemma same_bind {A B} (m : M (executor (logged X)) A) m' (k : A → M (executor (logged X)) B) k' : same m m' → (∀ a, same (k a) (k' a)) → same (m ≫= k) (m' ≫= k').
Proof. intros Hm Hk e. unfold mbind, M_bind. rewrite Hm. destruct (m e) as [e1 [a| | |]]; [apply Hk|done..]. Qed.

Lemma same_catch {A B} (m : M (executor (logged X)) A) m' (k : A → M (executor (logged X)) B) k' h h' :
  same m m' → (∀ a, same (k a) (k' a)) → (∀ er, same (h er) (h' er)) → same (catch m k h) (catch m' k' h').
Proof. intros Hm Hk Hh e. unfold catch. rewrite Hm. destruct (m e) as [e1 [a|er| |]]; [apply Hk|apply Hh|done..]. Qed.

(** Code that looks at the transaction of the executor only. *)
Lemma same_get {A} (k : executor (logged X) → M (executor (logged X)) A) (k' : executor X → M (executor X) A) :
  (∀ e, same (k e) (k' (plain e))) → same (e ← get; k e) (e ← get; k' e).
Proof. intros Hk e. rewrite !M_get_bind. apply Hk. Qed.

Lemma same_ret {A} (a : A) : same (mret a) (mret a). Proof. done. Qed.
Lemma same_fail {A} er : same (@fail _ A er) (fail er). Proof. done. Qed.
Lemma same_lift {A} (o : outcome A) : same (lift o) (lift o). Proof. done. Qed.
Lemma same_set_xid xid : same (set_xid xid) (set_xid xid). Proof. done. Qed.
Lemma same_log {A} (m : M X A) c : same (on_tbm (log m c)) (on_tbm m).
Proof. intros e. unfold on_tbm, zoom, log, plain. cbn. by destruct (m _). Qed.
Lemma same_if {A} P `{Decision P} (m1 m2 : M (executor (logged X)) A) n1 n2 : same m1 n1 → same m2 n2 → same (if decide P then m1 else m2) (if decide P then n1 else n2).
Proof. by case_decide. Qed.

Ltac same_leaf := first [apply same_ret | apply same_fail | apply same_set_xid | apply same_lift | exact (same_log _ _)].
Ltac same_step :=
  lazymatch goal with
  | |- same (mbind _ get) _ => apply same_get; intros ?
  | |- same (mbind _ _) _ => apply same_bind; [|intros ?]
  | |- same (catch _ _ _) _ => apply same_catch; [|intros ?|intros ?]
  | |- same (if decide _ then _ else _) _ => apply same_if
  | |- same (let '(_, _) := ?p in _) _ => destruct p
  | |- same (if ?b then _ else _) _ => destruct b
  | |- _ => same_leaf
  end.

Lemma same_operation stat xid : same (on_tbm (operation stat xid)) (on_tbm (operation stat xid)).
Proof. destruct stat; try apply same_log; by intros e. Qed.

Lemma same_deferred tmp err : same (deferred tmp err) (deferred tmp err).
Proof. unfold deferred. destruct tmp; [|apply same_ret]. destruct err; repeat same_step. Qed.

Lemma same_crash {A} : same (@crash _ A) crash. Proof. done. Qed.

Lemma same_with_deferred {A} (m : M (executor (logged X)) A) m' d d' :
  same m m' → (∀ err, same (d err) (d' err)) → same (with_deferred m d) (with_deferred m' d').
Proof.
  intros Hm Hd e. unfold with_deferred. rewrite Hm. destruct (m e) as [e1 [a|er| |]]; [..|done];
    (eapply same_bind; [apply Hd|intros ?; first [apply same_ret|apply same_fail|apply same_crash]]).
Qed.

Lemma same_execute2 stat : same (execute2 stat) (execute2 stat).
Proof.
  unfold execute2. apply same_bind; [unfold implicit_begin; repeat same_step|intros b]. apply same_get. intros e.
  apply same_with_deferred; [apply same_operation|intros err; apply same_deferred].
Qed.

Lemma same_Execute sql : same (Execute sql) (Execute sql).
Proof. unfold Execute, execute_stat. same_step; [apply same_lift|]. apply same_get. intros e. destruct a; repeat first [apply same_execute2 | same_step]. Qed.

Lemma same_Execute_all sqls : same (Execute_all sqls) (Execute_all sqls).
Proof. induction sqls as [|sql sqls IH]; [apply same_ret|]. cbn [Execute_all]. repeat first [apply same_Execute | exact IH | same_step]. Qed.

Lemma same_Close : same exe_Close exe_Close.
Proof. unfold exe_Close. repeat same_step. Qed.
End Transparent.

Section Discipline.
Context {X : Type} `{!TableManager X}.
Notation exe := (executor (logged X)).
Implicit Types (e : exe).

(** [Abort] has no error to return. *)
Hypothesis Abort_no_error : ∀ (x : X) xid err, (tb_Abort xid x).2 ≠ Err err.

(** The process goes on after the call. *)
Definition goes_on {A} (o : outcome A) : Prop := match o with Ret _ | Err _ => True | _ => False end.

(** One call, in the state of the executor. *)
Lemma on_tbm_log {A} (m : M X A) (c : outcome A → call) e :
  on_tbm (log m c) e = let '(x, o) := m (lg_tbm (exe_tbm e)) in (mkExe (exe_xid e) (mkLogged x (lg_calls (exe_tbm e) ++ [c o])), o).
Proof. unfold on_tbm, zoom, log. by destruct (m _). Qed.

Ltac run_exe := cbv beta iota delta [mbind M_bind mret M_ret get put modify fail lift catch set_xid]; cbn [exe_xid exe_tbm lg_tbm lg_calls].

(** The end of a statement in its own transaction. *)
Lemma deferred_session (e e' : exe) xid err o : xid ≠ 0 → exe_xid e = xid → deferred true err e = (e', o) → goes_on o →
  led (Done xid match err with None => true | Some _ => false end) e Idle e' ∧ exe_xid e' = 0 ∧ o = Ret tt.
Proof.
  intros Hx He. unfold deferred. rewrite M_get_bind, He. destruct err as [err|]; cbn [tb_Abort tb_Commit logged_impl].
  - unfold mbind, M_bind. rewrite on_tbm_log. specialize (Abort_no_error (lg_tbm (exe_tbm e)) xid). destruct (tb_Abort xid _) as [x [r|er| |]]; [| |by intros [= <- <-]..].
    2: { by destruct (Abort_no_error er). }
    intros [= <- <-] _. split; [|done]. eapply led_last; [apply abort_implicit|done].
  - unfold mbind, M_bind, catch. rewrite on_tbm_log. destruct (tb_Commit xid _) as [x [r|er| |]]; [intros [= <- <-] _|intros [= <- <-] _|by intros [= <- <-]..];
      (split; [|done]; first [by eapply led_last; [apply commit_implicit|]|by eapply led_last; [apply commit_lost|]]).
Qed.

Lemma implicit_begin_session (e e1 : exe) o : exe_xid e = 0 → implicit_begin e = (e1, o) → goes_on o →
  (∃ er, o = Err er) ∧ exe_xid e1 = 0 ∧ led Idle e Idle e1 ∨ o = Ret true ∧ exe_xid e1 ≠ 0 ∧ led Idle e (Implicit (exe_xid e1)) e1.
Proof.
  intros Hx. unfold implicit_begin. rewrite M_get_bind, decide_True by done. cbn [tb_Begin logged_impl]. unfold mbind, M_bind. rewrite on_tbm_log.
  destruct (tb_Begin _ _) as [x [[xid r]|er| |]]; [|intros [= <- <-] _|by intros [= <- <-]..].
  - case_decide as H0; intros [= <- <-] _.
    + left. split; [by eexists|]. split; [done|]. subst xid. eapply led_last; [apply no_begin|done].
    + right. split; [done|]. split; [done|]. eapply led_last; [by apply (begin_implicit xid)|done].
  - left. split; [by eexists|]. split; [done|]. eapply led_last; [apply no_begin|done].
Qed.

Lemma on_operation (e : exe) stat : data_statement stat →
  ∃ x o, on_tbm (operation stat (exe_xid e)) e = (mkExe (exe_xid e) (mkLogged x (lg_calls (exe_tbm e) ++ [COp (exe_xid e) (is_Ret o)])), o).
Proof.
  intros Hd. destruct (operation_run stat (exe_xid e) (exe_tbm e) Hd) as (x & o & Hop & _). exists x, o. unfold on_tbm, zoom. by rewrite Hop.
Qed.

Lemma led_trans m e m1 (e1 : exe) m2 (e2 : exe) : led m e m1 e1 → led m1 e1 m2 e2 → led m e m2 e2.
Proof. intros (cs & l1 & H1 & Hr1) (cs' & l2 & H2 & Hr2). exists (cs ++ cs'), (l1 ++ l2). split; [by rewrite H2, H1, app_assoc|by eapply session_run_app]. Qed.

Lemma mode_idle e : exe_xid e = 0 → mode_of e = Idle.
Proof. intros H. unfold mode_of. by rewrite decide_True. Qed.
Lemma mode_explicit e : exe_xid e ≠ 0 → mode_of e = Explicit (exe_xid e).
Proof. intros H. unfold mode_of. by rewrite decide_False. Qed.

Lemma execute2_session e e' stat o : data_statement stat → execute2 stat e = (e', o) → goes_on o → led (mode_of e) e (mode_of e') e'.
Proof.
  intros Hd. unfold execute2. destruct (decide (exe_xid e = 0)) as [Hx|Hx].
  - rewrite (mode_idle e Hx). unfold mbind at 1, M_bind at 1. destruct (implicit_begin e) as [e1 o1] eqn:Hb.
    pose proof (implicit_begin_session e e1 o1 Hx Hb) as Hs. destruct o1 as [b|er| |]; [|intros [= <- <-] _|by intros [= <- <-]..].
    2: { destruct (Hs I) as [(_ & H0 & Hl)|(? & _)]; [|done]. by rewrite (mode_idle _ H0). }
    destruct (Hs I) as [((? & ?) & _)|([= ->] & H1 & Hl)]; [done|]. rewrite M_get_bind. unfold with_deferred.
    destruct (on_operation e1 stat Hd) as (x & o2 & Hop). rewrite Hop. set (e2 := mkExe _ _).
    assert (Hl2 : led Idle e (Done (exe_xid e1) (is_Ret o2)) e2).
    { eapply led_trans; [exact Hl|]. eapply led_last; [apply op_implicit|done]. }
    assert (Hend : ∀ err e3 o3, deferred true err e2 = (e3, o3) → goes_on o3 → is_Ret o2 = match err with None => true | Some _ => false end → led Idle e (mode_of e3) e3 ∧ o3 = Ret tt).
    { intros err e3 o3 Hdef Hg Hr. destruct (deferred_session e2 e3 (exe_xid e1) err o3 H1 eq_refl Hdef Hg) as (Hl3 & H3 & ->). split; [|done].
      rewrite (mode_idle _ H3). eapply led_trans; [exact Hl2|]. by rewrite Hr. }
    destruct o2 as [res|err| |]; [| | |by intros [= <- <-]];
      unfold mbind, M_bind; destruct (deferred true _ e2) as [e3 o3] eqn:Hdef;
      destruct o3 as [[]|er3| |]; intros [= <- <-] Hg; try done;
      first [by destruct (Hend _ _ _ Hdef I eq_refl)|by destruct (deferred_session e2 _ (exe_xid e1) _ _ H1 eq_refl Hdef I) as (_ & _ & ?)].
  - rewrite (mode_explicit e Hx). unfold implicit_begin. rewrite M_bind_assoc, M_get_bind, decide_False by done. rewrite M_ret_bind, M_get_bind. unfold with_deferred.
    destruct (on_operation e stat Hd) as (x & o2 & Hop). rewrite Hop.
    destruct o2 as [res|err| |]; [intros [= <- <-] _|intros [= <- <-] _|by intros [= <- <-]..];
      (rewrite mode_explicit by done; eapply led_last; [apply op_explicit|done]).
Qed.

Lemma execute_stat_session e e' stat o : execute_stat stat e = (e', o) → goes_on o → led (mode_of e) e (mode_of e') e'.
Proof.
  unfold execute_stat. rewrite M_get_bind. destruct stat as [st| | | | | | | | |]; try (by apply execute2_session).
  - case_decide as Hx; [intros [= <- <-] _; apply led_refl|]. rewrite (mode_idle e Hx). cbn [tb_Begin logged_impl]. unfold mbind, M_bind. rewrite on_tbm_log.
    destruct (tb_Begin st _) as [x [[xid r]|er| |]]; [intros [= <- <-] _|intros [= <- <-] _|by intros [= <- <-]..].
    + destruct (decide (xid = 0)) as [->|H0].
      * rewrite mode_idle by done. eapply led_last; [apply no_begin|done].
      * rewrite mode_explicit by done. eapply led_last; [by apply (begin_explicit xid)|done].
    + rewrite mode_idle by done. eapply led_last; [apply no_begin|done].
  - case_decide as Hx; [intros [= <- <-] _; apply led_refl|]. rewrite (mode_explicit e Hx). cbn [tb_Commit logged_impl]. unfold mbind, M_bind. rewrite on_tbm_log.
    destruct (tb_Commit _ _) as [x [r|er| |]]; [intros [= <- <-] _|intros [= <- <-] _|by intros [= <- <-]..].
    + rewrite mode_idle by done. eapply led_last; [apply commit_explicit|done].
    + rewrite mode_explicit by done. eapply led_last; [apply commit_refused|done].
  - case_decide as Hx; [intros [= <- <-] _; apply led_refl|]. rewrite (mode_explicit e Hx). cbn [tb_Abort logged_impl]. unfold mbind, M_bind. rewrite on_tbm_log.
    specialize (Abort_no_error (lg_tbm (exe_tbm e)) (exe_xid e)). destruct (tb_Abort _ _) as [x [r|er| |]]; [intros [= <- <-] _| |by intros [= <- <-]..].
    + rewrite mode_idle by done. eapply led_last; [apply abort_explicit|done].
    + by destruct (Abort_no_error er).
Qed.

Lemma Execute_session e e' sql o : Execute sql e = (e', o) → goes_on o → led (mode_of e) e (mode_of e') e'.
Proof.
  unfold Execute. destruct (Parse sql) as [stat|er| |]; [rewrite M_lift_bind; apply execute_stat_session|intros [= <- <-] _; apply led_refl|by intros [= <- <-]..].
Qed.

Lemma exe_Close_session e e' o : exe_Close e = (e', o) → goes_on o → led (mode_of e) e Idle e' ∧ o = Ret tt.
Proof.
  unfold exe_Close. rewrite M_get_bind. case_decide as Hx.
  - rewrite (mode_explicit e Hx). cbn [tb_Abort logged_impl]. unfold mbind, M_bind. rewrite on_tbm_log. specialize (Abort_no_error (lg_tbm (exe_tbm e)) (exe_xid e)).
    destruct (tb_Abort _ _) as [x [r|er| |]]; [intros [= <- <-] _| |by intros [= <- <-]..].
    + split; [|done]. eapply led_last; [apply abort_explicit|done].
    + by destruct (Abort_no_error er).
  - intros [= <- <-] _. rewrite (mode_idle e Hx). split; [apply led_refl|done].
Qed.

Lemma Execute_all_session sqls : ∀ e e' os, Execute_all sqls e = (e', Ret os) → led (mode_of e) e (mode_of e') e'.
Proof.
  induction sqls as [|sql sqls IH]; intros e e' os; cbn [Execute_all]; [intros [= <- <-]; apply led_refl|].
  unfold mbind, M_bind, catch. destruct (Execute sql e) as [e1 o1] eqn:He. pose proof (Execute_session e e1 sql o1 He) as Hs.
  assert (Hgo : goes_on o1 → ∀ r, match Execute_all sqls e1 with (s', Ret a) => (s', Ret (r :: a)) | (s', Err er) => (s', Err er) | (s', Panic) => (s', Panic) | (s', OutOfFuel) => (s', OutOfFuel) end = (e', Ret os) →
    led (mode_of e) e (mode_of e') e').
  { intros Hg r. specialize (IH e1). destruct (Execute_all sqls e1) as [e2 [os1|er| |]]; intros [= <- <-]. eapply led_trans; [by apply Hs|by apply (IH _ os1)]. }
  destruct o1 as [r|er| |]; [by apply (Hgo I (Ret r))|by apply (Hgo I (Err er))|done..].
Qed.

(** C35: Transactions are bracketed: over any table manager whose [Abort]
    returns no error, the calls that a connection makes for any statements, none
    of which panics, up to its close, follow the discipline of [session_step].  Every operation runs
    in a transaction that was begun and not ended, one at a time; a single
    statement is committed when it succeeds and aborted when it fails; and when
    the connection is closed every transaction it began was ended, by a commit
    that succeeded or by [Abort], but for [lost]: those of single statements
    whose commit failed, which are neither committed nor aborted.  If no commit
    fails there are none. *)
Theorem transactions_bracketed x sqls os (e e' : executor X) :
  Execute_all sqls (NewExecutor x) = (e, Ret os) → exe_Close e = (e', Ret tt) →
  ∃ l l' before lost, Execute_all sqls (NewExecutor (mkLogged x [])) = (l, Ret os) ∧ exe_Close l = (l', Ret tt) ∧
    plain l = e ∧ plain l' = e' ∧
    session_run Idle (calls_of l) before (mode_of l) ∧ session_run Idle (calls_of l') lost Idle ∧
    Forall (λ xid, CCommit xid false ∈ calls_of l') lost.
Proof.
  intros Hrun Hclose. pose proof (same_Execute_all sqls (NewExecutor (mkLogged x []))) as Hs. change (plain _) with (NewExecutor x) in Hs at 1. rewrite Hrun in Hs.
  destruct (Execute_all sqls (NewExecutor (mkLogged x []))) as [l o] eqn:Hl. injection Hs as He <-.
  pose proof (same_Close l) as Hc. rewrite <- He, Hclose in Hc. destruct (exe_Close l) as [l' o'] eqn:Hl'. injection Hc as He' <-.
  destruct (Execute_all_session _ _ _ _ Hl) as (cs & lost & Hcs & Hr).
  destruct (exe_Close_session _ _ _ Hl' I) as [(cs' & lost' & Hcs' & Hr') _].
  assert (Hr2 : session_run Idle (calls_of l') (lost ++ lost') Idle)
    by (cbn in Hcs; rewrite Hcs', Hcs; by eapply session_run_app).
  exists l, l', lost, (lost ++ lost'). cbn in Hcs. rewrite Hcs. split_and!; try done. by eapply session_run_lost.
Qed.
End Discipline.

(** * A connection *)

Section Serving.
Context {X : Type} `{!TableManager X}.
Context (Error : goerror → list byte).
Notation ses := (session (X := X) (C := wire) (P := wireProtocoler)).

(** What the server answers to a statement. *)
Definition reply (o : outcome (list byte)) : Package :=
  match o with Ret r => mkPkg r None | Err er => mkPkg [] (Some (Error er)) | _ => mkPkg [] None end.
Definition reply_frame (id : Z) (o : outcome (list byte)) : list byte :=
  resp_frame id (match Err_ (reply o) with Some _ => WireFlagError | None => WireFlagOK end) (payload_of (reply o)).

Definition frames (reqs : list (Z * list byte)) : list byte := mjoin ((λ p, req_frame p.1 p.2) <$> reqs).
Definition replies (reqs : list (Z * list byte)) (os : list (outcome (list byte))) : list byte := mjoin (zip_with (λ p o, reply_frame p.1 o) reqs os).

Lemma Receive_end (k : wire_packager) : c_in (pk_conn k) = [] → ∃ k', packager_Receive k = (k', Err ErrEOF) ∧ pk_conn k' = pk_conn k.
Proof.
  intros Hin. destruct k as [[[ci co]] p]. cbn in Hin. subst ci. eexists. by split.
Qed.

Lemma answer_run (s : ses) sql : ∀ e o, Execute sql (ses_exe s) = (e, o) → goes_on o →
  answer Error sql s = (mkSession (ses_pk s) e, Ret (reply o)).
Proof. intros e o He Hg. unfold answer, catch, on_exe, zoom. rewrite He. by destruct o. Qed.

Lemma serve_loop_run reqs : ∀ (s : ses) n os e, isServer (protocoler (ses_pk s)) = true → c_in (pk_conn (ses_pk s)) = frames reqs →
  Forall (λ p, 0 ≤ p.1 < 2 ^ 32 ∧ zlen p.2 < MAX_PAYLOAD) reqs → Execute_all (snd <$> reqs) (ses_exe s) = (e, Ret os) →
  Forall (λ o, zlen (payload_of (reply o)) < MAX_PAYLOAD) os → (length reqs < n)%nat →
  ∃ s', serve_loop Error n s = (s', Ret tt) ∧ ses_exe s' = e ∧ c_out (pk_conn (ses_pk s')) = c_out (pk_conn (ses_pk s)) ++ replies reqs os.
Proof.
  induction reqs as [|[id sql] reqs IH]; intros s n os e Hs Hin Hreq Hex Hos Hn; (destruct n as [|n]; [cbn in Hn; lia|]); cbn [serve_loop].
  - injection Hex as <- <-. destruct (Receive_end (ses_pk s) Hin) as (k' & Hrecv & Hk). eexists. unfold catch, on_pk, zoom. rewrite Hrecv.
    split; [done|]. split; [done|]. cbn. by rewrite Hk, app_nil_r.
  - apply Forall_cons in Hreq as [[Hid Hlen] Hreq]. cbn [fst snd] in *. change (frames ((id, sql) :: reqs)) with (req_frame id sql ++ frames reqs) in Hin.
    cbn [fmap list_fmap Execute_all] in Hex. change ((id, sql).2) with sql in Hex. unfold mbind, M_bind, catch in Hex.
    destruct (Execute sql (ses_exe s)) as [e1 o1] eqn:He1. assert (Hgo : goes_on o1) by (destruct o1; [done..| |]; discriminate Hex).
    assert (Hex' : ∃ os', Execute_all (snd <$> reqs) e1 = (e, Ret os') ∧ os = o1 :: os').
    { destruct o1 as [r|er| |]; try done; cbv beta iota delta [mret M_ret] in Hex; (destruct (Execute_all (snd <$> reqs) e1) as [e2 [os'|er2| |]]; try discriminate Hex; injection Hex as <- <-; by eexists). }
    destruct Hex' as (os' & Hex' & ->). apply Forall_cons in Hos as [Ho Hos].
    set (k1 := mkPackager (mkWire (mkConn (frames reqs) (c_out (pk_conn (ses_pk s))))) (mkWP (nextID (protocoler (ses_pk s))) (isServer (protocoler (ses_pk s))) id) : wire_packager).
    set (k2 := mkPackager (mkWire (mkConn (frames reqs) (c_out (pk_conn (ses_pk s)) ++ reply_frame id o1))) (protocoler k1) : wire_packager).
    destruct (IH (mkSession k2 e1) n os' e) as (s' & Hrun & Hse & Hout); [exact Hs|done|done|exact Hex'|done|cbn in Hn; lia|].
    exists s'. split; [|split; [exact Hse|]].
    + unfold catch at 1, on_pk at 1, zoom. rewrite (server_Receive_run (ses_pk s) id sql (frames reqs) Hin Hlen Hid). fold k1.
      cbn [Data ses_exe]. rewrite (M_bind_run _ _ _ _ _ (answer_run (mkSession k1 (ses_exe s)) sql e1 o1 He1 Hgo)).
      unfold catch, on_pk, zoom. cbn [ses_pk ses_exe]. rewrite (server_Send_run (reply o1) k1) by done. exact Hrun.
    + rewrite Hout. cbn [k2 ses_pk pk_conn transporter wire_conn c_out]. rewrite <- app_assoc. done.
Qed.

(** A connection from its first byte to its end: for requests whose frames
    arrive one after the other - however many before the first answer - the
    server executes their statements in order, answers each under the
    identifier of its request with the result or the text of the error, stops
    at the end of the input and closes the executor. *)
Lemma serve_run (s : ses) reqs os e e' n :
  isServer (protocoler (ses_pk s)) = true → c_in (pk_conn (ses_pk s)) = frames reqs → Forall (λ p, 0 ≤ p.1 < 2 ^ 32 ∧ zlen p.2 < MAX_PAYLOAD) reqs →
  Execute_all (snd <$> reqs) (ses_exe s) = (e, Ret os) → Forall (λ o, zlen (payload_of (reply o)) < MAX_PAYLOAD) os →
  exe_Close e = (e', Ret tt) → (length reqs < n)%nat →
  ∃ s', serve Error n s = (s', Ret tt) ∧ ses_exe s' = e' ∧ c_out (pk_conn (ses_pk s')) = c_out (pk_conn (ses_pk s)) ++ replies reqs os.
Proof.
  intros Hs Hin Hreq Hex Hos Hcl Hn. destruct (serve_loop_run reqs s n os e Hs Hin Hreq Hex Hos Hn) as (s1 & Hrun & Hse & Hout).
  exists (mkSession (ses_pk s1) e'). split; [|by split]. unfold serve. rewrite (M_bind_run _ _ _ _ _ Hrun). unfold on_exe, zoom. by rewrite Hse, Hcl.
Qed.

End Serving.

(** * On the manager of package [tbm] *)

Lemma tbm_Abort_no_error {T} `{!TransactionManager T} {D} `{!DataManager D} {B} `{!Booter B} (m : tableManager T D B) xid err :
  (tbm_Abort xid m).2 ≠ Err err.
Proof. unfold tbm_Abort, mbind, M_bind, catch. by destruct (on_SM (sm_Abort xid) m) as [? []]. Qed.

(** A new database on a disk that works, but for the given faults of the
    transaction file. *)
Definition new_db (faults : list (option nat)) : tableManager transactionManager memDM booter :=
  mkTBM (NewSerializabilityManager (mkTM (mkFile (make_bytes 8) 0 true faults) 0) (mkMem ∅ 1)) (new_booter "db" (UUIDToRaw NilUUID)) ∅ ∅.

#[export] Instance db_impl : TableManager (tableManager transactionManager memDM booter) :=
  tableManager_impl 20 [] (λ _, Ret) (λ tc, (map_to_list tc).*2).

(** What a client of a new database is told. *)
Definition text_of (o : outcome (list byte)) : outcome string := match o with Ret r => Ret (bytes_str r) | Err e => Err e | Panic => Panic | OutOfFuel => OutOfFuel end.
Definition transcript (faults : list (option nat)) (sqls : list string) : outcome (list (outcome string)) :=
  match Execute_all (List.map str_bytes sqls) (NewExecutor (new_db faults)) with
  | (_, Ret os) => Ret (List.map text_of os)
  | (_, Err e) => Err e
  | (_, Panic) => Panic
  | (_, OutOfFuel) => OutOfFuel
  end.

(** * Properties of the composition *)

Section SingleStatement.
Context {X : Type} `{!TableManager X}.

(** A statement outside of any transaction, on every branch: without a
    transaction it fails, and nothing is done; when its operation fails it is
    aborted and the client gets the error; when its operation succeeds it is
    committed and the client gets the result - also when the commit itself
    fails; when its operation panics, what it did is committed as well, and then
    the process ends.  In every case the executor is outside of any transaction
    again. *)
Theorem single_statement (e : executor X) stat : exe_xid e = 0 → data_statement stat →
  (∀ x o, tb_Begin (mkBegin false) (exe_tbm e) = (x, o) → (∃ err, o = Err err) ∨ (∃ r, o = Ret (0, r)) → ∃ err, execute_stat stat e = (mkExe 0 x, Err err)) ∧
  (∀ x1 xid r, tb_Begin (mkBegin false) (exe_tbm e) = (x1, Ret (xid, r)) → xid ≠ 0 →
    (∀ x2 err x3 a, operation stat xid x1 = (x2, Err err) → tb_Abort xid x2 = (x3, Ret a) → execute_stat stat e = (mkExe 0 x3, Err err)) ∧
    (∀ x2 res x3 o, operation stat xid x1 = (x2, Ret res) → tb_Commit xid x2 = (x3, o) → goes_on o → execute_stat stat e = (mkExe 0 x3, Ret res)) ∧
    (∀ x2 x3 o, operation stat xid x1 = (x2, Panic) → tb_Commit xid x2 = (x3, o) → goes_on o → execute_stat stat e = (mkExe 0 x3, Panic))).
Proof.
  intros Hx Hd. assert (He : execute_stat stat e = execute2 stat e) by (unfold execute_stat; rewrite M_get_bind; by destruct stat). rewrite He.
  unfold execute2. split.
  - intros x o Hb Ho. unfold mbind at 1, M_bind at 1. unfold implicit_begin. rewrite M_get_bind, decide_True by done. unfold mbind, M_bind, on_tbm, zoom. rewrite Hb, Hx.
    destruct Ho as [[err ->]|[r ->]]; [by eexists|]. rewrite decide_True by done. by eexists.
  - intros x1 xid r Hb Hxid. assert (Hbegin : implicit_begin e = (mkExe xid x1, Ret true)).
    { unfold implicit_begin. rewrite M_get_bind, decide_True by done. unfold mbind, M_bind, on_tbm, zoom. rewrite Hb, decide_False by done. done. }
    rewrite (M_bind_run _ _ _ _ _ Hbegin), M_get_bind. cbn [exe_xid]. split_and!.
    + intros x2 err x3 a Hop Ha. unfold with_deferred, on_tbm at 1, zoom. cbn [exe_tbm]. rewrite Hop. unfold deferred, mbind, M_bind, get, on_tbm, zoom. cbn [exe_tbm exe_xid]. by rewrite Ha.
    + intros x2 res x3 o Hop Hc Hgo. unfold with_deferred, on_tbm at 1, zoom. cbn [exe_tbm]. rewrite Hop. unfold deferred, catch, mbind, M_bind, get, on_tbm, zoom. cbn [exe_tbm exe_xid]. rewrite Hc. by destruct o.
    + intros x2 x3 o Hop Hc Hgo. unfold with_deferred, on_tbm at 1, zoom. cbn [exe_tbm]. rewrite Hop. unfold deferred, catch, mbind, M_bind, get, on_tbm, zoom. cbn [exe_tbm exe_xid]. rewrite Hc. by destruct o.
Qed.
End SingleStatement.

Lemma pair_snd {A B} (p : A * B) b : p.2 = b → p = (p.1, b).
Proof. destruct p. cbn. by intros ->. Qed.

(** A new database whose transaction file fails at the write of [Commit] of the
    second statement that follows. *)
Definition commit_fault : list (option nat) := replicate 10 None ++ [Some 0%nat].
Definition sample_sqls : list string := ["create table t id uint32, name string (index id)"; "insert into t values 7 seven"; "insert into t values 9 nine"; "read * from t"]%string.

Definition after (faults : list (option nat)) (sqls : list string) : executor (tableManager transactionManager memDM booter) :=
  (Execute_all (List.map str_bytes sqls) (NewExecutor (new_db faults))).1.
Definition sample_row : Statement := SInsert (mkInsert "t" [] [["7"; "seven"]]%string).

Lemma single_statement_witness : let e := after commit_fault (take 1 sample_sqls) in
  let b := tb_Begin (mkBegin false) (exe_tbm e) in let a := operation sample_row 2 b.1 in let c := tb_Commit 2 a.1 in
  exe_xid e = 0 ∧ is_Ret c.2 = false ∧ execute_stat sample_row e = (mkExe 0 c.1, Ret (str_bytes "Insert")).
Proof.
  assert (H2 : 2 ≠ 0) by lia. intros e b a c. assert (Hx : exe_xid e = 0) by (by vm_compute). assert (Hc : is_Ret c.2 = false) by (by vm_compute). split; [exact Hx|]. split; [exact Hc|].
  assert (Hb : b.2 = Ret (2, str_bytes "begin")) by (by vm_compute). assert (Ha : a.2 = Ret (str_bytes "Insert")) by (by vm_compute). assert (Hgo : goes_on c.2) by (by vm_compute).
  apply pair_snd in Hb, Ha. pose proof (single_statement e sample_row Hx I) as [_ Hrun].
  exact (proj1 (proj2 (Hrun b.1 2 (str_bytes "begin") Hb H2)) a.1 (str_bytes "Insert") c.1 c.2 Ha (surjective_pairing c) Hgo).
Defined.

Lemma transactions_bracketed_witness : let e := after [] sample_sqls in exe_Close e = (e, Ret tt) ∧
  ∃ l l' before lost, plain l = e ∧ plain l' = e ∧ session_run Idle (calls_of l) before (mode_of l) ∧
    session_run Idle (calls_of l') lost Idle ∧ Forall (λ xid, CCommit xid false ∈ calls_of l') lost.
Proof.
  intros e. assert (Hx : exe_xid e = 0) by (by vm_compute). assert (Hc : exe_Close e = (e, Ret tt)) by (unfold exe_Close; rewrite M_get_bind, Hx; done). split; [exact Hc|].
  assert (HA : ∀ (x : tableManager transactionManager memDM booter) xid err, (tb_Abort xid x).2 ≠ Err err) by (intros x xid err; apply tbm_Abort_no_error).
  destruct (transactions_bracketed HA (new_db []) (List.map str_bytes sample_sqls) (List.map (λ r, Ret (str_bytes r)) ["create t"; "Insert"; "Insert"; bytes_str (str_bytes "[7, seven]" ++ [Byte.x0a] ++ str_bytes "[9, nine]" ++ [Byte.x0a])]%string) e e)
    as (l & l' & before & lost & _ & _ & Hl & Hl' & Hr & Hr' & Hlost); [|exact Hc|].
  - apply (pair_snd (Execute_all (List.map str_bytes sample_sqls) (NewExecutor (new_db [])))). by vm_compute.
  - exists l, l', before, lost. split; [exact Hl|]. split; [exact Hl'|]. split; [exact Hr|]. by split.
Defined.

Definition sample_reqs : list (Z * list byte) := [(1, str_bytes "create table t id uint32 (index id)"); (7, str_bytes "insert into t values 5"); (8, str_bytes "read * from t"); (9, str_bytes "commit")].
Definition say (_ : goerror) : list byte := str_bytes "sorry".

(** The commit of a single statement may fail without a word: with a write
    of the transaction file that fails, [insert] is answered as ever, and the
    row is never seen. *)
Example lost_commit : transcript commit_fault sample_sqls =
  Ret [Ret "create t"%string; Ret "Insert"%string; Ret "Insert"%string; Ret ("[9, nine]" +:+ newline)%string] ∧
  transcript [] sample_sqls = Ret [Ret "create t"%string; Ret "Insert"%string; Ret "Insert"%string; Ret ("[7, seven]" +:+ newline +:+ "[9, nine]" +:+ newline)%string].
Proof. split; by vm_compute. Qed.

(** An index changes the answer of a program too: with an index on [a] a condition on [a]
    and [b] takes both comparisons for conditions on [a], and an [or] of
    overlapping ranges returns rows twice; without that index both answers are
    right. *)
Example index_changes_transcript :
  let ask index := transcript [] ["create table t a uint32, b uint32 (index " +:+ index +:+ ")"; "insert into t values 1 5"; "insert into t values 7 2";
    "read * from t where a > 0 and b < 3"; "read * from t where a > 0 or a < 9"]%string in
  let told rows := Ret (Ret "create t"%string :: Ret "Insert"%string :: Ret "Insert"%string :: rows) in
  let one := ("[1, 5]" +:+ newline)%string in let seven := ("[7, 2]" +:+ newline)%string in
  ask "a"%string = told [Ret one; Ret (one +:+ seven +:+ one +:+ seven)%string] ∧ ask "b"%string = told [Ret seven; Ret (one +:+ seven)%string].
Proof. cbv zeta. split; by vm_compute. Qed.
