(* ===== verification/Client.v ===== *)
(** Package [client]: the round tripper ([round_tripper.go]), whose receiving
    loop runs in a goroutine of its own, and the client on top of it
    ([client.go]).

    The packager is an interface here.  A step of the receiving loop is one
    statement of it; [RoundTrip] runs the loop as far as it needs it, and
    [rt_step] interleaves the two goroutines in every order. *)
From S2P Require Import Prelude.
From S2P Require Import Codec.
From S2P Require Import Tm.
From S2P Require Import DmI.
From S2P Require Import Parser.
From S2P Require Import Transporter.
From S2P Require Import Booter.
From S2P Require Import TableMgr.
From S2P Require Import Executor.
From S2P Require Import Session.
Local Open Scope Z_scope.

(** * The interface [transporter.Packager] *)

Class Packager (K : Type) := {
  pk_Send : Package → M K unit;
  pk_Receive : M K Package;
  pk_Close : K → K
}.

(** A connection of the wire protocol that this side may have closed. *)
Record connection := mkConnection { cn_wire : wire; cn_open : bool }.
Definition on_open {A} (m : M wire A) : M connection A := λ c,
  if cn_open c then let '(w, o) := m (cn_wire c) in (mkConnection w true, o) else (c, Err ErrClosed).

#[export] Instance connection_impl : Transporter connection := {|
  t_Send data := on_open (t_Send data); t_Receive := on_open t_Receive |}.

Definition wireTransporter_Close (c : connection) : connection := mkConnection (cn_wire c) false.
Definition packager_Close {P} (k : packager connection P) : packager connection P := mkPackager (wireTransporter_Close (transporter k)) (protocoler k).

#[export] Instance packager_impl {P} `{!Protocoler P} : Packager (packager connection P) := {|
  pk_Send := packager_Send; pk_Receive := packager_Receive; pk_Close := packager_Close |}.

(** * round_tripper.go *)

(** [nil] is [None]. *)
Record recvResult := mkResult { res_pkg : option Package; res_err : option goerror }.

(** The statement that the receiving loop executes next. *)
Inductive loop := Receiving | Sending (r : recvResult) | Marking | Stopped.

Section RoundTripper.
Context {K : Type} `{!Packager K}.

(** [rt_loop] is the goroutine that [NewRoundTripper] starts; [disconnCh] is
    true when the channel is closed. *)
Record roundTripper := mkRT { rt_p : K; recvCh : list recvResult; disconnCh : bool; rt_loop : loop }.

Definition NewRoundTripper (k : K) : roundTripper := mkRT k [] false Receiving.
Definition set_p (k : K) (rt : roundTripper) : roundTripper := mkRT k (recvCh rt) (disconnCh rt) (rt_loop rt).
Definition set_recvCh (q : list recvResult) (rt : roundTripper) : roundTripper := mkRT (rt_p rt) q (disconnCh rt) (rt_loop rt).
Definition set_loop (l : loop) (rt : roundTripper) : roundTripper := mkRT (rt_p rt) (recvCh rt) (disconnCh rt) l.

Definition on_packager {A} : M K A → M roundTripper A := zoom rt_p set_p.

(** [once.Do(close)] *)
Definition markDisconnected : M roundTripper unit := modify (λ rt, mkRT (rt_p rt) (recvCh rt) true (rt_loop rt)).

(** The capacity of the channel. *)
Definition recvCap : Z := 1.

(** One step of [receiveLoop]: false when the loop has to wait - for room in
    the channel - or is over. *)
Definition receiveLoop_step : M roundTripper bool :=
  rt ← get;
  match rt_loop rt with
  | Receiving =>
      catch (on_packager pk_Receive)
        (λ pkg, _ ← modify (set_loop (Sending (mkResult (Some pkg) None))); mret true)
        (λ err, _ ← modify (set_loop (Sending (mkResult None (Some err)))); mret true)
  | Sending r =>
      if decide (zlen (recvCh rt) < recvCap) then
        _ ← modify (set_recvCh (recvCh rt ++ [r]));
        _ ← modify (set_loop match res_err r with Some _ => Marking | None => Receiving end);
        mret true
      else mret false
  | Marking => _ ← markDisconnected; _ ← modify (set_loop Stopped); mret true
  | Stopped => mret false
  end.

Definition waits {A} : M roundTripper A := λ rt, (rt, OutOfFuel).

(** [<-rt.recvCh]: the loop runs until there is something in the channel;
    without anything to come the caller waits for ever. *)
Fixpoint await (n : nat) : M roundTripper recvResult :=
  rt ← get;
  match recvCh rt with
  | r :: q => _ ← modify (set_recvCh q); mret r
  | [] =>
      match n with
      | O => waits
      | S n => progress ← receiveLoop_step; if (progress : bool) then await n else waits
      end
  end.

Definition rt_Send (pkg : Package) : M roundTripper unit :=
  catch (on_packager (pk_Send pkg)) mret (λ err, _ ← markDisconnected; fail err).

Definition RoundTrip (n : nat) (pkg : Package) : M roundTripper (option Package) :=
  _ ← rt_Send pkg;
  res ← await n;
  match res_err res with Some err => fail err | None => mret (res_pkg res) end.

Definition rt_Close (rt : roundTripper) : roundTripper := set_p (pk_Close (rt_p rt)) rt.

(** * client.go *)

Record client := mkClient { cl_rt : roundTripper; closed : bool }.

Definition NewClient (k : K) : client := mkClient (NewRoundTripper k) false.

Definition client_Close (c : client) : client := if closed c then c else mkClient (rt_Close (cl_rt c)) true.
Definition Reconnect (k : K) (c : client) : client := mkClient (NewRoundTripper k) false.
Definition IsConnected (c : client) : bool := if closed c then false else negb (disconnCh (cl_rt c)).
Definition Disconnected (c : client) : bool := disconnCh (cl_rt c).

Definition on_rt {A} : M roundTripper A → M client A := zoom cl_rt (λ rt c, mkClient rt (closed c)).

(** The pointer to the package is followed without a test. *)
Definition client_Execute (n : nat) (stat : list byte) : M client (list byte) :=
  pkg ← on_rt (RoundTrip n (NewPackage stat None));
  match pkg with
  | None => crash
  | Some pkg => match Err_ pkg with Some text => fail (ErrMsg text) | None => mret (Data pkg) end
  end.

(** Statement after statement, as a program does it. *)
Fixpoint client_all (n : nat) (stats : list (list byte)) : M client (list (outcome (list byte))) :=
  match stats with
  | [] => mret []
  | stat :: stats =>
      o ← catch (client_Execute n stat) (λ r, mret (Ret r)) (λ err, mret (Err err));
      os ← client_all n stats;
      mret (o :: os)
  end.
End RoundTripper.
Arguments roundTripper K : clear implicits.
Arguments client K : clear implicits.

(** * The two goroutines *)

Section Interleaving.
Context {K : Type} `{!Packager K}.
Implicit Types (rt : roundTripper K).

(** What the loop got from the packager, and what a caller got from the
    channel. *)
Inductive event := Received (r : recvResult) | Taken (r : recvResult).

Inductive rt_step : roundTripper K → list event → roundTripper K → Prop :=
| loop_receive rt rt' r : rt_loop rt = Receiving → receiveLoop_step rt = (rt', Ret true) → rt_loop rt' = Sending r → rt_step rt [Received r] rt'
| loop_move rt rt' : rt_loop rt ≠ Receiving → receiveLoop_step rt = (rt', Ret true) → rt_step rt [] rt'
| user_send rt rt' pkg o : rt_Send pkg rt = (rt', o) → rt_step rt [] rt'
| user_take rt r q : recvCh rt = r :: q → rt_step rt [Taken r] (set_recvCh q rt).

Inductive rt_run : roundTripper K → list event → roundTripper K → Prop :=
| rt_nil rt : rt_run rt [] rt
| rt_cons rt ev rt1 tr rt2 : rt_step rt ev rt1 → rt_run rt1 tr rt2 → rt_run rt (ev ++ tr) rt2.

Definition received (tr : list event) : list recvResult := omap (λ ev, match ev with Received r => Some r | _ => None end) tr.
Definition taken (tr : list event) : list recvResult := omap (λ ev, match ev with Taken r => Some r | _ => None end) tr.

Definition is_pkg (r : recvResult) : Prop := res_err r = None ∧ is_Some (res_pkg r).
Definition is_failure (r : recvResult) : Prop := is_Some (res_err r) ∧ res_pkg r = None.
Definition in_flight (l : loop) : list recvResult := match l with Sending r => [r] | _ => [] end.

(** Packages first, then at most one failure. *)
Definition well_ended (l : loop) (hist : list recvResult) : Prop :=
  match l with
  | Receiving => Forall is_pkg hist
  | Sending r => ∃ h, hist = h ++ [r] ∧ Forall is_pkg h ∧ (is_pkg r ∨ is_failure r)
  | _ => ∃ h r, hist = h ++ [r] ∧ Forall is_pkg h ∧ is_failure r
  end.

Record fifo (rt : roundTripper K) (hist took : list recvResult) : Prop := {
  ff_order : hist = took ++ recvCh rt ++ in_flight (rt_loop rt);
  ff_room : zlen (recvCh rt) ≤ recvCap;
  ff_ended : well_ended (rt_loop rt) hist;
  ff_mark : rt_loop rt = Stopped → disconnCh rt = true
}.

(** What the loop got must be a package or an error. *)
Lemma loop_receive_run rt rt' r : rt_loop rt = Receiving → receiveLoop_step rt = (rt', Ret true) → rt_loop rt' = Sending r →
  recvCh rt' = recvCh rt ∧ (is_pkg r ∨ is_failure r).
Proof.
  intros Hl. unfold receiveLoop_step. rewrite M_get_bind, Hl. unfold catch, on_packager, zoom.
  destruct (pk_Receive (rt_p rt)) as [k [pkg|err| |]]; intros [= <-] [= <-]; (split; [done|]); [left|right]; by split.
Qed.

Lemma rt_Send_run pkg rt rt' o : rt_Send pkg rt = (rt', o) → recvCh rt' = recvCh rt ∧ rt_loop rt' = rt_loop rt ∧ (disconnCh rt = true → disconnCh rt' = true).
Proof. unfold rt_Send, catch, on_packager, zoom. destruct (pk_Send pkg (rt_p rt)) as [k [[]|err| |]]; intros [= <- <-]; done. Qed.

Lemma fifo_step rt ev rt' hist took : rt_step rt ev rt' → fifo rt hist took → fifo rt' (hist ++ received ev) (took ++ taken ev).
Proof.
  intros Hs [Hord Hroom Hend Hmark]. destruct Hs as [rt rt' r Hl Hrun Hl'|rt rt' Hl Hrun|rt rt' pkg o Hrun|rt r q Hq].
  - destruct (loop_receive_run _ _ _ Hl Hrun Hl') as [Hq Hr]. rewrite Hl in *. cbn in *. rewrite !app_nil_r in *. split; [by rewrite Hq, Hl', Hord, <- app_assoc|by rewrite Hq| |by rewrite Hl'].
    rewrite Hl'. by exists hist.
  - cbn. rewrite !app_nil_r. unfold receiveLoop_step in Hrun. rewrite M_get_bind in Hrun. destruct (rt_loop rt) as [|r| |] eqn:Hlr; [done| | |done].
    + case_decide as Hc; [|done]. injection Hrun as <-. cbn in Hord, Hend. destruct Hend as (h & -> & Hh & Hr). unfold recvCap in *.
      assert (Hnil : recvCh rt = []) by (destruct (recvCh rt); [done|rewrite zlen_cons in Hc; pose proof (zlen_nonneg l); lia]).
      split; cbn [set_recvCh set_loop recvCh rt_loop disconnCh]; rewrite ?Hnil in *.
      * rewrite Hord. cbn. destruct (res_err r); cbn; by rewrite ?app_nil_r.
      * change (1 ≤ 1). lia.
      * destruct Hr as [[He Hp]|[[e He] Hp]]; rewrite He; cbn; [apply Forall_app; split; [done|by apply Forall_singleton]|].
        exists h, r. split; [done|]. split; [done|]. split; [by eexists|done].
      * by destruct (res_err r).
    + injection Hrun as <-. cbn in *. by split.
  - destruct (rt_Send_run _ _ _ _ Hrun) as (Hq & Hl & Hd). cbn. rewrite !app_nil_r. split; rewrite ?Hq, ?Hl; [done..|]. intros Hst. by apply Hd, Hmark.
  - cbn. rewrite app_nil_r. split; cbn.
    + rewrite Hord, Hq. by rewrite <- !app_assoc.
    + rewrite Hq, zlen_cons in Hroom. lia.
    + done.
    + done.
Qed.

Lemma fifo_run rt tr rt' : rt_run rt tr rt' → ∀ hist took, fifo rt hist took → fifo rt' (hist ++ received tr) (took ++ taken tr).
Proof.
  induction 1 as [rt|rt ev rt1 tr rt2 Hs _ IH]; intros hist took Hf; [by rewrite !app_nil_r|].
  pose proof (IH _ _ (fifo_step _ _ _ _ _ Hs Hf)) as Hf'. unfold received, taken in *. by rewrite !omap_app, !app_assoc.
Qed.

Lemma fifo_new k : fifo (NewRoundTripper k) [] [].
Proof. split; [done|by vm_compute|by constructor|done]. Qed.

(** The loop gets one package and puts it into the empty channel. *)
Lemma await_package n (k k' : K) pkg d : pk_Receive k = (k', Ret pkg) →
  await (S (S n)) (mkRT k [] d Receiving) = (mkRT k' [] d Receiving, Ret (mkResult (Some pkg) None)).
Proof.
  intros Hk. cbn [await]. rewrite M_get_bind. cbn [recvCh].
  assert (H1 : receiveLoop_step (mkRT k [] d Receiving) = (mkRT k' [] d (Sending (mkResult (Some pkg) None)), Ret true)).
  { unfold receiveLoop_step. rewrite M_get_bind. cbn [rt_loop]. unfold catch, on_packager, zoom. cbn [rt_p]. by rewrite Hk. }
  rewrite (M_bind_run _ _ _ _ _ H1), M_get_bind. cbn [recvCh].
  assert (H2 : receiveLoop_step (mkRT k' [] d (Sending (mkResult (Some pkg) None))) = (mkRT k' [mkResult (Some pkg) None] d Receiving, Ret true)) by done.
  rewrite (M_bind_run _ _ _ _ _ H2). by destruct n.
Qed.

(** The round tripper hands over what it receives: however the receiving
    loop and the callers interleave, the answers come out of the channel in the
    order in which they arrived, none lost and none twice; no more than two are
    on the way; only the last can be an error, and with it the loop ends and
    marks the connection.  A caller that is still able to send after that waits
    for ever. *)
Theorem answers_in_order (k : K) tr rt : rt_run (NewRoundTripper k) tr rt →
  received tr = taken tr ++ recvCh rt ++ in_flight (rt_loop rt) ∧ (length (recvCh rt ++ in_flight (rt_loop rt)) ≤ 2)%nat ∧
  (∀ h r t, received tr = h ++ r :: t → is_pkg r ∨ is_failure r ∧ t = []) ∧
  (rt_loop rt = Stopped → disconnCh rt = true ∧
    (recvCh rt = [] → ∀ pkg rt', rt_Send pkg rt = (rt', Ret tt) → ∀ n, (RoundTrip n pkg rt).2 = OutOfFuel)).
Proof.
  intros Hrun. destruct (fifo_run _ _ _ Hrun _ _ (fifo_new k)) as [Hord Hroom Hend Hmark]. cbn [app] in *. split; [done|]. split; [|split].
  - rewrite length_app. unfold zlen, recvCap in Hroom. destruct (rt_loop rt); cbn; lia.
  - intros h r t Hh. rewrite Hh in Hend.
    assert (Hcase : Forall is_pkg (h ++ r :: t) ∨ ∃ g x, h ++ r :: t = g ++ [x] ∧ Forall is_pkg g ∧ (is_pkg x ∨ is_failure x)).
    { destruct (rt_loop rt); cbn in Hend; [by left|right; destruct Hend as (g & ? & ? & ?); by exists g, r0|right; destruct Hend as (g & x & ? & ? & ?); exists g, x; auto..]. }
    destruct Hcase as [Hall|(g & x & Heq & Hg & Hx)].
    + left. apply Forall_app in Hall as [_ Hall]. by apply Forall_cons in Hall as [? _].
    + destruct t as [|y t] using rev_ind; [|clear IHt].
      * apply app_inj_tail in Heq as [-> ->]. destruct Hx; [by left|by right].
      * rewrite app_comm_cons, app_assoc in Heq. apply app_inj_tail in Heq as [<- _]. left. apply Forall_app in Hg as [_ Hg]. by apply Forall_cons in Hg as [? _].
  - intros Hst. split; [by apply Hmark|]. intros Hq pkg rt' Hsend n. unfold RoundTrip. rewrite (M_bind_run _ _ _ _ _ Hsend).
    destruct (rt_Send_run _ _ _ _ Hsend) as (Hq' & Hl' & _). rewrite Hq in Hq'. rewrite Hst in Hl'.
    assert (Hw : await n rt' = (rt', OutOfFuel)).
    { destruct n as [|n]; cbn [await]; rewrite M_get_bind, Hq'; [done|]. unfold receiveLoop_step. by rewrite M_bind_assoc, M_get_bind, Hl'. }
    unfold mbind, M_bind. by rewrite Hw.
Qed.
End Interleaving.

(** * A client and a server *)

Section EndToEnd.
Context {X : Type} `{!TableManager X}.
Context (Error : goerror → list byte).
Notation pack := (packager connection wireProtocoler).

(** The client's end of a connection, with what will arrive on it. *)
Definition client_end (input output : list byte) (id lr : Z) : pack := mkPackager (mkConnection (mkWire (mkConn input output)) true) (mkWP id false lr).

Lemma open_Send pkg (w : wire) (p : wireProtocoler) : packager_Send pkg (mkPackager (mkConnection w true) p) =
  let '(k, o) := packager_Send pkg (mkPackager w p) in (mkPackager (mkConnection (transporter k) true) (protocoler k), o).
Proof.
  unfold packager_Send, on_p, on_t, zoom, mbind, M_bind. cbn [protocoler transporter]. destruct (p_Encode pkg p) as [p' [data|err| |]]; [|done..].
  cbn [t_Send connection_impl]. unfold on_open. cbn [transporter cn_open cn_wire protocoler]. by destruct (t_Send data w) as [w' o].
Qed.

Lemma open_Receive (w : wire) (p : wireProtocoler) : packager_Receive (mkPackager (mkConnection w true) p) =
  let '(k, o) := packager_Receive (mkPackager w p) in (mkPackager (mkConnection (transporter k) true) (protocoler k), o).
Proof.
  unfold packager_Receive, on_p, on_t, zoom, mbind, M_bind. cbn [protocoler transporter t_Receive connection_impl]. unfold on_open. cbn [cn_open cn_wire transporter protocoler].
  destruct (t_Receive w) as [w' [data|err| |]]; [|done..]. cbn [transporter protocoler]. by destruct (p_Decode data p) as [p' o].
Qed.

(** The identifiers that a client gives its requests. *)
Fixpoint number (id : Z) (stats : list (list byte)) : list (Z * list byte) :=
  match stats with [] => [] | stat :: stats => let id := u32 (id + 1) in (id, stat) :: number id stats end.

(** What the client makes of the server's outcomes. *)
Definition seen (o : outcome (list byte)) : outcome (list byte) := match o with Err er => Err (ErrMsg (Error er)) | _ => o end.

Definition ready (k : pack) : client pack := mkClient (mkRT k [] false Receiving) false.

Lemma client_Execute_run n stat o id lr rest out : zlen stat < MAX_PAYLOAD → zlen (payload_of (reply Error o)) < MAX_PAYLOAD → goes_on o →
  client_Execute (S (S n)) stat (ready (client_end (reply_frame Error (u32 (id + 1)) o ++ rest) out id lr)) =
  (ready (client_end rest (out ++ req_frame (u32 (id + 1)) stat) (u32 (id + 1)) lr), seen o).
Proof.
  intros Hs Ho Hgo. unfold client_Execute, on_rt, zoom, mbind at 1, M_bind at 1, ready. cbn [cl_rt].
  set (input := reply_frame Error (u32 (id + 1)) o ++ rest). pose proof (u32_range (id + 1)) as Hid.
  assert (Hsend : rt_Send (mkPkg stat None) (mkRT (client_end input out id lr) [] false Receiving) =
    (mkRT (client_end input (out ++ req_frame (u32 (id + 1)) stat) (u32 (id + 1)) lr) [] false Receiving, Ret tt)).
  { unfold rt_Send, catch, on_packager, zoom. cbn [pk_Send packager_impl rt_p]. unfold client_end. rewrite open_Send.
    by rewrite (client_Send_run (mkPkg stat None) (mkPackager (mkWire (mkConn input out)) (mkWP id false lr))). }
  set (flag := match Err_ (reply Error o) with Some _ => WireFlagError | None => WireFlagOK end). set (pkg := if decide (flag = WireFlagError) then mkPkg [] (Some (payload_of (reply Error o))) else mkPkg (payload_of (reply Error o)) None).
  assert (Hrecv : ∀ out id', pk_Receive (client_end input out id' lr) = (client_end rest out id' lr, Ret pkg)).
  { intros out' id'. change (@pk_Receive pack _) with (packager_Receive : M pack Package). unfold client_end. rewrite open_Receive. by rewrite (client_Receive_run (mkPackager (mkWire (mkConn input out')) (mkWP id' false lr)) (u32 (id + 1)) flag (payload_of (reply Error o)) rest). }
  assert (Hrt : RoundTrip (S (S n)) (mkPkg stat None) (mkRT (client_end input out id lr) [] false Receiving) =
    (mkRT (client_end rest (out ++ req_frame (u32 (id + 1)) stat) (u32 (id + 1)) lr) [] false Receiving, Ret (Some pkg))).
  { unfold RoundTrip. rewrite (M_bind_run _ _ _ _ _ Hsend). by rewrite (M_bind_run _ _ _ _ _ (await_package n _ _ pkg false (Hrecv _ _))). }
  unfold NewPackage. rewrite Hrt. unfold pkg, flag. destruct o as [r|er| |]; done.
Qed.

Lemma client_all_run n stats : ∀ os id lr rest out, Forall (λ stat, zlen stat < MAX_PAYLOAD) stats → Forall (λ o, zlen (payload_of (reply Error o)) < MAX_PAYLOAD ∧ goes_on o) os →
  length stats = length os →
  ∃ id', client_all (S (S n)) stats (ready (client_end (replies Error (number id stats) os ++ rest) out id lr)) =
    (ready (client_end rest (out ++ frames (number id stats)) id' lr), Ret (seen <$> os)).
Proof.
  induction stats as [|stat stats IH]; intros [|o os] id lr rest out Hs Ho Hlen; try done.
  - exists id. unfold frames. cbn. by rewrite app_nil_r.
  - apply Forall_cons in Hs as [Hstat Hs]. apply Forall_cons in Ho as [[Hpay Hgo] Ho]. cbn [length] in Hlen.
    destruct (IH os (u32 (id + 1)) lr rest (out ++ req_frame (u32 (id + 1)) stat) Hs Ho) as (id' & Hrun); [lia|]. exists id'. cbn [client_all number].
    change (replies Error ((u32 (id + 1), stat) :: number (u32 (id + 1)) stats) (o :: os)) with (reply_frame Error (u32 (id + 1)) o ++ replies Error (number (u32 (id + 1)) stats) os).
    rewrite <- app_assoc. unfold mbind at 1, M_bind at 1, catch. rewrite (client_Execute_run n stat o id lr _ out Hstat Hpay Hgo).
    change (frames ((u32 (id + 1), stat) :: number (u32 (id + 1)) stats)) with (req_frame (u32 (id + 1)) stat ++ frames (number (u32 (id + 1)) stats)).
    assert (Hseen : seen o = match o with Ret r => Ret r | _ => seen o end) by (by destruct o).
    destruct o as [r|er| |]; try done; cbn [seen mret M_ret]; unfold mbind, M_bind, mret, M_ret; rewrite Hrun, <- app_assoc; done.
Qed.

Lemma number_fst id stats : Forall (λ p, 0 ≤ p.1 < 2 ^ 32) (number id stats).
Proof. revert id. induction stats as [|stat stats IH]; intros id; constructor; [apply u32_range|apply IH]. Qed.
Lemma number_snd id stats : (number id stats).*2 = stats.
Proof. revert id. induction stats as [|stat stats IH]; intros id; [done|]. cbn [number fmap list_fmap]. f_equal. apply IH. Qed.

Lemma Execute_all_goes_on sqls : ∀ (e e' : executor X) os, Execute_all sqls e = (e', Ret os) → Forall goes_on os ∧ length sqls = length os.
Proof.
  induction sqls as [|sql sqls IH]; intros e e' os; cbn [Execute_all]; [by intros [= <- <-]|].
  unfold mbind, M_bind, catch. destruct (Execute sql e) as [e1 [r|er| |]]; try done; cbv beta iota delta [mret M_ret]; (destruct (Execute_all sqls e1) as [e2 [os1|er2| |]] eqn:H; try done;
    intros [= <- <-]; destruct (IH _ _ _ H); split; [by constructor|cbn; lia]).
Qed.

(** C37: A client and the server, end to end: a program that executes statements
    through the client - request, connection, receiving loop and all - gets, one
    by one, exactly the results and the texts of the errors that the executor
    gives for these statements, for any table manager behind it; the bytes it
    wrote are those that the server read. *)
Theorem client_server stats (s : session (X := X) (C := wire) (P := wireProtocoler)) os e e' n m :
  isServer (protocoler (ses_pk s)) = true → c_in (pk_conn (ses_pk s)) = frames (number 0 stats) → c_out (pk_conn (ses_pk s)) = [] →
  Forall (λ stat, zlen stat < MAX_PAYLOAD) stats → Execute_all stats (ses_exe s) = (e, Ret os) → exe_Close e = (e', Ret tt) →
  Forall (λ o, zlen (payload_of (reply Error o)) < MAX_PAYLOAD) os → (length stats < n)%nat → (2 ≤ m)%nat →
  ∃ s' cl, serve Error n s = (s', Ret tt) ∧ ses_exe s' = e' ∧
    client_all m stats (NewClient (client_end (c_out (pk_conn (ses_pk s'))) [] 0 0)) = (cl, Ret (seen <$> os)) ∧
    c_out (wire_conn (cn_wire (transporter (rt_p (cl_rt cl))))) = c_in (pk_conn (ses_pk s)).
Proof.
  intros Hs Hin Hout Hstats Hex Hcl Hos Hn Hm. destruct (Execute_all_goes_on _ _ _ _ Hex) as [Hgo Hlen].
  destruct (serve_run Error s (number 0 stats) os e e' n Hs Hin) as (s' & Hrun & Hexe & Hout'); [|by rewrite number_snd|done|done| |].
  - pose proof (number_fst 0 stats) as H1. rewrite <- (number_snd 0 stats) in Hstats. apply Forall_fmap in Hstats. rewrite Forall_forall in *. intros p Hp. split; [by apply H1|by apply Hstats].
  - rewrite <- (length_fmap snd), number_snd. done.
  - rewrite Hout in Hout'. cbn [app] in Hout'. destruct m as [|[|m]]; [lia..|].
    destruct (client_all_run m stats os 0 0 [] [] Hstats) as (id' & Hc); [rewrite Forall_forall in *; intros o Ho; split; [by apply Hos|by apply Hgo]|done|].
    eexists s', _. split; [exact Hrun|]. split; [exact Hexe|]. rewrite Hout'. rewrite app_nil_r in Hc. split; [exact Hc|]. by rewrite Hin.
Qed.
End EndToEnd.

(** * Examples *)

Definition one_answer : packager connection wireProtocoler := client_end (resp_frame 1 WireFlagOK (str_bytes "Insert")) [] 0 0.

Lemma answers_in_order_witness : ∃ tr rt, rt_run (NewRoundTripper one_answer) tr rt ∧ rt_loop rt = Stopped ∧
  received tr = taken tr ++ [mkResult None (Some ErrEOF)] ∧ taken tr = [mkResult (Some (mkPkg (str_bytes "Insert") None)) None] ∧ disconnCh rt = true.
Proof.
  assert (Hrun : ∃ tr rt, rt_run (NewRoundTripper one_answer) tr rt ∧ taken tr = [mkResult (Some (mkPkg (str_bytes "Insert") None)) None] ∧
    rt_loop rt = Stopped ∧ recvCh rt = [mkResult None (Some ErrEOF)]).
  { eexists _, _. split; [|split; [|split]].
    - eapply rt_cons; [eapply loop_receive; [done|by vm_compute|done]|].
      eapply rt_cons; [eapply loop_move; [done|by vm_compute]|].
      eapply rt_cons; [eapply (user_take _ _ []); done|].
      eapply rt_cons; [eapply loop_receive; [done|by vm_compute|done]|].
      eapply rt_cons; [eapply loop_move; [done|by vm_compute]|].
      eapply rt_cons; [eapply loop_move; [done|by vm_compute]|]. apply rt_nil.
    - by vm_compute.
    - done.
    - done. }
  destruct Hrun as (tr & rt & Hrun & Ht & Hl & Hq). exists tr, rt. destruct (answers_in_order one_answer tr rt Hrun) as (Hord & _ & _ & Hstop).
  destruct (Hstop Hl) as [Hd _]. rewrite Hl, Hq in Hord. by split_and!.
Defined.

Definition sample_stats : list (list byte) := sample_reqs.*2.
Definition sample_served : session (X := tableManager transactionManager memDM booter) (C := wire) (P := wireProtocoler) :=
  mkSession (mkPackager (mkWire (mkConn (frames (number 0 sample_stats)) [])) (mkWP 0 true 0)) (NewExecutor (new_db [])).

Lemma client_server_witness : ∃ s' cl, serve say 5 sample_served = (s', Ret tt) ∧
  client_all 2 sample_stats (NewClient (client_end (c_out (pk_conn (ses_pk s'))) [] 0 0)) =
    (cl, Ret [Ret (str_bytes "create t"); Ret (str_bytes "Insert"); Ret (str_bytes "[5]" ++ [Byte.x0a]); Err (ErrMsg (str_bytes "sorry"))]).
Proof.
  set (os := [Ret (str_bytes "create t"); Ret (str_bytes "Insert"); Ret (str_bytes "[5]" ++ [Byte.x0a]); Err ErrNotInAnyTransaction]).
  assert (Hr : ∃ e, Execute_all sample_stats (ses_exe sample_served) = (e, Ret os) ∧ exe_xid e = 0).
  { exists (Execute_all sample_stats (ses_exe sample_served)).1. split; [apply pair_snd|]; by vm_compute. }
  destruct Hr as (e & Hr & Hx). assert (Hc : exe_Close e = (e, Ret tt)) by (unfold exe_Close; rewrite M_get_bind, Hx; done).
  assert (Hq : Forall (λ stat, zlen stat < MAX_PAYLOAD) sample_stats) by (apply (bool_decide_unpack _); by vm_compute).
  assert (Ho : Forall (λ o, zlen (payload_of (reply say o)) < MAX_PAYLOAD) os) by (apply (bool_decide_unpack _); by vm_compute).
  assert (Hn : (length sample_stats < 5)%nat) by (cbn; lia).
  destruct (client_server say sample_stats sample_served os e e 5 2 (eq_refl true) (eq_refl (frames (number 0 sample_stats))) (eq_refl []) Hq Hr Hc Ho Hn (le_n 2)) as (s' & cl & Hs & _ & Hcl & _).
  exists s', cl. split; [exact Hs|exact Hcl].
Defined.
