(* ===== verification/Shell.v ===== *)
(** Package [client]: the shell ([shell.go]): a line editor on a terminal in raw
    mode, with a history, that executes lines through the client and connects
    again when the server goes away; and its simple mode for input that is not
    a terminal.

    The output is a list of terminal codes ([token]); [screen] says what a
    terminal does with them, for lines that fit on it. *)
From S2P Require Import Prelude.
From S2P Require Import Codec.
From S2P Require Import Transporter.
From S2P Require Import Session.
From S2P Require Import Client.
From stdpp Require Import relations.
Local Open Scope Z_scope.

(** * The interface [Client] *)

Class ShellClient (X : Type) := {
  cl_Execute : list byte → M X (list byte);
  cl_Close : X → X;
  cl_IsConnected : X → bool;
  cl_Disconnected : X → bool      (* the channel is closed *)
}.

#[export] Instance client_shell {K} `{!Packager K} (n : nat) : ShellClient (client K) := {|
  cl_Execute := client_Execute n; cl_Close := client_Close; cl_IsConnected := IsConnected; cl_Disconnected := Disconnected |}.

(** * What is printed *)

Inductive token :=
| Text (t : list byte)       (* printable bytes *)
| Raw (t : list byte)        (* a result, an error, a message: any bytes *)
| CR | LF
| EraseLine                  (* ESC [ K *)
| Left (n : Z)               (* ESC [ n D *)
| Right1 | Left1             (* ESC [ 1 C, ESC [ 1 D *)
| Clear | Home.              (* ESC [ 2 J, ESC [ H *)

(** * The line *)

Record editor := mkEd { history : list (list byte); histIdx : Z; buf : list byte; cursor : Z }.

Definition set_line (b : list byte) (c : Z) (ed : editor) : editor := mkEd (history ed) (histIdx ed) b c.
Definition set_histIdx (i : Z) (ed : editor) : editor := mkEd (history ed) i (buf ed) (cursor ed).
Definition NewEditor : editor := mkEd [] (-1) [] 0.

Definition prompt : list byte := str_bytes ":> ".

Definition redraw (ed : editor) : list token :=
  [CR; EraseLine; Text prompt; Text (buf ed)] ++ (if decide (cursor ed < zlen (buf ed)) then [Left (zlen (buf ed) - cursor ed)] else []).

(** A key gives the line and what is printed. *)
Definition key_insert (b : byte) (ed : editor) : outcome (editor * list token) :=
  let line := buf ed ++ [Byte.x00] in
  _ ← slice_from line (cursor ed + 1);
  rest ← slice_from line (cursor ed);
  let line := copy_at line (cursor ed + 1) rest in
  line ← set_byte (cursor ed) b line;
  let ed := set_line line (cursor ed + 1) ed in
  Ret (ed, redraw ed).

Definition key_backspace (ed : editor) : outcome (editor * list token) :=
  if decide (0 < cursor ed) then
    left ← slice (buf ed) 0 (cursor ed - 1);
    right ← slice_from (buf ed) (cursor ed);
    let ed := set_line (left ++ right) (cursor ed - 1) ed in
    Ret (ed, redraw ed)
  else Ret (ed, []).

Definition key_up (ed : editor) : outcome (editor * list token) :=
  if decide (zlen (history ed) = 0) then Ret (ed, [])
  else
    let i := if decide (histIdx ed = -1) then zlen (history ed) - 1 else if decide (0 < histIdx ed) then histIdx ed - 1 else histIdx ed in
    line ← idx (history ed) i;
    let ed := set_line line (zlen line) (set_histIdx i ed) in
    Ret (ed, redraw ed).

Definition key_down (ed : editor) : outcome (editor * list token) :=
  if decide (histIdx ed = -1) then Ret (ed, [])
  else
    let i := histIdx ed + 1 in
    if decide (zlen (history ed) ≤ i) then let ed := set_line [] 0 (set_histIdx (-1) ed) in Ret (ed, redraw ed)
    else
      line ← idx (history ed) i;
      let ed := set_line line (zlen line) (set_histIdx i ed) in
      Ret (ed, redraw ed).

Definition key_right (ed : editor) : outcome (editor * list token) :=
  if decide (cursor ed < zlen (buf ed)) then Ret (set_line (buf ed) (cursor ed + 1) ed, [Right1]) else Ret (ed, []).
Definition key_left (ed : editor) : outcome (editor * list token) :=
  if decide (0 < cursor ed) then Ret (set_line (buf ed) (cursor ed - 1) ed, [Left1]) else Ret (ed, []).

(** * The shell *)

Section Shell.
Context {X : Type} `{!ShellClient X}.
(** [s.reconnect], if there is one, and [err.Error()]. *)
Context (reconnect : option (M X unit)) (Error : goerror → list byte).

(** [sh_in] is what will be typed, up to the end of the input; [sh_readers]
    counts the goroutines that wait for a byte. *)
Record shell := mkShell { sh_client : X; sh_ed : editor; sh_in : list byte; sh_readers : Z; sh_out : list token }.

Definition set_ed (ed : editor) (s : shell) : shell := mkShell (sh_client s) ed (sh_in s) (sh_readers s) (sh_out s).
Definition on_client {A} : M X A → M shell A := zoom sh_client (λ x s, mkShell x (sh_ed s) (sh_in s) (sh_readers s) (sh_out s)).
Definition print (ts : list token) : M shell unit := modify (λ s, mkShell (sh_client s) (sh_ed s) (sh_in s) (sh_readers s) (sh_out s ++ ts)).
Definition startReader : M shell unit := modify (λ s, mkShell (sh_client s) (sh_ed s) (sh_in s) (sh_readers s + 1) (sh_out s)).

(** [<-byteCh]: the byte, and whether the read failed (then it is 0). *)
Definition next_byte : M shell (byte * bool) := λ s,
  if decide (0 < sh_readers s) then
    let s' rest := mkShell (sh_client s) (sh_ed s) rest (sh_readers s - 1) (sh_out s) in
    match sh_in s with b :: rest => (s' rest, Ret (b, false)) | [] => (s' [], Ret (Byte.x00, true)) end
  else (s, OutOfFuel).

Definition on_line (key : editor → outcome (editor * list token)) : M shell unit :=
  s ← get; '(ed, ts) ← lift (key (sh_ed s)); _ ← modify (set_ed ed); print ts.

(** [strings.ReplaceAll(string(result), "\n", "\r\n")] *)
Definition crlf (result : list byte) : list byte := result ≫= λ b, if decide (b = Byte.x0a) then [Byte.x0d; Byte.x0a] else [b].

Definition show_result (result : list byte) : M shell unit := print [Raw (crlf result); CR; LF].
Definition show_error (err : goerror) : M shell unit := print [Raw (str_bytes "Err:  " ++ Error err); CR; LF].
Definition lost : list byte := str_bytes "[Server disconnected. Reconnecting...]".

(** [s.client, s.disconnCh = s.reconnect()] *)
Definition connect_again (again : M X unit) : M shell unit := on_client again.

(** A line is executed, a second time after a new connection. *)
Definition execute_line (line : list byte) : M shell unit :=
  catch (on_client (cl_Execute line)) show_result
    (λ err, s ← get;
       match reconnect with
       | Some again =>
           if negb (cl_IsConnected (sh_client s)) then
             _ ← print [EraseLine; Raw lost; CR; LF];
             _ ← connect_again again;
             catch (on_client (cl_Execute line)) show_result show_error
           else show_error err
       | None => show_error err
       end).

(** The end of [Run] is [false]. *)
Definition key_enter : M shell bool :=
  _ ← print [CR; LF];
  s ← get;
  let line := buf (sh_ed s) in
  if decide (line = str_bytes "exit" ∨ line = str_bytes "quit") then mret false
  else if decide (line = str_bytes "clear") then
    _ ← print [Clear; Home];
    _ ← modify (set_ed (mkEd (history (sh_ed s)) (-1) [] 0));
    _ ← print [Text prompt];
    _ ← startReader;
    mret true
  else
    let h := if decide (0 < zlen line) then history (sh_ed s) ++ [line] else history (sh_ed s) in
    _ ← modify (set_ed (mkEd h (-1) line (cursor (sh_ed s))));
    _ ← (if decide (0 < zlen line) then execute_line line else mret tt);
    _ ← modify (λ s, set_ed (set_line [] 0 (sh_ed s)) s);
    _ ← print [Text prompt];
    _ ← startReader;
    mret true.

Definition key_escape : M shell bool :=
  _ ← startReader;
  '(b2, _) ← next_byte;
  if decide (b2 ≠ Byte.x5b) then _ ← startReader; mret true
  else
    _ ← startReader;
    '(b3, _) ← next_byte;
    _ ← (if decide (b3 = Byte.x41) then on_line key_up
         else if decide (b3 = Byte.x42) then on_line key_down
         else if decide (b3 = Byte.x43) then on_line key_right
         else if decide (b3 = Byte.x44) then on_line key_left
         else mret tt);
    _ ← startReader;
    mret true.

Definition printable (b : byte) : Prop := 32 ≤ byte.unsigned b < 127.

(** [case br := <-byteCh] *)
Definition byte_case : M shell bool :=
  '(b, failed) ← next_byte;
  if (failed : bool) then _ ← print [CR; LF]; mret false
  else
    let c := byte.unsigned b in
    if decide (c = 3 ∨ c = 4) then _ ← print [CR; LF]; mret false
    else if decide (c = 13 ∨ c = 10) then key_enter
    else if decide (c = 127 ∨ c = 8) then _ ← on_line key_backspace; _ ← startReader; mret true
    else if decide (c = 27) then key_escape
    else
      _ ← (if decide (32 ≤ c < 127) then on_line (key_insert b) else mret tt);
      _ ← startReader;
      mret true.

(** [case <-s.disconnCh] *)
Definition handleDisconnect : M shell unit :=
  match reconnect with
  | None => mret tt
  | Some again =>
      _ ← print [CR; LF; EraseLine; Raw lost; CR; LF];
      _ ← connect_again again;
      s ← get;
      print (redraw (sh_ed s))
  end.

(** What [select] may take: a byte always, since a reader is there, the other
    channel when it is closed.  [choose] says which one it takes. *)
Fixpoint Run_loop (choose : nat → bool) (n : nat) : M shell unit :=
  match n with
  | O => λ s, (s, OutOfFuel)
  | S n =>
      s ← get;
      if cl_Disconnected (sh_client s) && choose n then _ ← handleDisconnect; Run_loop choose n
      else go ← byte_case; if (go : bool) then Run_loop choose n else mret tt
  end.

Definition close_client : M shell unit := modify (λ s, mkShell (cl_Close (sh_client s)) (sh_ed s) (sh_in s) (sh_readers s) (sh_out s)).

Definition NewShell (x : X) (input : list byte) : shell := mkShell x NewEditor input 0 [].

(** ** Simple mode *)

Definition simple_result (result : list byte) : M shell unit := print [Raw result; LF].
Definition simple_error (err : goerror) : M shell unit := print [Raw (str_bytes "Err:  " ++ Error err); LF].

Definition simple_line (line : list byte) : M shell unit :=
  catch (on_client (cl_Execute line)) simple_result
    (λ err, s ← get;
       match reconnect with
       | Some again =>
           if negb (cl_IsConnected (sh_client s)) then
             _ ← print [Raw lost; LF];
             _ ← connect_again again;
             catch (on_client (cl_Execute line)) simple_result simple_error
           else simple_error err
       | None => simple_error err
       end).

(** The loop of [runSimple] over the input, with the line so far. *)
Fixpoint simple_loop (input : list byte) (line : list byte) : M shell unit :=
  match input with
  | [] => mret tt
  | b :: input =>
      if decide (b = Byte.x0a) then
        if decide (line = str_bytes "exit" ∨ line = str_bytes "quit") then mret tt
        else _ ← simple_line line; _ ← print [Text prompt]; simple_loop input []
      else simple_loop input (line ++ [b])
  end.

Definition runSimple : M shell unit := _ ← print [Text prompt]; s ← get; simple_loop (sh_in s) [].

(** [Run]: [raw] says whether the terminal could be put into raw mode.
    [s.client.Close()] is deferred, for the client that was there at the start,
    which is the same object after a new connection. *)
Definition Run (raw : bool) (choose : nat → bool) (n : nat) : M shell unit :=
  _ ← (if raw then _ ← print [Text prompt]; _ ← startReader; Run_loop choose n else runSimple);
  close_client.
End Shell.
Arguments shell X : clear implicits.

(** * The screen *)

(** The row of the cursor and its column, as far as they are known. *)
Definition screen : Type := option (list byte) * option Z.

Definition overwrite (row : list byte) (c : Z) (t : list byte) : list byte :=
  let row := row ++ replicate (Z.to_nat c - length row) Byte.x20 in
  take (Z.to_nat c) row ++ t ++ drop (Z.to_nat c + length t) row.

Definition exec (sc : screen) (tk : token) : screen :=
  let '(row, col) := sc in
  match tk with
  | Text t => match row, col with Some row, Some c => (Some (overwrite row c t), Some (c + zlen t)) | _, _ => (None, None) end
  | Raw t => (None, None)
  | CR => (row, Some 0)
  | LF => (Some [], col)
  | EraseLine =>
      (match col with
       | Some c => if decide (c = 0) then Some [] else take (Z.to_nat c) <$> row
       | None => None
       end, col)
  | Left n => (row, (λ c, Z.max 0 (c - n)) <$> col)
  | Right1 => (row, (λ c, c + 1) <$> col)
  | Left1 => (row, (λ c, Z.max 0 (c - 1)) <$> col)
  | Clear => (Some [], col)
  | Home => (row, Some 0)
  end.

Definition shown (ts : list token) : screen := foldl exec (Some [], Some 0) ts.

(** The prompt, the line, and the cursor where the editor has it. *)
Definition shows (ed : editor) : screen := (Some (prompt ++ buf ed), Some (zlen prompt + cursor ed)).

(** * Invariant *)

Definition command (line : list byte) : Prop := line = str_bytes "exit" ∨ line = str_bytes "quit" ∨ line = str_bytes "clear".
#[export] Instance command_dec line : Decision (command line).
Proof. unfold command. apply _. Defined.
#[export] Instance printable_dec b : Decision (printable b).
Proof. unfold printable. apply _. Defined.

Record line_ok (ed : editor) : Prop := {
  lo_cursor : 0 ≤ cursor ed ≤ zlen (buf ed);
  lo_index : -1 ≤ histIdx ed < zlen (history ed);
  lo_buf : Forall printable (buf ed);
  lo_history : Forall (λ h, Forall printable h ∧ h ≠ [] ∧ ¬ command h) (history ed)
}.

Lemma NewEditor_ok : line_ok NewEditor.
Proof. split; [by vm_compute|by vm_compute|constructor|constructor]. Qed.

Lemma exec_text row c t : 0 ≤ c → c = zlen row → exec (Some row, Some c) (Text t) = (Some (row ++ t), Some (c + zlen t)).
Proof.
  intros Hc ->. cbn [exec]. unfold overwrite, zlen. rewrite Nat2Z.id, Nat.sub_diag. cbn [replicate]. rewrite app_nil_r, take_ge, (drop_ge row) by lia. by rewrite app_nil_r.
Qed.

Lemma redraw_shows ed sc : line_ok ed → foldl exec sc (redraw ed) = shows ed.
Proof.
  intros [Hc _ _ _]. destruct sc as [row col]. unfold redraw. cbn [app foldl]. change (exec (exec (row, col) CR) EraseLine) with (Some (@nil byte), Some 0).
  rewrite exec_text by done. cbn [app]. rewrite Z.add_0_l, exec_text by (apply zlen_nonneg || done). pose proof (zlen_nonneg prompt). unfold shows.
  case_decide; cbn [foldl]; [|repeat f_equal; lia]. cbn [exec]. change ((λ c, Z.max 0 (c - (zlen (buf ed) - cursor ed))) <$> Some ?x) with (Some (Z.max 0 (x - (zlen (buf ed) - cursor ed)))). repeat f_equal. lia.
Qed.

(** A key of the line editor does what it should and keeps the screen true. *)
Definition key_ok (key : editor → outcome (editor * list token)) (effect : editor → editor) : Prop :=
  ∀ ed, line_ok ed → ∃ ts, key ed = Ret (effect ed, ts) ∧ line_ok (effect ed) ∧ foldl exec (shows ed) ts = shows (effect ed).

(** What the keys do, in terms of the text before and behind the cursor. *)
Definition before (ed : editor) : list byte := take (Z.to_nat (cursor ed)) (buf ed).
Definition behind (ed : editor) : list byte := drop (Z.to_nat (cursor ed)) (buf ed).
Definition with_line (l r : list byte) (ed : editor) : editor := mkEd (history ed) (histIdx ed) (l ++ r) (zlen l).

Lemma before_behind ed : buf ed = before ed ++ behind ed.
Proof. unfold before, behind. by rewrite take_drop. Qed.
Lemma zlen_before ed : line_ok ed → zlen (before ed) = cursor ed.
Proof. intros [Hc _ _ _]. unfold before, zlen in *. rewrite length_take. lia. Qed.
Lemma with_line_same ed : line_ok ed → with_line (before ed) (behind ed) ed = ed.
Proof. intros Hok. unfold with_line. rewrite <- before_behind, zlen_before by done. by destruct ed. Qed.

Lemma with_line_ok l r ed : line_ok ed → Forall printable l → Forall printable r → line_ok (with_line l r ed).
Proof.
  intros [_ Hi _ Hh] Hl Hr. split; cbn; [|done|by apply Forall_app|done]. rewrite zlen_app. pose proof (zlen_nonneg l). pose proof (zlen_nonneg r). lia.
Qed.

Lemma printable_parts ed : line_ok ed → Forall printable (before ed) ∧ Forall printable (behind ed).
Proof. intros [_ _ Hb _]. rewrite before_behind in Hb. by apply Forall_app in Hb. Qed.

(** The byte goes between the two parts. *)
Lemma insert_byte_run (l r : list byte) b : 
  (_ ← slice_from ((l ++ r) ++ [Byte.x00]) (zlen l + 1);
   rest ← slice_from ((l ++ r) ++ [Byte.x00]) (zlen l);
   set_byte (zlen l) b (copy_at ((l ++ r) ++ [Byte.x00]) (zlen l + 1) rest)) = Ret (l ++ b :: r).
Proof.
  pose proof (zlen_nonneg l). pose proof (zlen_nonneg r). rewrite <- app_assoc.
  rewrite !slice_from_Ret by (rewrite !zlen_app, zlen_one; lia). cbn [mbind outcome_bind]. unfold zlen at 3. rewrite Nat2Z.id, drop_app_length.
  destruct (r ++ [Byte.x00]) as [|x t] eqn:Hr; [by destruct r|]. assert (Ht : length t = length r) by (apply (f_equal length) in Hr; rewrite length_app in Hr; cbn in Hr; lia).
  assert (Hcopy : copy_at (l ++ x :: t) (zlen l + 1) (x :: t) = l ++ x :: r).
  { unfold copy_at, zlen. replace (Z.to_nat (Z.of_nat (length l) + 1)) with (length (l ++ [x])) by (rewrite length_app; cbn; lia).
    rewrite (app_assoc l [x] t : l ++ x :: t = _), take_app_length, drop_ge by (rewrite !length_app; cbn; lia). rewrite app_nil_r, <- (app_assoc l [x]). cbn [app]. do 2 f_equal.
    rewrite <- Hr, take_app_le, take_ge by (rewrite !length_app; cbn; lia). done. }
  rewrite Hcopy. unfold set_byte. rewrite decide_True by (rewrite zlen_app, zlen_cons; lia). f_equal. by rewrite (copy_at_piece _ l [x] r _ [b]).
Qed.

Lemma key_insert_ok b : printable b → key_ok (key_insert b) (λ ed, with_line (before ed ++ [b]) (behind ed) ed).
Proof.
  intros Hb ed Hok. destruct (printable_parts ed Hok) as [Hl Hr]. pose proof (zlen_before ed Hok) as Hc. pose proof (zlen_nonneg (before ed)). pose proof (zlen_nonneg (behind ed)).
  assert (Hok' : line_ok (with_line (before ed ++ [b]) (behind ed) ed)) by (apply with_line_ok; [done|apply Forall_app; split; [done|by apply Forall_singleton]|done]).
  exists (redraw (with_line (before ed ++ [b]) (behind ed) ed)). split; [|split; [done|by apply redraw_shows]].
  unfold key_insert. pose proof (insert_byte_run (before ed) (behind ed) b) as Hrun. rewrite <- before_behind, Hc in Hrun. cbv zeta.
  assert (Hcur : cursor ed + 1 = zlen (before ed ++ [b])) by (rewrite zlen_app, zlen_one; lia).
  destruct (slice_from (buf ed ++ [Byte.x00]) (cursor ed + 1)); cbn [mbind outcome_bind] in *; try discriminate Hrun.
  destruct (slice_from (buf ed ++ [Byte.x00]) (cursor ed)); cbn [mbind outcome_bind] in *; try discriminate Hrun. rewrite Hrun. cbn [mbind outcome_bind].
  rewrite Hcur. unfold with_line. by rewrite <- app_assoc.
Qed.

Lemma key_backspace_ok : key_ok key_backspace (λ ed, with_line (take (length (before ed) - 1) (before ed)) (behind ed) ed).
Proof.
  intros ed Hok. destruct (printable_parts ed Hok) as [Hl Hr]. pose proof (zlen_before ed Hok) as Hc. pose proof (zlen_nonneg (behind ed)).
  assert (Hok' : line_ok (with_line (take (length (before ed) - 1) (before ed)) (behind ed) ed)) by (apply with_line_ok; [done|by apply Forall_take|done]).
  unfold key_backspace. case_decide as H0.
  - exists (redraw (with_line (take (length (before ed) - 1) (before ed)) (behind ed) ed)). split; [|split; [done|by apply redraw_shows]].
    assert (Hlen : zlen (buf ed) = cursor ed + zlen (behind ed)) by (by rewrite before_behind, zlen_app, Hc).
    rewrite slice_Ret by lia. cbn [mbind outcome_bind]. rewrite slice_from_Ret by lia. cbn [mbind outcome_bind]. fold (behind ed).
    assert (Hsub : sub (buf ed) 0 (cursor ed - 1 - 0) = take (length (before ed) - 1) (before ed)).
    { unfold sub, before, zlen in *. change (Z.to_nat 0) with 0%nat. rewrite drop_0, length_take, take_take. f_equal. lia. }
    rewrite Hsub. assert (Hcur : cursor ed - 1 = zlen (take (length (before ed) - 1) (before ed))) by (unfold zlen in *; rewrite length_take; lia).
    rewrite Hcur. done.
  - assert (Hb : before ed = []) by (apply nil_length_inv; unfold zlen in Hc; lia). assert (Hsame : with_line (take (length (before ed) - 1) (before ed)) (behind ed) ed = ed).
    { rewrite Hb. cbn [length take]. rewrite take_nil, <- Hb. by apply with_line_same. }
    exists []. by rewrite Hsame.
Qed.

(** What a key makes of the line. *)
Definition result (key : editor → outcome (editor * list token)) (ed : editor) : editor := match key ed with Ret (ed', _) => ed' | _ => ed end.

Lemma show_entry i ed h : line_ok ed → 0 ≤ i → history ed !! Z.to_nat i = Some h →
  line_ok (set_line h (zlen h) (set_histIdx i ed)).
Proof.
  intros [_ _ _ Hh] Hi Hl. pose proof (lookup_lt_Some _ _ _ Hl). rewrite Forall_forall in Hh. destruct (Hh h) as (Hp & _ & _); [by eapply list_elem_of_lookup_2|].
  pose proof (zlen_nonneg h). split; cbn [history histIdx buf cursor set_line set_histIdx]; [lia|unfold zlen; lia|done|by apply Forall_forall].
Qed.

Lemma key_up_ok : key_ok key_up (result key_up).
Proof.
  intros ed Hok. unfold result, key_up. case_decide as H0; [by exists []|]. pose proof (zlen_nonneg (history ed)). pose proof (lo_index _ Hok) as Hi.
  set (i := if decide (histIdx ed = -1) then _ else _). assert (Hr : 0 ≤ i < zlen (history ed)) by (unfold i; repeat case_decide; lia). clearbody i.
  destruct (lookup_lt_is_Some_2 (history ed) (Z.to_nat i)) as [h Hh]; [unfold zlen in Hr; lia|]. rewrite (idx_Ret _ i h ltac:(lia) Hh). cbn [mbind outcome_bind].
  pose proof (show_entry i ed h Hok ltac:(lia) Hh). eexists. split; [done|]. split; [done|by apply redraw_shows].
Qed.

Lemma key_down_ok : key_ok key_down (result key_down).
Proof.
  intros ed Hok. unfold result, key_down. case_decide as H0; [by exists []|]. pose proof (zlen_nonneg (history ed)). pose proof (lo_index _ Hok) as Hi.
  case_decide as H1.
  - eexists. split; [done|]. assert (Hok' : line_ok (set_line [] 0 (set_histIdx (-1) ed))) by (destruct Hok; split; cbn [history histIdx buf cursor set_line set_histIdx]; [done|lia|constructor|done]). split; [done|by apply redraw_shows].
  - destruct (lookup_lt_is_Some_2 (history ed) (Z.to_nat (histIdx ed + 1))) as [h Hh]; [unfold zlen in *; lia|]. rewrite (idx_Ret _ (histIdx ed + 1) h ltac:(lia) Hh). cbn [mbind outcome_bind].
    pose proof (show_entry (histIdx ed + 1) ed h Hok ltac:(lia) Hh). eexists. split; [done|]. split; [done|by apply redraw_shows].
Qed.

Lemma move_ok c ed : line_ok ed → 0 ≤ c ≤ zlen (buf ed) → line_ok (set_line (buf ed) c ed).
Proof. intros [_ Hi Hb Hh] Hc. by split. Qed.

Lemma key_right_ok : key_ok key_right (result key_right).
Proof.
  intros ed Hok. pose proof (lo_cursor _ Hok). unfold result, key_right. case_decide; [|by exists []]. exists [Right1]. split; [done|]. split; [apply move_ok; [done|lia]|].
  unfold shows. cbn [foldl exec]. change ((λ c, c + 1) <$> Some ?x) with (Some (x + 1)). cbn [buf cursor set_line]. apply (f_equal (λ z, (Some (prompt ++ buf ed), Some z))). lia.
Qed.

Lemma key_left_ok : key_ok key_left (result key_left).
Proof.
  intros ed Hok. pose proof (lo_cursor _ Hok). unfold result, key_left. case_decide; [|by exists []]. exists [Left1]. split; [done|]. split; [apply move_ok; [done|lia]|].
  unfold shows. cbn [foldl exec]. change ((λ c, Z.max 0 (c - 1)) <$> Some ?x) with (Some (Z.max 0 (x - 1))). cbn [buf cursor set_line]. pose proof (zlen_nonneg prompt). apply (f_equal (λ z, (Some (prompt ++ buf ed), Some z))). lia.
Qed.

Section ShellRuns.
Context {X : Type} `{!ShellClient X}.
Context (reconnect : option (M X unit)) (Error : goerror → list byte).
Implicit Types (s : shell X).

(** The client comes back from every statement, and so does connecting. *)
Record client_ok : Prop := {
  co_Execute : ∀ line (x : X), goes_on (cl_Execute line x).2;
  co_connect : ∀ again (x : X), reconnect = Some again → ∃ x', again x = (x', Ret tt)
}.

(** The state at [select]: [n] readers, and the screen as it should be. *)
Record at_line (n : Z) s : Prop := {
  al_ok : line_ok (sh_ed s);
  al_readers : sh_readers s = n;
  al_shown : shown (sh_out s) = shows (sh_ed s)
}.

Lemma on_line_run key effect n s : key_ok key effect → at_line n s →
  ∃ out, on_line key s = (mkShell (sh_client s) (effect (sh_ed s)) (sh_in s) (sh_readers s) out, Ret tt) ∧
    at_line n (mkShell (sh_client s) (effect (sh_ed s)) (sh_in s) (sh_readers s) out).
Proof.
  intros Hk [Hok Hr Hs]. destruct (Hk _ Hok) as (ts & Hrun & Hok' & Hts). exists (sh_out s ++ ts). unfold on_line. rewrite M_get_bind, Hrun, M_lift_bind. split; [done|].
  split; [done|done|]. cbn [sh_out sh_ed]. unfold shown in *. by rewrite foldl_app, Hs.
Qed.

Lemma startReader_run {A} (k : unit → M (shell X) A) s : (startReader ≫= k) s = k tt (mkShell (sh_client s) (sh_ed s) (sh_in s) (sh_readers s + 1) (sh_out s)).
Proof. done. Qed.
Lemma print_run {A} (k : unit → M (shell X) A) ts s : (print ts ≫= k) s = k tt (mkShell (sh_client s) (sh_ed s) (sh_in s) (sh_readers s) (sh_out s ++ ts)).
Proof. done. Qed.

Lemma next_byte_run n s : at_line n s → 0 < n →
  ∃ b failed rest, next_byte s = (mkShell (sh_client s) (sh_ed s) rest (n - 1) (sh_out s), Ret (b, failed)) ∧
    at_line (n - 1) (mkShell (sh_client s) (sh_ed s) rest (n - 1) (sh_out s)) ∧
    head (sh_in s) = if failed : bool then None else Some b.
Proof.
  intros [Hok Hr Hs] Hn. unfold next_byte. rewrite decide_True by lia. rewrite Hr. destruct (sh_in s) as [|b rest]; eexists _, _, _; (split; [done|split; [by split|done]]).
Qed.

(** Behind [CR], [LF] the row is blank. *)
Definition blank : screen := (Some [], Some 0).
Lemma shown_newline ts : shown (ts ++ [CR; LF]) = blank.
Proof. unfold shown. rewrite foldl_app. by destruct (foldl exec (Some [], Some 0) ts). Qed.
Lemma shown_newline_raw ts t : shown (ts ++ [Raw t; CR; LF]) = blank.
Proof. change [Raw t; CR; LF] with ([Raw t] ++ [CR; LF]). by rewrite app_assoc, shown_newline. Qed.

Lemma execute_line_run line s : shown (sh_out s) = blank →
  (∃ x out, execute_line reconnect Error line s = (mkShell x (sh_ed s) (sh_in s) (sh_readers s) out, Ret tt) ∧ shown out = blank) ∨
  ¬ client_ok ∧ (execute_line reconnect Error line s).2 ≠ Ret tt.
Proof.
  intros Hb. set (r := execute_line _ _ _ _). assert (Hr : r = execute_line reconnect Error line s) by done. clearbody r.
  unfold execute_line, catch at 1, on_client, zoom in Hr.
  assert (Hno : ∀ l x, ¬ goes_on (cl_Execute l x).2 → ¬ client_ok) by (intros l x H [Hex _]; by apply H).
  pose proof (Hno line (sh_client s)) as Hno1. destruct (cl_Execute line (sh_client s)) as [x1 [t|er| |]];
    [| |right; split; [by apply Hno1; intros []|by rewrite Hr]..].
  - left. eexists _, _. split; [exact Hr|]. apply shown_newline_raw.
  - rewrite M_get_bind in Hr. cbn [sh_client] in Hr. destruct reconnect as [again|] eqn:Er; [|left; eexists _, _; split; [exact Hr|apply shown_newline_raw]].
    destruct (cl_IsConnected x1); cbn [negb] in Hr; [left; eexists _, _; split; [exact Hr|apply shown_newline_raw]|].
    rewrite print_run in Hr. cbn [sh_client sh_ed sh_in sh_readers sh_out] in Hr.
    unfold connect_again, on_client, zoom, mbind, M_bind at 1 in Hr. cbn [sh_client sh_ed sh_in sh_readers sh_out] in Hr.
    destruct (again x1) as [x2 [[]|er2| |]] eqn:Ea;
      [|right; split; [intros [_ Hco]; destruct (Hco again x1 Er); congruence|by rewrite Hr]..].
    unfold catch in Hr. cbn [sh_client sh_ed sh_in sh_readers sh_out] in Hr.
    pose proof (Hno line x2) as Hno2. destruct (cl_Execute line x2) as [x3 [t|er2| |]];
      [| |right; split; [by apply Hno2; intros []|by rewrite Hr]..]; left; eexists _, _; (split; [exact Hr|apply shown_newline_raw]).
Qed.

Lemma shown_prompt out h : shown out = blank → shown (out ++ [Text prompt]) = shows (mkEd h (-1) [] 0).
Proof. intros Hb. unfold shown in *. by rewrite foldl_app, Hb. Qed.

(** The shell goes on at the prompt, or ends, or it is the client that did not
    come back. *)
Definition returns_ok (m : M (shell X) bool) s : Prop :=
  (∃ s' go, m s = (s', Ret go) ∧ (go = true → at_line 1 s')) ∨ ¬ client_ok ∧ ∀ go, (m s).2 ≠ Ret go.

Lemma key_enter_run s : at_line 0 s → returns_ok (key_enter reconnect Error) s.
Proof.
  intros [Hok Hr Hs]. unfold returns_ok, key_enter. rewrite print_run, M_get_bind. cbn [sh_ed].
  case_decide as H1; [by left; eexists _, _|]. case_decide as H2.
  - left. eexists _, _. split; [done|]. intros _. destruct Hok. split; cbn.
    + split; cbn [history histIdx buf cursor]; [done|pose proof (zlen_nonneg (history (sh_ed s))); lia|constructor|done].
    + lia.
    + rewrite <- !app_assoc. change ([CR; LF] ++ [Clear; Home] ++ [Text prompt]) with ([CR; LF] ++ ([Clear; Home] ++ [Text prompt])). rewrite app_assoc. unfold shown. rewrite foldl_app.
      change (foldl exec (Some [], Some 0) (sh_out s ++ [CR; LF])) with (shown (sh_out s ++ [CR; LF])). by rewrite shown_newline.
  - set (line := buf (sh_ed s)) in *. set (h := if decide (0 < zlen line) then history (sh_ed s) ++ [line] else history (sh_ed s)).
    assert (Hh : Forall (λ h, Forall printable h ∧ h ≠ [] ∧ ¬ command h) h).
    { unfold h. destruct Hok. case_decide as H0; [|done]. apply Forall_app. split; [done|]. apply Forall_singleton. split; [done|]. split; [intros ->; by vm_compute in H0|]. unfold command. tauto. }
    assert (Hlok : line_ok (mkEd h (-1) [] 0)) by (split; cbn [history histIdx buf cursor]; [done|pose proof (zlen_nonneg h); lia|constructor|done]).
    unfold mbind at 1, M_bind at 1, modify at 1. set (s1 := set_ed _ _).
    assert (Hb : shown (sh_out s1) = blank) by apply shown_newline.
    assert (Hrun : (∃ x out, (if decide (0 < zlen line) then execute_line reconnect Error line else mret tt) s1 =
        (mkShell x (sh_ed s1) (sh_in s1) (sh_readers s1) out, Ret tt) ∧ shown out = blank) ∨
      ¬ client_ok ∧ ((if decide (0 < zlen line) then execute_line reconnect Error line else mret tt) s1).2 ≠ Ret tt).
    { case_decide; [by apply execute_line_run|]. left. exists (sh_client s1), (sh_out s1). split; [by destruct s1|done]. }
    destruct Hrun as [(x & out & Hrun & Hout)|[Hco Hrun]].
    + left. rewrite (M_bind_run _ _ _ _ _ Hrun). eexists _, _. split; [done|]. intros _. split; cbn; [exact Hlok|lia|by apply shown_prompt].
    + right. split; [done|]. intros go. unfold mbind, M_bind, modify at 1. fold s1. destruct ((if decide (0 < zlen line) then execute_line reconnect Error line else mret tt) s1) as [s2 [[]|e| |]]; [by destruct Hrun|done..].
Qed.

Lemma on_line_start key effect s : key_ok key effect → at_line 0 s →
  ∃ s', (_ ← on_line key; _ ← startReader; mret true) s = (s', Ret true) ∧ at_line 1 s'.
Proof.
  intros Hk Hs. destruct (on_line_run key effect 0 s Hk Hs) as (out & Hrun & [Hok Hr Hsh]). rewrite (M_bind_run _ _ _ _ _ Hrun). eexists. split; [done|]. split; [done|cbn in *; lia|done].
Qed.

Lemma start_only s : at_line 0 s → ∃ s', ((_ ← mret tt; _ ← startReader; mret true) : M (shell X) bool) s = (s', Ret true) ∧ at_line 1 s'.
Proof. intros [Hok Hr Hsh]. eexists. split; [done|]. split; [done|cbn; lia|done]. Qed.

Lemma at_line_reader n s : at_line n s → at_line (n + 1) (mkShell (sh_client s) (sh_ed s) (sh_in s) (sh_readers s + 1) (sh_out s)).
Proof. intros [Hok Hr Hsh]. split; [done|cbn; lia|done]. Qed.

Lemma key_escape_run s : at_line 0 s → ∃ s', key_escape s = (s', Ret true) ∧ at_line 1 s'.
Proof.
  intros Hs. unfold key_escape. rewrite startReader_run. apply at_line_reader in Hs as Hs1. cbn [Z.add] in Hs1.
  destruct (next_byte_run 1 _ Hs1 ltac:(lia)) as (b2 & f2 & rest & Hn & Hs2 & _). rewrite (M_bind_run _ _ _ _ _ Hn). case_decide as H2.
  - eexists. split; [done|]. destruct Hs2 as [Hok Hr Hsh]. by split.
  - rewrite startReader_run. apply at_line_reader in Hs2 as Hs3. change (1 - 1 + 1) with 1 in Hs3.
    destruct (next_byte_run 1 _ Hs3 ltac:(lia)) as (b3 & f3 & rest3 & Hn3 & Hs4 & _). rewrite (M_bind_run _ _ _ _ _ Hn3). change (1 - 1) with 0 in *.
    repeat case_decide; [by eapply on_line_start, Hs4; first [apply key_up_ok|apply key_down_ok|apply key_right_ok|apply key_left_ok]..|]. by apply start_only.
Qed.

Lemma byte_case_run s : at_line 1 s →
  returns_ok (byte_case reconnect Error) s ∧
  (head (sh_in s) ≠ Some Byte.x0d → head (sh_in s) ≠ Some Byte.x0a → ∃ s' go, byte_case reconnect Error s = (s', Ret go)).
Proof.
  intros Hs. destruct (next_byte_run 1 s Hs ltac:(lia)) as (b & failed & rest & Hn & Hs0 & Hhd). unfold returns_ok, byte_case.
  rewrite (M_bind_run _ _ _ _ _ Hn). change (1 - 1) with 0 in *. set (s0 := mkShell _ _ _ _ _) in *.
  assert (Hgo : ∀ m : M (shell X) bool, (∃ s', m s0 = (s', Ret true) ∧ at_line 1 s') → returns_ok m s0 ∧
    (head (sh_in s) ≠ Some Byte.x0d → head (sh_in s) ≠ Some Byte.x0a → ∃ s' go, m s0 = (s', Ret go)))
    by (intros m (s' & ? & ?); split; [left; by exists s', true|by exists s', true]).
  assert (Hend : ∀ m : M (shell X) bool, (∃ s', m s0 = (s', Ret false)) → returns_ok m s0 ∧
    (head (sh_in s) ≠ Some Byte.x0d → head (sh_in s) ≠ Some Byte.x0a → ∃ s' go, m s0 = (s', Ret go)))
    by (intros m (s' & ?); split; [left; by exists s', false|by exists s', false]).
  destruct failed; [apply Hend; by eexists|]. cbv zeta. case_decide as H1; [apply Hend; by eexists|].
  case_decide as H2; [split; [by apply key_enter_run|]|case_decide as H3; [|case_decide as H4]].
  - rewrite Hhd. intros Hd Ha. destruct H2 as [H2|H2]; exfalso; [apply Hd|apply Ha]; f_equal; by apply byte.unsigned_inj.
  - apply Hgo; eapply on_line_start; [apply key_backspace_ok|done].
  - apply Hgo. by apply key_escape_run.
  - apply Hgo. case_decide as H5; [|by apply start_only]. by eapply on_line_start; [apply key_insert_ok|].
Qed.

Lemma handleDisconnect_run s : at_line 1 s →
  (∃ x ts, handleDisconnect reconnect s = (mkShell x (sh_ed s) (sh_in s) 1 (sh_out s ++ ts), Ret tt) ∧
    at_line 1 (mkShell x (sh_ed s) (sh_in s) 1 (sh_out s ++ ts)) ∧
    (x = sh_client s ∨ ∃ again, reconnect = Some again ∧ again (sh_client s) = (x, Ret tt))) ∨
  ¬ client_ok ∧ (handleDisconnect reconnect s).2 ≠ Ret tt.
Proof.
  intros [Hok Hr Hsh]. unfold handleDisconnect. destruct reconnect as [again|] eqn:Er.
  2: { left. exists (sh_client s), []. rewrite app_nil_r, <- Hr. destruct s. split; [done|]. split; [by split|by left]. }
  rewrite print_run. unfold connect_again, on_client, zoom, mbind, M_bind at 1 3.
  cbn [sh_client sh_ed sh_in sh_readers sh_out].
  destruct (again (sh_client s)) as [x [[]|e| |]] eqn:Ea; [|by right; split; [intros [_ Hco]; destruct (Hco again (sh_client s) Er); congruence|]..].
  left. exists x. eexists. split; [unfold get, print, modify, M_bind; cbn; by rewrite Hr, <- app_assoc|]. split; [|right; by exists again].
  split; [done|done|]. cbn [sh_ed sh_out]. unfold shown. rewrite !foldl_app. by apply redraw_shows.
Qed.

(** What [select] may do: the byte, or the closed channel. *)
Inductive shell_step s : shell X → Prop :=
| step_byte s' : byte_case reconnect Error s = (s', Ret true) → shell_step s s'
| step_disconnect s' : cl_Disconnected (sh_client s) = true → handleDisconnect reconnect s = (s', Ret tt) → shell_step s s'.

Definition started (x : X) (input : list byte) : shell X := mkShell x NewEditor input 1 [Text prompt].

Lemma shell_step_at_line s s' : shell_step s s' → at_line 1 s → at_line 1 s'.
Proof.
  intros Hstep Hs. destruct Hstep as [s1 Hb|s1 _ Hd].
  - destruct (byte_case_run s Hs) as [[(s' & go & Hb' & Hgo)|[_ Hno]] _]; [|by destruct (Hno true); rewrite Hb].
    rewrite Hb in Hb'. injection Hb' as -> <-. by apply Hgo.
  - destruct (handleDisconnect_run s Hs) as [(x & ts & Hd' & Hgo & _)|[_ Hno]]; [|by destruct Hno; rewrite Hd].
    rewrite Hd in Hd'. by injection Hd' as ->.
Qed.

Lemma shell_steps_at_line s s' : rtc shell_step s s' → at_line 1 s → at_line 1 s'.
Proof. induction 1; eauto using shell_step_at_line. Qed.

(** C38: The line editor, whatever is typed, whatever the server answers and
    whenever it disappears: the cursor stays in the line, the index in the
    history, and neither ever holds anything but printable text; exactly one
    goroutine waits for the next byte, so that no byte is lost or overtaken;
    the terminal shows the prompt and the line with its cursor where the editor
    has it.  No key but Enter can make the shell panic or wait for ever, and
    neither can the end of the input.  Enter and the handling of a lost
    connection cannot either, provided that the client is [client_ok]: that it
    comes back from every statement and from connecting again (which the real
    client does not promise: dialling goes on until the server answers). *)
Theorem shell_line_editor (x : X) input s : rtc shell_step (started x input) s →
  line_ok (sh_ed s) ∧ sh_readers s = 1 ∧ shown (sh_out s) = (Some (prompt ++ buf (sh_ed s)), Some (zlen prompt + cursor (sh_ed s))) ∧
  (head (sh_in s) ≠ Some Byte.x0d → head (sh_in s) ≠ Some Byte.x0a → ∃ s' go, byte_case reconnect Error s = (s', Ret go)) ∧
  (client_ok → (∃ s' go, byte_case reconnect Error s = (s', Ret go)) ∧ ∃ s', handleDisconnect reconnect s = (s', Ret tt)).
Proof.
  intros Hrun. assert (Hs : at_line 1 s).
  { eapply shell_steps_at_line; [exact Hrun|]. split; [apply NewEditor_ok|done|by vm_compute]. }
  pose proof Hs as [Hok Hr Hsh]. split; [done|]. split; [done|]. split; [done|].
  destruct (byte_case_run s Hs) as [Hb Hkey]. split; [done|]. intros Hco. split.
  - destruct Hb as [(s' & go & ? & _)|[Hno _]]; [by exists s', go|by destruct Hno].
  - destruct (handleDisconnect_run s Hs) as [(x' & ts & ? & _)|[Hno _]]; [eauto|by destruct Hno].
Qed.
End ShellRuns.

(** * A reference editor *)

Inductive key := Ins (b : byte) | Bs | Go_left | Go_right.

(** What the keyboard sends. *)
Definition codes (k : key) : list byte :=
  match k with Ins b => [b] | Bs => [Byte.x7f] | Go_left => [Byte.x1b; Byte.x5b; Byte.x44] | Go_right => [Byte.x1b; Byte.x5b; Byte.x43] end.

(** The text before the cursor, from the cursor on backwards, and the text
    behind it. *)
Definition zip : Type := list byte * list byte.
Definition press (z : zip) (k : key) : zip :=
  match k, z with
  | Ins b, (l, r) => (b :: l, r)
  | Bs, (l, r) => (tail l, r)
  | Go_left, (x :: l, r) => (l, x :: r)
  | Go_right, (l, x :: r) => (x :: l, r)
  | _, z => z
  end.
Definition text (z : zip) : list byte := reverse z.1 ++ z.2.
Definition types_text (k : key) : Prop := match k with Ins b => printable b | _ => True end.

Section Typing.
Context {X : Type} `{!ShellClient X}.
Context (reconnect : option (M X unit)) (Error : goerror → list byte).
Implicit Types (s : shell X).

(** The shell's line is the one of the reference editor. *)
Definition holds (z : zip) (ed : editor) : Prop := buf ed = text z ∧ cursor ed = zlen z.1.

Lemma holds_parts z ed : holds z ed → before ed = reverse z.1 ∧ behind ed = z.2.
Proof.
  intros [Hb Hc]. unfold before, behind, text in *. rewrite Hb, Hc. unfold zlen. rewrite Nat2Z.id, <- (length_reverse z.1). by rewrite take_app_length, drop_app_length.
Qed.

(** What a key of the keyboard does with the line. *)
Definition key_effect (k : key) : editor → editor :=
  match k with
  | Ins b => λ ed, with_line (before ed ++ [b]) (behind ed) ed
  | Bs => λ ed, with_line (take (length (before ed) - 1) (before ed)) (behind ed) ed
  | Go_left => result key_left
  | Go_right => result key_right
  end.

Lemma zlen_reverse {A} (l : list A) : zlen (reverse l) = zlen l.
Proof. unfold zlen. by rewrite length_reverse. Qed.

Lemma key_effect_holds k z ed : holds z ed → holds (press z k) (key_effect k ed) ∧ history (key_effect k ed) = history ed.
Proof.
  intros Hz. destruct (holds_parts z ed Hz) as [Hl Hr]. destruct z as [l r]. destruct Hz as [Hb Hc]. cbn [fst snd] in *. destruct k; cbn [key_effect press].
  - rewrite Hl, Hr. split; [|done]. split; cbn [buf cursor with_line]; unfold text; cbn [fst snd]; [by rewrite reverse_cons|rewrite zlen_app, zlen_reverse, !zlen_cons; change (zlen (@nil byte)) with 0; lia].
  - rewrite Hl, Hr. split; [|done]. destruct l as [|x l]; [by split|]. rewrite reverse_cons, length_app, Nat.add_sub, take_app_length. split; cbn [buf cursor with_line]; [done|by rewrite zlen_reverse].
  - unfold result, key_left. destruct l as [|x l].
    + rewrite decide_False by (by rewrite Hc). split; [by split|done].
    + rewrite zlen_cons in Hc. pose proof (zlen_nonneg l). rewrite decide_True by lia. split; [|done]. split; cbn [buf cursor set_line]; [|cbn [fst]; lia].
      rewrite Hb. unfold text. cbn [fst snd]. by rewrite reverse_cons, <- app_assoc.
  - unfold result, key_right. rewrite Hb. unfold text in *. cbn [fst snd] in *. rewrite zlen_app, zlen_reverse, Hc. destruct r as [|x r].
    + rewrite decide_False by (change (zlen (@nil byte)) with 0; lia). split; [|done]. by split.
    + rewrite zlen_cons. pose proof (zlen_nonneg r). rewrite decide_True by lia. split; [|done]. split; cbn [buf cursor set_line fst]; [|rewrite zlen_cons; lia].
      unfold text. cbn [fst snd]. by rewrite reverse_cons, <- app_assoc.
Qed.

Lemma reading b rest s n : sh_in s = b :: rest → sh_readers s = n → 0 < n → next_byte s = (mkShell (sh_client s) (sh_ed s) rest (n - 1) (sh_out s), Ret (b, false)).
Proof. intros Hin <- Hn. unfold next_byte. by rewrite decide_True, Hin by done. Qed.

Lemma on_line_press key effect n s : key_ok key effect → at_line n s →
  ∃ ts s', (_ ← on_line key; _ ← startReader; mret true) s = (s', Ret true) ∧ at_line (n + 1) s' ∧
    s' = mkShell (sh_client s) (effect (sh_ed s)) (sh_in s) (sh_readers s + 1) (sh_out s ++ ts).
Proof.
  intros Hk Hs. pose proof Hs as [Hok Hr Hsh]. destruct (Hk _ Hok) as (ts & Hrun & Hok' & Hts).
  exists ts. eexists. unfold on_line. rewrite M_bind_assoc, M_get_bind, M_bind_assoc, Hrun, M_lift_bind. split; [done|]. split; [|done]. split; [done|cbn; lia|].
  change (shown (sh_out s ++ ts) = shows (effect (sh_ed s))). unfold shown in *. by rewrite foldl_app, Hsh.
Qed.

Lemma key_run k s rest : types_text k → at_line 1 s → sh_in s = codes k ++ rest →
  ∃ ts s', byte_case reconnect Error s = (s', Ret true) ∧ at_line 1 s' ∧ s' = mkShell (sh_client s) (key_effect k (sh_ed s)) rest 1 (sh_out s ++ ts).
Proof.
  intros Hk Hs Hin. pose proof Hs as [Hok Hr Hsh]. unfold byte_case.
  assert (Hgo : ∀ key effect in', key_ok key effect → ∃ ts s', (_ ← on_line key; _ ← startReader; mret true) (mkShell (sh_client s) (sh_ed s) in' 0 (sh_out s)) = (s', Ret true) ∧ at_line 1 s' ∧
    s' = mkShell (sh_client s) (effect (sh_ed s)) in' 1 (sh_out s ++ ts)) by (intros key effect in' Hkey; by apply (on_line_press key effect 0)).
  destruct k as [b| | |]; cbn [codes app key_effect types_text] in *.
  - rewrite (M_bind_run _ _ _ _ _ (reading _ _ _ 1 Hin Hr ltac:(lia))). cbv zeta. unfold printable in Hk. do 4 (rewrite decide_False by lia). rewrite (decide_True (P := 32 ≤ _ < 127)) by lia.
    exact (Hgo _ _ _ (key_insert_ok b Hk)).
  - rewrite (M_bind_run _ _ _ _ _ (reading _ _ _ 1 Hin Hr ltac:(lia))). exact (Hgo _ _ _ key_backspace_ok).
  - rewrite (M_bind_run _ _ _ _ _ (reading _ _ _ 1 Hin Hr ltac:(lia))). exact (Hgo _ _ _ key_left_ok).
  - rewrite (M_bind_run _ _ _ _ _ (reading _ _ _ 1 Hin Hr ltac:(lia))). exact (Hgo _ _ _ key_right_ok).
Qed.

Lemma keys_run ks : ∀ s z rest, Forall types_text ks → at_line 1 s → holds z (sh_ed s) → sh_in s = (ks ≫= codes) ++ rest →
  ∃ ts s', rtc (shell_step reconnect Error) s s' ∧ at_line 1 s' ∧ holds (foldl press z ks) (sh_ed s') ∧ history (sh_ed s') = history (sh_ed s) ∧
    sh_client s' = sh_client s ∧ sh_in s' = rest ∧ sh_out s' = sh_out s ++ ts.
Proof.
  induction ks as [|k ks IH]; intros s z rest Hks Hs Hz Hin.
  - exists [], s. rewrite app_nil_r. by split_and!.
  - apply Forall_cons in Hks as [Hk Hks]. cbn [mbind list_bind] in Hin. rewrite <- app_assoc in Hin. destruct (key_run k s _ Hk Hs Hin) as (ts1 & s1 & Hrun & Hs1 & ->).
    destruct (key_effect_holds k z (sh_ed s) Hz) as [Hz1 Hh1]. destruct (IH _ _ rest Hks Hs1 Hz1 eq_refl) as (ts2 & s2 & Hrun2 & Hs2 & Hz2 & Hh2 & Hc2 & Hin2 & Hout2).
    exists (ts1 ++ ts2), s2. cbn [sh_ed sh_client sh_out] in *. split_and!; try done; [|congruence|by rewrite Hout2, app_assoc]. eapply rtc_l; [|exact Hrun2]. by apply step_byte.
Qed.

(** What becomes of the client with a statement, and what is printed. *)
Definition executed (line : list byte) (x : X) : X * list token :=
  match cl_Execute line x with
  | (x, Ret r) => (x, [Raw (crlf r); CR; LF])
  | (x, Err er) =>
      match reconnect, cl_IsConnected x with
      | Some again, false =>
          let '(x, o) := cl_Execute line (again x).1 in
          (x, [EraseLine; Raw lost; CR; LF] ++ [Raw match o with Ret r => crlf r | Err er => str_bytes "Err:  " ++ Error er | _ => [] end; CR; LF])
      | _, _ => (x, [Raw (str_bytes "Err:  " ++ Error er); CR; LF])
      end
  | (x, _) => (x, [])
  end.

Lemma execute_line_executed line s : client_ok reconnect →
  execute_line reconnect Error line s = (mkShell (executed line (sh_client s)).1 (sh_ed s) (sh_in s) (sh_readers s) (sh_out s ++ (executed line (sh_client s)).2), Ret tt).
Proof.
  intros [Hex Hco]. unfold execute_line, executed, catch at 1, on_client, zoom. pose proof (Hex line (sh_client s)) as Hgo.
  destruct (cl_Execute line (sh_client s)) as [x1 [r|er| |]]; [done| |done..]. rewrite M_get_bind. cbn [sh_client]. destruct reconnect as [again|]; [|done].
  destruct (cl_IsConnected x1); cbn [negb]; [done|]. rewrite print_run. cbn [sh_client sh_ed sh_in sh_readers sh_out]. destruct (Hco again x1 eq_refl) as [x2 Hagain].
  unfold connect_again, on_client, zoom, mbind, M_bind at 1. cbn [sh_client sh_ed sh_in sh_readers sh_out]. rewrite Hagain. unfold catch. cbn [sh_client sh_ed sh_in sh_readers sh_out fst].
  pose proof (Hex line x2) as Hgo2. destruct (cl_Execute line x2) as [x3 [r|er2| |]]; [| |done..]; cbn [fst snd]; by rewrite app_assoc.
Qed.

(** Enter on a line that is to be executed. *)
Lemma enter_run s rest line : client_ok reconnect → at_line 1 s → buf (sh_ed s) = line → sh_in s = Byte.x0d :: rest → line ≠ [] → ¬ command line →
  let s' := mkShell (executed line (sh_client s)).1 (mkEd (history (sh_ed s) ++ [line]) (-1) [] 0) rest 1
    (sh_out s ++ [CR; LF] ++ (executed line (sh_client s)).2 ++ [Text prompt]) in
  byte_case reconnect Error s = (s', Ret true) ∧ at_line 1 s'.
Proof.
  intros Hco Hs Hb Hin Hne Hcmd s'. pose proof Hs as [Hok Hr Hsh].
  assert (Hlen : 0 < zlen line) by (destruct line; [done|]; rewrite zlen_cons; pose proof (zlen_nonneg line); lia).
  assert (Hent : byte_case reconnect Error s = (s', Ret true)).
  { unfold byte_case. rewrite (M_bind_run _ _ _ _ _ (reading _ _ _ 1 Hin Hr ltac:(lia))). cbv zeta. rewrite decide_False by (by vm_compute; intros [?|?]). rewrite decide_True by (by left).
    unfold key_enter. rewrite print_run, M_get_bind. cbn [sh_ed]. rewrite Hb. unfold command in Hcmd. rewrite decide_False by tauto. rewrite decide_False by tauto. rewrite !(decide_True (P := 0 < zlen line)) by done.
    unfold mbind at 1, M_bind at 1, modify at 1. rewrite (M_bind_run _ _ _ _ _ (execute_line_executed line _ Hco)). unfold s'.
    cbn [sh_ed sh_out sh_in sh_readers set_ed sh_client set_line histIdx history buf cursor]. rewrite !(app_assoc [CR; LF]), !(app_assoc (sh_out s)). done. }
  split; [done|]. eapply shell_step_at_line; [by apply step_byte|done].
Qed.

(** Connecting again, any number of times. *)
Definition reconnected : relation X := rtc (λ x x', ∃ again, reconnect = Some again ∧ cl_Disconnected x = true ∧ again x = (x', Ret tt)).

(** What a typed line leads to, on the client [x] it is executed with. *)
Record typed_line (s : shell X) (line rest : list byte) (x : X) s' : Prop := {
  ty_line : at_line 1 s';
  ty_client : sh_client s' = (executed line x).1;
  ty_out : ∃ echo, sh_out s' = sh_out s ++ echo ++ [CR; LF] ++ (executed line x).2 ++ [Text prompt];
  ty_history : history (sh_ed s') = history (sh_ed s) ++ [line];
  ty_buf : buf (sh_ed s') = [];
  ty_in : sh_in s' = rest
}.

(** Every run that reads past Enter executed the line. *)
Lemma typed_runs rest line s s2 : client_ok reconnect → line ≠ [] → ¬ command line → rtc (shell_step reconnect Error) s s2 →
  ∀ ks z, at_line 1 s → holds z (sh_ed s) → Forall types_text ks → sh_in s = (ks ≫= codes) ++ Byte.x0d :: rest →
  line = text (foldl press z ks) → (length (sh_in s2) ≤ length rest)%nat →
  ∃ x s', reconnected (sh_client s) x ∧ rtc (shell_step reconnect Error) s s' ∧ rtc (shell_step reconnect Error) s' s2 ∧ typed_line s line rest x s'.
Proof.
  intros Hco Hne Hcmd Hrun. induction Hrun as [s|s s1 s2 Hstep Hrun IH]; intros ks z Hs Hz Hks Hin Hline Hlen.
  { exfalso. rewrite Hin, length_app in Hlen. cbn in Hlen. lia. }
  destruct Hstep as [s1 Hb|s1 Hdis Hd].
  - destruct ks as [|k ks]; cbn [mbind list_bind foldl] in *.
    + destruct Hz as [Hbuf _]. rewrite <- Hline in Hbuf. destruct (enter_run s rest line Hco Hs Hbuf Hin Hne Hcmd) as [Hent Hs'].
      rewrite Hb in Hent. injection Hent as ->. exists (sh_client s). eexists. split; [by apply rtc_refl|]. split; [by apply rtc_once, step_byte|].
      split; [exact Hrun|]. split; [done|done| |done|done|done]. by exists [].
    + apply Forall_cons in Hks as [Hk Hks]. rewrite <- app_assoc in Hin. destruct (key_run k s _ Hk Hs Hin) as (ts1 & s1' & Hrun1 & Hs1 & Hs1').
      rewrite Hb in Hrun1. injection Hrun1 as <-. destruct (key_effect_holds k z (sh_ed s) Hz) as [Hz1 Hh1].
      destruct (IH ks (press z k)) as (x & s' & Hx & Hr1 & Hr2 & [H1 H2 (echo & H3) H4 H5 H6]); [done|by subst|done|by subst|done|done|]. subst s1.
      exists x, s'. split; [done|]. split; [by eapply rtc_l; [by apply step_byte|]|]. split; [done|]. split; [done|done| |by rewrite H4; cbn; rewrite Hh1|done|done].
      exists (ts1 ++ echo). rewrite H3. cbn [sh_out]. by rewrite <- !app_assoc.
  - destruct (handleDisconnect_run reconnect s Hs) as [(x1 & ts & Hd' & Hs1 & Hx1)|[Hno _]]; [|by destruct Hno].
    rewrite Hd in Hd'. injection Hd' as ->. destruct (IH ks z) as (x & s' & Hx & Hr1 & Hr2 & [H1 H2 (echo & H3) H4 H5 H6]); [done..|].
    exists x, s'. cbn [sh_client sh_out sh_ed] in *. split; [|split; [by eapply rtc_l; [by apply step_disconnect|]|]].
    { destruct Hx1 as [->|(again & Ha & Hax)]; [done|]. eapply rtc_l; [|exact Hx]. by exists again. }
    split; [done|]. split; [done|done| |done|done|done]. exists (ts ++ echo). by rewrite H3, <- !app_assoc.
Qed.

(** C39: The line editor is the reference editor.  Any text, deletions and
    movements of the cursor are typed on an empty line and ended with Enter;
    the line that the reference editor then has is not empty and not one of
    the commands [exit], [quit] and [clear], which are not executed; and the
    client is [client_ok].  Then the shell can get past Enter, and whatever
    [select] chooses meanwhile - connections may be lost and made again - every
    run that gets past it has executed exactly that line on the client it then
    has - once, or a second time on a new connection when the first one is
    gone -, printed the answer, remembered the line and started over with an
    empty one. *)
Theorem shell_executes_typed s ks rest line : client_ok reconnect → at_line 1 s → buf (sh_ed s) = [] → Forall types_text ks →
  sh_in s = (ks ≫= codes) ++ Byte.x0d :: rest → line = text (foldl press ([], []) ks) → line ≠ [] → ¬ command line →
  (∃ s', rtc (shell_step reconnect Error) s s' ∧ typed_line s line rest (sh_client s) s') ∧
  ∀ s2, rtc (shell_step reconnect Error) s s2 → (length (sh_in s2) ≤ length rest)%nat →
    ∃ x s', reconnected (sh_client s) x ∧ rtc (shell_step reconnect Error) s s' ∧ rtc (shell_step reconnect Error) s' s2 ∧
      typed_line s line rest x s'.
Proof.
  intros Hco Hs Hbuf Hks Hin Hline Hne Hcmd.
  assert (Hz : holds ([], []) (sh_ed s)) by (split; [done|]; pose proof (lo_cursor _ (al_ok _ _ Hs)) as Hc; rewrite Hbuf in Hc; cbn [fst]; change (zlen (@nil byte)) with 0 in *; lia).
  split; [|by intros s2 Hrun; eapply typed_runs].
  destruct (keys_run ks s _ _ Hks Hs Hz Hin) as (ts & s1 & Hrun & Hs1 & [Hb1 _] & Hh1 & Hc1 & Hin1 & Hout1). rewrite <- Hline in Hb1.
  destruct (enter_run s1 rest line Hco Hs1 Hb1 Hin1 Hne Hcmd) as [Hent Hs']. eexists. split; [eapply rtc_r; [exact Hrun|by apply step_byte]|].
  split; [exact Hs'|by rewrite <- Hc1| |by cbn; rewrite Hh1|done|done]. exists ts. cbn [sh_out]. by rewrite Hout1, Hc1, <- app_assoc.
Qed.
End Typing.

(** * Examples *)

(** A client that notes the statements and has its answers prepared; [None]
    loses the connection. *)
Record mock := mkMock { mk_log : list (list byte); mk_answers : list (option (list byte)); mk_up : bool }.
#[local] Instance mock_client : ShellClient mock := {|
  cl_Execute line := λ x,
    match mk_answers x with
    | Some r :: rest => (mkMock (mk_log x ++ [line]) rest (mk_up x), Ret r)
    | None :: rest => (mkMock (mk_log x ++ [line]) rest false, Err ErrEOF)
    | [] => (mkMock (mk_log x ++ [line]) [] false, Err ErrEOF)
    end;
  cl_Close x := mkMock (mk_log x) (mk_answers x) false;
  cl_IsConnected := mk_up;
  cl_Disconnected x := negb (mk_up x) |}.
Definition mock_connect : option (M mock unit) := Some (λ x, (mkMock (mk_log x) (mk_answers x) true, Ret tt)).
Definition mock_Error (_ : goerror) : list byte := str_bytes "lost".

Lemma mock_ok : client_ok mock_connect.
Proof. split; [|intros again x [= <-]; by eexists]. intros line x. cbn. by destruct (mk_answers x) as [|[r|] rest]. Qed.

Definition sample_keys : list key := Ins Byte.x73 :: Ins Byte.x78 :: Bs :: (Ins <$> str_bytes "hw") ++ [Go_left; Ins Byte.x6f; Go_right].
Definition sample_typed : shell mock := started (mkMock [] [None; Some (str_bytes "no tables")] true) ((sample_keys ≫= codes) ++ [Byte.x0d; Byte.x04]).

Lemma started_at_line (x : mock) input : at_line 1 (started x input).
Proof. split; [apply NewEditor_ok|done|by vm_compute]. Qed.

Lemma shell_executes_typed_witness : ∃ s' : shell mock, rtc (shell_step mock_connect mock_Error) sample_typed s' ∧
  mk_log (sh_client s') = [str_bytes "show"; str_bytes "show"] ∧ history (sh_ed s') = [str_bytes "show"] ∧ sh_in s' = [Byte.x04].
Proof.
  assert (Hk : Forall types_text sample_keys) by (repeat constructor; by vm_compute).
  assert (Hne : str_bytes "show" ≠ []) by done. assert (Hc : ¬ command (str_bytes "show")) by (by apply (bool_decide_unpack _)).
  destruct (shell_executes_typed mock_connect mock_Error sample_typed sample_keys [Byte.x04] (str_bytes "show") mock_ok (started_at_line _ _) eq_refl Hk eq_refl eq_refl Hne Hc)
    as ((s' & Hrun & [_ Hcl _ Hh _ Hin]) & _).
  exists s'. split; [exact Hrun|]. rewrite Hcl. split; [by vm_compute|]. split; [exact Hh|exact Hin].
Defined.

Lemma shell_line_editor_witness : ∃ s : shell mock, rtc (shell_step mock_connect mock_Error) (started (mkMock [] [] true) (str_bytes "ab" ++ [Byte.x7f])) s ∧
  buf (sh_ed s) = str_bytes "a" ∧ sh_readers s = 1 ∧ shown (sh_out s) = (Some (prompt ++ str_bytes "a"), Some 4).
Proof.
  assert (Hrun : ∃ s : shell mock, rtc (shell_step mock_connect mock_Error) (started (mkMock [] [] true) (str_bytes "ab" ++ [Byte.x7f])) s ∧ buf (sh_ed s) = str_bytes "a" ∧ cursor (sh_ed s) = 1).
  { eexists. split; [|split].
    - eapply rtc_l; [apply step_byte; by vm_compute|]. eapply rtc_l; [apply step_byte; by vm_compute|]. eapply rtc_l; [apply step_byte; by vm_compute|]. apply rtc_refl.
    - done.
    - done. }
  destruct Hrun as (s & Hrun & Hb & Hc). destruct (shell_line_editor mock_connect mock_Error _ _ s Hrun) as (_ & Hr & Hsh & _). rewrite Hb, Hc in Hsh. by exists s.
Defined.
