(* ===== verification/Output.v ===== *)
(** Package [utils]: colours ([color.go]) and messages ([text.go]) on the
    terminal.  [RandBytes] of the same file is in [Page], which fills the first
    page with it.

    The arguments of the messages are the texts [fmt] makes of them. *)
From S2P Require Import Prelude.
From S2P Require Import Codec.
Local Open Scope Z_scope.

(** * Colours *)

Module Ansi.
Definition escape (code : string) : string := String (Ascii.ascii_of_nat 27) code.
Definition Reset : string := escape "[0m".
Definition Bold : string := escape "[1m".
Definition Dim : string := escape "[2m".
Definition Red : string := escape "[31m".
Definition Green : string := escape "[32m".
Definition Yellow : string := escape "[33m".
Definition Blue : string := escape "[34m".
Definition Cyan : string := escape "[36m".
Definition White : string := escape "[37m".

Definition Color (c s : string) : string := c +:+ s +:+ Reset.
Definition BoldText (s : string) : string := Bold +:+ s +:+ Reset.
Definition DimText (s : string) : string := Dim +:+ s +:+ Reset.
Definition RedText (s : string) : string := Red +:+ s +:+ Reset.
Definition GreenText (s : string) : string := Green +:+ s +:+ Reset.
Definition CyanText (s : string) : string := Cyan +:+ s +:+ Reset.
Definition BlueText (s : string) : string := Blue +:+ s +:+ Reset.
End Ansi.

(** * Messages *)

(** What a process has written on its standard output, and the code it has
    ended with. *)
Record process := mkProcess { pr_out : list byte; pr_exit : option Z }.

Definition nl : list byte := [Byte.x0a].
Definition print (text : list byte) : M process unit := modify (λ p, mkProcess (pr_out p ++ text) (pr_exit p)).

Fixpoint spaced (args : list (list byte)) : list byte :=
  match args with
  | [] => []
  | [a] => a
  | a :: args => a ++ [Byte.x20] ++ spaced args
  end.

Definition Println (args : list (list byte)) : M process unit := print (spaced args ++ nl).

(** [os.Exit]: nothing runs afterwards. *)
Definition os_Exit (code : Z) : M process unit := λ p, (mkProcess (pr_out p) (Some code), Panic).

Definition LOG_LEVEL_INFO : Z := 0.
Definition LOG_LEVEL_WARN : Z := 3.
Definition LOG_LEVEL_FATAL : Z := 5.

Section Messages.
(** The variable [LOG_LEVEL], which is [LOG_LEVEL_INFO] unless a program sets
    it, and what [runtime.Stack] writes about the goroutines. *)
Context (LOG_LEVEL : Z) (stack : list byte).

(** All of the buffer is printed, also the part that [runtime.Stack] has not
    written. *)
Definition stack_buf : list byte := take (Z.to_nat (Z.shiftl 1 20)) (stack ++ make_bytes (Z.shiftl 1 20)).

Definition Fatal (args : list (list byte)) : M process unit :=
  if decide (LOG_LEVEL_FATAL < LOG_LEVEL) then mret tt
  else _ ← Println args; _ ← Println []; _ ← Println []; _ ← print (nl ++ stack_buf); os_Exit (-1).

Definition Info (args : list (list byte)) : M process unit :=
  if decide (LOG_LEVEL_INFO < LOG_LEVEL) then mret tt else _ ← print (str_bytes "[Info]:"); Println args.

Definition Warn (args : list (list byte)) : M process unit :=
  if decide (LOG_LEVEL_INFO < LOG_LEVEL) then mret tt else _ ← print (str_bytes "[Warn]:"); Println args.

Definition Assert (assertion : bool) (args : list (list byte)) : M process unit :=
  if negb assertion then Fatal args else mret tt.
End Messages.

Lemma stack_buf_length stack : length (stack_buf stack) = Z.to_nat (Z.shiftl 1 20).
Proof. unfold stack_buf, make_bytes. rewrite length_take, length_app, length_replicate. apply Nat.min_l, Nat.le_add_l. Qed.

(** An assertion that holds prints nothing; one that does not ends the process,
    as the other parts of the model have it, unless the level is above that of
    fatal errors: then it is passed over. *)
Lemma Assert_ends level stack b args p : level ≤ LOG_LEVEL_FATAL →
  Assert level stack b args p = if b then (p, Ret tt) else
    (mkProcess (pr_out p ++ spaced args ++ nl ++ nl ++ nl ++ nl ++ stack_buf stack) (Some (-1)), Panic).
Proof.
  intros Hl. unfold Assert, Fatal. destruct b; cbn [negb]; [done|]. rewrite decide_False by lia. generalize (stack_buf stack) as buf. intros buf.
  unfold Println, print, os_Exit, modify, mbind, M_bind. cbn [pr_out pr_exit spaced]. do 2 f_equal. by rewrite <- !app_assoc.
Qed.

Lemma Assert_passed_over level stack b args p : LOG_LEVEL_FATAL < level → Assert level stack b args p = (p, Ret tt).
Proof. intros Hl. unfold Assert, Fatal. destruct b; [done|]. by rewrite decide_True. Qed.

(** At the level of warnings no warning is printed: [Warn] compares with the
    level of [Info]. *)
Lemma warnings_are_lost args p : Warn LOG_LEVEL_WARN args p = (p, Ret tt) ∧ Info LOG_LEVEL_INFO args p = (mkProcess (pr_out p ++ str_bytes "[Info]:" ++ spaced args ++ nl) (pr_exit p), Ret tt).
Proof. split; [done|]. unfold Info. rewrite decide_False by lia. unfold Println, print, modify, mbind, M_bind. cbn [pr_out pr_exit]. by rewrite <- app_assoc. Qed.
