(* ===== verification/Launcher.v ===== *)
(** The two programs: the command line of the server ([backend/cmd/launcher.go])
    with the life of its listener and its connections ([server.go]), and the
    way the client's program connects ([client/launcher.go]).

    The flags are read, and the help texts shown, by a library. *)
From S2P Require Import Prelude.
From S2P Require Import Codec.
From S2P Require Import Tm.
From S2P Require Import Logger.
From S2P Require Import Transporter.
From S2P Require Import Booter.
From S2P Require Import Shell.
From S2P Require Import Client.
From S2P Require Import Output.
From stdpp Require Import relations.
Local Open Scope Z_scope.

(** * The memory of the page cache *)

Module Mem.
Definition defaultMem : Z := Z.shiftl 1 20 * 64.
Definition _KB : Z := Z.shiftl 1 10.
Definition _MB : Z := Z.shiftl 1 20.
Definition _GB : Z := Z.shiftl 1 30.

(** The texts of the errors are shortened; the error of the number is the one
    that is wrapped. *)
Definition parseMem (memStr : string) : outcome Z :=
  if decide (memStr = ""%string) then Ret defaultMem
  else
    let raw := str_bytes memStr in
    if decide (zlen raw < 2) then Err (ErrMsg (str_bytes "memory size must include a unit suffix (KB, MB, GB)"))
    else
      unit ← slice_from raw (zlen raw - 2);
      digits ← slice raw 0 (zlen raw - 2);
      num ← StrToUint64 (bytes_str digits);
      if decide (unit = str_bytes "KB") then Ret (i64 (i64 num * _KB))
      else if decide (unit = str_bytes "MB") then Ret (i64 (i64 num * _MB))
      else if decide (unit = str_bytes "GB") then Ret (i64 (i64 num * _GB))
      else Err (ErrMsg (str_bytes "unknown unit")).

Definition unit_size (unit : string) : option Z :=
  if decide (unit = "KB"%string) then Some _KB else if decide (unit = "MB"%string) then Some _MB else if decide (unit = "GB"%string) then Some _GB else None.

Lemma i64_mul_i64 a b : i64 (i64 a * b) = i64 (a * b).
Proof.
  unfold i64. f_equal. replace (((a + 2 ^ 63) mod 2 ^ 64 - 2 ^ 63) * b + 2 ^ 63) with (a * b + 2 ^ 63 + ((a + 2 ^ 63) mod 2 ^ 64 - (a + 2 ^ 63)) * b) by lia.
  rewrite (Z.mod_eq (a + 2 ^ 63)) by lia. replace (a + 2 ^ 63 - 2 ^ 64 * ((a + 2 ^ 63) / 2 ^ 64) - (a + 2 ^ 63)) with ((- ((a + 2 ^ 63) / 2 ^ 64)) * 2 ^ 64) by lia.
  rewrite <- Z.mul_assoc, (Z.mul_comm (2 ^ 64)), Z.mul_assoc. by rewrite Z.mod_add by lia.
Qed.

Lemma unit_cases unit size : unit_size unit = Some size → zlen (str_bytes unit) = 2 ∧ 0 < size ∧ 2 ^ 63 = 2 ^ 63 / size * size ∧
  ∀ num, (if decide (str_bytes unit = str_bytes "KB") then Ret (i64 (i64 num * _KB))
          else if decide (str_bytes unit = str_bytes "MB") then Ret (i64 (i64 num * _MB))
          else if decide (str_bytes unit = str_bytes "GB") then Ret (i64 (i64 num * _GB))
          else Err (ErrMsg (str_bytes "unknown unit"))) = Ret (i64 (num * size)).
Proof.
  unfold unit_size. repeat case_decide; intros [= <-]; subst; (split; [done|]; split; [done|]; split; [done|]; intros num; first [by rewrite i64_mul_i64|done|exfalso; vm_compute in *; congruence]).
Qed.

Lemma parseMem_run n unit size : 0 ≤ n < 2 ^ 64 → unit_size unit = Some size → parseMem (Uint64ToStr n +:+ unit) = Ret (i64 (n * size)).
Proof.
  intros Hn Hu. destruct (unit_cases unit size Hu) as (Hlen & _ & _ & Hsel). unfold parseMem. pose proof (zlen_nonneg (str_bytes (Uint64ToStr n))) as H0.
  rewrite decide_False by (intros Heq; apply (f_equal str_bytes) in Heq; rewrite str_bytes_app in Heq; apply (f_equal zlen) in Heq; rewrite zlen_app, Hlen in Heq; change (zlen (str_bytes "")) with 0 in Heq; lia).
  rewrite str_bytes_app. cbv zeta. rewrite decide_False by (rewrite zlen_app; lia). rewrite zlen_app, Hlen, Z.add_simpl_r.
  rewrite (slice_from_at _ (str_bytes (Uint64ToStr n)) (str_bytes unit)) by done. cbn [mbind outcome_bind].
  rewrite slice_Ret by (rewrite ?zlen_app; lia). cbn [mbind outcome_bind]. rewrite Z.sub_0_r. unfold sub, zlen. change (Z.to_nat 0) with 0%nat. rewrite drop_0, Nat2Z.id, take_app_length, bytes_str_bytes.
  unfold StrToUint64, Uint64ToStr. rewrite ParseUint_FormatUint by lia. cbn [mbind outcome_bind]. by rewrite Hsel.
Qed.

(** The memory that is asked for: a number with a unit gives that many bytes
    as long as they fit in 63 bits; otherwise the product wraps around, without
    an error. *)
Theorem parseMem_bounds n unit size : 0 ≤ n < 2 ^ 64 → unit_size unit = Some size →
  parseMem (Uint64ToStr n +:+ unit) = Ret (i64 (n * size)) ∧
  (n * size < 2 ^ 63 → parseMem (Uint64ToStr n +:+ unit) = Ret (n * size)) ∧
  (∃ m, m < 2 ^ 64 ∧ 2 ^ 63 ≤ m * size ∧ ∃ small, parseMem (Uint64ToStr m +:+ unit) = Ret small ∧ small ≤ 0).
Proof.
  intros Hn Hu. destruct (unit_cases unit size Hu) as (_ & Hs & Hdiv & _). split; [by apply parseMem_run|]. split.
  - intros Hlt. rewrite (parseMem_run n unit size Hn Hu), i64_id by nia. done.
  - exists (2 ^ 63 / size). assert (Hm : 0 ≤ 2 ^ 63 / size < 2 ^ 64) by (split; [apply Z.div_pos; lia|]; apply Z.div_lt_upper_bound; nia).
    split; [lia|]. split; [lia|]. exists (i64 (2 ^ 63)). split; [|by vm_compute]. rewrite (parseMem_run _ unit size Hm Hu). by rewrite <- Hdiv.
Qed.

Lemma parseMem_bounds_witness : parseMem "64MB" = Ret (64 * _MB) ∧ ∃ m, m < 2 ^ 64 ∧ 2 ^ 63 ≤ m * _MB ∧ ∃ small, parseMem (Uint64ToStr m +:+ "MB") = Ret small ∧ small ≤ 0.
Proof.
  destruct (parseMem_bounds 64 "MB" _MB ltac:(lia) eq_refl) as (_ & H64 & Hwrap). split; [|exact Hwrap]. assert (Hlt : 64 * _MB < 2 ^ 63) by (by vm_compute). exact (H64 Hlt).
Defined.
End Mem.

(** * The files of a database *)

Module Files.
(** [filepath.Join(path, "wisdb")] and [os.Stat] are the arguments: the second
    says whether the file exists. *)
Section Exists.
Context (Join : string → string → string) (Stat : string → bool).
Definition dbPrefix (path : string) : string := Join path "wisdb".

Definition SUFFIX_DB : string := ".db".
Definition SUFFIX_LOG : string := ".log".
Definition XID_SUFFIX : string := ".xid".

Definition dbExists (path : string) : bool :=
  let prefix := dbPrefix path in
  existsb Stat [prefix +:+ SUFFIX_DB; prefix +:+ SUFFIX_LOG; prefix +:+ XID_SUFFIX; prefix +:+ Booter._SUFFIX].

(** [runCreate]; the directory is only written when none of its files
    exists.  The text of the error is shortened. *)
Definition runCreate {S : Type} (createDB : string → M S unit) (createDBPath : string) : M (process * S) unit :=
  if dbExists createDBPath then fail (ErrMsg (str_bytes "database already exists"))
  else
    _ ← zoom snd (λ s p, (p.1, s)) (createDB createDBPath);
    zoom fst (λ t p, (t, p.2)) (print (nl ++ str_bytes ("  " +:+ Ansi.GreenText "ok" +:+ "  database created at " +:+ createDBPath) ++ nl ++ nl)).

Lemma runCreate_run {S : Type} (createDB : string → M S unit) (path : string) (p : process) (s : S) :
  runCreate createDB path (p, s) =
    if dbExists path then ((p, s), Err (ErrMsg (str_bytes "database already exists")))
    else let '(s', o) := createDB path s in
      (match o with Ret _ => mkProcess (pr_out p ++ nl ++ str_bytes ("  " +:+ Ansi.GreenText "ok" +:+ "  database created at " +:+ path) ++ nl ++ nl) (pr_exit p) | _ => p end, s', o).
Proof.
  unfold runCreate. destruct (dbExists path); [done|]. unfold zoom, mbind, M_bind. cbn [fst snd]. by destruct (createDB path s) as [s' [[]|e| |]].
Qed.
End Exists.
End Files.

(** * Starting the server *)

Module Serve.
Definition defaultNet : string := "tcp".
Definition defaultAddr : string := ":3307".
Definition version : string := "0.2.0".

Definition newline : string := bytes_str nl.
Definition side : string := Ansi.Color Ansi.Cyan "║".
Definition boxed (s : string) : string := "  " +:+ side +:+ s +:+ side +:+ newline.

Definition logo : string :=
  "  " +:+ Ansi.Color Ansi.Cyan "╔═══════════════════════════════════════════════╗" +:+ newline +:+
  boxed "                                               " +:+
  boxed "   ██╗    ██╗ ██╗ ███████╗ ██████╗  ██████╗    " +:+
  boxed "   ██║    ██║ ██║ ██╔════╝ ██╔══██╗ ██╔══██╗   " +:+
  boxed "   ██║ █╗ ██║ ██║ ███████╗ ██║  ██║ ██████╔╝   " +:+
  boxed "   ██║███╗██║ ██║ ╚════██║ ██║  ██║ ██╔══██╗   " +:+
  boxed "   ╚███╔███╔╝ ██║ ███████║ ██████╔╝ ██████╔╝   " +:+
  boxed "    ╚══╝╚══╝  ╚═╝ ╚══════╝ ╚═════╝  ╚═════╝    " +:+
  boxed "                                               " +:+
  "  " +:+ Ansi.Color Ansi.Cyan "╚═══════════════════════════════════════════════╝".

Definition banner (serveNet serveAddr : string) : M process unit :=
  let addrStr := serveNet +:+ "://" +:+ serveAddr in
  _ ← Println [str_bytes (newline +:+ logo)];
  Println [str_bytes (Ansi.DimText ("  " +:+ addrStr +:+ "  ") +:+ Ansi.DimText ("v" +:+ version) +:+ newline)].

(** [runServe] with the values of its flags; [openDB] opens the database and
    serves it.  The error of the memory argument is the one that is wrapped. *)
Definition runServe {S : Type} (openDB : string → Z → string → string → M S unit) (serveDBPath serveMem serveNet serveAddr : string) : M (process * S) unit :=
  mem ← lift (Mem.parseMem serveMem);
  _ ← zoom fst (λ t p, (t, p.2)) (banner serveNet serveAddr);
  zoom snd (λ s p, (p.1, s)) (openDB serveDBPath mem serveNet serveAddr).

(** Without a usable amount of memory nothing is printed and nothing opened;
    otherwise the banner comes first and the database is opened with what was
    asked for, 64 MB when nothing was. *)
Lemma runServe_run {S : Type} (openDB : string → Z → string → string → M S unit) path mem net addr p (s : S) :
  ∃ text, runServe openDB path mem net addr (p, s) =
    match Mem.parseMem mem with
    | Ret size => let '(s', o) := openDB path size net addr s in (mkProcess (pr_out p ++ text) (pr_exit p), s', o)
    | Err e => ((p, s), Err e)
    | Panic => ((p, s), Panic)
    | OutOfFuel => ((p, s), OutOfFuel)
    end.
Proof.
  unfold runServe, banner, Println, print. generalize (spaced [str_bytes (newline +:+ logo)] ++ nl) as t1. intros t1.
  set (t2 := spaced _ ++ nl). exists (t1 ++ t2). clearbody t2. rewrite app_assoc. destruct (Mem.parseMem mem) as [size|e| |]; [|done..].
  unfold zoom, lift, modify, mbind, M_bind. cbn [fst snd]. by destruct (openDB path size net addr s) as [s' [[]|e| |]].
Qed.

Lemma runServe_default {S : Type} (openDB : string → Z → string → string → M S unit) path net addr p (s : S) :
  snd (runServe openDB path "" net addr (p, s)) = snd (openDB path (64 * 2 ^ 20) net addr s).
Proof. destruct (runServe_run openDB path "" net addr p s) as (text & ->). change (Mem.parseMem "") with (Ret (64 * 2 ^ 20)). cbv iota beta. by destruct (openDB _ _ _ _ s). Qed.
End Serve.

(** * Connecting *)

Module Dial.
Section Dial.
(** The network, and [net.Dial] with the packager around its connection. *)
Context {N K : Type} `{!Packager K} (net_Dial : M N K).

(** [dial] tries until it is let in, once a second. *)
Fixpoint dial (n : nat) : M N K :=
  match n with
  | O => λ w, (w, OutOfFuel)
  | S n => catch net_Dial mret (λ _, dial n)
  end.

(** The function that the shell calls to connect again: the same client, with a
    new connection. *)
Definition reconnect (n : nat) : M (N * client K) unit := λ '(w, c),
  let c := client_Close c in
  match dial n w with
  | (w, Ret pkger) => ((w, Reconnect pkger c), Ret tt)
  | (w, Err e) => ((w, c), Err e)
  | (w, Panic) => ((w, c), Panic)
  | (w, OutOfFuel) => ((w, c), OutOfFuel)
  end.

(** The client as the shell has it, next to the network it dials. *)
#[local] Instance dialled (n : nat) : Shell.ShellClient (N * client K) := {|
  Shell.cl_Execute line := zoom snd (λ c x, (x.1, c)) (client_Execute n line);
  Shell.cl_Close x := (x.1, client_Close x.2);
  Shell.cl_IsConnected x := IsConnected x.2;
  Shell.cl_Disconnected x := Disconnected x.2 |}.

(** [runConnect]: what the shell prints.  [tries], [waits] and [steps] bound the
    loops of [dial], of a statement and of the shell; [raw] and [choose] are the
    terminal and the choices of [select], as in [Shell.Run]. *)
Definition runConnect (tries waits steps : nat) (Error : goerror → list byte) (raw : bool) (choose : nat → bool) (input : list byte) : M N (list Shell.token) :=
  pkger ← dial tries;
  w ← get;
  let '(s, o) := Shell.Run (ShellClient0 := dialled waits) (Some (reconnect tries)) Error raw choose steps (Shell.NewShell (w, NewClient pkger) input) in
  _ ← put (Shell.sh_client s).1;
  lift (_ ← o; Ret (Shell.sh_out s)).

(** [dial] keeps on until it is let in: as often as it is refused, and once
    more. *)
Lemma dial_connects (refused : list N) w w' k : (∀ i a b, (w :: refused) !! i = Some a → refused !! i = Some b → ∃ e, net_Dial a = (b, Err e)) →
  (∃ z, last (w :: refused) = Some z ∧ net_Dial z = (w', Ret k)) → dial (S (length refused)) w = (w', Ret k).
Proof.
  revert w. induction refused as [|b refused IH]; intros w Href (z & Hz & Hlast).
  - cbn in Hz. simplify_eq. cbn [dial length]. unfold catch. by rewrite Hlast.
  - destruct (Href 0%nat w b) as [e He]; [done..|]. cbn [length]. change (dial (S (S (length refused))) w) with (catch net_Dial mret (λ _, dial (S (length refused))) w).
    unfold catch. rewrite He. apply IH; [|by exists z]. intros i a c Ha Hc. by apply (Href (S i)).
Qed.
End Dial.
End Dial.

(** * The life of the server *)

Module Life.
(** Where [Server.Close] stands. *)
Inductive closing := NotCalled | Waiting | Returned.

(** [lf_pending]: the connection that [Accept] gave and [Start] has not counted
    yet; [lf_active]: the connections being served; [lf_start]: [Start] runs;
    [lf_dm]: the data manager is open. *)
Record life := mkLife {
  lf_listener : bool; lf_pending : list nat; lf_active : list nat; lf_wg : Z;
  lf_start : bool; lf_close : closing; lf_dm : bool }.

Definition up : life := mkLife true [] [] 0 true NotCalled true.

(** [Start] accepts and counts, each connection ends in its own goroutine, the
    signal closes the server in a third one, and [openDB] goes on when [Start]
    is over. *)
Inductive life_step : life → life → Prop :=
| accept c l : lf_listener l = true → lf_start l = true → lf_pending l = [] → c ∉ lf_active l →
    life_step l (mkLife (lf_listener l) [c] (lf_active l) (lf_wg l) (lf_start l) (lf_close l) (lf_dm l))
| wg_Add c l : lf_pending l = [c] →
    life_step l (mkLife (lf_listener l) [] (c :: lf_active l) (lf_wg l + 1) (lf_start l) (lf_close l) (lf_dm l))
| serve_ends c act1 act2 l : lf_active l = act1 ++ c :: act2 →
    life_step l (mkLife (lf_listener l) (lf_pending l) (act1 ++ act2) (lf_wg l - 1) (lf_start l) (lf_close l) (lf_dm l))
| accept_fails l : lf_listener l = false → lf_start l = true → lf_pending l = [] →
    life_step l (mkLife (lf_listener l) [] (lf_active l) (lf_wg l) false (lf_close l) (lf_dm l))
| close_listener l : lf_close l = NotCalled →
    life_step l (mkLife false (lf_pending l) (lf_active l) (lf_wg l) (lf_start l) Waiting (lf_dm l))
| wg_Wait l : lf_close l = Waiting → lf_wg l = 0 →
    life_step l (mkLife (lf_listener l) (lf_pending l) (lf_active l) (lf_wg l) (lf_start l) Returned (lf_dm l))
| dm_Close l : lf_start l = false → lf_dm l = true →
    life_step l (mkLife (lf_listener l) (lf_pending l) (lf_active l) (lf_wg l) (lf_start l) (lf_close l) false).

Record life_ok (l : life) : Prop := {
  lk_wg : lf_wg l = zlen (lf_active l);
  lk_pending : (length (lf_pending l) ≤ 1)%nat ∧ (lf_start l = false → lf_pending l = []);
  lk_listener : lf_close l = NotCalled ↔ lf_listener l = true;
  lk_returned : lf_close l = Returned → (length (lf_pending l ++ lf_active l) ≤ 1)%nat;
  lk_start : lf_start l = false → lf_close l ≠ NotCalled;
  lk_dm : lf_dm l = false → lf_start l = false
}.

Lemma life_ok_step l l' : life_step l l' → life_ok l → life_ok l'.
Proof.
  intros Hs [Hwg [Hp Hps] Hl Hr Hst Hdm]. unfold zlen in *. destruct Hs as [c l Hli Hrun Hpe Hc|c l Hpe|c act1 act2 l Hact|l Hli Hrun Hpe|l Hcl|l Hcl H0|l Hrun Hd];
    split; cbn [lf_listener lf_pending lf_active lf_wg lf_start lf_close lf_dm]; unfold zlen; try done; rewrite ?Hpe, ?Hact, ?length_app in *; cbn [length app] in *; try naive_solver lia.
  - intros Hret. destruct Hl as [_ Hl]. rewrite Hl in Hret by done. done.
  - intros _ Hnc. destruct Hl as [Hl _]. rewrite Hl in Hli by done. done.
  - split; [done|]. intros Hli. destruct Hl as [_ Hl]. rewrite Hl in Hcl by done. done.
Qed.

Lemma life_ok_up : life_ok up.
Proof. split; try done. split; [cbn; lia|done]. Qed.

(** C40: Closing the server.  The counter of the connections is right at every
    moment and never negative, and when [Close] returns no connection is left
    but one, at most, that was accepted before and is counted only now.  But
    [openDB] waits for [Start] only, which ends with the listener: the data
    manager can be closed while connections are served, and executing
    statements, and [Close] still waits for them. *)
Theorem server_closing :
  (∀ l, rtc life_step up l → lf_wg l = zlen (lf_active l) ∧ 0 ≤ lf_wg l ∧ (lf_close l = Returned → (length (lf_pending l ++ lf_active l) ≤ 1)%nat) ∧
    (lf_dm l = false → lf_start l = false)) ∧
  ∃ l, rtc life_step up l ∧ lf_dm l = false ∧ lf_active l ≠ [] ∧ lf_close l = Waiting.
Proof.
  split.
  - intros l Hrun. assert (Hok : life_ok l) by (pose proof life_ok_up as H; revert H; induction Hrun; [done|eauto using life_ok_step]).
    destruct Hok as [Hwg _ _ Hr _ Hdm]. pose proof (zlen_nonneg (lf_active l)). split_and!; [done|lia|done|done].
  - eexists. split; [|split; [|split]].
    + eapply rtc_l; [apply (accept 1%nat); [done..|by apply not_elem_of_nil]|]. eapply rtc_l; [by eapply wg_Add|]. eapply rtc_l; [by apply close_listener|].
      eapply rtc_l; [by apply accept_fails|]. eapply rtc_l; [by apply dm_Close|]. apply rtc_refl.
    + done.
    + done.
    + done.
Qed.
End Life.
