(* ===== verification/Database.v ===== *)
(** The database as a whole: [createDB] and [openDB] of
    [backend/cmd/launcher.go] put the transaction manager, the data manager
    over its page cache and its log, the serializability manager and the
    manager of the tables together, and close them.

    The tables outlive the process: after an orderly end, and after a crash
    that no unfinished transaction is involved in - unless a [drop] that did not
    commit has written their records, which ends every later start. *)
From S2P Require Import Prelude.
From S2P Require Import Codec.
From S2P Require Import GoFile.
From S2P Require Import Tm.
From S2P Require Import LockTable.
From S2P Require Import DmI.
From S2P Require Import Logger.
From S2P Require Import Cacher.
From S2P Require Import Page.
From S2P Require Import Pcacher.
From S2P Require Import WalLog.
From S2P Require Import Recovery.
From S2P Require Import Restore.
From S2P Require Import DataMgr.
From S2P Require Import DataRep.
From S2P Require Import DmOpen.
From S2P Require Import Sm.
From S2P Require Import Parser.
From S2P Require Import Table.
From S2P Require Import TableRep.
From S2P Require Import TableOps.
From S2P Require Import Booter.
From S2P Require Import TableMgr.
From S2P Require Import Catalog.
From S2P Require Import Launcher.
Local Open Scope Z_scope.

(** What [os.OpenFile] gives for the three files, and the directory with the
    boot file. *)
Record files := mkFiles { fl_xid : outcome file; fl_db : outcome file; fl_log : outcome file; fl_boot : fs }.

Notation DB := (tableManager transactionManager (dataManager logger) booter).

(** The state of a run that succeeds. *)
Definition final {S A} (r : S * outcome A) : outcome S := let '(s, o) := r in _ ← o; Ret s.

(** [utils.Fatal] on an error. *)
Definition fatal {A} (o : outcome A) : outcome A := match o with Err _ => Panic | _ => o end.

Section Launcher.
(** The path of the files; the bound of the list of the tables; the fuel and
    the orders of the recovery; the random bytes; the order in which the page
    cache is emptied. *)
Context (prefix : string) (n fuel : nat) (order : gmap XID (list (list byte)) → list XID) (rnd : nat → Z) (corder : list UUID).

Definition on_dm {A} (m : M (dataManager logger) A) : M DB A := on_SM (on_DM m).
Definition on_tm {A} (m : M transactionManager A) : M DB A := on_SM (on_TM m).

(** The errors of closing are only printed. *)
Definition dm_close : M DB unit := catch (on_dm (DataMgr.Close Logger.Close corder)) mret (λ _, mret tt).
Definition tm_close : M DB unit := catch (on_tm Tm.Close) mret (λ _, mret tt).

(** [openDB] up to the server.  [tm0] is what [tm.Open] returned; its error is
    dropped. *)
Definition openDB (tm0 : transactionManager) (mem : Z) (f : files) : outcome DB :=
  dm0 ← fatal (DataMgr.Open fuel order rnd (Pcacher.Open (fl_db f) mem) (Logger.Open (fl_log f)) tm0);
  let sm0 := NewSerializabilityManager dm0.1 dm0.2 in
  booter ← with_booter prefix (Booter.Open prefix) (fl_boot f);
  final (tbm_OpenManager n sm0 booter).

(** The rest of [openDB], when [Start] has returned. *)
Definition closeDB : M DB unit := _ ← dm_close; tm_close.

(** [mkdir]: the result of [os.MkdirAll]. *)
Definition createDB (mkdir : outcome unit) (tm0 : transactionManager) (f : files) : outcome DB :=
  _ ← fatal mkdir;
  dm ← fatal (DataMgr.Create rnd (Pcacher.Create (fl_db f) Mem.defaultMem) (Logger.Create (fl_log f)));
  let sm := NewSerializabilityManager tm0 dm in
  booter ← with_booter prefix (Booter.Create prefix) (fl_boot f);
  tbm ← final (tbm_CreateManager n sm booter);
  final ((_ ← tm_close; dm_close) tbm).

(** The files when the process has ended. *)
Definition left_by (m : DB) : files :=
  mkFiles (Ret (file_of (f_data (tm_file (sm_TM (tbm_SM m)))))) (Ret (file_of (f_data (pc_file (dm_pc (sm_DM (tbm_SM m)))))))
    (Ret (file_of (f_data (lg_file (dm_lg (sm_DM (tbm_SM m))))))) (bt_fs (tbm_booter m)).
End Launcher.

(** * The parts of a restart *)

Lemma Tm_reopen t sts : tm_repr t sts →
  ∃ t1 t2, Tm.Close t = (t1, Ret tt) ∧ f_data (tm_file t1) = f_data (tm_file t) ∧ Tm.Open (Ret (file_of (f_data (tm_file t)))) = Ret t2 ∧ tm_repr t2 sts.
Proof.
  intros (Hh & Hl & _ & Hd). destruct (newTransactionManager_repr sts Hl) as (t2 & Hopen & Hr). eexists _, t2.
  split; [unfold Tm.Close, on_file, zoom, file_Close; by rewrite (proj1 Hh)|]. split; [done|]. split; [by rewrite Hd|done].
Qed.


Lemma Logger_Close_run lg ds : log_rep lg ds → ∃ lg', Logger.Close lg = (lg', Ret tt) ∧ f_data (lg_file lg') = log_image ds.
Proof. intros (Hh & Hd & _). eexists. split; [unfold Logger.Close, on_lfile, zoom, file_Close; by rewrite (proj1 Hh)|exact Hd]. Qed.

Lemma explained_log (d : dataManager logger) ops items : explained d ops items →
  log_rep (dm_lg d) (wal_bytes <$> ops) ∧ Forall loggable (wal_bytes <$> ops).
Proof. intros (st & (pages & (l1 & _ & Hrep) & Hh) & _). split; [apply Hrep|by eapply history_loggable]. Qed.

Lemma on_dm_run {A} (f : M (dataManager logger) A) (m : DB) d a : f (sm_DM (tbm_SM m)) = (d, Ret a) → on_dm f m = (set_SM (set_DM d (tbm_SM m)) m, Ret a).
Proof. intros Hf. apply on_SM_run, on_DM_run, Hf. Qed.

Lemma on_tm_run {A} (f : M transactionManager A) (m : DB) t a : f (sm_TM (tbm_SM m)) = (t, Ret a) → on_tm f m = (set_SM (set_TM t (tbm_SM m)) m, Ret a).
Proof. intros Hf. apply on_SM_run. unfold on_TM, zoom. by rewrite Hf. Qed.

Section Restart.
Context (prefix : string) (n fuel : nat) (order : gmap XID (list (list byte)) → list XID) (rnd : nat → Z) (corder : list UUID).
(** The transactions that write. *)
Context (W : XID → Prop) (W_super : W SUPER_XID).
#[local] Instance data_by : DataManagerOk (dataManager logger) := dataManager_by W W_super.
#[local] Instance boot_at : BooterOk booter := booter_at prefix.
Implicit Types (m : DB).

(** A database between two statements: the tables [Y], each with the transaction
    that wrote its record, and the states [sts] of the transactions.  Nothing is
    asked of the rows and the indexes. *)
Record running m (items : gmap UUID (list byte)) (Y : list (table * XID)) (sts : list status) : Prop := {
  run_dir : directory m items Y;
  run_tm : tm_repr (sm_TM (tbm_SM m)) sts;
  run_writers : Forall (λ y, y.2 ≤ zlen sts) Y
}.

(** The record of every table was written by the super transaction, as [create]
    does, or by one that has committed. *)
Definition record_committed (sts : list status) (xid : XID) : bool :=
  bool_decide (xid = SUPER_XID) || bool_decide (sts !! Z.to_nat (xid - 1) = Some Committed).
Definition records_committed (sts : list status) (Y : list (table * XID)) : bool := forallb (λ y, record_committed sts y.2) Y.

(** What a later process has: the same items, tables and states; where the rows
    and indexes were in order, they still are; no transaction is in progress. *)
Record restarted m m2 items Y sts : Prop := {
  re_running : running m2 items Y sts;
  re_tables : tbm_tc m2 = tbm_tc m;
  re_rows : ∀ X, catalog m items X → catalog m2 items X;
  re_sm : tbm_SM m2 = NewSerializabilityManager (sm_TM (tbm_SM m2)) (sm_DM (tbm_SM m2));
  re_room : noPages (dm_pc (sm_DM (tbm_SM m2))) ≤ noPages (dm_pc (sm_DM (tbm_SM m)))
}.

Lemma new_super_ok (t : transactionManager) (d : dataManager logger) : super_ok (NewSerializabilityManager t d).
Proof. eexists. apply new_super. Qed.

Lemma settled_committed (t : transactionManager) sts xid : tm_repr t sts → 0 ≤ xid ≤ zlen sts → settled t xid = record_committed sts xid.
Proof.
  intros Ht Hx. unfold settled, record_committed, SUPER_XID. destruct (decide (xid = 0)) as [->|Hs]; [done|]. f_equal. pose proof (proj1 (proj2 Ht)).
  by rewrite (tm_IsCommitted_ok (TransactionManagerOk := transactionManager_ok) t sts xid Ht) by lia.
Qed.

Lemma all_settled (t : transactionManager) m items Y sts : running m items Y sts → tm_repr t sts → forallb (λ y, settled t y.2) Y = records_committed sts Y.
Proof.
  intros [[_ Hl _ _ _] _ Hw] Ht. induction Hl as [|y Y [_ _ Hy] _ IH]; [done|]. apply Forall_cons in Hw as [Hyw Hw]. unfold is_u64 in Hy.
  cbn [forallb records_committed]. rewrite (settled_committed t sts y.2 Ht) by lia. by rewrite (IH Hw).
Qed.

(** From the managers on. *)
Lemma open_tables m items Y sts t2 d2 boot : running m items Y sts → tm_repr t2 sts → dm_rep d2 items → after_crash (bt_fs (tbm_booter m)) boot → (length Y ≤ n)%nat →
  noPages (dm_pc d2) ≤ noPages (dm_pc (sm_DM (tbm_SM m))) →
  let opened := b ← with_booter prefix (Booter.Open prefix) boot; final (tbm_OpenManager n (NewSerializabilityManager t2 d2) b) in
  if records_committed sts Y then ∃ m2, opened = Ret m2 ∧ restarted m m2 items Y sts else opened = Panic.
Proof.
  intros Hrun Ht2 Hd2 Hboot Hn Hno opened. pose proof Hrun as [[_ Hl (first & Hu & Hbr & Hch) Htc Hnd] Htm Hw]. pose proof Hbr as (Hp & Hb & Hsync).
  destruct (booter_Open_run _ _ _ Hb Hboot) as (b & Hopen & Hp' & Hb' & Hst). rewrite Hp in Hopen, Hp'.
  destruct (OpenManager_run n t2 d2 b items Y first Hd2 Hl Hnd Hu) as (m2 & Hgo & Hm2); [by split|done|done|]. cbv zeta in Hgo. rewrite (all_settled _ _ _ _ _ Hrun Ht2) in Hgo, Hm2.
  unfold opened. rewrite Hopen. cbn [mbind outcome_bind]. rewrite Hgo. destruct (records_committed sts Y); [|done]. rewrite (Hm2 eq_refl). eexists. split; [done|].
  assert (Hbt : ∀ raw, bt_rep (tbm_booter m) raw → bt_rep b raw).
  { intros raw Hraw. assert (raw = UUIDToRaw first) as ->; [|by split]. pose proof (bt_Load_ok _ _ Hraw) as H1.
    pose proof (bt_Load_ok _ _ Hbr) as H2. rewrite H1 in H2. by injection H2. }
  split; [split; [split; try done; by exists first|done|done]|by rewrite Htc| |done|exact Hno].
  intros X Hcat. apply (catalog_moved m); [done|done|by rewrite Htc|exact Hbt].
Qed.

(** Closing, in either order, and what is left. *)
Lemma close_run m items Y sts : running m items Y sts →
  ∃ m1 ops, closeDB corder m = (m1, Ret tt) ∧ final ((_ ← tm_close; dm_close corder) m) = Ret m1 ∧
    explained (sm_DM (tbm_SM m)) ops items ∧ (∀ op, op ∈ ops → W (wal_xid op)) ∧ tbm_booter m1 = tbm_booter m ∧
    fl_xid (left_by m1) = Ret (file_of (f_data (tm_file (sm_TM (tbm_SM m))))) ∧ fl_log (left_by m1) = Ret (file_of (log_image (wal_bytes <$> ops))) ∧
    ∀ t lg mem, lg_rep lg (wal_bytes <$> ops) → 10 * PAGE_SIZE ≤ mem < 2 ^ 32 * PAGE_SIZE →
      ∃ d2, DataMgr.Open fuel order rnd (Pcacher.Open (fl_db (left_by m1)) mem) (Ret lg) t = Ret (t : transactionManager, d2) ∧
        explained d2 ops items ∧ noPages (dm_pc d2) = noPages (dm_pc (sm_DM (tbm_SM m))).
Proof.
  intros [[(ops & He & Hw) _ _ _ _] Htm _]. destruct (explained_log _ _ _ He) as [Hlog _]. destruct (Logger_Close_run _ _ Hlog) as (lg' & Hlc & Hlf).
  destruct (restart_closed _ ops items Logger.Close lg' corder He Hlc) as (d1 & Hclose & Hlg & Hre). destruct (Tm_reopen _ _ Htm) as (t1 & _ & Htc & Htd & _).
  exists (set_SM (set_TM t1 (set_DM d1 (tbm_SM m))) m), ops.
  assert (Hdm : ∀ m0, sm_DM (tbm_SM m0) = sm_DM (tbm_SM m) → dm_close corder m0 = (set_SM (set_DM d1 (tbm_SM m0)) m0, Ret tt)).
  { intros m0 H0. unfold dm_close, catch. by rewrite (on_dm_run _ m0 d1 tt) by by rewrite H0. }
  assert (Htmc : ∀ m0, sm_TM (tbm_SM m0) = sm_TM (tbm_SM m) → tm_close m0 = (set_SM (set_TM t1 (tbm_SM m0)) m0, Ret tt)).
  { intros m0 H0. unfold tm_close, catch. by rewrite (on_tm_run _ m0 t1 tt) by by rewrite H0. }
  split; [unfold closeDB; rewrite (M_bind_run _ _ _ _ _ (Hdm m eq_refl)); by rewrite Htmc|].
  split; [rewrite (M_bind_run _ _ _ _ _ (Htmc m eq_refl)); by rewrite Hdm|].
  split; [exact He|]. split; [exact Hw|]. split; [done|]. split; [cbn; by rewrite Htd|]. split; [cbn; by rewrite Hlg, Hlf|].
  intros t lg mem Hl Hmem. exact (Hre _ _ t lg fuel order rnd mem Hl Hmem).
Qed.

Lemma booter_kept m items Y sts : running m items Y sts → after_crash (bt_fs (tbm_booter m)) (bt_fs (tbm_booter m)).
Proof. intros [[_ _ (first & _ & (_ & _ & Hst) & _) _ _] _ _]. split; [done|]. split; [exact Hst|]. intros h i Hi. by exists i. Qed.

Lemma restart_run m items Y sts mem : running m items Y sts → (length Y ≤ n)%nat → 10 * PAGE_SIZE ≤ mem < 2 ^ 32 * PAGE_SIZE →
  ∃ m1 tm2, closeDB corder m = (m1, Ret tt) ∧ final ((_ ← tm_close; dm_close corder) m) = Ret m1 ∧ Tm.Open (fl_xid (left_by m1)) = Ret tm2 ∧
    let opened := openDB prefix n fuel order rnd tm2 mem (left_by m1) in
    if records_committed sts Y then ∃ m2, opened = Ret m2 ∧ restarted m m2 items Y sts else opened = Panic.
Proof.
  intros Hrun Hn Hmem. destruct (close_run _ _ _ _ Hrun) as (m1 & ops & Hclose & Hclose' & He & Hw & Hbt & Hxid & Hlog & Hopen).
  destruct (explained_log _ _ _ He) as [_ Hl]. destruct (Open_image _ Hl) as (lg & Hlg & Hlr & _). destruct (Tm_reopen _ _ (run_tm _ _ _ _ Hrun)) as (_ & tm2 & _ & _ & Htm & Htm2).
  destruct (Hopen tm2 lg mem Hlr Hmem) as (d2 & Hdm & He2 & Hno). exists m1, tm2. split; [exact Hclose|]. split; [exact Hclose'|]. split; [by rewrite Hxid|]. cbv zeta.
  unfold openDB. rewrite Hlog, Hlg, Hdm. cbn [mbind outcome_bind fst snd]. change (fl_boot (left_by m1)) with (bt_fs (tbm_booter m1)). rewrite Hbt.
  apply (open_tables m items Y sts tm2 d2 (bt_fs (tbm_booter m)) Hrun Htm2); [by exists ops|by eapply booter_kept|done|lia].
Qed.

(** C2: The database outlives the process.  Take a database between two
    statements, with a readable data manager, transaction file and list of
    tables - their names differ, none has more than 255 columns -, whatever is in
    its rows and indexes.  All managers are closed, and a later process opens the
    files that are left, with memory for ten pages or more.  If the record of
    every table was written by the super transaction ([create] does that) or by
    a transaction that has committed, it finds the same items, the same tables
    and the same states of all transactions; rows and indexes that were in
    order ([catalog]) still are; no transaction is in progress, and there is as
    much room for new items.  If not - a [drop] that rewrote the list did not
    commit - the program ends with a panic. *)
Theorem database_survives_restart m items Y sts mem : running m items Y sts → (length Y ≤ n)%nat → 10 * PAGE_SIZE ≤ mem < 2 ^ 32 * PAGE_SIZE →
  ∃ m1 tm2, closeDB corder m = (m1, Ret tt) ∧ Tm.Open (fl_xid (left_by m1)) = Ret tm2 ∧
    let opened := openDB prefix n fuel order rnd tm2 mem (left_by m1) in
    if records_committed sts Y then ∃ m2, opened = Ret m2 ∧ restarted m m2 items Y sts else opened = Panic.
Proof.
  intros Hrun Hn Hmem. destruct (restart_run m items Y sts mem Hrun Hn Hmem) as (m1 & tm2 & Hclose & _ & Htm & Hopen). exists m1, tm2. by split_and!.
Qed.


(** ** Creating *)

Lemma createDB_run boot : fs_ok boot → fs_stop boot = None →
  ∃ tm0 m, Tm.Create (Ret (file_of [])) = Ret tm0 ∧ running m ∅ [] [] ∧ catalog m ∅ [] ∧ noPages (dm_pc (sm_DM (tbm_SM m))) = 1 ∧
    createDB prefix n rnd corder (Ret tt) tm0 (mkFiles (Ret (file_of [])) (Ret (file_of [])) (Ret (file_of [])) boot) = final ((_ ← tm_close; dm_close corder) m).
Proof.
  intros Hfs Hst. destruct Tm.Create_repr as (tm0 & Htm0 & Htm). destruct Logger.Create_run as (lg & Hlg & Hlr).
  destruct (newPcacher_run (file_of []) Mem.defaultMem []) as (p & Hp & Hpc & Hm & _); [done|done|done|done|rewrite PAGE_SIZE_eq; by vm_compute|].
  destruct (Create_dm rnd p lg Hpc) as (d & Hd & Hno & Hdl); [right; lia|exact Hlr|].
  destruct (booter_Create_run boot prefix Hfs Hst) as (b0 & Hb0 & Hp0 & Hok0 & Hn0 & Hs0).
  destruct (Update_created b0 (UUIDToRaw NilUUID) Hok0 Hn0 Hs0) as (b & Hup & Hpb & Hb & Hsb). rewrite Hp0 in Hpb.
  assert (Hrep : dm_rep d ∅).
  { exists []. split; [|by intros ? ?%elem_of_nil]. by apply logged_nil. }
  destruct (OpenManager_run n tm0 d b ∅ [] NilUUID Hrep) as (m & Hrun & Hm0); [constructor|constructor|by vm_compute|by split_and!|done|cbn; lia|].
  specialize (Hm0 eq_refl). subst m. set (m := mkTBM (NewSerializabilityManager tm0 d) b ∅ ∅).
  assert (Hcat : catalog m ∅ []).
  { split; [exact Hrep|split; [split_and!; constructor|constructor]| |done|constructor]. exists NilUUID. by split_and!. }
  exists tm0, m. split; [exact Htm0|]. split; [split; [exact (catalog_directory _ _ _ Hcat)|exact Htm|constructor]|]. split; [exact Hcat|]. split; [exact Hno|].
  unfold createDB, fatal, Pcacher.Create. cbn [mbind outcome_bind fl_db fl_log fl_boot]. rewrite Hp. cbn [mbind outcome_bind]. rewrite Hlg, Hd. cbn [mbind outcome_bind].
  rewrite Hb0. cbn [mbind outcome_bind]. unfold tbm_CreateManager. change (bt_Update (UUIDToRaw NilUUID) b0) with (Update (UUIDToRaw NilUUID) b0). rewrite Hup.
  unfold tbm_OpenManager in Hrun. cbn [forallb] in Hrun. rewrite Hrun. done.
Qed.

(** C25: A database that is created can be opened: [createDB] in a directory makes
    the four files, closes them, and [openDB] finds a database without tables,
    items and transactions, in one page. *)
Theorem create_then_open boot mem : fs_ok boot → fs_stop boot = None → 10 * PAGE_SIZE ≤ mem < 2 ^ 32 * PAGE_SIZE →
  ∃ tm0 m1 tm2 m2, Tm.Create (Ret (file_of [])) = Ret tm0 ∧
    createDB prefix n rnd corder (Ret tt) tm0 (mkFiles (Ret (file_of [])) (Ret (file_of [])) (Ret (file_of [])) boot) = Ret m1 ∧
    Tm.Open (fl_xid (left_by m1)) = Ret tm2 ∧ openDB prefix n fuel order rnd tm2 mem (left_by m1) = Ret m2 ∧
    running m2 ∅ [] [] ∧ catalog m2 ∅ [] ∧ tbm_tc m2 = ∅ ∧ super_ok (tbm_SM m2) ∧ noPages (dm_pc (sm_DM (tbm_SM m2))) ≤ 1.
Proof.
  intros Hfs Hst Hmem. destruct (createDB_run boot Hfs Hst) as (tm0 & m & Htm0 & Hrun & Hcat & Hno & Hcreate).
  destruct (restart_run m ∅ [] [] mem Hrun) as (m1 & tm2 & _ & Hclose & Htm2 & m2 & Hopen & [Hr2 Htc Hrows Hsm Hroom]); [cbn; lia|exact Hmem|].
  exists tm0, m1, tm2, m2. split; [exact Htm0|]. split; [by rewrite Hcreate|]. split; [exact Htm2|]. split; [exact Hopen|].
  split; [exact Hr2|]. split; [by apply Hrows|]. split; [by rewrite Htc, (cat_tc _ _ _ Hcat)|]. split; [rewrite Hsm; apply new_super_ok|by rewrite Hno in Hroom].
Qed.
End Restart.

(** * On concrete inputs *)

(** Nothing in the directory; only the super transaction writes. *)
Definition empty_fs : fs := mkFs ∅ ∅ None.
Definition only_super (xid : XID) : Prop := xid = SUPER_XID.
Definition any_order (m : gmap XID (list (list byte))) : list XID := (map_to_list m).*1.

Lemma empty_fs_ok : fs_ok empty_fs.
Proof. split; [intros ? ? ?|intros ? ?]; cbn; by rewrite lookup_empty. Qed.

Lemma mem_ok : 10 * PAGE_SIZE ≤ 64 * Mem._MB < 2 ^ 32 * PAGE_SIZE.
Proof. rewrite PAGE_SIZE_eq. by vm_compute. Qed.

Lemma create_then_open_witness : ∃ tm0 (m1 : DB) tm2 (m2 : DB), Tm.Create (Ret (file_of [])) = Ret tm0 ∧
  createDB "db" 1 (λ _, 5) [] (Ret tt) tm0 (mkFiles (Ret (file_of [])) (Ret (file_of [])) (Ret (file_of [])) empty_fs) = Ret m1 ∧
  openDB "db" 1 10 any_order (λ _, 5) tm2 (64 * Mem._MB) (left_by m1) = Ret m2 ∧ tbm_tc m2 = ∅.
Proof.
  destruct (create_then_open "db" 1 10 any_order (λ _, 5) [] only_super eq_refl empty_fs (64 * Mem._MB) empty_fs_ok eq_refl mem_ok)
    as (tm0 & m1 & tm2 & m2 & Htm0 & Hcreate & _ & Hopen & _ & _ & Htc & _).
  exists tm0, m1, tm2, m2. by split_and!.
Defined.

(** A new database with the table of [Catalog.sample_create]. *)
Definition data_by_super : DataManagerOk (dataManager logger) := data_by only_super eq_refl.
Definition boot_of_db : BooterOk booter := boot_at "db".
Notation catalog_of := (catalog (DataManagerOk0 := data_by_super) (BooterOk0 := boot_of_db)).

Lemma sample_database : ∃ (m : DB) items x, running "db" only_super eq_refl m items [recorded x] [] ∧ catalog_of m items [x] ∧ ts_name x = "t"%string ∧
  ts_xmin x = SUPER_XID ∧ noPages (dm_pc (sm_DM (tbm_SM m))) < 2 ^ 32 - 1.
Proof.
  destruct (createDB_run "db" 1 (λ _, 5) [] only_super eq_refl empty_fs empty_fs_ok eq_refl) as (tm0 & m0 & _ & Hrun0 & Hcat0 & Hno & _).
  destruct (restart_run "db" 1 10 any_order (λ _, 5) [] only_super eq_refl m0 ∅ [] [] (64 * Mem._MB) Hrun0 ltac:(cbn; lia) mem_ok)
    as (_ & _ & _ & _ & _ & m1 & _ & [[_ Htm _] _ Hrows Hsm Hroom]). pose proof (Hrows [] Hcat0) as Hcat.
  destruct (tbm_Create_run m1 ∅ [] 5 sample_create 2 Hcat) as (m & items & x & d & _ & Hcat' & Hsm' & Hroom' & (Hn & _) & _ & Hx);
    [rewrite Hsm; apply new_super_ok|apply sample_create_ok|by rewrite (cat_tc _ _ _ Hcat)|exists 20%nat; split; [cbn; lia|cbn; unfold room; lia]|].
  exists m, items, x. split; [|split; [exact Hcat'|split; [exact Hn|split; [exact Hx|]]]].
  - split; [exact (catalog_directory _ _ _ Hcat')|by rewrite Hsm'|]. apply Forall_singleton. cbn. by rewrite Hx.
  - rewrite Hsm'. destruct Hroom' as (k & Hk & Hr). cbn in *. unfold room in Hr. lia.
Qed.

Lemma database_survives_restart_witness : ∃ (m m1 m2 : DB) items tm2 x, ts_name x = "t"%string ∧ closeDB [] m = (m1, Ret tt) ∧
  openDB "db" 1 10 any_order (λ _, 5) tm2 (64 * Mem._MB) (left_by m1) = Ret m2 ∧ tbm_tc m2 = {["t"%string := ts_table x]} ∧
  catalog_of m items [x] ∧ catalog_of m2 items [x].
Proof.
  destruct sample_database as (m & items & x & Hrun & Hcat & Hn & Hx & _).
  destruct (database_survives_restart "db" 1 10 any_order (λ _, 5) [] only_super eq_refl m items [recorded x] [] (64 * Mem._MB) Hrun ltac:(cbn; lia) mem_ok)
    as (m1 & tm2 & Hclose & _ & Hopen). cbn [records_committed forallb recorded snd] in Hopen. rewrite Hx in Hopen. destruct Hopen as (m2 & Hopen & [_ Htc Hrows _ _]).
  exists m, m1, m2, items, tm2, x. split; [exact Hn|]. split; [exact Hclose|]. split; [exact Hopen|]. split; [|split; [exact Hcat|by apply Hrows]].
  rewrite Htc, (cat_tc _ _ _ Hcat). unfold tables_of. cbn. by rewrite Hn.
Defined.



